(** * MAG: a shallow embedding of the policy engine, the todo store, the
      message codec, the Gemini adapter, the command runner's safety net and
      the coordinator's execution paths, with the properties proved of them.

    The C++ sources are embedded as pure functions.  Byte strings
    ([std::string]) are [string]; [std::vector] is [list]; [std::map] is a
    key-sorted association list; the file system, the clock, the shell and
    the model client are explicit parameters of the functions that use them. *)

From Stdlib Require Import Bool Arith List ZArith NArith Lia Ascii String DecimalString
  Permutation.
From Stdlib Require DecimalFacts DecimalPos DecimalN.
Import ListNotations.

Local Open Scope list_scope.
Local Open Scope string_scope.

(* ================================================================== *)
(** * Part I.  The embedding                                            *)
(* ================================================================== *)

(** ** [std::string] operations used by the sources *)
Module StdString.

(** [s.find(pat) == 0] *)
Fixpoint starts_with (pat s : string) : bool :=
  match pat with
  | EmptyString => true
  | String a pat' =>
      match s with
      | EmptyString => false
      | String b s' => Ascii.eqb a b && starts_with pat' s'
      end
  end.

(** [s.find(pat)]: position of the first occurrence, [None] for [npos]. *)
Fixpoint find (pat s : string) : option nat :=
  if starts_with pat s then Some 0
  else match s with
       | EmptyString => None
       | String _ s' => option_map S (find pat s')
       end.

(** [s.find(pat) != npos] *)
Definition contains (pat s : string) : bool :=
  match find pat s with Some _ => true | None => false end.

(** [s.substr(pos)] for [pos <= s.size()] *)
Fixpoint drop (n : nat) (s : string) : string :=
  match n with
  | O => s
  | S n' => match s with EmptyString => EmptyString | String _ s' => drop n' s' end
  end.

(** [s.substr(0, n)] *)
Fixpoint take (n : nat) (s : string) : string :=
  match n with
  | O => EmptyString
  | S n' => match s with EmptyString => EmptyString | String c s' => String c (take n' s') end
  end.

(** [s.substr(pos, n)] for [pos <= s.size()] *)
Definition substr (pos n : nat) (s : string) : string := take n (drop pos s).

(** [s.find(pat, pos)] *)
Definition find_from (pat s : string) (pos : nat) : option nat :=
  if Nat.leb pos (String.length s)
  then option_map (fun i => pos + i) (find pat (drop pos s))
  else None.

(** The last position of the byte [c] in [s], counted from [i]. *)
Fixpoint last_index (c : ascii) (s : string) (i : nat) : option nat :=
  match s with
  | EmptyString => None
  | String b s' =>
      match last_index c s' (S i) with
      | Some j => Some j
      | None => if Ascii.eqb b c then Some i else None
      end
  end.

(** [s.rfind(c, pos)] *)
Definition rfind (c : ascii) (s : string) (pos : nat) : option nat :=
  last_index c (take (S pos) s) 0.

(** [s.find_first_of(set)]: the first position that holds a byte of [set]. *)
Fixpoint find_first_of (set s : string) : option nat :=
  match s with
  | EmptyString => None
  | String c s' =>
      if existsb (Ascii.eqb c) (list_ascii_of_string set) then Some 0
      else option_map S (find_first_of set s')
  end.

(** [s.find_first_not_of(set)] *)
Fixpoint find_first_not_of (set s : string) : option nat :=
  match s with
  | EmptyString => None
  | String c s' =>
      if existsb (Ascii.eqb c) (list_ascii_of_string set) then option_map S (find_first_not_of set s')
      else Some 0
  end.

(** [s.erase(pos, n)] *)
Definition erase (pos n : nat) (s : string) : string := take pos s ++ drop (pos + n) s.

(** [::tolower] in the C locale, on one byte. *)
Definition tolower (c : ascii) : ascii :=
  let n := nat_of_ascii c in
  if Nat.leb 65 n && Nat.leb n 90 then ascii_of_nat (n + 32) else c.

Definition toupper (c : ascii) : ascii :=
  let n := nat_of_ascii c in
  if Nat.leb 97 n && Nat.leb n 122 then ascii_of_nat (n - 32) else c.

(** [std::transform(s.begin(), s.end(), s.begin(), ::tolower)] *)
Fixpoint to_lower (s : string) : string :=
  match s with
  | EmptyString => EmptyString
  | String c s' => String (tolower c) (to_lower s')
  end.

(** [std::find(v.begin(), v.end(), x) != v.end()] on a vector of strings. *)
Fixpoint mem (x : string) (v : list string) : bool :=
  match v with
  | [] => false
  | y :: v' => String.eqb y x || mem x v'
  end.

(** The pieces of [s] between the occurrences of the byte [sep]
    (["a//b"] gives ["a"], the empty string and ["b"]). *)
Fixpoint split (sep : ascii) (s : string) : list string :=
  match s with
  | EmptyString => [EmptyString]
  | String c s' =>
      if Ascii.eqb c sep then EmptyString :: split sep s'
      else match split sep s' with
           | [] => [String c EmptyString]
           | w :: ws => String c w :: ws
           end
  end.

Fixpoint join (sep : string) (l : list string) : string :=
  match l with
  | [] => EmptyString
  | [w] => w
  | w :: l' => w ++ sep ++ join sep l'
  end.

End StdString.

(** ** [std::filesystem] as the policy engine uses it (POSIX paths) *)
Module Filesystem.
Import StdString.

(** What the process sees of the file system: its current directory and
    the outcome of [std::filesystem::canonical], which fails ([None]) on a
    path that does not exist. *)
Record FileSystem := {
  current_path : string;
  canonical : string -> option string
}.

Definition is_absolute (p : string) : bool := starts_with "/" p.

Definition ends_with_slash (p : string) : bool :=
  negb (String.eqb p EmptyString) && String.eqb (last (split "/" p) "/") EmptyString.

(** [a / b] for a relative [b] *)
Definition path_append (a b : string) : string :=
  if String.eqb a EmptyString then b
  else if ends_with_slash a then a ++ b
  else a ++ "/" ++ b.

(** [std::filesystem::absolute(p)]; the empty path is an error
    (libstdc++ raises [filesystem_error] for it). *)
Definition absolute (fs : FileSystem) (p : string) : option string :=
  if String.eqb p EmptyString then None
  else if is_absolute p then Some p
  else Some (path_append (current_path fs) p).

(** The component stack of [lexically_normal]: dot and empty components
    go, a dot-dot removes the component before it, and under a root
    directory a dot-dot with nothing before it goes too.  The stack is
    kept innermost-first. *)
Fixpoint normal_components (root : bool) (stack comps : list string) : list string :=
  match comps with
  | [] => stack
  | c :: comps' =>
      if String.eqb c EmptyString || String.eqb c "." then normal_components root stack comps'
      else if String.eqb c ".." then
        match stack with
        | top :: below =>
            if String.eqb top ".." then normal_components root (c :: stack) comps'
            else normal_components root below comps'
        | [] =>
            if root then normal_components root stack comps'
            else normal_components root (c :: stack) comps'
        end
      else normal_components root (c :: stack) comps'
  end.

(** [path::lexically_normal()] *)
Definition lexically_normal (p : string) : string :=
  if String.eqb p EmptyString then EmptyString
  else
    let root := is_absolute p in
    let comps := split "/" p in
    let stack := normal_components root [] comps in
    let lastc := last comps EmptyString in
    let dir_like := String.eqb lastc EmptyString || String.eqb lastc "." || String.eqb lastc ".." in
    let trailing :=
      match stack with
      | top :: _ => dir_like && negb (String.eqb top "..")
      | [] => false
      end in
    let body := join "/" (rev stack) in
    let r := (if root then "/" else EmptyString) ++ body ++ (if trailing then "/" else EmptyString) in
    if String.eqb r EmptyString then "." else r.

(** [path::filename()]: what follows the last slash. *)
Definition filename (p : string) : string := last (split "/" p) EmptyString.

(** The suffix of [s] that starts at its last period. *)
Fixpoint from_last_dot (s : string) : option string :=
  match s with
  | EmptyString => None
  | String c s' =>
      match from_last_dot s' with
      | Some r => Some r
      | None => if Ascii.eqb c "." then Some s else None
      end
  end.

(** [path::extension()]: from the last period of the file name on; dot
    and dot-dot have none, and a period that starts the file name does
    not count. *)
Definition extension (p : string) : string :=
  let f := filename p in
  if String.eqb f "." || String.eqb f ".." then EmptyString
  else match f with
       | EmptyString => EmptyString
       | String _ rest =>
           match from_last_dot rest with
           | Some r => r
           | None => EmptyString
           end
       end.

End Filesystem.

(** ** utils.cpp *)
Module Utils.
Import Filesystem.

(** [Utils::get_real_path]: the canonical path when the path exists,
    otherwise the absolute path with dot and dot-dot resolved lexically.
    [None] is the [filesystem_error] that leaves the handler. *)
Definition get_real_path (fs : FileSystem) (path : string) : option string :=
  match canonical fs path with
  | Some q => Some q
  | None => option_map lexically_normal (absolute fs path)
  end.

Definition get_current_working_directory (fs : FileSystem) : string := current_path fs.

End Utils.

(** ** [std::map<std::string, V>]: an association list kept sorted by key *)
Module StdMap.

Fixpoint find {V : Type} (k : string) (m : list (string * V)) : option V :=
  match m with
  | [] => None
  | (k', v) :: m' => if String.eqb k' k then Some v else find k m'
  end.

(** [m[k] = v] *)
Fixpoint insert {V : Type} (k : string) (v : V) (m : list (string * V)) : list (string * V) :=
  match m with
  | [] => [(k, v)]
  | (k', v') :: m' =>
      match String.compare k k' with
      | Lt => (k, v) :: m
      | Eq => (k, v) :: m'
      | Gt => (k', v') :: insert k v m'
      end
  end.

End StdMap.

(** ** policy_config.h, policy_config.cpp: the policy document *)
Module PolicyConfig.
Import StdString.

Inductive Operation := CREATE | READ | UPDATE | DELETE.

Record OperationPolicy := {
  allowed_directories : list string;
  confirmation_required : bool;
  allowed_commands : list string;
  blocked_commands : list string
}.

(** [OperationPolicy(dirs, confirm)] *)
Definition mkPolicy (dirs : list string) (confirm : bool) : OperationPolicy :=
  {| allowed_directories := dirs; confirmation_required := confirm;
     allowed_commands := []; blocked_commands := [] |}.

Record ToolPolicy := {
  create : OperationPolicy;
  read : OperationPolicy;
  update : OperationPolicy;
  delete_op : OperationPolicy
}.

Record GlobalPolicy := {
  blocked_extensions : list string;
  max_file_size_mb : N;
  auto_backup : bool
}.

Record PolicySettings := {
  global : GlobalPolicy;
  tools : list (string * ToolPolicy)
}.

(** [GlobalPolicy()] *)
Definition default_global : GlobalPolicy :=
  {| blocked_extensions := [".key"; ".pem"; ".env"; ".secret"; ".crt"];
     max_file_size_mb := 10;
     auto_backup := false |}.

Definition default_file_tool : ToolPolicy :=
  {| create := mkPolicy ["src/"; "tests/"; "docs/"] true;
     read := mkPolicy ["src/"; "tests/"; "docs/"] false;
     update := mkPolicy ["src/"; "tests/"] true;
     delete_op := mkPolicy [] true |}.

Definition default_todo_tool : ToolPolicy :=
  {| create := mkPolicy [] false;
     read := mkPolicy [] false;
     update := mkPolicy [] false;
     delete_op := mkPolicy [] true |}.

Definition default_bash_tool : ToolPolicy :=
  {| create :=
       {| allowed_directories := []; confirmation_required := true;
          allowed_commands :=
            ["make"; "cmake"; "gcc"; "g++"; "npm"; "cargo"; "python"; "python3";
             "pip"; "ls"; "pwd"; "find"; "grep"; "cat"; "head"; "tail"; "wc";
             "sort"; "uniq"; "awk"; "sed"; "git"];
          blocked_commands :=
            ["rm"; "rmdir"; "dd"; "mkfs"; "format"; "fdisk"; "mount"; "umount";
             "chmod 777"; "chown"; "su"; "sudo"; "passwd"; "systemctl";
             "shutdown"; "reboot"; "kill -9"; "curl"; "wget"; "nc"] |};
     read := mkPolicy [] false;
     update := mkPolicy [] true;
     delete_op := mkPolicy [] true |}.

(** [PolicySettings::PolicySettings()] *)
Definition default_settings : PolicySettings :=
  {| global := default_global;
     tools :=
       StdMap.insert "bash_tool" default_bash_tool
         (StdMap.insert "todo_tool" default_todo_tool
            (StdMap.insert "file_tool" default_file_tool [])) |}.

(** The outcome of [validate]: [Invalid m] is [false] with [error_message = m]. *)
Inductive Validation := Valid | Invalid (error_message : string).

Definition N_to_string (n : N) : string := NilEmpty.string_of_uint (N.to_uint n).

Fixpoint validate_extensions (exts : list string) : Validation :=
  match exts with
  | [] => Valid
  | ext :: exts' =>
      match ext with
      | EmptyString => Invalid "Empty extension in global.blocked_extensions"
      | String c _ =>
          if Ascii.eqb c "." then validate_extensions exts'
          else Invalid ("Extension '" ++ ext ++ "' must start with '.' in global.blocked_extensions")
      end
  end.

Definition last_char (s : string) : option ascii :=
  match String.length s with
  | O => None
  | S n => String.get n s
  end.

Fixpoint validate_directories (tool_name op_name : string) (dirs : list string) : Validation :=
  match dirs with
  | [] => Valid
  | dir :: dirs' =>
      if String.eqb dir EmptyString then validate_directories tool_name op_name dirs'
      else if negb (match last_char dir with Some c => Ascii.eqb c "/" | None => false end) then
        Invalid ("Directory '" ++ dir ++ "' in " ++ tool_name ++ "." ++ op_name ++ " must end with '/'")
      else if contains ".." dir then
        Invalid ("Directory '" ++ dir ++ "' in " ++ tool_name ++ "." ++ op_name
                 ++ " contains invalid path traversal sequence '..'")
      else validate_directories tool_name op_name dirs'
  end.

Fixpoint validate_ops (tool_name : string) (ops : list (string * OperationPolicy)) : Validation :=
  match ops with
  | [] => Valid
  | (op_name, op_policy) :: ops' =>
      match validate_directories tool_name op_name (allowed_directories op_policy) with
      | Valid => validate_ops tool_name ops'
      | Invalid m => Invalid m
      end
  end.

Fixpoint validate_tools (ts : list (string * ToolPolicy)) : Validation :=
  match ts with
  | [] => Valid
  | (tool_name, tool_policy) :: ts' =>
      if String.eqb tool_name EmptyString then Invalid "Empty tool name in tools"
      else
        match validate_ops tool_name
                [("create", create tool_policy); ("read", read tool_policy);
                 ("update", update tool_policy); ("delete", delete_op tool_policy)] with
        | Valid => validate_tools ts'
        | Invalid m => Invalid m
        end
  end.

(** [PolicySettings::validate] *)
Definition validate (s : PolicySettings) : Validation :=
  match validate_extensions (blocked_extensions (global s)) with
  | Invalid m => Invalid m
  | Valid =>
      if N.eqb (max_file_size_mb (global s)) 0 || N.ltb 1000 (max_file_size_mb (global s)) then
        Invalid ("global.max_file_size_mb must be between 1 and 1000, got "
                 ++ N_to_string (max_file_size_mb (global s)))
      else validate_tools (tools s)
  end.

(** [PolicySettings::get_operation_policy] *)
Definition get_operation_policy (s : PolicySettings) (tool : string) (op : Operation)
  : option OperationPolicy :=
  match StdMap.find tool (tools s) with
  | None => None
  | Some tool_policy =>
      Some match op with
           | CREATE => create tool_policy
           | READ => read tool_policy
           | UPDATE => update tool_policy
           | DELETE => delete_op tool_policy
           end
  end.

(** The loop of [is_operation_allowed] over the allowed directories. *)
Fixpoint matches_allowed_directory (dirs : list string) (path : string) : bool :=
  match dirs with
  | [] => false
  | allowed_dir :: dirs' =>
      if String.eqb allowed_dir EmptyString then true
      else if starts_with allowed_dir path then true
      else matches_allowed_directory dirs' path
  end.

(** [PolicySettings::is_operation_allowed] *)
Definition is_operation_allowed (s : PolicySettings) (tool : string) (op : Operation)
    (path : string) : bool :=
  match get_operation_policy s tool op with
  | None => false
  | Some policy =>
      match allowed_directories policy with
      | [] => false
      | dirs => matches_allowed_directory dirs path
      end
  end.

End PolicyConfig.

(** ** policy.cpp: the policy engine *)
Module PolicyChecker.
Import StdString Filesystem PolicyConfig.

(** [PolicyChecker::is_within_cwd]; [None] when resolving the path raises. *)
Definition is_within_cwd (fs : FileSystem) (path : string) : option bool :=
  match Utils.get_real_path fs path with
  | None => None
  | Some real_path =>
      match Utils.get_real_path fs (Utils.get_current_working_directory fs) with
      | None => None
      | Some safe_cwd => Some (starts_with safe_cwd real_path)
      end
  end.

(** [PolicyChecker::is_extension_blocked] *)
Definition is_extension_blocked (s : PolicySettings) (path : string) : bool :=
  let ext := extension path in
  if String.eqb ext EmptyString then false
  else mem ext (blocked_extensions (global s)).

(** [PolicyChecker::is_allowed(tool, operation, path)] *)
Definition is_allowed (fs : FileSystem) (s : PolicySettings) (tool : string)
    (operation : Operation) (path : string) : option bool :=
  match is_within_cwd fs path with
  | None => None
  | Some false => Some false
  | Some true =>
      if is_extension_blocked s path then Some false
      else Some (is_operation_allowed s tool operation path)
  end.

(** [PolicyChecker::is_allowed(path)], the legacy overload. *)
Definition is_allowed_path (fs : FileSystem) (s : PolicySettings) (path : string) : option bool :=
  is_allowed fs s "file_tool" READ path.

(** [PolicyChecker::is_file_size_allowed]; the product is computed in
    [size_t] (64 bits). *)
Definition is_file_size_allowed (s : PolicySettings) (size_bytes : N) : bool :=
  let max_bytes := ((max_file_size_mb (global s) * 1024 * 1024) mod 2 ^ 64)%N in
  N.leb size_bytes max_bytes.

(** [PolicyChecker::has_allowed_prefix(tool, operation, path)] *)
Definition has_allowed_prefix (s : PolicySettings) (tool : string) (operation : Operation)
    (path : string) : bool :=
  is_operation_allowed s tool operation path.

(** The operation a name stands for in [get_allowed_directories]. *)
Definition operation_of_string (operation : string) : option Operation :=
  if String.eqb operation "create" then Some CREATE
  else if String.eqb operation "read" then Some READ
  else if String.eqb operation "update" then Some UPDATE
  else if String.eqb operation "delete" then Some DELETE
  else None.

(** [PolicyChecker::get_allowed_directories] *)
Definition get_allowed_directories (s : PolicySettings) (tool operation : string)
  : list string :=
  match operation_of_string operation with
  | None => []
  | Some op =>
      match StdMap.find tool (tools s) with
      | None => []
      | Some tool_policy =>
          match op with
          | CREATE => allowed_directories (create tool_policy)
          | READ => allowed_directories (read tool_policy)
          | UPDATE => allowed_directories (update tool_policy)
          | DELETE => allowed_directories (delete_op tool_policy)
          end
      end
  end.

(** The loop of [is_bash_command_blocked] over the blocked commands. *)
Fixpoint contains_blocked (blocked : list string) (command : string) : bool :=
  match blocked with
  | [] => false
  | blocked_cmd :: blocked' =>
      if contains blocked_cmd command then true else contains_blocked blocked' command
  end.

(** [PolicyChecker::is_bash_command_blocked] *)
Definition is_bash_command_blocked (s : PolicySettings) (command : string) : bool :=
  match StdMap.find "bash_tool" (tools s) with
  | None => true
  | Some bash_tool => contains_blocked (blocked_commands (create bash_tool)) command
  end.

(** The base command of [is_bash_command_allowed]: what precedes the
    first space, the whole command when it has none. *)
Definition base_command (command : string) : string :=
  match find " " command with
  | Some space_pos => substr 0 space_pos command
  | None => command
  end.

(** [PolicyChecker::is_bash_command_allowed] *)
Definition is_bash_command_allowed (s : PolicySettings) (command : string) : bool :=
  if is_bash_command_blocked s command then false
  else
    match StdMap.find "bash_tool" (tools s) with
    | None => false
    | Some bash_tool =>
        let bash_policy := create bash_tool in
        match allowed_commands bash_policy with
        | [] => true
        | allowed => mem (base_command command) allowed
        end
    end.

(** [PolicyChecker::get_bash_command_violation_reason] *)
Definition get_bash_command_violation_reason (s : PolicySettings) (command : string) : string :=
  if is_bash_command_blocked s command then "Command contains blocked operation"
  else if negb (is_bash_command_allowed s command) then "Command not in allowed list"
  else EmptyString.

End PolicyChecker.

(** ** todo_manager.h, todo_manager.cpp: the todo store *)
Module TodoManager.

Inductive TodoStatus := PENDING | IN_PROGRESS | COMPLETED.

Definition status_eqb (a b : TodoStatus) : bool :=
  match a, b with
  | PENDING, PENDING | IN_PROGRESS, IN_PROGRESS | COMPLETED, COMPLETED => true
  | _, _ => false
  end.

(** Time points of [std::chrono::system_clock] are integers (ticks). *)
Record TodoItem := {
  id : Z;
  title : string;
  description : string;
  status : TodoStatus;
  created_at : Z;
  updated_at : Z
}.

Record t := {
  todos_ : list TodoItem;
  next_id_ : Z
}.

(** [TodoManager::TodoManager()] *)
Definition init : t := {| todos_ := []; next_id_ := 1 |}.

(** The value of [z] in an [int] (32 bits, two's complement). *)
Definition to_int (z : Z) : Z := (z + 2147483648) mod 4294967296 - 2147483648.

(** [add_todo]; [None] is the [std::invalid_argument] for an empty title.
    [now] is the reading of the clock.  The counter is an [int] and
    [next_id_++] takes it past [INT_MAX]: the standard leaves that
    overflow undefined, the model wraps around to [INT_MIN] as the
    compiled code does. *)
Definition add_todo (now : Z) (m : t) (title description : string) : option (Z * t) :=
  if String.eqb title EmptyString then None
  else
    let item := {| id := next_id_ m; title := title; description := description;
                   status := PENDING; created_at := now; updated_at := now |} in
    Some (id item, {| todos_ := (todos_ m ++ [item])%list;
                      next_id_ := to_int (next_id_ m + 1) |}).

(** [find_todo]: the first item with the id. *)
Fixpoint find_todo (l : list TodoItem) (i : Z) : option TodoItem :=
  match l with
  | [] => None
  | item :: l' => if Z.eqb (id item) i then Some item else find_todo l' i
  end.

(** Writes through the iterator [find_todo] returned. *)
Fixpoint replace_todo (l : list TodoItem) (i : Z) (new : TodoItem) : list TodoItem :=
  match l with
  | [] => []
  | item :: l' => if Z.eqb (id item) i then new :: l' else item :: replace_todo l' i new
  end.

Definition set_title (it : TodoItem) (x : string) : TodoItem :=
  {| id := id it; title := x; description := description it; status := status it;
     created_at := created_at it; updated_at := updated_at it |}.
Definition set_description (it : TodoItem) (x : string) : TodoItem :=
  {| id := id it; title := title it; description := x; status := status it;
     created_at := created_at it; updated_at := updated_at it |}.
Definition set_status (it : TodoItem) (x : TodoStatus) : TodoItem :=
  {| id := id it; title := title it; description := description it; status := x;
     created_at := created_at it; updated_at := updated_at it |}.
Definition set_updated_at (it : TodoItem) (x : Z) : TodoItem :=
  {| id := id it; title := title it; description := description it; status := status it;
     created_at := created_at it; updated_at := x |}.

(** [update_todo]: a null pointer argument is [None]. *)
Definition update_todo (now : Z) (m : t) (i : Z) (new_title new_description : option string)
    (new_status : option TodoStatus) : bool * t :=
  match find_todo (todos_ m) i with
  | None => (false, m)
  | Some it =>
      let '(it1, u1) :=
        match new_title with
        | Some x => if negb (String.eqb x EmptyString) && negb (String.eqb (title it) x)
                    then (set_title it x, true) else (it, false)
        | None => (it, false)
        end in
      let '(it2, u2) :=
        match new_description with
        | Some x => if negb (String.eqb (description it1) x)
                    then (set_description it1 x, true) else (it1, u1)
        | None => (it1, u1)
        end in
      let '(it3, u3) :=
        match new_status with
        | Some x => if negb (status_eqb (status it2) x)
                    then (set_status it2 x, true) else (it2, u2)
        | None => (it2, u2)
        end in
      if u3
      then (true, {| todos_ := replace_todo (todos_ m) i (set_updated_at it3 now);
                     next_id_ := next_id_ m |})
      else (false, m)
  end.

Definition mark_in_progress (now : Z) (m : t) (i : Z) : bool * t :=
  update_todo now m i None None (Some IN_PROGRESS).
Definition mark_completed (now : Z) (m : t) (i : Z) : bool * t :=
  update_todo now m i None None (Some COMPLETED).
Definition mark_pending (now : Z) (m : t) (i : Z) : bool * t :=
  update_todo now m i None None (Some PENDING).

Definition get_todo (m : t) (i : Z) : option TodoItem := find_todo (todos_ m) i.

(** [list_todos] *)
Definition list_todos (m : t) (show_completed : bool) : list TodoItem :=
  if show_completed then todos_ m
  else filter (fun item => negb (status_eqb (status item) COMPLETED)) (todos_ m).

(** [todos_.erase(it)] for the iterator [find_todo] returned. *)
Fixpoint erase_todo (l : list TodoItem) (i : Z) : list TodoItem :=
  match l with
  | [] => []
  | item :: l' => if Z.eqb (id item) i then l' else item :: erase_todo l' i
  end.

(** [delete_todo] *)
Definition delete_todo (m : t) (i : Z) : bool * t :=
  match find_todo (todos_ m) i with
  | None => (false, m)
  | Some _ => (true, {| todos_ := erase_todo (todos_ m) i; next_id_ := next_id_ m |})
  end.

(** [clear_todos]: the counter is not reset. *)
Definition clear_todos (m : t) : t := {| todos_ := []; next_id_ := next_id_ m |}.

(** [get_completed_todos] *)
Definition get_completed_todos (m : t) : list TodoItem :=
  filter (fun item => status_eqb (status item) COMPLETED) (todos_ m).

Definition is_empty (m : t) : bool :=
  match todos_ m with [] => true | _ :: _ => false end.

Definition count (m : t) : nat := List.length (todos_ m).

(** [count_pending] *)
Definition count_pending (m : t) : nat :=
  List.length (filter (fun item => status_eqb (status item) PENDING) (todos_ m)).

(** [status_to_string] *)
Definition status_to_string (s : TodoStatus) : string :=
  match s with
  | PENDING => "pending"
  | IN_PROGRESS => "in_progress"
  | COMPLETED => "completed"
  end.

(** [string_to_status]; [None] is [std::invalid_argument]. *)
Definition string_to_status (status_str : string) : option TodoStatus :=
  if String.eqb status_str "pending" then Some PENDING
  else if String.eqb status_str "in_progress" then Some IN_PROGRESS
  else if String.eqb status_str "completed" then Some COMPLETED
  else None.

(** [get_pending_todos] *)
Definition get_pending_todos (m : t) : list TodoItem :=
  filter (fun item => status_eqb (status item) PENDING) (todos_ m).

(** [get_next_pending] *)
Definition get_next_pending (m : t) : option TodoItem :=
  List.find (fun item => status_eqb (status item) PENDING) (todos_ m).

(** [x] goes before the first item that was not created before it. *)
Fixpoint insert_by_creation (x : TodoItem) (l : list TodoItem) : list TodoItem :=
  match l with
  | [] => [x]
  | y :: l' => if Z.ltb (created_at y) (created_at x) then y :: insert_by_creation x l'
               else x :: l
  end.

(** [std::sort] by [created_at].  The standard leaves the relative order of
    items created at the same tick open; the model keeps them in the order
    of the store, as the insertion sort does that the library runs on
    vectors of up to 16 items. *)
Definition sort_by_creation (l : list TodoItem) : list TodoItem :=
  fold_right insert_by_creation [] l.

(** [get_execution_queue] *)
Definition get_execution_queue (m : t) : list TodoItem :=
  sort_by_creation (get_pending_todos m).

(** The loop of [get_todos_until]. *)
Fixpoint until_loop (pending : list TodoItem) (stop_id : Z) : list TodoItem :=
  match pending with
  | [] => []
  | todo :: pending' =>
      if Z.eqb (id todo) stop_id then [] else todo :: until_loop pending' stop_id
  end.

Definition get_todos_until (m : t) (stop_id : Z) : list TodoItem :=
  until_loop (get_execution_queue m) stop_id.

(** The loop of [get_todos_range]; [found_start] is the flag of the
    source, the result is what [push_back] collects. *)
Fixpoint range_loop (pending : list TodoItem) (start_id end_id : Z) (found_start : bool)
  : list TodoItem :=
  match pending with
  | [] => []
  | todo :: pending' =>
      let found_start := if Z.eqb (id todo) start_id then true else found_start in
      if found_start then
        if Z.eqb (id todo) end_id then [todo]
        else todo :: range_loop pending' start_id end_id found_start
      else range_loop pending' start_id end_id found_start
  end.

Definition get_todos_range (m : t) (start_id end_id : Z) : list TodoItem :=
  range_loop (get_execution_queue m) start_id end_id false.

End TodoManager.

(** ** nlohmann::json, the JSON library the sources serialise with

    The library is not part of the repository; the model follows its
    documented behaviour: values, [parse] (RFC 8259 grammar, strict UTF-8,
    a later duplicate key replaces an earlier one) and [dump()] (compact
    output, keys in map order, strict UTF-8). *)
Module Json.
Import StdString.
Local Open Scope N_scope.

#[warnings="-register-all"]
Inductive json :=
| JNull
| JBool (b : bool)
| JUnsigned (n : N)          (* number_unsigned *)
| JInteger (z : Z)           (* number_integer *)
| JFloat (lexeme : string)   (* number_float, kept as its literal *)
| JString (s : string)
| JArray (l : list json)
| JObject (m : list (string * json)).

Definition byte (c : ascii) : N := N_of_ascii c.

(** The double quote. *)
Definition dquote : ascii := "034"%char.

Definition in_range (lo hi : N) (c : ascii) : bool :=
  N.leb lo (byte c) && N.leb (byte c) hi.

(** *** UTF-8 *)

(** For the first byte of a multi-byte sequence: how many bytes follow,
    and the range of the first of them (the others are in 80..BF). *)
Definition utf8_lead (c : ascii) : option (nat * N * N) :=
  let b := byte c in
  if in_range 194 223 c then Some (1%nat, 128, 191)%N
  else if N.eqb b 224 then Some (2%nat, 160, 191)%N
  else if in_range 225 236 c then Some (2%nat, 128, 191)%N
  else if N.eqb b 237 then Some (2%nat, 128, 159)%N
  else if in_range 238 239 c then Some (2%nat, 128, 191)%N
  else if N.eqb b 240 then Some (3%nat, 144, 191)%N
  else if in_range 241 243 c then Some (3%nat, 128, 191)%N
  else if N.eqb b 244 then Some (3%nat, 128, 143)%N
  else None.

(** Where a scanner is inside a UTF-8 sequence. *)
Inductive utf8_state :=
| UAccept
| UCont (more : nat) (lo hi : N).

(** After a continuation byte. *)
Definition utf8_next (more : nat) : utf8_state :=
  match more with
  | S (S m) => UCont (S m) 128 191
  | _ => UAccept
  end.

Definition char_of (n : N) : ascii := ascii_of_N n.

(** The UTF-8 encoding of a code point. *)
Definition utf8_encode (cp : N) : string :=
  if N.ltb cp 128 then String (char_of cp) EmptyString
  else if N.ltb cp 2048 then
    String (char_of (192 + N.shiftr cp 6))
      (String (char_of (128 + N.land cp 63)) EmptyString)
  else if N.ltb cp 65536 then
    String (char_of (224 + N.shiftr cp 12))
      (String (char_of (128 + N.land (N.shiftr cp 6) 63))
         (String (char_of (128 + N.land cp 63)) EmptyString))
  else
    String (char_of (240 + N.shiftr cp 18))
      (String (char_of (128 + N.land (N.shiftr cp 12) 63))
         (String (char_of (128 + N.land (N.shiftr cp 6) 63))
            (String (char_of (128 + N.land cp 63)) EmptyString))).

(** The byte strings that are UTF-8: every byte below 0x80 stands alone,
    every other byte belongs to a well-formed sequence. *)
Fixpoint well_formed_from (st : utf8_state) (s : string) : bool :=
  match s with
  | EmptyString => match st with UAccept => true | UCont _ _ _ => false end
  | String c s' =>
      match st with
      | UAccept =>
          if N.ltb (byte c) 128 then well_formed_from UAccept s'
          else
            match utf8_lead c with
            | Some (more, lo, hi) => well_formed_from (UCont more lo hi) s'
            | None => false
            end
      | UCont more lo hi =>
          if in_range lo hi c then well_formed_from (utf8_next more) s' else false
      end
  end.

Definition is_utf8 (s : string) : bool := well_formed_from UAccept s.

(** *** dump *)

Definition hex_digit (n : N) : ascii :=
  if N.ltb n 10 then char_of (48 + n) else char_of (87 + n).

(** What [dump] writes for one byte below 0x80. *)
Definition escape_ascii (c : ascii) : string :=
  let b := byte c in
  if N.eqb b 8 then "\b"
  else if N.eqb b 9 then "\t"
  else if N.eqb b 10 then "\n"
  else if N.eqb b 12 then "\f"
  else if N.eqb b 13 then "\r"
  else if N.eqb b 34 then String "\" (String dquote EmptyString)
  else if N.eqb b 92 then "\\"
  else if N.leb b 31 then
    String "\" (String "u" (String "0" (String "0"
      (String (hex_digit (N.shiftr b 4)) (String (hex_digit (N.land b 15)) EmptyString)))))
  else String c EmptyString.

(** The body of a dumped string; [None] is [type_error.316] (the bytes
    are not UTF-8). *)
Fixpoint escape_from (st : utf8_state) (s : string) : option string :=
  match s with
  | EmptyString => match st with UAccept => Some EmptyString | UCont _ _ _ => None end
  | String c s' =>
      match st with
      | UAccept =>
          if N.ltb (byte c) 128 then
            option_map (fun r => escape_ascii c ++ r) (escape_from UAccept s')
          else
            match utf8_lead c with
            | Some (more, lo, hi) => option_map (String c) (escape_from (UCont more lo hi) s')
            | None => None
            end
      | UCont more lo hi =>
          if in_range lo hi c then option_map (String c) (escape_from (utf8_next more) s')
          else None
      end
  end.

Definition escape_string (s : string) : option string := escape_from UAccept s.

Definition quote (body : string) : string := String dquote (body ++ String dquote EmptyString).

Definition dump_string (s : string) : option string := option_map quote (escape_string s).

Definition N_to_string (n : N) : string := NilEmpty.string_of_uint (N.to_uint n).

Definition Z_to_string (z : Z) : string :=
  match z with
  | Z0 => "0"
  | Zpos p => N_to_string (Npos p)
  | Zneg p => "-" ++ N_to_string (Npos p)
  end.

(** [j.dump()] *)
Fixpoint dump (j : json) : option string :=
  match j with
  | JNull => Some "null"
  | JBool true => Some "true"
  | JBool false => Some "false"
  | JUnsigned n => Some (N_to_string n)
  | JInteger z => Some (Z_to_string z)
  | JFloat lexeme => Some lexeme
  | JString s => dump_string s
  | JArray l =>
      let fix elements (l : list json) : option string :=
        match l with
        | [] => Some EmptyString
        | [x] => dump x
        | x :: l' =>
            match dump x, elements l' with
            | Some a, Some b => Some (a ++ "," ++ b)
            | _, _ => None
            end
        end in
      option_map (fun body => "[" ++ body ++ "]") (elements l)
  | JObject m =>
      let fix members (m : list (string * json)) : option string :=
        match m with
        | [] => Some EmptyString
        | (k, v) :: m' =>
            match dump_string k, dump v, members m' with
            | Some a, Some b, Some c =>
                Some (a ++ ":" ++ b ++ match m' with [] => EmptyString | _ => "," ++ c end)
            | _, _, _ => None
            end
        end in
      option_map (fun body => "{" ++ body ++ "}") (members m)
  end.

(** The line feed. *)
Definition line_feed : string := String "010" EmptyString.

(** [indent] spaces. *)
Fixpoint indent_string (indent : nat) : string :=
  match indent with
  | O => EmptyString
  | S n => String " " (indent_string n)
  end.

(** [j.dump(indent_step)], for the value at indentation [current_indent]:
    every element of an array and every member of an object on a line of
    its own, a space after the colon; an empty array is [[]] and an empty
    object is [{}]. *)
Fixpoint dump_indent (indent_step current_indent : nat) (j : json) : option string :=
  let new_indent := (current_indent + indent_step)%nat in
  match j with
  | JArray [] => Some "[]"
  | JArray l =>
      let fix elements (l : list json) : option string :=
        match l with
        | [] => Some EmptyString
        | [x] => option_map (append (indent_string new_indent))
                   (dump_indent indent_step new_indent x)
        | x :: l' =>
            match dump_indent indent_step new_indent x, elements l' with
            | Some a, Some b => Some (indent_string new_indent ++ a ++ "," ++ line_feed ++ b)
            | _, _ => None
            end
        end in
      option_map
        (fun body => "[" ++ line_feed ++ body ++ line_feed ++ indent_string current_indent ++ "]")
        (elements l)
  | JObject [] => Some "{}"
  | JObject m =>
      let fix members (m : list (string * json)) : option string :=
        match m with
        | [] => Some EmptyString
        | (k, v) :: m' =>
            match dump_string k, dump_indent indent_step new_indent v, members m' with
            | Some a, Some b, Some c =>
                Some (indent_string new_indent ++ a ++ ": " ++ b
                      ++ match m' with [] => EmptyString | _ => "," ++ line_feed ++ c end)
            | _, _, _ => None
            end
        end in
      option_map
        (fun body => "{" ++ line_feed ++ body ++ line_feed ++ indent_string current_indent ++ "}")
        (members m)
  | _ => dump j
  end.

(** *** parse *)

Definition is_ws (c : ascii) : bool :=
  let b := byte c in N.eqb b 32 || N.eqb b 9 || N.eqb b 10 || N.eqb b 13.

Fixpoint skip_ws (s : string) : string :=
  match s with
  | String c s' => if is_ws c then skip_ws s' else s
  | EmptyString => s
  end.

Definition hex_value (c : ascii) : option N :=
  let b := byte c in
  if in_range 48 57 c then Some (b - 48)
  else if in_range 65 70 c then Some (b - 55)
  else if in_range 97 102 c then Some (b - 87)
  else None.

(** The states of the string scanner, after the opening quote. *)
Inductive scan_state :=
| SText (u : utf8_state)             (* plain text, possibly inside a UTF-8 sequence *)
| SEscape                            (* after a backslash *)
| SHex (todo : nat) (acc : N) (high : option N)
                                     (* inside \uXXXX; [high] is a pending high surrogate *)
| SLowBackslash (high : N)           (* a high surrogate must be followed by \u *)
| SLowU (high : N).

Inductive scan_step :=
| Reject
| Close
| Go (st : scan_state) (out : string).

Definition finish_code_unit (cu : N) (high : option N) : scan_step :=
  match high with
  | None =>
      if N.leb 55296 cu && N.leb cu 56319 then Go (SLowBackslash cu) EmptyString
      else if N.leb 56320 cu && N.leb cu 57343 then Reject
      else Go (SText UAccept) (utf8_encode cu)
  | Some h =>
      if N.leb 56320 cu && N.leb cu 57343
      then Go (SText UAccept) (utf8_encode (65536 + N.shiftl (h - 55296) 10 + (cu - 56320)))
      else Reject
  end.

Definition scan_char (st : scan_state) (c : ascii) : scan_step :=
  match st with
  | SText UAccept =>
      let b := byte c in
      if N.eqb b 34 then Close
      else if N.eqb b 92 then Go SEscape EmptyString
      else if N.ltb b 32 then Reject
      else if N.ltb b 128 then Go (SText UAccept) (String c EmptyString)
      else match utf8_lead c with
           | Some (more, lo, hi) => Go (SText (UCont more lo hi)) (String c EmptyString)
           | None => Reject
           end
  | SText (UCont more lo hi) =>
      if in_range lo hi c then Go (SText (utf8_next more)) (String c EmptyString) else Reject
  | SEscape =>
      let b := byte c in
      if N.eqb b 34 then Go (SText UAccept) (String dquote EmptyString)
      else if N.eqb b 92 then Go (SText UAccept) "\"
      else if N.eqb b 47 then Go (SText UAccept) "/"
      else if N.eqb b 98 then Go (SText UAccept) (String (char_of 8) EmptyString)
      else if N.eqb b 102 then Go (SText UAccept) (String (char_of 12) EmptyString)
      else if N.eqb b 110 then Go (SText UAccept) (String (char_of 10) EmptyString)
      else if N.eqb b 114 then Go (SText UAccept) (String (char_of 13) EmptyString)
      else if N.eqb b 116 then Go (SText UAccept) (String (char_of 9) EmptyString)
      else if N.eqb b 117 then Go (SHex 4%nat 0 None) EmptyString
      else Reject
  | SHex todo acc high =>
      match hex_value c with
      | None => Reject
      | Some d =>
          let acc := (16 * acc + d)%N in
          match todo with
          | S (S l) => Go (SHex (S l) acc high) EmptyString
          | _ => finish_code_unit acc high
          end
      end
  | SLowBackslash high => if N.eqb (byte c) 92 then Go (SLowU high) EmptyString else Reject
  | SLowU high => if N.eqb (byte c) 117 then Go (SHex 4%nat 0 (Some high)) EmptyString else Reject
  end.

(** The lexer's [scan_string]: the decoded string and what follows the
    closing quote. *)
Fixpoint scan_string (st : scan_state) (s : string) : option (string * string) :=
  match s with
  | EmptyString => None
  | String c s' =>
      match scan_char st c with
      | Reject => None
      | Close => Some (EmptyString, s')
      | Go st' out =>
          match scan_string st' s' with
          | Some (r, rest) => Some (out ++ r, rest)
          | None => None
          end
      end
  end.

Definition is_digit (c : ascii) : bool := in_range 48 57 c.

(** The longest prefix of digits and the rest. *)
Fixpoint span_digits (s : string) : string * string :=
  match s with
  | String c s' =>
      if is_digit c then let '(d, r) := span_digits s' in (String c d, r)
      else (EmptyString, s)
  | EmptyString => (EmptyString, s)
  end.

Fixpoint digits_value (acc : N) (d : string) : N :=
  match d with
  | EmptyString => acc
  | String c d' => digits_value (10 * acc + (byte c - 48)) d'
  end.

(** The integer part: a lone zero, or digits that do not start with zero. *)
Definition scan_int_part (s : string) : option (string * string) :=
  match s with
  | String c s' =>
      if N.eqb (byte c) 48 then Some ("0", s')
      else if is_digit c then let '(d, r) := span_digits s in Some (d, r)
      else None
  | EmptyString => None
  end.

Definition scan_fraction (s : string) : option (string * string) :=
  match s with
  | String c s' =>
      if N.eqb (byte c) 46 then
        match span_digits s' with
        | (EmptyString, _) => None
        | (d, r) => Some (String c d, r)
        end
      else Some (EmptyString, s)
  | EmptyString => Some (EmptyString, s)
  end.

(** An optional sign. *)
Definition scan_sign (s : string) : string * string :=
  match s with
  | String c t => if N.eqb (byte c) 43 || N.eqb (byte c) 45
                  then (String c EmptyString, t) else (EmptyString, s)
  | EmptyString => (EmptyString, s)
  end.

Definition scan_exponent (s : string) : option (string * string) :=
  match s with
  | String c s' =>
      if N.eqb (byte c) 101 || N.eqb (byte c) 69 then
        let '(sign, s'') := scan_sign s' in
        match span_digits s'' with
        | (EmptyString, _) => None
        | (d, r) => Some (String c (sign ++ d), r)
        end
      else Some (EmptyString, s)
  | EmptyString => Some (EmptyString, s)
  end.

(** The lexer's [scan_number]: an integer literal that fits the 64-bit
    type is unsigned or (with a minus) integer, every other number is a
    float. *)
Definition scan_number (s : string) : option (json * string) :=
  let '(neg, s1) :=
    match s with
    | String c s' => if N.eqb (byte c) 45 then (true, s') else (false, s)
    | EmptyString => (false, s)
    end in
  match scan_int_part s1 with
  | None => None
  | Some (ip, s2) =>
      match scan_fraction s2 with
      | None => None
      | Some (fp, s3) =>
          match scan_exponent s3 with
          | None => None
          | Some (ep, s4) =>
              let lexeme := (if neg then "-" else EmptyString) ++ ip ++ fp ++ ep in
              let v := digits_value 0 ip in
              if String.eqb fp EmptyString && String.eqb ep EmptyString then
                if neg then
                  if N.leb v 9223372036854775808 then Some (JInteger (- Z.of_N v), s4)
                  else Some (JFloat lexeme, s4)
                else
                  if N.leb v 18446744073709551615 then Some (JUnsigned v, s4)
                  else Some (JFloat lexeme, s4)
              else Some (JFloat lexeme, s4)
          end
      end
  end.

(** The members of an object after the opening brace, the first key
    still to come; [value] parses one value. *)
Fixpoint parse_members (fuel : nat) (value : string -> option (json * string))
    (s : string) (acc : list (string * json)) : option (json * string) :=
  match fuel with
  | O => None
  | S fuel' =>
      match skip_ws s with
      | String q s1 =>
          if N.eqb (byte q) 34 then
            match scan_string (SText UAccept) s1 with
            | None => None
            | Some (key, s2) =>
                match skip_ws s2 with
                | String colon s3 =>
                    if N.eqb (byte colon) 58 then
                      match value s3 with
                      | None => None
                      | Some (v, s4) =>
                          match skip_ws s4 with
                          | String d s5 =>
                              if N.eqb (byte d) 44
                              then parse_members fuel' value s5 (StdMap.insert key v acc)
                              else if N.eqb (byte d) 125
                              then Some (JObject (StdMap.insert key v acc), s5)
                              else None
                          | EmptyString => None
                          end
                      end
                    else None
                | EmptyString => None
                end
            end
          else None
      | EmptyString => None
      end
  end.

(** The elements of an array after the opening bracket, the first
    element still to come; [acc] holds the elements read, last first. *)
Fixpoint parse_elements (fuel : nat) (value : string -> option (json * string))
    (s : string) (acc : list json) : option (json * string) :=
  match fuel with
  | O => None
  | S fuel' =>
      match value s with
      | None => None
      | Some (v, s1) =>
          match skip_ws s1 with
          | String d s2 =>
              if N.eqb (byte d) 44 then parse_elements fuel' value s2 (v :: acc)
              else if N.eqb (byte d) 93 then Some (JArray (rev (v :: acc)), s2)
              else None
          | EmptyString => None
          end
      end
  end.

(** One value and what follows it.  Every call consumes input, so a
    fuel above the length of the input is never used up. *)
Fixpoint parse_value (fuel : nat) (s : string) : option (json * string) :=
  match fuel with
  | O => None
  | S fuel' =>
      match skip_ws s with
      | EmptyString => None
      | String c s1 =>
          let b := byte c in
          if N.eqb b 123 then
            match skip_ws s1 with
            | String c2 s2 =>
                if N.eqb (byte c2) 125 then Some (JObject [], s2)
                else parse_members fuel' (parse_value fuel') s1 []
            | EmptyString => None
            end
          else if N.eqb b 91 then
            match skip_ws s1 with
            | String c2 s2 =>
                if N.eqb (byte c2) 93 then Some (JArray [], s2)
                else parse_elements fuel' (parse_value fuel') s1 []
            | EmptyString => None
            end
          else if N.eqb b 34 then
            match scan_string (SText UAccept) s1 with
            | Some (str, rest) => Some (JString str, rest)
            | None => None
            end
          else if starts_with "true" (String c s1) then Some (JBool true, drop 4%nat (String c s1))
          else if starts_with "false" (String c s1) then Some (JBool false, drop 5%nat (String c s1))
          else if starts_with "null" (String c s1) then Some (JNull, drop 4%nat (String c s1))
          else if N.eqb b 45 || is_digit c then scan_number (String c s1)
          else None
      end
  end.

(** The byte order mark the parser skips. *)
Definition bom : string :=
  String (char_of 239) (String (char_of 187) (String (char_of 191) EmptyString)).

(** [nlohmann::json::parse(s)]; [None] is [parse_error]. *)
Definition parse (s : string) : option json :=
  let s := if starts_with bom s then drop 3%nat s else s in
  match parse_value (S (String.length s)) s with
  | Some (j, rest) =>
      match skip_ws rest with
      | EmptyString => Some j
      | String _ _ => None
      end
  | None => None
  end.

(** [stream >> j]: the first value of the stream; what follows it is
    left unread. *)
Definition parse_stream (s : string) : option json :=
  let s := if starts_with bom s then drop 3%nat s else s in
  match parse_value (S (String.length s)) s with
  | Some (j, _) => Some j
  | None => None
  end.

(** *** Access *)

(** [json{{k1, v1}, ...}]: an object from an initializer list. *)
Definition object_of (l : list (string * json)) : json :=
  JObject (fold_left (fun m kv => StdMap.insert (fst kv) (snd kv) m) l []).

Definition is_string (j : json) : bool := match j with JString _ => true | _ => false end.
Definition is_object (j : json) : bool := match j with JObject _ => true | _ => false end.
Definition is_array (j : json) : bool := match j with JArray _ => true | _ => false end.
Definition is_boolean (j : json) : bool := match j with JBool _ => true | _ => false end.
Definition is_number_unsigned (j : json) : bool :=
  match j with JUnsigned _ => true | _ => false end.

(** [j.contains(key)]: false on anything but an object. *)
Definition contains_key (j : json) (key : string) : bool :=
  match j with
  | JObject m => match StdMap.find key m with Some _ => true | None => false end
  | _ => false
  end.

(** [j.at(key)]; [None] is [type_error] or [out_of_range]. *)
Definition at_key (j : json) (key : string) : option json :=
  match j with
  | JObject m => StdMap.find key m
  | _ => None
  end.

(** Conversion to [std::string]; [None] is [type_error.302]. *)
Definition get_string (j : json) : option string :=
  match j with JString s => Some s | _ => None end.

(** Conversion to [bool]; [None] is [type_error.302]. *)
Definition get_bool (j : json) : option bool :=
  match j with JBool b => Some b | _ => None end.

(** [j.get<std::vector<std::string>>()] *)
Fixpoint get_strings (l : list json) : option (list string) :=
  match l with
  | [] => Some []
  | x :: l' =>
      match get_string x, get_strings l' with
      | Some a, Some b => Some (a :: b)
      | _, _ => None
      end
  end.

Definition get_string_vector (j : json) : option (list string) :=
  match j with JArray l => get_strings l | _ => None end.

(** How a call that reads a value ends: with what it read, with a
    [json::exception], or outside the model: [Not_modelled] is the cast of
    a floating-point number to an integer type, [Undefined] is undefined
    behaviour. *)
Inductive outcome (A : Type) :=
| Returns (a : A)
| Throws
| Not_modelled
| Undefined.
Arguments Returns {A}.
Arguments Throws {A}.
Arguments Not_modelled {A}.
Arguments Undefined {A}.

Definition bind {A B : Type} (o : outcome A) (f : A -> outcome B) : outcome B :=
  match o with
  | Returns a => f a
  | Throws => Throws
  | Not_modelled => Not_modelled
  | Undefined => Undefined
  end.

(** The value of [z] in the signed integer type of [bits] bits. *)
Definition wrap (bits : Z) (z : Z) : Z :=
  ((z + 2 ^ (bits - 1)) mod 2 ^ bits - 2 ^ (bits - 1))%Z.

(** Conversion to a signed integer type of [bits] bits that is not the
    library's own integer type ([int], and [long long] where [int64_t] is
    [long]): every number and boolean converts, by [static_cast]; anything
    else is [type_error.302]. *)
Definition get_integer (bits : Z) (j : json) : outcome Z :=
  match j with
  | JUnsigned n => Returns (wrap bits (Z.of_N n))
  | JInteger z => Returns (wrap bits z)
  | JBool b => Returns (if b then 1 else 0)%Z
  | JFloat _ => Not_modelled
  | _ => Throws
  end.

End Json.

(** ** message.h, message.cpp: the records exchanged between the services *)
Module WriteFileCommand.
Import Json.

Record t := {
  command : string;
  path : string;
  content : string;
  request_execution : bool
}.

(** A default-constructed command. *)
Definition init : t :=
  {| command := EmptyString; path := EmptyString; content := EmptyString;
     request_execution := false |}.

(** [WriteFileCommand::to_json] *)
Definition to_json (c : t) : json :=
  object_of [("command", JString (command c)); ("path", JString (path c));
             ("content", JString (content c));
             ("request_execution", JBool (request_execution c))].

(** [WriteFileCommand::from_json] on the command [c]; [None] is the
    [json::exception] of a missing or ill-typed field. *)
Definition from_json (c : t) (j : json) : option t :=
  match at_key j "command" with
  | None => None
  | Some jc =>
  match get_string jc with
  | None => None
  | Some command' =>
  match at_key j "path" with
  | None => None
  | Some jp =>
  match get_string jp with
  | None => None
  | Some path' =>
  match at_key j "content" with
  | None => None
  | Some jt =>
  match get_string jt with
  | None => None
  | Some content' =>
      if contains_key j "request_execution" then
        match at_key j "request_execution" with
        | None => None
        | Some jr =>
            match get_bool jr with
            | None => None
            | Some r =>
                Some {| command := command'; path := path'; content := content';
                        request_execution := r |}
            end
        end
      else Some {| command := command'; path := path'; content := content';
                   request_execution := request_execution c |}
  end end end end end end.

End WriteFileCommand.

Module BashCommand.
Record t := {
  command : string;
  bash_command : string;
  working_directory : string;
  description : string;
  request_execution : bool
}.

(** A default-constructed command. *)
Definition init : t :=
  {| command := EmptyString; bash_command := EmptyString; working_directory := EmptyString;
     description := EmptyString; request_execution := false |}.

(** [BashCommand::to_json] *)
Definition to_json (c : t) : Json.json :=
  Json.object_of
    [("command", Json.JString (command c)); ("bash_command", Json.JString (bash_command c));
     ("working_directory", Json.JString (working_directory c));
     ("description", Json.JString (description c));
     ("request_execution", Json.JBool (request_execution c))].

(** A field that is read when it is there: [None] is the exception of a
    field that is there and has the wrong type. *)
Definition optional {A : Type} (j : Json.json) (key : string) (get : Json.json -> option A)
    (current : A) : option A :=
  if Json.contains_key j key then
    match Json.at_key j key with
    | Some v => get v
    | None => None
    end
  else Some current.

(** [BashCommand::from_json] on the command [c]; [None] is the
    [json::exception] of a missing or ill-typed field. *)
Definition from_json (c : t) (j : Json.json) : option t :=
  match Json.at_key j "command" with
  | None => None
  | Some jc =>
  match Json.get_string jc with
  | None => None
  | Some command' =>
  match Json.at_key j "bash_command" with
  | None => None
  | Some jb =>
  match Json.get_string jb with
  | None => None
  | Some bash_command' =>
  match optional j "working_directory" Json.get_string (working_directory c) with
  | None => None
  | Some working_directory' =>
  match optional j "description" Json.get_string (description c) with
  | None => None
  | Some description' =>
  match optional j "request_execution" Json.get_bool (request_execution c) with
  | None => None
  | Some request_execution' =>
      Some {| command := command'; bash_command := bash_command';
              working_directory := working_directory'; description := description';
              request_execution := request_execution' |}
  end end end end end end end.

End BashCommand.

Module DryRunResult.
Record t := {
  description : string;
  success : bool;
  error_message : string
}.

(** [DryRunResult::to_json] *)
Definition to_json (r : t) : Json.json :=
  Json.object_of
    [("description", Json.JString (description r)); ("success", Json.JBool (success r));
     ("error_message", Json.JString (error_message r))].

(** [DryRunResult::from_json] on a result whose error message is
    [error_message0]; [None] is the [json::exception] of a missing or
    ill-typed field. *)
Definition from_json (error_message0 : string) (j : Json.json) : option t :=
  match Json.at_key j "description" with
  | None => None
  | Some jd =>
  match Json.get_string jd with
  | None => None
  | Some description' =>
  match Json.at_key j "success" with
  | None => None
  | Some js =>
  match Json.get_bool js with
  | None => None
  | Some success' =>
  match BashCommand.optional j "error_message" Json.get_string error_message0 with
  | None => None
  | Some error_message' =>
      Some {| description := description'; success := success';
              error_message := error_message' |}
  end end end end end.

End DryRunResult.

Module ExecutionContext.
Import Json.

(** The time point is in the ticks of the system clock, nanoseconds. *)
Record t := {
  working_directory_before : string;
  working_directory_after : string;
  command_output : string;
  command_stderr : string;
  exit_code : Z;
  timestamp : Z
}.

(** A default-constructed context: the epoch, exit code 0. *)
Definition init : t :=
  {| working_directory_before := EmptyString; working_directory_after := EmptyString;
     command_output := EmptyString; command_stderr := EmptyString;
     exit_code := 0; timestamp := 0 |}.

(** [ExecutionContext::to_json] *)
Definition to_json (c : t) : json :=
  let millis := Z.quot (timestamp c) 1000000 in
  object_of
    [("working_directory_before", JString (working_directory_before c));
     ("working_directory_after", JString (working_directory_after c));
     ("command_output", JString (command_output c));
     ("command_stderr", JString (command_stderr c));
     ("exit_code", JInteger (exit_code c));
     ("timestamp_ms", JInteger millis)].

(** A string field that is read when it is there. *)
Definition optional_string (j : json) (key : string) (current : string) : outcome string :=
  if contains_key j key then
    match at_key j key with
    | Some (JString s) => Returns s
    | _ => Throws
    end
  else Returns current.

(** An integer field that is read when it is there. *)
Definition optional_integer (bits : Z) (j : json) (key : string) (current : Z) : outcome Z :=
  if contains_key j key then
    match at_key j key with
    | Some v => get_integer bits v
    | None => Throws
    end
  else Returns current.

(** The time point [millis] milliseconds after the epoch; the
    multiplication overflows outside the 64 bits of the tick count. *)
Definition of_milliseconds (millis : Z) : outcome Z :=
  let ticks := (millis * 1000000)%Z in
  if Z.leb (-9223372036854775808) ticks && Z.leb ticks 9223372036854775807
  then Returns ticks else Undefined.

(** [ExecutionContext::from_json] on the context [c]: the fields are read
    in this order, and the first that fails ends the call. *)
Definition from_json (c : t) (j : json) : outcome t :=
  bind (optional_string j "working_directory_before" (working_directory_before c))
    (fun before =>
  bind (optional_string j "working_directory_after" (working_directory_after c))
    (fun after =>
  bind (optional_string j "command_output" (command_output c)) (fun output =>
  bind (optional_string j "command_stderr" (command_stderr c)) (fun stderr =>
  bind (optional_integer 32 j "exit_code" (exit_code c)) (fun code =>
  bind (if contains_key j "timestamp_ms"
        then bind (optional_integer 64 j "timestamp_ms" 0) of_milliseconds
        else Returns (timestamp c)) (fun time =>
  Returns {| working_directory_before := before; working_directory_after := after;
             command_output := output; command_stderr := stderr;
             exit_code := code; timestamp := time |})))))).

End ExecutionContext.

Module ApplyResult.
Record t := {
  description : string;
  success : bool;
  error_message : string
}.
End ApplyResult.

Module MessageHandler.
Import Json.

(** [MessageHandler::serialize_command]; [None] when [dump] raises. *)
Definition serialize_command (cmd : WriteFileCommand.t) : option string :=
  dump (WriteFileCommand.to_json cmd).

(** [MessageHandler::deserialize_command]; [None] when [parse] or
    [from_json] raises. *)
Definition deserialize_command (json_str : string) : option WriteFileCommand.t :=
  match parse json_str with
  | None => None
  | Some j => WriteFileCommand.from_json WriteFileCommand.init j
  end.

(** [MessageHandler::serialize_dry_run_result] *)
Definition serialize_dry_run_result (result : DryRunResult.t) : option string :=
  dump (DryRunResult.to_json result).

(** [MessageHandler::deserialize_dry_run_result] *)
Definition deserialize_dry_run_result (json_str : string) : option DryRunResult.t :=
  match parse json_str with
  | None => None
  | Some j => DryRunResult.from_json EmptyString j
  end.

(** [MessageHandler::serialize_bash_command] *)
Definition serialize_bash_command (cmd : BashCommand.t) : option string :=
  dump (BashCommand.to_json cmd).

(** [MessageHandler::deserialize_bash_command] *)
Definition deserialize_bash_command (json_str : string) : option BashCommand.t :=
  match parse json_str with
  | None => None
  | Some j => BashCommand.from_json BashCommand.init j
  end.

(** [MessageHandler::serialize_execution_context] *)
Definition serialize_execution_context (context : ExecutionContext.t) : option string :=
  dump (ExecutionContext.to_json context).

(** [MessageHandler::deserialize_execution_context] *)
Definition deserialize_execution_context (json_str : string) : outcome ExecutionContext.t :=
  match parse json_str with
  | None => Throws
  | Some j => ExecutionContext.from_json ExecutionContext.init j
  end.

End MessageHandler.

(** ** gemini_provider.cpp: the Gemini adapter's plan parser *)
Module GeminiProvider.
Import StdString Json.

(** The two [std::runtime_error]s [parse_response] raises. *)
Inductive error :=
| Failed_to_parse     (* "Failed to parse Gemini response: ..." *)
| Invalid_format.     (* "Invalid Gemini API response format" *)

(** The loop that skips line feeds, carriage returns and spaces after the
    opening marker: the first position from [pos] on that holds another
    byte. *)
Fixpoint skip_after_marker (s : string) (pos : nat) : nat :=
  match s with
  | EmptyString => pos
  | String c s' =>
      if Ascii.eqb c "010" || Ascii.eqb c "013" || Ascii.eqb c " "
      then skip_after_marker s' (S pos) else pos
  end.

(** "Remove markdown code block formatting if present". *)
Definition strip_code_fence (content : string) : string :=
  match find "```json" content with
  | None => content
  | Some start_pos =>
      let start_pos := start_pos + 7 in
      let start_pos := skip_after_marker (drop start_pos content) start_pos in
      match find_from "```" content start_pos with
      | Some end_pos => substr start_pos (end_pos - start_pos) content
      | None => content
      end
  end.



(** What [parse_response] does with the extracted text. *)
Definition parse_plan_text (content : string) : error + WriteFileCommand.t :=
  match parse (strip_code_fence content) with
  | None => inl Failed_to_parse
  | Some command_json =>
      match WriteFileCommand.from_json WriteFileCommand.init command_json with
      | Some command => inr command
      | None => inl Failed_to_parse
      end
  end.


End GeminiProvider.

(** ** policy_config.cpp: loading the policy document *)
Module PolicyConfigLoader.
Import StdString Json PolicyConfig.

Definition has (j : json) (key : string) (is_type : json -> bool) : bool :=
  match at_key j key with
  | Some v => is_type v
  | None => false
  end.

Fixpoint validate_tool_ops (tool_name : string) (tool_data : json) (ops : list string)
  : Validation :=
  match ops with
  | [] => Valid
  | op :: ops' =>
      if negb (has tool_data op is_object) then
        Invalid ("Missing or invalid '" ++ tool_name ++ "." ++ op ++ "' field (must be object)")
      else
        match at_key tool_data op with
        | None => Invalid ("Missing or invalid '" ++ tool_name ++ "." ++ op ++ "' field (must be object)")
        | Some op_data =>
            if negb (has op_data "allowed_directories" is_array) then
              Invalid ("Missing or invalid '" ++ tool_name ++ "." ++ op
                       ++ ".allowed_directories' field (must be array)")
            else if negb (has op_data "confirmation_required" is_boolean) then
              Invalid ("Missing or invalid '" ++ tool_name ++ "." ++ op
                       ++ ".confirmation_required' field (must be boolean)")
            else validate_tool_ops tool_name tool_data ops'
        end
  end.

Fixpoint validate_tool_items (items : list (string * json)) : Validation :=
  match items with
  | [] => Valid
  | (tool_name, tool_data) :: items' =>
      if negb (is_object tool_data) then Invalid ("Tool '" ++ tool_name ++ "' must be an object")
      else
        match validate_tool_ops tool_name tool_data ["create"; "read"; "update"; "delete"] with
        | Valid => validate_tool_items items'
        | Invalid m => Invalid m
        end
  end.

(** [PolicyConfig::validate_json_schema] *)
Definition validate_json_schema (j : json) : Validation :=
  if negb (has j "version" is_string) then
    Invalid "Missing or invalid 'version' field (must be string)"
  else
    match at_key j "global" with
    | Some (JObject g) =>
        let global := JObject g in
        if negb (has global "blocked_extensions" is_array) then
          Invalid "Missing or invalid 'global.blocked_extensions' field (must be array)"
        else if negb (has global "max_file_size_mb" is_number_unsigned) then
          Invalid "Missing or invalid 'global.max_file_size_mb' field (must be positive integer)"
        else if negb (has global "auto_backup" is_boolean) then
          Invalid "Missing or invalid 'global.auto_backup' field (must be boolean)"
        else
          match at_key j "tools" with
          | Some (JObject items) => validate_tool_items items
          | _ => Invalid "Missing or invalid 'tools' field (must be object)"
          end
    | _ => Invalid "Missing or invalid 'global' field (must be object)"
    end.

Definition get_unsigned (j : json) : option N :=
  match j with JUnsigned n => Some n | _ => None end.

(** The two fields every operation carries. *)
Definition operation_of (op_data : json) : option OperationPolicy :=
  match at_key op_data "allowed_directories", at_key op_data "confirmation_required" with
  | Some dirs, Some confirm =>
      match get_string_vector dirs, get_bool confirm with
      | Some d, Some c => Some (mkPolicy d c)
      | _, _ => None
      end
  | _, _ => None
  end.

(** A command list of bash_tool: read when the key holds an array. *)
Definition command_list (create_data : json) (key : string) : option (list string) :=
  match at_key create_data key with
  | Some (JArray l) => get_strings l
  | _ => Some []
  end.

Definition tool_of (tool_name : string) (tool_data : json) : option ToolPolicy :=
  match at_key tool_data "create", at_key tool_data "read",
        at_key tool_data "update", at_key tool_data "delete" with
  | Some create_data, Some read_data, Some update_data, Some delete_data =>
      match operation_of create_data with
      | None => None
      | Some c =>
          let commands :=
            if String.eqb tool_name "bash_tool"
            then match command_list create_data "allowed_commands" with
                 | None => None
                 | Some a =>
                     match command_list create_data "blocked_commands" with
                     | None => None
                     | Some b => Some (a, b)
                     end
                 end
            else Some ([], []) in
          match commands with
          | None => None
          | Some (a, b) =>
              match operation_of read_data, operation_of update_data, operation_of delete_data with
              | Some r, Some u, Some d =>
                  Some {| create := {| allowed_directories := allowed_directories c;
                                       confirmation_required := confirmation_required c;
                                       allowed_commands := a; blocked_commands := b |};
                          read := r; update := u; delete_op := d |}
              | _, _, _ => None
              end
          end
      end
  | _, _, _, _ => None
  end.

Fixpoint tools_of (items : list (string * json)) (acc : list (string * ToolPolicy))
  : option (list (string * ToolPolicy)) :=
  match items with
  | [] => Some acc
  | (tool_name, tool_data) :: items' =>
      match tool_of tool_name tool_data with
      | None => None
      | Some tp => tools_of items' (StdMap.insert tool_name tp acc)
      end
  end.

(** [PolicyConfig::json_to_settings]; [None] is the [json::exception] of
    a conversion. *)
Definition json_to_settings (j : json) : option PolicySettings :=
  match at_key j "global", at_key j "tools" with
  | Some global, Some (JObject items) =>
      match at_key global "blocked_extensions", at_key global "max_file_size_mb",
            at_key global "auto_backup" with
      | Some be, Some mx, Some ab =>
          match get_string_vector be, get_unsigned mx, get_bool ab, tools_of items [] with
          | Some exts, Some n, Some b, Some ts =>
              Some {| PolicyConfig.global :=
                        {| blocked_extensions := exts; max_file_size_mb := n; auto_backup := b |};
                      tools := ts |}
          | _, _, _, _ => None
          end
      | _, _, _ => None
      end
  | _, _ => None
  end.

(** The policy file as the loader finds it. *)
Inductive PolicyFile :=
| Missing                      (* [std::filesystem::exists] is false *)
| Unreadable                   (* it exists and cannot be opened *)
| Holds (text : string).

(** Why [parse_config] returned no settings; the text is [error_message]
    (the library's own wording of a JSON error is left out). *)
Inductive ConfigError :=
| Could_not_open
| Json_parse_error
| Schema_error (m : string)
| Unexpected_error
| Validation_failed (m : string).

Definition error_message (file_path : string) (e : ConfigError) : string :=
  match e with
  | Could_not_open => "Could not open file: " ++ file_path
  | Json_parse_error => "JSON parse error at byte "
  | Schema_error m => m
  | Unexpected_error => "Unexpected error: "
  | Validation_failed m => "Policy validation failed: " ++ m
  end.

(** [PolicyConfig::parse_config] *)
Definition parse_config (file : PolicyFile) : ConfigError + PolicySettings :=
  match file with
  | Missing | Unreadable => inl Could_not_open
  | Holds text =>
      match parse_stream text with
      | None => inl Json_parse_error
      | Some j =>
          match validate_json_schema j with
          | Invalid m => inl (Schema_error m)
          | Valid =>
              match json_to_settings j with
              | None => inl Unexpected_error
              | Some settings =>
                  match validate settings with
                  | Invalid m => inl (Validation_failed m)
                  | Valid => inr settings
                  end
              end
          end
      end
  end.

Definition operation_to_json (p : OperationPolicy) : json :=
  object_of [("allowed_directories", JArray (map JString (allowed_directories p)));
             ("confirmation_required", JBool (confirmation_required p))].

Definition tool_to_json (tool_name : string) (tp : ToolPolicy) : json :=
  let base := [("allowed_directories", JArray (map JString (allowed_directories (create tp))));
               ("confirmation_required", JBool (confirmation_required (create tp)))] in
  let with_allowed :=
    if String.eqb tool_name "bash_tool" && negb (Nat.eqb (List.length (allowed_commands (create tp))) 0)
    then (base ++ [("allowed_commands", JArray (map JString (allowed_commands (create tp))))])%list
    else base in
  let with_blocked :=
    if String.eqb tool_name "bash_tool" && negb (Nat.eqb (List.length (blocked_commands (create tp))) 0)
    then (with_allowed ++ [("blocked_commands", JArray (map JString (blocked_commands (create tp))))])%list
    else with_allowed in
  object_of [("create", object_of with_blocked);
             ("read", operation_to_json (read tp));
             ("update", operation_to_json (update tp));
             ("delete", operation_to_json (delete_op tp))].

(** [PolicyConfig::settings_to_json] *)
Definition settings_to_json (s : PolicySettings) : json :=
  object_of
    [("version", JString "1.0");
     ("global", object_of
        [("blocked_extensions", JArray (map JString (blocked_extensions (PolicyConfig.global s))));
         ("max_file_size_mb", JUnsigned (max_file_size_mb (PolicyConfig.global s)));
         ("auto_backup", JBool (auto_backup (PolicyConfig.global s)))]);
     ("tools", object_of (map (fun kv => (fst kv, tool_to_json (fst kv) (snd kv))) (tools s)))].

(** What the loader meets outside the process: the policy file, and
    whether the directory and the default file can be created when it is
    missing ([Some m] is the failure with its message). *)
Record Disk := {
  policy_file : PolicyFile;
  mkdir_failure : option string;
  save_failure : option string
}.

Inductive Diagnostic :=
| Failed_to_create_directory (m : string)
| Failed_to_create_default (m : string)
| Failed_to_parse (e : ConfigError).

(** How [load_or_create] ends: with settings, or in [std::exit(status)]
    after the diagnostic went to the error stream. *)
Inductive Outcome :=
| Loaded (s : PolicySettings)
| Exit (status : Z) (d : Diagnostic).

(** The file [save] writes for the default settings.  The source indents
    it ([dump(2)]); the parser skips the white space. *)
Definition default_file : PolicyFile :=
  match dump (settings_to_json default_settings) with
  | Some text => Holds text
  | None => Unreadable
  end.

(** [PolicyConfig::load_or_create] *)
Definition load_or_create (d : Disk) : Outcome :=
  let created :=
    match policy_file d with
    | Missing =>
        match mkdir_failure d with
        | Some m => inl (Exit 2 (Failed_to_create_directory m))
        | None =>
            match save_failure d with
            | Some m => inl (Exit 2 (Failed_to_create_default m))
            | None => inr default_file
            end
        end
    | f => inr f
    end in
  match created with
  | inl stop => stop
  | inr file =>
      match parse_config file with
      | inl e => Exit 1 (Failed_to_parse e)
      | inr settings => Loaded settings
      end
  end.

(** Why [save] returned false; the text is [save_error_message] (the
    library's own wording of a JSON error is left out). *)
Inductive SaveError :=
| Invalid_settings (m : string)
| Could_not_open_for_writing
| Failed_to_write
| Serialization_error.

Definition save_error_message (policy_file : string) (e : SaveError) : string :=
  match e with
  | Invalid_settings m => m
  | Could_not_open_for_writing => "Could not open " ++ policy_file ++ " for writing"
  | Failed_to_write => "Failed to write to " ++ policy_file
  | Serialization_error => "JSON serialization error: "
  end.

(** What [save] meets when it writes: whether the file can be opened,
    and, when the stream fails, what of the text reached the file. *)
Record Medium := {
  opens : bool;
  write_failure : option string
}.

(** [PolicyConfig::save]: the error, if any, and the policy file after
    the call.  The file is opened, and so emptied, before the settings
    are serialized. *)
Definition save (m : Medium) (before : PolicyFile) (settings : PolicySettings)
  : option SaveError * PolicyFile :=
  match validate settings with
  | Invalid message => (Some (Invalid_settings message), before)
  | Valid =>
      if negb (opens m) then (Some Could_not_open_for_writing, before)
      else
        match dump_indent 2 0 (settings_to_json settings) with
        | None => (Some Serialization_error, Holds EmptyString)
        | Some text =>
            match write_failure m with
            | Some partial => (Some Failed_to_write, Holds partial)
            | None => (None, Holds (text ++ line_feed))
            end
        end
  end.

End PolicyConfigLoader.

(** ** [std::regex] (ECMAScript grammar, [icase]) for the patterns of the
       command runner *)
Module Regex.
Import StdString.

Inductive regex :=
| Fail                          (* matches nothing *)
| Eps                           (* matches the empty string *)
| Chr (c : ascii)               (* a literal byte, case folded *)
| Any                           (* [.]: any byte but a line terminator *)
| Space                         (* [\s] *)
| Range (lo hi : ascii)         (* [[lo-hi]], case folded *)
| NotChr (c : ascii)            (* [[^c]] *)
| Seq (r1 r2 : regex)
| Alt (r1 r2 : regex)
| Star (r : regex).

(** [r+] *)
Definition Plus (r : regex) : regex := Seq r (Star r).

(** A literal string. *)
Fixpoint Lit (s : string) : regex :=
  match s with
  | EmptyString => Eps
  | String c s' => Seq (Chr c) (Lit s')
  end.

Definition is_space (c : ascii) : bool :=
  let n := nat_of_ascii c in Nat.eqb n 32 || (Nat.leb 9 n && Nat.leb n 13).

Definition between (lo hi c : ascii) : bool :=
  Nat.leb (nat_of_ascii lo) (nat_of_ascii c) && Nat.leb (nat_of_ascii c) (nat_of_ascii hi).

Fixpoint nullable (r : regex) : bool :=
  match r with
  | Fail | Chr _ | Any | Space | Range _ _ | NotChr _ => false
  | Eps | Star _ => true
  | Seq r1 r2 => nullable r1 && nullable r2
  | Alt r1 r2 => nullable r1 || nullable r2
  end.

Definition accepts (b : bool) : regex := if b then Eps else Fail.

(** What is left of [r] to match after the byte [c]. *)
Fixpoint deriv (c : ascii) (r : regex) : regex :=
  match r with
  | Fail | Eps => Fail
  | Chr x => accepts (Ascii.eqb (tolower x) (tolower c))
  | Any => accepts (negb (Ascii.eqb c "010" || Ascii.eqb c "013"))
  | Space => accepts (is_space c)
  | Range lo hi => accepts (between lo hi (tolower c) || between lo hi (toupper c))
  | NotChr x => accepts (negb (Ascii.eqb (tolower x) (tolower c)))
  | Seq r1 r2 =>
      match deriv c r1 with
      | Fail => if nullable r1 then deriv c r2 else Fail
      | d1 => if nullable r1 then Alt (Seq d1 r2) (deriv c r2) else Seq d1 r2
      end
  | Alt r1 r2 =>
      match deriv c r1, deriv c r2 with
      | Fail, d2 => d2
      | d1, Fail => d1
      | d1, d2 => Alt d1 d2
      end
  | Star r1 =>
      match deriv c r1 with
      | Fail => Fail
      | d1 => Seq d1 (Star r1)
      end
  end.

(** Some prefix of [s] matches [r]. *)
Fixpoint matches_prefix (r : regex) (s : string) : bool :=
  nullable r ||
  match s with
  | EmptyString => false
  | String c s' => match deriv c r with Fail => false | d => matches_prefix d s' end
  end.

(** [std::regex_search(s, r)]: some substring of [s] matches [r]. *)
Fixpoint regex_search (s : string) (r : regex) : bool :=
  matches_prefix r s ||
  match s with
  | EmptyString => false
  | String _ s' => regex_search s' r
  end.

End Regex.

(** ** bash_tool.h, bash_tool.cpp: the command runner *)
Module CommandResult.
(** Time points and the duration are integers: nanoseconds and
    milliseconds. *)
Record t := {
  command : string;
  exit_code : Z;
  stdout_output : string;
  stderr_output : string;
  working_directory : string;
  pwd_after_execution : string;
  success : bool;
  error_message : string;
  start_time : Z;
  end_time : Z;
  execution_duration : Z
}.

(** A default-constructed result.  The constructor leaves the numbers and
    the flag unset; every path of the runner assigns [exit_code] and
    [success] before the record is returned. *)
Definition init : t :=
  {| command := EmptyString; exit_code := 0; stdout_output := EmptyString;
     stderr_output := EmptyString; working_directory := EmptyString;
     pwd_after_execution := EmptyString; success := false;
     error_message := EmptyString; start_time := 0; end_time := 0;
     execution_duration := 0 |}.

(** [CommandResult::has_output] *)
Definition has_output (r : t) : bool :=
  negb (String.eqb (stdout_output r) EmptyString)
  || negb (String.eqb (stderr_output r) EmptyString).

End CommandResult.

Module BashTool.
Import StdString Regex CommandResult.

Record t := {
  capture_context_ : bool;
  default_timeout_ms_ : Z
}.

(** [BashTool::BashTool()] *)
Definition init : t := {| capture_context_ := true; default_timeout_ms_ := 30000 |}.

(** What a call of the runner meets outside the process: the process's
    current directory, the readings of the clock (the k-th reading during
    the call) and the shell.  [popen c] is [None] when no pipe could be
    opened, otherwise the output read from the pipe and the exit status. *)
Record Platform := {
  current_directory : string;
  now : nat -> Z;
  popen : string -> option (string * Z)
}.

(** [BashTool::get_blocked_commands] *)
Definition get_blocked_commands : list string :=
  ["rm -rf /"; "sudo rm"; "format"; "fdisk"; "mkfs"; "dd if=/dev/zero";
   ":(){ :|:& };:"; "chmod 000"; "chown root"; "passwd"; "su -"; "sudo su";
   "reboot"; "shutdown"; "halt"; "poweroff"; "init 0"; "init 6"].

(** [BashTool::get_dangerous_patterns], each pattern parsed. *)
Definition get_dangerous_patterns : list regex :=
  [ Seq (Chr ">") (Seq (Star Space) (Lit "/dev/"));             (* >\s*/dev/ *)
    Seq (Lit "/dev/sd") (Range "a" "z");                         (* /dev/sd[a-z] *)
    Seq (Lit "rm") (Seq (Plus Space) (Seq (Star Any) (Lit "-rf")));  (* rm\s+.*-rf *)
    Seq (Chr "|") (Seq (Star Any) (Lit "rm"));                   (* \|.*rm *)
    Seq (Chr ";") (Seq (Star Space) (Lit "rm"));                 (* ;\s*rm *)
    Seq (Lit "&&") (Seq (Star Any) (Lit "rm"));                  (* &&.*rm *)
    Seq (Lit "$(") (Seq (Star (NotChr ")")) (Lit "rm")) ].       (* \$\([^)]*rm *)

(** [BashTool::contains_dangerous_pattern] *)
Fixpoint matches_some (patterns : list regex) (command : string) : bool :=
  match patterns with
  | [] => false
  | danger_regex :: patterns' =>
      if regex_search command danger_regex then true else matches_some patterns' command
  end.

Definition contains_dangerous_pattern (command : string) : bool :=
  matches_some get_dangerous_patterns command.

(** The loop of [is_command_allowed] over the blocked commands. *)
Fixpoint starts_or_follows_space (blocked : list string) (cmd_lower : string) : bool :=
  match blocked with
  | [] => false
  | blocked_cmd :: blocked' =>
      if starts_with blocked_cmd cmd_lower || contains (" " ++ blocked_cmd) cmd_lower
      then true else starts_or_follows_space blocked' cmd_lower
  end.

(** [BashTool::is_command_allowed] *)
Definition is_command_allowed (command : string) : bool :=
  let cmd_lower := to_lower command in
  if starts_or_follows_space get_blocked_commands cmd_lower then false
  else if contains_dangerous_pattern command then false
  else true.

Definition set_timing (r : CommandResult.t) (e : Z) : CommandResult.t :=
  {| command := command r; exit_code := exit_code r; stdout_output := stdout_output r;
     stderr_output := stderr_output r; working_directory := working_directory r;
     pwd_after_execution := pwd_after_execution r; success := success r;
     error_message := error_message r; start_time := start_time r; end_time := e;
     execution_duration := Z.quot (e - start_time r) 1000000 |}.

Definition pwd_marker : string := "__PWD_MARKER__".

(** The output with the marker line taken out, and the directory the
    marker line carried. *)
Definition extract_pwd (output : string) : string * string :=
  match find pwd_marker output with
  | None => (output, EmptyString)
  | Some pwd_pos =>
      let pwd_start := pwd_pos + String.length pwd_marker in
      let pwd_end :=
        match find_from (String "010" EmptyString) output pwd_start with
        | Some e => e
        | None => String.length output
        end in
      let pwd := substr pwd_start (pwd_end - pwd_start) output in
      let line_start :=
        match rfind "010" output pwd_pos with
        | None => 0
        | Some i => S i
        end in
      (erase line_start
         (pwd_end - line_start + (if Nat.ltb pwd_end (String.length output) then 1 else 0))
         output,
       pwd)
  end.

(** The command line handed to the shell. *)
Definition shell_line (tool : t) (command working_directory : string) : string :=
  let q := String "034" EmptyString in
  let full_command := "cd " ++ q ++ working_directory ++ q ++ " && " ++ command in
  let full_command :=
    if capture_context_ tool
    then full_command ++ " ; echo " ++ q ++ "__PWD_MARKER__$(pwd)" ++ q
    else full_command in
  full_command ++ " 2>&1".

(** [BashTool::execute_unix_command]; [None] is the [std::runtime_error]
    of a pipe that could not be opened. *)
Definition execute_unix_command (tool : t) (p : Platform) (command working_directory : string)
  : option CommandResult.t :=
  match popen p (shell_line tool command working_directory) with
  | None => None
  | Some (output, status) =>
      let '(output, pwd) :=
        if capture_context_ tool then extract_pwd output else (output, EmptyString) in
      Some {| command := command; exit_code := status; stdout_output := output;
              stderr_output := EmptyString; working_directory := working_directory;
              pwd_after_execution := pwd; success := Z.eqb status 0;
              error_message := EmptyString; start_time := 0; end_time := 0;
              execution_duration := 0 |}
  end.

(** [BashTool::capture_execution_context] *)
Definition capture_execution_context (r : CommandResult.t) : CommandResult.t :=
  if String.eqb (pwd_after_execution r) EmptyString then
    {| command := command r; exit_code := exit_code r; stdout_output := stdout_output r;
       stderr_output := stderr_output r; working_directory := working_directory r;
       pwd_after_execution := working_directory r; success := success r;
       error_message := error_message r; start_time := start_time r; end_time := end_time r;
       execution_duration := execution_duration r |}
  else r.

(** [BashTool::execute_command].  Next to the result: the command lines
    handed to the shell during the call, in order. *)
Definition execute_command (tool : t) (p : Platform) (command working_directory : string)
  : CommandResult.t * list string :=
  let start := now p 0 in
  if negb (is_command_allowed command) then
    (set_timing
       {| command := command; exit_code := -1; stdout_output := EmptyString;
          stderr_output := EmptyString; working_directory := EmptyString;
          pwd_after_execution := EmptyString; success := false;
          error_message := "Command blocked by security policy: " ++ command;
          start_time := start; end_time := 0; execution_duration := 0 |}
       (now p 1),
     [])
  else
    let work_dir :=
      if String.eqb working_directory EmptyString then current_directory p
      else working_directory in
    let result :=
      match execute_unix_command tool p command work_dir with
      | Some r => if capture_context_ tool then capture_execution_context r else r
      | None =>
          {| command := command; exit_code := -1; stdout_output := EmptyString;
             stderr_output := EmptyString; working_directory := work_dir;
             pwd_after_execution := EmptyString; success := false;
             error_message := "Failed to execute command: " ++ command;
             start_time := start; end_time := 0; execution_duration := 0 |}
      end in
    (set_timing result (now p 1), [shell_line tool command work_dir]).

End BashTool.

(** ** coordinator.h, coordinator.cpp: the coordinator

    The sources start no thread: the control flags are written by the
    coordinator's own methods only, and the model is sequential.  What is
    printed is not modelled; the outcome of [run] names the line it ends
    with. *)
Module Coordinator.
Import StdString Filesystem PolicyConfig TodoManager.

Inductive ExecutionState := STOPPED | RUNNING | PAUSED | CANCELLED.

Record t := {
  policy_settings : PolicySettings;       (* policy_checker_ *)
  todo_manager_ : TodoManager.t;
  always_approve_ : bool;
  chat_mode_ : bool;
  execution_state_ : ExecutionState;
  should_stop_execution_ : bool;
  should_pause_execution_ : bool
}.

Definition with_todo_manager (c : t) (m : TodoManager.t) : t :=
  {| policy_settings := policy_settings c; todo_manager_ := m;
     always_approve_ := always_approve_ c; chat_mode_ := chat_mode_ c;
     execution_state_ := execution_state_ c;
     should_stop_execution_ := should_stop_execution_ c;
     should_pause_execution_ := should_pause_execution_ c |}.

Definition with_always_approve (c : t) (b : bool) : t :=
  {| policy_settings := policy_settings c; todo_manager_ := todo_manager_ c;
     always_approve_ := b; chat_mode_ := chat_mode_ c;
     execution_state_ := execution_state_ c;
     should_stop_execution_ := should_stop_execution_ c;
     should_pause_execution_ := should_pause_execution_ c |}.

Definition with_chat_mode (c : t) (b : bool) : t :=
  {| policy_settings := policy_settings c; todo_manager_ := todo_manager_ c;
     always_approve_ := always_approve_ c; chat_mode_ := b;
     execution_state_ := execution_state_ c;
     should_stop_execution_ := should_stop_execution_ c;
     should_pause_execution_ := should_pause_execution_ c |}.

Definition with_control (c : t) (st : ExecutionState) (stop pause : bool) : t :=
  {| policy_settings := policy_settings c; todo_manager_ := todo_manager_ c;
     always_approve_ := always_approve_ c; chat_mode_ := chat_mode_ c;
     execution_state_ := st;
     should_stop_execution_ := stop;
     should_pause_execution_ := pause |}.

(** The collaborators of the coordinator, over the state [World] of what
    lies outside it.  [None] is a [std::exception] leaving the call. *)
Record Services (World : Type) := {
  request_plan : string -> World -> World * option WriteFileCommand.t;
  dry_run : WriteFileCommand.t -> World -> World * option DryRunResult.t;
  apply : WriteFileCommand.t -> World -> World * option ApplyResult.t;
  request_bash_execution : BashCommand.t -> World -> World * CommandResult.t;
  getline : World -> World * string;
  file_system : World -> FileSystem;
  clock : World -> Z
}.
Arguments request_plan {World}.
Arguments dry_run {World}.
Arguments apply {World}.
Arguments request_bash_execution {World}.
Arguments getline {World}.
Arguments file_system {World}.
Arguments clock {World}.

(** The decision of [get_user_confirmation] on the line read. *)
Definition confirm (c : t) (input : string) : bool * t :=
  match input with
  | String choice _ =>
      if Ascii.eqb choice "a" || Ascii.eqb choice "A" then (true, with_always_approve c true)
      else (Ascii.eqb choice "y" || Ascii.eqb choice "Y", c)
  | EmptyString => (false, c)
  end.

(** [Coordinator::pause_execution] *)
Definition pause_execution (c : t) : t :=
  match execution_state_ c with
  | RUNNING => with_control c PAUSED (should_stop_execution_ c) true
  | _ => c
  end.

(** [Coordinator::resume_execution] *)
Definition resume_execution (c : t) : t :=
  match execution_state_ c with
  | PAUSED => with_control c RUNNING (should_stop_execution_ c) false
  | _ => c
  end.

(** [Coordinator::stop_execution] *)
Definition stop_execution (c : t) : t :=
  match execution_state_ c with
  | RUNNING | PAUSED => with_control c STOPPED true (should_pause_execution_ c)
  | _ => c
  end.

(** [Coordinator::cancel_execution] *)
Definition cancel_execution (c : t) : t :=
  match execution_state_ c with
  | RUNNING | PAUSED => with_control c CANCELLED true (should_pause_execution_ c)
  | _ => c
  end.

Section WithServices.
Context {World : Type} (svc : Services World).

(** [Coordinator::get_user_confirmation] *)
Definition get_user_confirmation (c : t) (w : World) : bool * t * World :=
  let '(w, input) := getline svc w in
  let '(ok, c) := confirm c input in
  (ok, c, w).

(** The policy check before a file is written: [policy_checker_.is_allowed(path)]. *)
Definition policy_check (c : t) (w : World) (path : string) : option bool :=
  PolicyChecker.is_allowed_path (file_system svc w) (policy_settings c) path.

(** How [run] ends in plan mode. *)
Inductive RunOutcome :=
| Empty_path             (* "Error: LLM returned empty file path..." *)
| Unsupported_command    (* "Error: LLM returned unsupported command: ..." *)
| Policy_denied          (* "Policy Denied: File path '...' is not allowed." *)
| Dry_run_failed         (* "Dry run failed: ..." *)
| Cancelled              (* "Operation cancelled by user." *)
| Applied (r : ApplyResult.t)
| Error.                 (* "Error: ...", an exception caught *)

(** [Coordinator::run] with chat mode off. *)
Definition run_plan (c : t) (w : World) (user_prompt : string) : RunOutcome * t * World :=
  let '(w, plan) := request_plan svc user_prompt w in
  match plan with
  | None => (Error, c, w)
  | Some command =>
      if String.eqb (WriteFileCommand.path command) EmptyString then (Empty_path, c, w)
      else if negb (String.eqb (WriteFileCommand.command command) "WriteFile")
      then (Unsupported_command, c, w)
      else
        match policy_check c w (WriteFileCommand.path command) with
        | None => (Error, c, w)
        | Some false => (Policy_denied, c, w)
        | Some true =>
            let '(w, dry) := dry_run svc command w in
            match dry with
            | None => (Error, c, w)
            | Some dry_run_result =>
                if negb (DryRunResult.success dry_run_result) then (Dry_run_failed, c, w)
                else
                  let '(confirmed, c, w) :=
                    if always_approve_ c then (true, c, w) else get_user_confirmation c w in
                  if negb confirmed then (Cancelled, c, w)
                  else
                    let '(w, applied) := apply svc command w in
                    match applied with
                    | None => (Error, c, w)
                    | Some apply_result => (Applied apply_result, c, w)
                    end
            end
        end
  end.

(** The prompt built from a todo. *)
Definition prompt_of (todo : TodoItem) : string :=
  if String.eqb (description todo) EmptyString then title todo
  else title todo ++ " - " ++ description todo.

Definition bash_keywords : list string :=
  ["run"; "execute"; "build"; "compile"; "make"; "cmake"; "npm"; "yarn"; "pip";
   "install"; "test"; "cd "; "ls"; "pwd"; "mkdir"; "chmod"; "grep"; "find";
   "git "; "docker"; "curl"; "wget"; "tar"; "unzip"; "export"].

(** [Coordinator::should_execute_as_bash_command] *)
Definition should_execute_as_bash_command (prompt : string) : bool :=
  existsb (fun keyword => contains keyword (to_lower prompt)) bash_keywords.

(** The backward scan for the start of a script name: the number of
    bytes at the end of [before] that are neither a space nor a slash. *)
Fixpoint name_start (before : string) : nat :=
  match before with
  | EmptyString => 0
  | String c s' =>
      match find_first_of " /" s' with
      | Some _ => name_start s'
      | None => if Ascii.eqb c " " || Ascii.eqb c "/" then String.length s'
                else S (String.length s')
      end
  end.

(** The word from [pos] on, [skip] bytes of it taken unseen. *)
Definition word_at (prompt : string) (pos skip : nat) : string :=
  let end_pos :=
    match find_first_of (String " " (String "009" (String "010" EmptyString)))
            (drop (pos + skip) prompt) with
    | Some i => if Nat.leb (pos + skip) (String.length prompt) then pos + skip + i
                else String.length prompt
    | None => String.length prompt
    end in
  substr pos (end_pos - pos) prompt.

(** [Coordinator::extract_bash_command_from_prompt] *)
Definition extract_bash_command_from_prompt (prompt : string) : string :=
  let lower_prompt := to_lower prompt in
  match find "python3 " lower_prompt with
  | Some python_pos => word_at prompt python_pos 8
  | None =>
  match find "python " lower_prompt with
  | Some python_pos => word_at prompt python_pos 7
  | None =>
  if contains "python" lower_prompt || contains "script" lower_prompt then
    match find ".py" lower_prompt with
    | Some py_pos =>
        let start := py_pos - name_start (take py_pos lower_prompt) in
        "python3 " ++ substr start (py_pos - start + 3) prompt
    | None =>
        if contains "counting" lower_prompt then "python3 src/counting.py"
        else "python3 src/script.py"
    end
  else
  match find "run " lower_prompt with
  | Some pos =>
      let cmd := drop (pos + 4) prompt in
      match find_first_not_of (String " " (String "009" EmptyString)) cmd with
      | Some first => drop first cmd
      | None => cmd
      end
  | None =>
  match find "execute " lower_prompt with
  | Some pos =>
      let cmd := drop (pos + 8) prompt in
      if contains "python" cmd || contains "script" cmd then "python3 src/counting.py"
      else cmd
  | None =>
  if contains "make" lower_prompt then "make"
  else if contains "build" lower_prompt then "make"
  else if contains "test" lower_prompt then "make test"
  else if contains "npm install" lower_prompt then "npm install"
  else match find "git " lower_prompt with
       | Some pos => drop pos prompt
       | None => prompt
       end
  end end end end.

(** [Coordinator::execute_todo_as_bash_command]; the flag says whether
    the call returned ([true]) or raised ([false]). *)
Definition execute_todo_as_bash_command (ps : PolicySettings) (todo : TodoItem) (w : World)
  : World * bool :=
  let prompt := prompt_of todo in
  let bash_command := extract_bash_command_from_prompt prompt in
  if String.eqb bash_command EmptyString then (w, false)
  else
    let cmd := {| BashCommand.command := "execute"; BashCommand.bash_command := bash_command;
                  BashCommand.working_directory := EmptyString;
                  BashCommand.description := prompt;
                  BashCommand.request_execution := false |} in
    if negb (PolicyChecker.is_bash_command_allowed ps bash_command) then (w, false)
    else
      let '(w, result) := request_bash_execution svc cmd w in
      (w, CommandResult.success result).

(** The guarded block of [execute_todo_as_file_operation]: plan, policy
    check, dry run, apply. *)
Definition file_operation_steps (c : t) (todo : TodoItem) (w : World) : World * bool :=
  let '(w, plan) := request_plan svc (prompt_of todo) w in
  match plan with
  | None => (w, false)
  | Some command =>
      if String.eqb (WriteFileCommand.path command) EmptyString then (w, false)
      else
        match policy_check c w (WriteFileCommand.path command) with
        | Some true =>
            let '(w, dry) := dry_run svc command w in
            match dry with
            | None => (w, false)
            | Some dry_run_result =>
                if DryRunResult.success dry_run_result then
                  let '(w, applied) := apply svc command w in
                  match applied with
                  | Some result => (w, ApplyResult.success result)
                  | None => (w, false)
                  end
                else (w, false)
            end
        | _ => (w, false)
        end
  end.

(** [Coordinator::execute_todo_as_file_operation]: chat mode is off
    during the steps and restored after them, whether they raise or not. *)
Definition execute_todo_as_file_operation (c : t) (todo : TodoItem) (w : World)
  : t * World * bool :=
  let original_chat_mode := chat_mode_ c in
  let c := with_chat_mode c false in
  let '(w, ok) := file_operation_steps c todo w in
  (with_chat_mode c original_chat_mode, w, ok).

(** [Coordinator::execute_single_todo] *)
Definition execute_single_todo (c : t) (todo : TodoItem) (w : World) : t * World * bool :=
  if should_execute_as_bash_command (prompt_of todo)
  then let '(w, ok) := execute_todo_as_bash_command (policy_settings c) todo w in (c, w, ok)
  else execute_todo_as_file_operation c todo w.

(** The bracket every execution path puts around one item: mark it in
    progress, execute it, mark it completed when the execution returned. *)
Definition execute_item (c : t) (todo : TodoItem) (w : World) : t * World * bool :=
  let c := with_todo_manager c (snd (mark_in_progress (clock svc w) (todo_manager_ c) (id todo))) in
  let '(c, w, ok) := execute_single_todo c todo w in
  if ok
  then (with_todo_manager c (snd (mark_completed (clock svc w) (todo_manager_ c) (id todo))), w, true)
  else (c, w, false).

(** The loop of [execute_todos_until] and [execute_todos_range]: it
    leaves at the first item that raises. *)
Fixpoint execute_until_failure (todos_to_execute : list TodoItem) (c : t) (w : World)
  : t * World :=
  match todos_to_execute with
  | [] => (c, w)
  | todo :: rest =>
      let '(c, w, ok) := execute_item c todo w in
      if ok then execute_until_failure rest c w else (c, w)
  end.

(** [Coordinator::execute_todos_until] *)
Definition execute_todos_until (c : t) (w : World) (stop_id : Z) : t * World :=
  execute_until_failure (get_todos_until (todo_manager_ c) stop_id) c w.

(** [Coordinator::execute_todos_range] *)
Definition execute_todos_range (c : t) (w : World) (start_id end_id : Z) : t * World :=
  execute_until_failure (get_todos_range (todo_manager_ c) start_id end_id) c w.

(** The loop of [execute_todos].  [None] is the pause wait that never
    ends: paused, not stopped, and nobody left to resume. *)
Fixpoint execute_loop (pending_todos : list TodoItem) (c : t) (w : World) : option (t * World) :=
  match pending_todos with
  | [] => Some (c, w)
  | todo :: rest =>
      if should_stop_execution_ c then Some (c, w)
      else
        let paused :=
          should_pause_execution_ c &&
          match execution_state_ c with PAUSED => true | _ => false end in
        if paused then None
        else
          let '(c, w, _) := execute_item c todo w in
          execute_loop rest c w
  end.

(** [Coordinator::execute_todos] *)
Definition execute_todos (c : t) (w : World) : option (t * World) :=
  match get_pending_todos (todo_manager_ c) with
  | [] => Some (c, w)
  | pending_todos =>
      match execute_loop pending_todos (with_control c RUNNING false false) w with
      | Some (c, w) => Some (with_control c STOPPED false false, w)
      | None => None
      end
  end.

(** [Coordinator::execute_next_todo] *)
Definition execute_next_todo (c : t) (w : World) : t * World :=
  match get_next_pending (todo_manager_ c) with
  | None => (c, w)
  | Some next => let '(c, w, _) := execute_item c next w in (c, w)
  end.

End WithServices.

End Coordinator.

(** ** [std::to_string] and [std::stoi] on [int] *)
Module StdConv.
Import StdString.

(** [std::to_string(n)] *)
Definition to_string (n : Z) : string := Json.Z_to_string n.

(** [isspace] in the C locale. *)
Definition isspace (c : ascii) : bool :=
  let n := nat_of_ascii c in Nat.eqb n 32 || (Nat.leb 9 n && Nat.leb n 13).

Fixpoint skip_spaces (s : string) : string :=
  match s with
  | String c s' => if isspace c then skip_spaces s' else s
  | EmptyString => s
  end.

(** [std::stoi(s)]: white space, an optional sign, decimal digits; what
    follows the digits is ignored.  [None] is [std::invalid_argument] (no
    digit) or [std::out_of_range] (not an [int]). *)
Definition stoi (s : string) : option Z :=
  let s := skip_spaces s in
  let '(negative, s) :=
    match s with
    | String c s' =>
        if Ascii.eqb c "-" then (true, s')
        else if Ascii.eqb c "+" then (false, s')
        else (false, s)
    | EmptyString => (false, s)
    end in
  match Json.span_digits s with
  | (EmptyString, _) => None
  | (digits, _) =>
      let v := Z.of_N (Json.digits_value 0 digits) in
      let n := if negative then (- v)%Z else v in
      if Z.leb (-2147483648) n && Z.leb n 2147483647 then Some n else None
  end.

End StdConv.

(** ** cli_interface.cpp: the command line of the interactive mode

    What a command does is modelled by the call it makes. *)
Module CLIInterface.
Import StdString StdConv.

(** The call [handle_do_command] makes. *)
Inductive DoAction :=
| Execute_todos                              (* [coordinator_.execute_todos()] *)
| Execute_next_todo                          (* [coordinator_.execute_next_todo()] *)
| Execute_todos_until (stop_id : Z)
| Usage_until                                (* "Usage: /do until <id>" *)
| Execute_todos_range (start_id end_id : Z)
| Execute_todo (todo_id : Z)                 (* the todo with this id, when it is pending *)
| Do_error.                                  (* "Do error: ...", an exception caught *)

Definition blanks : string := String " " (String "009" EmptyString).

(** The arguments of a do command: what follows the two bytes of "do"
    and the blanks after them. *)
Definition do_arguments (command : string) : string :=
  let args := drop 2 command in
  match find_first_not_of blanks args with
  | Some start => drop start args
  | None => EmptyString
  end.

(** [CLIInterface::handle_do_command] *)
Definition handle_do_command (command : string) : DoAction :=
  let args := do_arguments command in
  if String.eqb args EmptyString || String.eqb args "all" then Execute_todos
  else if String.eqb args "next" then Execute_next_todo
  else if String.eqb (substr 0 5 args) "until" then
    let id_str := drop 5 args in
    match find_first_not_of blanks id_str with
    | Some start =>
        match stoi (drop start id_str) with
        | Some stop_id => Execute_todos_until stop_id
        | None => Do_error
        end
    | None => Usage_until
    end
  else
    match find "-" args with
    | Some dash_pos =>
        match stoi (substr 0 dash_pos args) with
        | None => Do_error
        | Some start_id =>
            match stoi (drop (dash_pos + 1) args) with
            | None => Do_error
            | Some end_id => Execute_todos_range start_id end_id
            end
        end
    | None =>
        match stoi args with
        | Some todo_id => Execute_todo todo_id
        | None => Do_error
        end
    end.

Section WithServices.
Context {World : Type} (svc : Coordinator.Services World).

(** The call made.  A single todo goes through the same bracket as an
    item of a batch; an exception that leaves [execute_single_todo] is
    caught at the end of [handle_do_command].  [None] as for
    [Coordinator.execute_todos]. *)
Definition perform (action : DoAction) (c : Coordinator.t) (w : World)
  : option (Coordinator.t * World) :=
  match action with
  | Execute_todos => Coordinator.execute_todos svc c w
  | Execute_next_todo => Some (Coordinator.execute_next_todo svc c w)
  | Execute_todos_until stop_id => Some (Coordinator.execute_todos_until svc c w stop_id)
  | Execute_todos_range start_id end_id =>
      Some (Coordinator.execute_todos_range svc c w start_id end_id)
  | Execute_todo todo_id =>
      match TodoManager.get_todo (Coordinator.todo_manager_ c) todo_id with
      | Some todo =>
          if TodoManager.status_eqb (TodoManager.status todo) TodoManager.PENDING
          then let '(c, w, _) := Coordinator.execute_item svc c todo w in Some (c, w)
          else Some (c, w)
      | None => Some (c, w)
      end
  | Usage_until | Do_error => Some (c, w)
  end.

End WithServices.

(** The call [handle_slash_command] makes. *)
Inductive SlashAction :=
| Show_help
| Show_status
| Show_debug
| Exit_loop                                  (* [running_ = false] *)
| Switch_provider (provider_name : string)
| Show_todo_list
| Do (action : DoAction)
| Pause_execution
| Resume_execution
| Stop_execution
| Cancel_execution
| Show_execution_status
| Show_conversation_history
| Session (arguments : string)
| Unknown_command.

(** [CLIInterface::handle_slash_command] *)
Definition handle_slash_command (command : string) : SlashAction :=
  if String.eqb command "help" || String.eqb command "h" then Show_help
  else if String.eqb command "status" then Show_status
  else if String.eqb command "debug" then Show_debug
  else if String.eqb command "exit" || String.eqb command "quit" || String.eqb command "q"
  then Exit_loop
  else if String.eqb command "gemini" || String.eqb command "claude"
          || String.eqb command "chatgpt" || String.eqb command "mistral"
  then Switch_provider command
  else if String.eqb command "todo" then Show_todo_list
  else if String.eqb (substr 0 2 command) "do" then Do (handle_do_command command)
  else if String.eqb command "pause" then Pause_execution
  else if String.eqb command "resume" then Resume_execution
  else if String.eqb command "stop" then Stop_execution
  else if String.eqb command "cancel" then Cancel_execution
  else if String.eqb command "status" then Show_execution_status
  else if String.eqb command "history" then Show_conversation_history
  else if String.eqb (substr 0 7 command) "session" then Session (drop 7 command)
  else Unknown_command.

(** What [handle_command] makes of a line. *)
Inductive LineAction :=
| Slash (action : SlashAction)
| Chat (input : string).                     (* the line goes to the model *)

(** [CLIInterface::handle_command] *)
Definition handle_command (input : string) : LineAction :=
  match input with
  | String c rest => if Ascii.eqb c "/" then Slash (handle_slash_command rest) else Chat input
  | EmptyString => Chat input
  end.

End CLIInterface.

(** ** bash_tool_service.cpp: the service that runs the commands

    The requests and the responses are JSON texts.  Where an exception
    of the JSON library is caught, its text goes into the response; the
    texts of the library are a parameter, [what]. *)
Module BashToolService.
Import StdString Json.

(** The exceptions of the library that the handlers meet. *)
Inductive Raised :=
| Parse_error (text : string)       (* parse_error: the text is no JSON *)
| Type_error_302 (j : json)         (* a conversion from a value of another type *)
| Type_error_305 (j : json)         (* a key looked up in a value that is no object *)
| Type_error_306 (j : json)         (* [value] on a value that is no object *)
| Type_error_316 (j : json).        (* [dump] of a string that is not UTF-8 *)

Record t := {
  bash_tool_ : BashTool.t;
  current_working_directory_ : string
}.

(** [BashToolService()] *)
Definition init (p : BashTool.Platform) : t :=
  {| bash_tool_ := BashTool.init;
     current_working_directory_ := BashTool.current_directory p |}.

Definition with_directory (service : t) (directory : string) : t :=
  {| bash_tool_ := bash_tool_ service; current_working_directory_ := directory |}.

(** What a handler leaves: the service, the command lines handed to the
    shell, and the response, or ([inl]) the text of the exception that
    left the handler. *)
Record Handled := {
  service_after : t;
  shell_lines : list string;
  reply : string + string
}.

(** [j.empty()] *)
Definition empty (j : json) : bool :=
  match j with
  | JNull => true
  | JArray [] => true
  | JObject [] => true
  | _ => false
  end.

Section Wording.
Variable what : Raised -> string.

(** [j.dump()], with the exception it raises. *)
Definition dump_or_raise (j : json) : string + string :=
  match dump j with
  | Some text => inr text
  | None => inl (what (Type_error_316 j))
  end.

(** Conversion to [std::string], with the exception it raises. *)
Definition to_string_or_raise (j : json) : string + string :=
  match j with
  | JString s => inr s
  | _ => inl (what (Type_error_302 j))
  end.

(** [BashToolService::create_error_response] *)
Definition create_error_response (error_message : string) : string + string :=
  dump_or_raise
    (object_of [("success", JBool false); ("error_message", JString error_message)]).

(** The response of [handle_execute_command] for a result. *)
Definition response_of (result : CommandResult.t) : json :=
  object_of
    [("success", JBool (CommandResult.success result));
     ("exit_code", JInteger (CommandResult.exit_code result));
     ("stdout_output", JString (CommandResult.stdout_output result));
     ("stderr_output", JString (CommandResult.stderr_output result));
     ("working_directory_before", JString (CommandResult.working_directory result));
     ("working_directory_after", JString (CommandResult.pwd_after_execution result));
     ("execution_duration_ms", JInteger (CommandResult.execution_duration result))].

(** [BashToolService::handle_execute_command].  The request is read
    through the [const] subscript: a key that is not there is undefined
    behaviour. *)
Definition handle_execute_command (service : t) (p : BashTool.Platform) (request : json)
  : outcome Handled :=
  let caught (service : t) (lines : list string) (e : string) :=
    Returns {| service_after := service; shell_lines := lines;
               reply := create_error_response ("Command execution error: " ++ e) |} in
  match request with
  | JObject m =>
      match StdMap.find "command" m with
      | None => Undefined
      | Some jc =>
          match to_string_or_raise jc with
          | inl e => caught service [] e
          | inr command =>
              let chosen :=
                match StdMap.find "working_directory" m with
                | Some jw => if empty jw then inr (current_working_directory_ service)
                             else to_string_or_raise jw
                | None => inr (current_working_directory_ service)
                end in
              match chosen with
              | inl e => caught service [] e
              | inr working_dir =>
                  let '(result, lines) :=
                    BashTool.execute_command (bash_tool_ service) p command working_dir in
                  let service :=
                    if String.eqb (CommandResult.pwd_after_execution result) EmptyString
                    then service
                    else with_directory service (CommandResult.pwd_after_execution result) in
                  match dump_or_raise (response_of result) with
                  | inr text =>
                      Returns {| service_after := service; shell_lines := lines;
                                 reply := inr text |}
                  | inl e => caught service lines e
                  end
              end
          end
      end
  | _ => caught service [] (what (Type_error_305 request))
  end.

(** [BashToolService::handle_get_pwd] *)
Definition handle_get_pwd (service : t) : Handled :=
  {| service_after := service; shell_lines := [];
     reply := dump_or_raise
                (object_of [("success", JBool true);
                            ("working_directory",
                             JString (current_working_directory_ service))]) |}.

(** [BashToolService::handle_set_pwd] *)
Definition handle_set_pwd (service : t) (request : json) : outcome Handled :=
  let caught (service : t) (e : string) :=
    Returns {| service_after := service; shell_lines := [];
               reply := create_error_response ("Set working directory error: " ++ e) |} in
  match request with
  | JObject m =>
      match StdMap.find "working_directory" m with
      | None => Undefined
      | Some jw =>
          match to_string_or_raise jw with
          | inl e => caught service e
          | inr new_directory =>
              let service := with_directory service new_directory in
              match dump_or_raise
                      (object_of [("success", JBool true);
                                  ("working_directory", JString new_directory)]) with
              | inr text =>
                  Returns {| service_after := service; shell_lines := []; reply := inr text |}
              | inl e => caught service e
              end
          end
      end
  | _ => caught service (what (Type_error_305 request))
  end.

(** The subscript [request_json["operation"]] on the parsed request,
    which is not [const]: null becomes an object, and a key that is not
    there is added with the value null.  Next to the value found: the
    request after the subscript. *)
Definition operation_of (request_json : json) : string + (json * json) :=
  match request_json with
  | JNull => inr (JNull, JObject [("operation", JNull)])
  | JObject m =>
      match StdMap.find "operation" m with
      | Some v => inr (v, request_json)
      | None => inr (JNull, JObject (StdMap.insert "operation" JNull m))
      end
  | _ => inl (what (Type_error_305 request_json))
  end.

(** [BashToolService::handle_request] *)
Definition handle_request (service : t) (p : BashTool.Platform) (request_data : string)
  : outcome Handled :=
  let caught (e : string) :=
    Returns {| service_after := service; shell_lines := [];
               reply := create_error_response ("Request handling error: " ++ e) |} in
  match parse request_data with
  | None => caught (what (Parse_error request_data))
  | Some request_json =>
      match operation_of request_json with
      | inl e => caught e
      | inr (v, request_json) =>
          match to_string_or_raise v with
          | inl e => caught e
          | inr operation =>
              let handled :=
                if String.eqb operation "execute"
                then handle_execute_command service p request_json
                else if String.eqb operation "get_pwd" then Returns (handle_get_pwd service)
                else if String.eqb operation "set_pwd" then handle_set_pwd service request_json
                else Returns {| service_after := service; shell_lines := [];
                                reply := inl ("Unknown operation: " ++ operation) |} in
              match handled with
              | Returns h =>
                  match reply h with
                  | inr _ => Returns h
                  | inl e =>
                      Returns {| service_after := service_after h;
                                 shell_lines := shell_lines h;
                                 reply := create_error_response
                                            ("Request handling error: " ++ e) |}
                  end
              | other => other
              end
          end
      end
  end.

(** The function [handle_request] of the service loop: the service
    after the request, the command lines handed to the shell, and the
    response that is sent. *)
Definition serve (service : t) (p : BashTool.Platform) (request_data : string)
  : outcome (t * list string * string) :=
  match handle_request service p request_data with
  | Returns h =>
      Returns (service_after h, shell_lines h,
               match reply h with
               | inr response => response
               | inl e =>
                   "{" ++ quote "success" ++ ": false, " ++ quote "error_message" ++ ": "
                   ++ quote e ++ "}"
               end)
  | Throws => Throws
  | Not_modelled => Not_modelled
  | Undefined => Undefined
  end.

End Wording.

End BashToolService.

(** ** coordinator.cpp: the coordinator's end of the bash tool's wire *)
Module BashWire.
Import StdString Json BashToolService.

(** What becomes of a request on the socket: [nng_send] fails,
    [nng_recv] fails (each with the text of [nng_strerror]), or a
    response arrives. *)
Inductive Exchange :=
| Send_failed (reason : string)
| Receive_failed (reason : string)
| Received (response_str : string).

(** A result that reports a failure of the exchange itself.  The source
    leaves the duration of such a result unset; the model holds 0. *)
Definition failure (stderr_output : string) : CommandResult.t :=
  {| CommandResult.command := EmptyString; CommandResult.exit_code := -1;
     CommandResult.stdout_output := EmptyString;
     CommandResult.stderr_output := stderr_output;
     CommandResult.working_directory := EmptyString;
     CommandResult.pwd_after_execution := EmptyString;
     CommandResult.success := false; CommandResult.error_message := EmptyString;
     CommandResult.start_time := 0; CommandResult.end_time := 0;
     CommandResult.execution_duration := 0 |}.

Section Wording.
Variable what : Raised -> string.

(** [j.value(key, default)] for a default of type [int]. *)
Definition value_int (j : json) (key : string) (default : Z) : string + outcome Z :=
  match j with
  | JObject m =>
      match StdMap.find key m with
      | None => inr (Returns default)
      | Some v =>
          match get_integer 32 v with
          | Throws => inl (what (Type_error_302 v))
          | read => inr read
          end
      end
  | _ => inl (what (Type_error_306 j))
  end.

(** [j.value(key, default)] for a default that is a string. *)
Definition value_string (j : json) (key : string) (default : string) : string + string :=
  match j with
  | JObject m =>
      match StdMap.find key m with
      | None => inr default
      | Some (JString s) => inr s
      | Some v => inl (what (Type_error_302 v))
      end
  | _ => inl (what (Type_error_306 j))
  end.

(** [j.value(key, default)] for a default of type [bool]. *)
Definition value_bool (j : json) (key : string) (default : bool) : string + bool :=
  match j with
  | JObject m =>
      match StdMap.find key m with
      | None => inr default
      | Some (JBool b) => inr b
      | Some v => inl (what (Type_error_302 v))
      end
  | _ => inl (what (Type_error_306 j))
  end.

(** The request [request_bash_execution] sends. *)
Definition request_of (current_directory : string) (command : BashCommand.t) : json :=
  object_of
    [("operation", JString "execute");
     ("command", JString (BashCommand.bash_command command));
     ("working_directory",
      JString (if String.eqb (BashCommand.working_directory command) EmptyString
               then current_directory
               else BashCommand.working_directory command))].

(** What [request_bash_execution] makes of the response: the fields are
    read in this order, and an exception thrown on the way is caught at
    the end of the function. *)
Definition result_of (command : BashCommand.t) (response_json : json)
  : outcome CommandResult.t :=
  let caught (e : string) := Returns (failure ("Bash execution error: " ++ e)) in
  match value_int response_json "exit_code" (-1) with
  | inl e => caught e
  | inr (Returns exit_code) =>
  match value_string response_json "stdout_output" EmptyString with
  | inl e => caught e
  | inr stdout_output =>
  match value_string response_json "stderr_output" EmptyString with
  | inl e => caught e
  | inr stderr_output =>
  match value_string response_json "working_directory_before" EmptyString with
  | inl e => caught e
  | inr working_directory =>
  match value_string response_json "working_directory_after" EmptyString with
  | inl e => caught e
  | inr pwd_after_execution =>
  match value_bool response_json "success" false with
  | inl e => caught e
  | inr success =>
      let error :=
        if contains_key response_json "error_message"
        then value_string response_json "error_message" EmptyString
        else inr stderr_output in
      match error with
      | inl e => caught e
      | inr stderr_output =>
          Returns
            {| CommandResult.command := BashCommand.bash_command command;
               CommandResult.exit_code := exit_code;
               CommandResult.stdout_output := stdout_output;
               CommandResult.stderr_output := stderr_output;
               CommandResult.working_directory := working_directory;
               CommandResult.pwd_after_execution := pwd_after_execution;
               CommandResult.success := success;
               CommandResult.error_message := EmptyString;
               CommandResult.start_time := 0; CommandResult.end_time := 0;
               CommandResult.execution_duration := 0 |}
      end
  end end end end end
  | inr Throws => Throws
  | inr Not_modelled => Not_modelled
  | inr Undefined => Undefined
  end.

(** [Coordinator::request_bash_execution]; [bash_socket_] is [None] when
    the socket was not initialized, [current_directory] is the working
    directory of the coordinator's process. *)
Definition request_bash_execution (bash_socket_ : option (string -> Exchange))
    (current_directory : string) (command : BashCommand.t) : outcome CommandResult.t :=
  match bash_socket_ with
  | None => Returns (failure "Bash socket not initialized")
  | Some exchange =>
      match dump (request_of current_directory command) with
      | None =>
          Returns (failure ("Bash execution error: "
                            ++ what (Type_error_316 (request_of current_directory command))))
      | Some request_json =>
          match exchange request_json with
          | Send_failed reason => Returns (failure ("Failed to send bash command: " ++ reason))
          | Receive_failed reason =>
              Returns (failure ("Failed to receive bash response: " ++ reason))
          | Received response_str =>
              match parse response_str with
              | None =>
                  Returns (failure ("Bash execution error: " ++ what (Parse_error response_str)))
              | Some response_json => result_of command response_json
              end
          end
      end
  end.

End Wording.

End BashWire.
(** ** Concrete inputs used by the examples of Part II *)
Module Scenario.
Import StdString Filesystem PolicyConfig.

Definition q (s : string) : string := String "034" (s ++ String "034" EmptyString).

(** A project directory in which nothing but the directory itself exists. *)
Definition project_fs : FileSystem :=
  {| current_path := "/home/user/project";
     canonical := fun p => if String.eqb p "/home/user/project" then Some p else None |}.

(** The default policy, except that files may be created under [src/]
    only. *)
Definition create_in_src_only : PolicySettings :=
  {| global := default_global;
     tools :=
       StdMap.insert "file_tool"
         {| create := mkPolicy ["src/"] true;
            read := read default_file_tool;
            update := update default_file_tool;
            delete_op := delete_op default_file_tool |}
         (tools default_settings) |}.

(** The world outside the coordinator: the log of the calls it made. *)
Definition World : Type := list string.

(** A model that plans a write to [etc/passwd] when asked to write
    secrets and to [src/notes.txt] otherwise, a file service and a shell
    that succeed, and a user who answers "y". *)
Definition services : Coordinator.Services World :=
  {| Coordinator.request_plan := fun prompt w =>
       (List.app w ["plan: " ++ prompt],
        Some {| WriteFileCommand.command := "WriteFile";
                WriteFileCommand.path :=
                  if String.eqb prompt "Write secrets" then "etc/passwd" else "src/notes.txt";
                WriteFileCommand.content := "hi";
                WriteFileCommand.request_execution := false |});
     Coordinator.dry_run := fun cmd w =>
       (List.app w ["dry run: " ++ WriteFileCommand.path cmd],
        Some {| DryRunResult.description := "Will create new file";
                DryRunResult.success := true;
                DryRunResult.error_message := EmptyString |});
     Coordinator.apply := fun cmd w =>
       (List.app w ["apply: " ++ WriteFileCommand.path cmd],
        Some {| ApplyResult.description := "Created file";
                ApplyResult.success := true;
                ApplyResult.error_message := EmptyString |});
     Coordinator.request_bash_execution := fun cmd w =>
       (List.app w ["bash: " ++ BashCommand.bash_command cmd],
        {| CommandResult.command := BashCommand.bash_command cmd;
           CommandResult.exit_code := 0;
           CommandResult.stdout_output := EmptyString;
           CommandResult.stderr_output := EmptyString;
           CommandResult.working_directory := EmptyString;
           CommandResult.pwd_after_execution := EmptyString;
           CommandResult.success := true;
           CommandResult.error_message := EmptyString;
           CommandResult.start_time := 0;
           CommandResult.end_time := 0;
           CommandResult.execution_duration := 0 |});
     Coordinator.getline := fun w => (w, "y");
     Coordinator.file_system := fun _ => project_fs;
     Coordinator.clock := fun w => Z.of_nat (List.length w) |}.

(** A coordinator as constructed, with the given policy and todo store. *)
Definition coordinator (ps : PolicySettings) (m : TodoManager.t) : Coordinator.t :=
  {| Coordinator.policy_settings := ps;
     Coordinator.todo_manager_ := m;
     Coordinator.always_approve_ := false;
     Coordinator.chat_mode_ := true;
     Coordinator.execution_state_ := Coordinator.STOPPED;
     Coordinator.should_stop_execution_ := false;
     Coordinator.should_pause_execution_ := false |}.

(** A platform whose shell prints a greeting and the marker line. *)
Definition platform : BashTool.Platform :=
  {| BashTool.current_directory := "/home/user/project";
     BashTool.now := fun k => (1000000 * Z.of_nat k)%Z;
     BashTool.popen := fun _ =>
       Some ("hello" ++ String "010" ("__PWD_MARKER__/home/user/project" ++ String "010" EmptyString),
             0%Z) |}.




(** [add_todo] on a title that is not empty. *)
Definition added (now : Z) (title : string) (m : TodoManager.t) : TodoManager.t :=
  match TodoManager.add_todo now m title EmptyString with
  | Some (_, m') => m'
  | None => m
  end.

(** Three pending todos, ids 1 to 3, created at ticks 10, 11 and 12. *)
Definition three_todos : TodoManager.t :=
  added 12 "Write tests" (added 11 "Write notes" (added 10 "Write draft" TodoManager.init)).

(** Two pending todos: the model's plan for the first is refused by the
    policy, the plan for the second is not. *)
Definition secrets_then_notes : TodoManager.t :=
  added 11 "Write notes" (added 10 "Write secrets" TodoManager.init).

(** A write-file command whose content is the single byte 0xFF. *)
Definition write_byte_ff : WriteFileCommand.t :=
  {| WriteFileCommand.command := "WriteFile";
     WriteFileCommand.path := "src/a.bin";
     WriteFileCommand.content := String "255" EmptyString;
     WriteFileCommand.request_execution := false |}.

(** A write-file command with a quote, a backslash, a line feed and a
    two-byte character in its content. *)
Definition write_notes : WriteFileCommand.t :=
  {| WriteFileCommand.command := "WriteFile";
     WriteFileCommand.path := "src/notes.txt";
     WriteFileCommand.content :=
       "say " ++ q "hi" ++ " \ " ++ String "010" (String "195" (String "169" EmptyString));
     WriteFileCommand.request_execution := true |}.


Definition plan : WriteFileCommand.t :=
  {| WriteFileCommand.command := "WriteFile";
     WriteFileCommand.path := "src/a.txt";
     WriteFileCommand.content := "hi";
     WriteFileCommand.request_execution := false |}.

Definition line_feed : string := String "010" EmptyString.







(** A command whose two words are separated by a tab. *)
Definition make_tab_all : string := "make" ++ String "009" "all".

End Scenario.

(** ** The wording of the specification, where a claim is compared with it *)
Module Spec.

Definition is_whitespace (c : ascii) : bool :=
  let n := nat_of_ascii c in Nat.eqb n 32 || (Nat.leb 9 n && Nat.leb n 13).

Fixpoint skip_whitespace (s : string) : string :=
  match s with
  | String c s' => if is_whitespace c then skip_whitespace s' else s
  | EmptyString => s
  end.

Fixpoint up_to_whitespace (s : string) : string :=
  match s with
  | String c s' => if is_whitespace c then EmptyString else String c (up_to_whitespace s')
  | EmptyString => s
  end.

(** "the first whitespace-delimited token" of a command *)
Definition first_whitespace_token (command : string) : string :=
  up_to_whitespace (skip_whitespace command).

End Spec.


(** ** A reference run, against which the batch loop is compared *)
Module Reference.
Import TodoManager.

Section WithServices.
Context {World : Type} (svc : Coordinator.Services World).

(** What executing one todo does to the world, and whether it returned. *)
Definition effect_of (c : Coordinator.t) (todo : TodoItem) (w : World) : World * bool :=
  let '(_, w', ok) := Coordinator.execute_single_todo svc c todo w in (w', ok).

(** Every item of the list is executed, in order, whatever became of the
    items before it; next to each item whether its execution returned,
    and the world after the last. *)
Fixpoint attempt_all (c : Coordinator.t) (l : list TodoItem) (w : World)
  : list (TodoItem * bool) * World :=
  match l with
  | [] => ([], w)
  | todo :: rest =>
      let '(_, w1, ok) := Coordinator.execute_single_todo svc c todo w in
      let '(r, w2) := attempt_all c rest w1 in
      ((todo, ok) :: r, w2)
  end.

(** The items of the list are executed in order up to and with the first
    whose execution does not return; nothing is done for the items after
    it. *)
Fixpoint attempt_until_failure (c : Coordinator.t) (l : list TodoItem) (w : World)
  : list (TodoItem * bool) * World :=
  match l with
  | [] => ([], w)
  | todo :: rest =>
      let '(_, w1, ok) := Coordinator.execute_single_todo svc c todo w in
      if ok
      then let '(r, w2) := attempt_until_failure c rest w1 in ((todo, true) :: r, w2)
      else ([(todo, false)], w1)
  end.

End WithServices.



(** The text [dump] writes for a write-file command whose three strings
    escape to [e1], [e2] and [e3]. *)
Definition command_text (e1 e2 e3 : string) (b : bool) : string :=
  String "{"
    (Json.quote "command" ++ String ":" (Json.quote e1 ++ String ","
      (Json.quote "content" ++ String ":" (Json.quote e3 ++ String ","
        (Json.quote "path" ++ String ":" (Json.quote e2 ++ String ","
          (Json.quote "request_execution" ++ String ":"
             ((if b then "true" else "false") ++ "}")))))))).

End Reference.

(** ** The todo store as its operations build it *)
Module StoreInvariant.
Import TodoManager.
Local Open Scope Z_scope.

(** The ids of the store are pairwise distinct, and the counter is
    positive and above each of them. *)
Definition store_ok (m : TodoManager.t) : Prop :=
  NoDup (map id (todos_ m)) /\
  (forall item, In item (todos_ m) -> id item < next_id_ m) /\
  1 <= next_id_ m.

(** The stores the calls build from the empty one, in any order;
    [adds] counts the ids [add_todo] has handed out on the way.
    ([mark_in_progress], [mark_completed] and [mark_pending] are calls of
    [update_todo].) *)
Inductive built : Z -> TodoManager.t -> Prop :=
| Built_init : built 0 init
| Built_add adds now m title description i m' :
    built adds m ->
    add_todo now m title description = Some (i, m') ->
    built (adds + 1) m'
| Built_update adds now m i new_title new_description new_status :
    built adds m ->
    built adds (snd (update_todo now m i new_title new_description new_status))
| Built_delete adds m i : built adds m -> built adds (snd (delete_todo m i))
| Built_clear adds m : built adds m -> built adds (clear_todos m).

(** The largest [int]. *)
Definition INT_MAX : Z := 2147483647.

(** The items are in the order of their creation ticks, no two at the
    same tick. *)
Fixpoint created_in_order (l : list TodoItem) : Prop :=
  match l with
  | [] => True
  | x :: l' => (forall y, In y l' -> created_at x < created_at y) /\ created_in_order l'
  end.

(** Sorted by creation tick. *)
Fixpoint sorted_by_creation (l : list TodoItem) : Prop :=
  match l with
  | [] => True
  | x :: l' => (forall y, In y l' -> created_at x <= created_at y) /\ sorted_by_creation l'
  end.

End StoreInvariant.

(** ** The rules [PolicySettings::validate] enforces *)
Module PolicyRules.
Import StdString PolicyConfig.

(** A directory entry [validate] accepts: empty, or ending in a slash and
    without two periods in a row. *)
Definition directory_ok (dir : string) : Prop :=
  dir = EmptyString \/
  (last_char dir = Some "/"%char /\ contains ".." dir = false).

Definition operation_ok (p : OperationPolicy) : Prop :=
  forall dir, In dir (allowed_directories p) -> directory_ok dir.

Definition tool_ok (entry : string * ToolPolicy) : Prop :=
  fst entry <> EmptyString /\
  operation_ok (create (snd entry)) /\ operation_ok (read (snd entry)) /\
  operation_ok (update (snd entry)) /\ operation_ok (delete_op (snd entry)).

Definition settings_ok (s : PolicySettings) : Prop :=
  (forall ext, In ext (blocked_extensions (global s)) -> starts_with "." ext = true) /\
  (1 <= max_file_size_mb (global s) <= 1000)%N /\
  (forall entry, In entry (tools s) -> tool_ok entry).

(** The name of an operation in the policy document. *)
Definition operation_name (op : Operation) : string :=
  match op with
  | CREATE => "create"
  | READ => "read"
  | UPDATE => "update"
  | DELETE => "delete"
  end.

(** No slash and no period. *)
Fixpoint plain_name (s : string) : bool :=
  match s with
  | EmptyString => true
  | String c s' => negb (Ascii.eqb c "/") && negb (Ascii.eqb c ".") && plain_name s'
  end.

(** No slash. *)
Fixpoint no_slash (s : string) : bool :=
  match s with
  | EmptyString => true
  | String c s' => negb (Ascii.eqb c "/") && no_slash s'
  end.

End PolicyRules.

(** ** Batches of todos *)
Module Batch.
Import TodoManager Coordinator Reference.

(** Nothing is running and nothing is paused. *)
Definition idle (c : Coordinator.t) : Prop :=
  execution_state_ c <> RUNNING /\ execution_state_ c <> PAUSED.

Section WithServices.
Context {World : Type} (svc : Services World).

(** [result] is what comes of executing [selected] from [c] and [w] and
    leaving at the first failure: the items split into those done, at
    most one that failed, and the rest; the services were called for the
    done and the failed items only, in order; the done items are
    completed, the failed one is in progress, and every other todo of the
    store, the rest among them, is as it was. *)
Definition stops_at_first_failure (c : Coordinator.t) (w : World)
    (selected : list TodoItem) (result : Coordinator.t * World) : Prop :=
  exists done failed rest : list TodoItem,
    selected = (done ++ failed ++ rest)%list /\
    (List.length failed <= 1)%nat /\
    (failed = [] -> rest = []) /\
    fst (attempt_until_failure svc c selected w)
      = (map (fun t => (t, true)) done ++ map (fun t => (t, false)) failed)%list /\
    snd result = snd (attempt_until_failure svc c selected w) /\
    (forall t, In t done ->
       exists it, get_todo (todo_manager_ (fst result)) (id t) = Some it /\
                  status it = COMPLETED) /\
    (forall t, In t failed ->
       exists it, get_todo (todo_manager_ (fst result)) (id t) = Some it /\
                  status it = IN_PROGRESS) /\
    (forall t, In t rest -> get_todo (todo_manager_ (fst result)) (id t) = Some t) /\
    (forall j, ~ In j (map id (done ++ failed)%list) ->
       get_todo (todo_manager_ (fst result)) j = get_todo (todo_manager_ c) j).

End WithServices.

End Batch.

(** ** The words of a command line *)
Module CommandLine.

(** Spaces and tabs only. *)
Fixpoint blank_run (s : string) : bool :=
  match s with
  | EmptyString => true
  | String c s' => (Ascii.eqb c " " || Ascii.eqb c "009") && blank_run s'
  end.

(** Decimal digits only. *)
Fixpoint all_digits (s : string) : bool :=
  match s with
  | EmptyString => true
  | String c s' => Json.is_digit c && all_digits s'
  end.

(** The values of an [int]. *)
Definition is_int (n : Z) : Prop := (-2147483648 <= n <= 2147483647)%Z.

(** What follows does not start with a digit. *)
Definition no_digit_ahead (rest : string) : Prop :=
  match rest with
  | String c _ => Json.is_digit c = false
  | EmptyString => True
  end.

(** The range check of [std::stoi]. *)
Definition in_int_range (n : Z) : option Z :=
  if Z.leb (-2147483648) n && Z.leb n 2147483647 then Some n else None.

(** A word that is no number and no keyword of the do command: its
    first byte is no white space, no digit and no sign, it has no hyphen,
    it is neither "all" nor "next" and does not start with "until". *)
Definition other_word (word : string) : Prop :=
  match word with
  | String c _ => StdConv.isspace c = false /\ Json.is_digit c = false /\ c <> "+"%char
  | EmptyString => False
  end /\
  StdString.find "-" word = None /\
  word <> "all" /\ word <> "next" /\ StdString.starts_with "until" word = false.

End CommandLine.

(** ** JSON texts *)
Module JsonText.
Import Json.

(** White space only. *)
Fixpoint white (s : string) : bool :=
  match s with
  | EmptyString => true
  | String c s' => is_ws c && white s'
  end.

(** What may follow a number: not a digit, a period or an exponent mark. *)
Definition ends_number (rest : string) : Prop :=
  match rest with
  | EmptyString => True
  | String c _ =>
      is_digit c = false /\ N.eqb (byte c) 46 = false /\
      N.eqb (byte c) 101 = false /\ N.eqb (byte c) 69 = false
  end.

(** The keys of a [std::map]: each one below those after it. *)
Fixpoint sorted_keys (keys : list string) : bool :=
  match keys with
  | [] => true
  | k :: keys' =>
      forallb (fun k' => match String.compare k k' with Lt => true | _ => false end) keys'
      && sorted_keys keys'
  end.

(** The values that come back from their text as they are: integers in
    the type the parser gives them (unsigned when not negative, within 64
    bits), no floats, strings and keys in UTF-8, keys in map order. *)
Fixpoint canonical (j : json) : bool :=
  match j with
  | JNull | JBool _ => true
  | JUnsigned n => N.leb n 18446744073709551615
  | JInteger z => Z.leb (-9223372036854775808) z && Z.ltb z 0
  | JFloat _ => false
  | JString s => is_utf8 s
  | JArray l => forallb canonical l
  | JObject m =>
      sorted_keys (map fst m)
      && forallb (fun kv => is_utf8 (fst kv) && canonical (snd kv)) m
  end.

(** Every string and every key of the value is UTF-8. *)
Fixpoint texts_utf8 (j : json) : bool :=
  match j with
  | JString s => is_utf8 s
  | JArray l => forallb texts_utf8 l
  | JObject m => forallb (fun kv => is_utf8 (fst kv) && texts_utf8 (snd kv)) m
  | _ => true
  end.

(** The values [dump] writes and [parse] reads: as the canonical ones,
    but an integer may be held in the signed type whatever its sign. *)
Fixpoint dumpable (j : json) : bool :=
  match j with
  | JNull | JBool _ => true
  | JUnsigned n => N.leb n 18446744073709551615
  | JInteger z => Z.leb (-9223372036854775808) z && Z.leb z 9223372036854775807
  | JFloat _ => false
  | JString s => is_utf8 s
  | JArray l => forallb dumpable l
  | JObject m =>
      sorted_keys (map fst m)
      && forallb (fun kv => is_utf8 (fst kv) && dumpable (snd kv)) m
  end.

(** A value as the parser gives it back: an integer that is not negative
    comes back in the unsigned type. *)
Fixpoint reread (j : json) : json :=
  match j with
  | JInteger z => if Z.leb 0 z then JUnsigned (Z.to_N z) else j
  | JArray l => JArray (map reread l)
  | JObject m => JObject (map (fun kv => (fst kv, reread (snd kv))) m)
  | _ => j
  end.

(** The texts of a value: the tokens of the grammar, with white space
    wherever the grammar allows it inside the value. *)
Inductive layout : json -> string -> Prop :=
| Layout_null : layout JNull "null"
| Layout_bool (b : bool) : layout (JBool b) (if b then "true" else "false")
| Layout_unsigned (n : N) :
    (n <= 18446744073709551615)%N -> layout (JUnsigned n) (N_to_string n)
| Layout_integer (z : Z) :
    (-9223372036854775808 <= z < 0)%Z -> layout (JInteger z) (Z_to_string z)
| Layout_string (s e : string) :
    escape_string s = Some e -> layout (JString s) (quote e)
| Layout_array_empty (w : string) :
    white w = true -> layout (JArray []) ("[" ++ w ++ "]")
| Layout_array (x : json) (l : list json) (t : string) :
    layout_elements (x :: l) t -> layout (JArray (x :: l)) (String "[" t)
| Layout_object_empty (w : string) :
    white w = true -> layout (JObject []) ("{" ++ w ++ "}")
| Layout_object (kv : string * json) (m : list (string * json)) (t : string) :
    layout_members (kv :: m) t ->
    layout (JObject (fold_left (fun a kv => StdMap.insert (fst kv) (snd kv) a) (kv :: m) []))
      (String "{" t)
with layout_elements : list json -> string -> Prop :=
| Layout_last_element (x : json) (w1 t w2 : string) :
    white w1 = true -> layout x t -> white w2 = true ->
    layout_elements [x] (w1 ++ t ++ w2 ++ "]")
| Layout_next_element (x : json) (l : list json) (w1 t w2 t' : string) :
    white w1 = true -> layout x t -> white w2 = true -> layout_elements l t' ->
    layout_elements (x :: l) (w1 ++ t ++ w2 ++ "," ++ t')
with layout_members : list (string * json) -> string -> Prop :=
| Layout_last_member (k : string) (v : json) (w1 e w2 w3 t w4 : string) :
    white w1 = true -> escape_string k = Some e -> white w2 = true -> white w3 = true ->
    layout v t -> white w4 = true ->
    layout_members [(k, v)] (w1 ++ quote e ++ w2 ++ ":" ++ w3 ++ t ++ w4 ++ "}")
| Layout_next_member (k : string) (v : json) (m : list (string * json))
    (w1 e w2 w3 t w4 t' : string) :
    white w1 = true -> escape_string k = Some e -> white w2 = true -> white w3 = true ->
    layout v t -> white w4 = true -> layout_members m t' ->
    layout_members ((k, v) :: m) (w1 ++ quote e ++ w2 ++ ":" ++ w3 ++ t ++ w4 ++ "," ++ t').

Scheme layout_mut := Minimality for layout Sort Prop
  with layout_elements_mut := Minimality for layout_elements Sort Prop
  with layout_members_mut := Minimality for layout_members Sort Prop.

(** The loops of [dump] over the elements of an array and over the members
    of an object, and those of [dump_indent]. *)
Definition dump_elements : list json -> option string :=
  fix elements (l : list json) : option string :=
    match l with
    | [] => Some EmptyString
    | [x] => dump x
    | x :: l' =>
        match dump x, elements l' with
        | Some a, Some b => Some (a ++ "," ++ b)
        | _, _ => None
        end
    end.

Definition dump_members : list (string * json) -> option string :=
  fix members (m : list (string * json)) : option string :=
    match m with
    | [] => Some EmptyString
    | (k, v) :: m' =>
        match dump_string k, dump v, members m' with
        | Some a, Some b, Some c =>
            Some (a ++ ":" ++ b ++ match m' with [] => EmptyString | _ => "," ++ c end)
        | _, _, _ => None
        end
    end.

Definition indent_elements (indent_step new_indent : nat) : list json -> option string :=
  fix elements (l : list json) : option string :=
    match l with
    | [] => Some EmptyString
    | [x] => option_map (append (indent_string new_indent))
               (dump_indent indent_step new_indent x)
    | x :: l' =>
        match dump_indent indent_step new_indent x, elements l' with
        | Some a, Some b => Some (indent_string new_indent ++ a ++ "," ++ line_feed ++ b)
        | _, _ => None
        end
    end.

Definition indent_members (indent_step new_indent : nat)
  : list (string * json) -> option string :=
  fix members (m : list (string * json)) : option string :=
    match m with
    | [] => Some EmptyString
    | (k, v) :: m' =>
        match dump_string k, dump_indent indent_step new_indent v, members m' with
        | Some a, Some b, Some c =>
            Some (indent_string new_indent ++ a ++ ": " ++ b
                  ++ match m' with [] => EmptyString | _ => "," ++ line_feed ++ c end)
        | _, _, _ => None
        end
    end.

(** The first byte of a value's text: no white space and no closing
    bracket or brace. *)
Definition starts_value (t : string) : Prop :=
  match t with
  | String c _ =>
      is_ws c = false /\ N.eqb (byte c) 93 = false /\ N.eqb (byte c) 125 = false
  | EmptyString => False
  end.

End JsonText.

(** ** The policy document on disk *)
Module PolicyDocument.
Import Json PolicyConfig.

Definition no_commands (p : OperationPolicy) : Prop :=
  allowed_commands p = [] /\ blocked_commands p = [].

(** A tool whose policy [settings_to_json] writes in full: command lists
    are written for the create operation of [bash_tool] only. *)
Definition tool_written_in_full (entry : string * ToolPolicy) : Prop :=
  no_commands (read (snd entry)) /\ no_commands (update (snd entry)) /\
  no_commands (delete_op (snd entry)) /\
  (fst entry <> "bash_tool" -> no_commands (create (snd entry))).

(** Settings the document holds in full: the tools form a [std::map]
    (keys in order, none twice) and each tool is written in full. *)
Definition written_in_full (s : PolicySettings) : Prop :=
  JsonText.sorted_keys (map fst (tools s)) = true /\
  forall entry, In entry (tools s) -> tool_written_in_full entry.

(** The member [settings_to_json] writes for a tool. *)
Definition tool_entry (kv : string * ToolPolicy) : string * json :=
  (fst kv, PolicyConfigLoader.tool_to_json (fst kv) (snd kv)).

Definition utf8_list (l : list string) : Prop := forallb is_utf8 l = true.

Definition utf8_operation (p : OperationPolicy) : Prop :=
  utf8_list (allowed_directories p) /\ utf8_list (allowed_commands p) /\
  utf8_list (blocked_commands p).

(** Every string of the settings is UTF-8. *)
Definition utf8_settings (s : PolicySettings) : Prop :=
  utf8_list (blocked_extensions (global s)) /\
  forall entry, In entry (tools s) ->
    is_utf8 (fst entry) = true /\
    utf8_operation (create (snd entry)) /\ utf8_operation (read (snd entry)) /\
    utf8_operation (update (snd entry)) /\ utf8_operation (delete_op (snd entry)).

End PolicyDocument.

(** ** The bash tool's wire *)
Module Wire.
Import Json BashToolService BashWire.

(** The socket carries the request to the service [service], which
    meets [p], and brings its response back. *)
Definition connected (what : Raised -> string) (service : t) (p : BashTool.Platform)
    (exchange : string -> Exchange) : Prop :=
  forall request after lines response,
    serve what service p request = Returns (after, lines, response) ->
    exchange request = Received response.

(** The strings of a result are UTF-8 and its numbers fit their types. *)
Definition reportable (r : CommandResult.t) : Prop :=
  is_utf8 (CommandResult.stdout_output r) = true /\
  is_utf8 (CommandResult.stderr_output r) = true /\
  is_utf8 (CommandResult.working_directory r) = true /\
  is_utf8 (CommandResult.pwd_after_execution r) = true /\
  (-2147483648 <= CommandResult.exit_code r <= 2147483647)%Z /\
  (-9223372036854775808 <= CommandResult.execution_duration r <= 9223372036854775807)%Z.

(** What the coordinator is told of a result [r] of the service: its
    own result has the command it asked for, the exit code, the output,
    the directories and the success flag of [r], and no error message.
    The times of the coordinator's result are left unset by the source
    and are not compared. *)
Definition told (command : string) (r result : CommandResult.t) : Prop :=
  CommandResult.command result = command /\
  CommandResult.exit_code result = CommandResult.exit_code r /\
  CommandResult.stdout_output result = CommandResult.stdout_output r /\
  CommandResult.stderr_output result = CommandResult.stderr_output r /\
  CommandResult.working_directory result = CommandResult.working_directory r /\
  CommandResult.pwd_after_execution result = CommandResult.pwd_after_execution r /\
  CommandResult.success result = CommandResult.success r /\
  CommandResult.error_message result = EmptyString.

(** A result that tells of nothing but a failure with the text
    [message]: exit code -1, no output, no directories. *)
Definition failed_with (command message : string) (result : CommandResult.t) : Prop :=
  CommandResult.command result = command /\
  CommandResult.exit_code result = (-1)%Z /\
  CommandResult.stdout_output result = EmptyString /\
  CommandResult.stderr_output result = message /\
  CommandResult.working_directory result = EmptyString /\
  CommandResult.pwd_after_execution result = EmptyString /\
  CommandResult.success result = false /\
  CommandResult.error_message result = EmptyString.

(** The directory the coordinator names in its request. *)
Definition named_directory (current_directory : string) (command : BashCommand.t) : string :=
  if String.eqb (BashCommand.working_directory command) EmptyString
  then current_directory
  else BashCommand.working_directory command.

(** The request is an object that names the operation [operation]. *)
Definition asks (request operation : string) : Prop :=
  exists m, parse request = Some (JObject m) /\
            StdMap.find "operation" m = Some (JString operation).

(** The request is an object that names the operation [operation] and
    has no member [key]. *)
Definition lacks (request operation key : string) : Prop :=
  exists m, parse request = Some (JObject m) /\
            StdMap.find "operation" m = Some (JString operation) /\
            StdMap.find key m = None.

(** A request of the operation [operation] with one more member. *)
Definition request_text (operation key value : string) : string :=
  "{" ++ quote "operation" ++ ":" ++ quote operation ++ ","
  ++ quote key ++ ":" ++ quote value ++ "}".

(** A socket on which the service [service], which meets [p], answers. *)
Definition socket_to (what : Raised -> string) (service : t) (p : BashTool.Platform)
    (request : string) : Exchange :=
  match serve what service p request with
  | Returns (_, _, response) => Received response
  | _ => Receive_failed "Connection shutdown"
  end.

(** A library whose exceptions all have one text. *)
Definition terse (e : Raised) : string := "json.exception".

(** A command that names no directory. *)
Definition listing : BashCommand.t :=
  {| BashCommand.command := "bash"; BashCommand.bash_command := "ls";
     BashCommand.working_directory := EmptyString;
     BashCommand.description := "List the files";
     BashCommand.request_execution := false |}.

(** A platform whose shell prints a byte that is no UTF-8 and the marker
    line. *)
Definition binary_platform : BashTool.Platform :=
  {| BashTool.current_directory := "/home/user/project";
     BashTool.now := fun k => (1000000 * Z.of_nat k)%Z;
     BashTool.popen := fun _ =>
       Some (String "255" (String "010" ("__PWD_MARKER__/home/user/project"
                                         ++ String "010" EmptyString)),
             0%Z) |}.

(** A context of a failed command, stamped between two milliseconds. *)
Definition stamped : ExecutionContext.t :=
  {| ExecutionContext.working_directory_before := "/home/user/project";
     ExecutionContext.working_directory_after := "/home/user/project";
     ExecutionContext.command_output := EmptyString;
     ExecutionContext.command_stderr := "ls: cannot access";
     ExecutionContext.exit_code := 2;
     ExecutionContext.timestamp := 1700000000123456789 |}.

End Wire.
(* ================================================================== *)
(** * Part II.  Properties                                              *)
(* ================================================================== *)

(** ** Strings *)
Section StringFacts.
Import StdString.

Lemma starts_with_app (p s : string) : starts_with p (p ++ s) = true.
Proof.
  induction p as [|a p IH]; simpl; [reflexivity|].
  now rewrite Ascii.eqb_refl, IH.
Qed.

Lemma starts_with_split (p s : string) :
  starts_with p s = true -> exists r, s = p ++ r.
Proof.
  revert s; induction p as [|a p IH]; intros s H; simpl in *.
  - now exists s.
  - destruct s as [|b s]; [discriminate|].
    apply andb_true_iff in H as [Hab Hps].
    apply Ascii.eqb_eq in Hab; subst b.
    destruct (IH _ Hps) as [r ->]. now exists r.
Qed.

Lemma starts_with_iff (p s : string) :
  starts_with p s = true <-> exists r, s = p ++ r.
Proof.
  split; [apply starts_with_split|].
  intros [r ->]; apply starts_with_app.
Qed.

Lemma find_zero_iff (p s : string) : find p s = Some 0 <-> starts_with p s = true.
Proof.
  destruct s as [|c s]; simpl.
  - destruct (starts_with p EmptyString); split; congruence.
  - destruct (starts_with p (String c s)); [tauto|].
    split; [|discriminate].
    destruct (find p s); simpl; discriminate.
Qed.

Lemma contains_of_starts_with (p s : string) : starts_with p s = true -> contains p s = true.
Proof.
  intros H; apply find_zero_iff in H. unfold contains. now rewrite H.
Qed.

Lemma mem_In (x : string) (v : list string) : mem x v = true <-> In x v.
Proof.
  induction v as [|y v IH]; simpl.
  - split; [discriminate|tauto].
  - rewrite orb_true_iff, IH, String.eqb_eq. tauto.
Qed.

Lemma length_app (a b : string) : String.length (a ++ b) = String.length a + String.length b.
Proof. induction a as [|c a IH]; simpl; [reflexivity|now rewrite IH]. Qed.

Lemma drop_app (a b : string) : drop (String.length a) (a ++ b) = b.
Proof. induction a as [|c a IH]; simpl; [reflexivity|exact IH]. Qed.

Lemma take_app (a b : string) : take (String.length a) (a ++ b) = a.
Proof. induction a as [|c a IH]; simpl; [reflexivity|now rewrite IH]. Qed.

Lemma app_assoc (a b c : string) : (a ++ b) ++ c = a ++ (b ++ c).
Proof. induction a as [|x a IH]; simpl; [reflexivity|now rewrite IH]. Qed.

Lemma app_empty_r (a : string) : a ++ EmptyString = a.
Proof. induction a as [|x a IH]; simpl; [reflexivity|now rewrite IH]. Qed.

End StringFacts.

(** ** The policy engine *)
Section PolicyFacts.
Import StdString Filesystem PolicyConfig PolicyChecker Scenario.

Lemma matches_allowed_directory_iff (dirs : list string) (path : string) :
  matches_allowed_directory dirs path = true <->
  exists d, In d dirs /\ (d = EmptyString \/ starts_with d path = true).
Proof.
  induction dirs as [|d dirs IH]; simpl.
  - split; [discriminate|]. intros [d [[] _]].
  - destruct (String.eqb_spec d EmptyString) as [->|Hd].
    + split; [|reflexivity]. intros _. exists EmptyString. auto.
    + destruct (starts_with d path) eqn:E.
      * split; [|reflexivity]. intros _. exists d. auto.
      * rewrite IH. split.
        -- intros [d' [Hin H]]. exists d'. auto.
        -- intros [d' [[->|Hin] H]].
           ++ destruct H as [H|H]; [contradiction|congruence].
           ++ exists d'. auto.
Qed.

Lemma is_operation_allowed_iff (ps : PolicySettings) (tool : string) (op : Operation)
    (path : string) :
  is_operation_allowed ps tool op path = true <->
  exists pol, get_operation_policy ps tool op = Some pol /\
    exists d, In d (allowed_directories pol) /\ (d = EmptyString \/ starts_with d path = true).
Proof.
  unfold is_operation_allowed.
  destruct (get_operation_policy ps tool op) as [pol|].
  - destruct (allowed_directories pol) as [|d0 dirs] eqn:E.
    + split; [discriminate|].
      intros [pol' [Heq [d [Hin _]]]]. inversion Heq; subst pol'.
      rewrite E in Hin. destruct Hin.
    + rewrite matches_allowed_directory_iff. split.
      * intros Hd. exists pol. rewrite E. auto.
      * intros [pol' [Heq Hd]]. inversion Heq; subst pol'. now rewrite E in Hd.
  - split; [discriminate|]. intros [pol [Heq _]]. discriminate.
Qed.

(** C2, as stated, fails: under the default policy, in a project
    directory, [is_allowed] approves a path with a dot-dot segment that
    resolves inside the project, and a path whose file name merely
    contains two periods. *)
Lemma is_allowed_dotdot_counterexample :
  contains ".." "src/x/../a.txt" = true /\
  is_allowed project_fs default_settings "file_tool" READ "src/x/../a.txt" = Some true /\
  contains ".." "src/a..b" = true /\
  is_allowed project_fs default_settings "file_tool" CREATE "src/a..b" = Some true.
Proof. repeat split; vm_compute; reflexivity. Qed.

(** C2: [is_allowed] approves paths that hold dot-dot and leave the
    places the policy names.  Under the default policy, in the project
    directory /home/user/project, where neither path exists:
    src/../../project2/x resolves to /home/user/project2/x, outside the
    project directory, and is approved for every operation that allows
    src/, because the test of the working directory compares bytes and
    /home/user/project is a prefix of /home/user/project2;
    src/../etc/passwd resolves to etc/passwd in the project, outside the
    allowed directories, and is approved because the allowed directory
    is looked for in the path as given, while etc/passwd itself is
    refused.  The two paths of the test RelativePathTraversal are
    refused. *)
Theorem is_allowed_approves_traversal :
  (contains ".." "src/../../project2/x" = true /\
   Utils.get_real_path project_fs "src/../../project2/x" = Some "/home/user/project2/x" /\
   Utils.get_real_path project_fs (current_path project_fs) = Some "/home/user/project" /\
   is_allowed project_fs default_settings "file_tool" CREATE "src/../../project2/x"
   = Some true /\
   is_allowed project_fs default_settings "file_tool" READ "src/../../project2/x"
   = Some true /\
   is_allowed project_fs default_settings "file_tool" UPDATE "src/../../project2/x"
   = Some true) /\
  (contains ".." "src/../etc/passwd" = true /\
   Utils.get_real_path project_fs "src/../etc/passwd" = Some "/home/user/project/etc/passwd" /\
   is_allowed project_fs default_settings "file_tool" CREATE "src/../etc/passwd" = Some true /\
   is_allowed project_fs default_settings "file_tool" CREATE "etc/passwd" = Some false) /\
  (is_allowed_path project_fs default_settings "src/../../../etc/passwd" = Some false /\
   is_allowed_path project_fs default_settings "../src/main.cpp" = Some false).
Proof. repeat split; vm_compute; reflexivity. Qed.

(** What [is_allowed(tool, op, path)] decides: it approves exactly the
    paths whose resolved form (canonical, or absolute and lexically
    normalised when the path does not exist) has the resolved current
    directory as a prefix of its bytes, whose extension is not blocked,
    and for which some allowed directory of (tool, op) is empty or a
    prefix of the path as given; a path whose resolved form does not
    have that prefix is refused. *)
Lemma is_allowed_characterization (fs : FileSystem) (ps : PolicySettings) (tool : string)
    (op : Operation) (path : string) :
  (is_allowed fs ps tool op path = Some true <->
     (exists real_path safe_cwd,
        Utils.get_real_path fs path = Some real_path /\
        Utils.get_real_path fs (current_path fs) = Some safe_cwd /\
        starts_with safe_cwd real_path = true) /\
     is_extension_blocked ps path = false /\
     (exists pol, get_operation_policy ps tool op = Some pol /\
        exists d, In d (allowed_directories pol) /\
                  (d = EmptyString \/ starts_with d path = true)))
  /\
  (forall real_path safe_cwd,
     Utils.get_real_path fs path = Some real_path ->
     Utils.get_real_path fs (current_path fs) = Some safe_cwd ->
     starts_with safe_cwd real_path = false ->
     is_allowed fs ps tool op path = Some false).
Proof.
  unfold is_allowed, is_within_cwd, Utils.get_current_working_directory.
  split.
  - rewrite <- is_operation_allowed_iff.
    destruct (Utils.get_real_path fs path) as [rp|].
    2:{ split; [discriminate|]. intros [[rp [sc [H _]]] _]. discriminate. }
    destruct (Utils.get_real_path fs (current_path fs)) as [sc|].
    2:{ split; [discriminate|]. intros [[rp' [sc [_ [H _]]]] _]. discriminate. }
    destruct (starts_with sc rp) eqn:E.
    + destruct (is_extension_blocked ps path).
      * split; [discriminate|]. intros [_ [H _]]. discriminate.
      * split.
        -- intros H. inversion H as [H']. rewrite H'. repeat split; auto.
           exists rp, sc. auto.
        -- intros [_ [_ H]]. now rewrite H.
    + split; [discriminate|].
      intros [[rp' [sc' [H1 [H2 H3]]]] _].
      inversion H1; inversion H2; subst. congruence.
  - intros rp sc H1 H2 H3. now rewrite H1, H2, H3.
Qed.

Lemma contains_blocked_iff (blocked : list string) (command : string) :
  contains_blocked blocked command = true <->
  exists b, In b blocked /\ contains b command = true.
Proof.
  induction blocked as [|b blocked IH]; simpl.
  - split; [discriminate|]. intros [b [[] _]].
  - destruct (contains b command) eqn:E.
    + split; [|reflexivity]. intros _. exists b. auto.
    + rewrite IH. split.
      * intros [b' [Hin H]]. exists b'. auto.
      * intros [b' [[->|Hin] H]]; [congruence|]. exists b'. auto.
Qed.

Lemma find_byte_split (ch : ascii) (s : string) (n : nat) :
  find (String ch EmptyString) s = Some n ->
  s = take n s ++ String ch (drop (S n) s) /\
  contains (String ch EmptyString) (take n s) = false.
Proof.
  revert n; induction s as [|c s IH]; intros n; simpl.
  - discriminate.
  - destruct (Ascii.eqb_spec ch c) as [->|Hne]; simpl.
    + intros H; inversion H; subst n. simpl. split; reflexivity.
    + destruct (find (String ch EmptyString) s) as [m|] eqn:E; simpl; [|discriminate].
      intros H; inversion H; subst n. destruct (IH m eq_refl) as [H1 H2].
      simpl. split.
      * f_equal. exact H1.
      * unfold contains in *. simpl.
        destruct (Ascii.eqb_spec ch c) as [->|_]; [contradiction|]. simpl.
        destruct (find (String ch EmptyString) (take m s)); [discriminate|reflexivity].
Qed.

Lemma base_command_shape (command : string) :
  contains " " (base_command command) = false /\
  (command = base_command command \/
   exists rest, command = base_command command ++ String " " rest).
Proof.
  unfold base_command, substr. simpl drop.
  destruct (find " " command) as [n|] eqn:E.
  - destruct (find_byte_split _ _ _ E) as [H1 H2]. split; [exact H2|].
    right. exists (drop (S n) command). exact H1.
  - split; [|now left]. unfold contains. now rewrite E.
Qed.

(** C4: the base command is not the first word.  Under the default
    policy no blocked command occurs in the command [make<TAB>all], its
    first whitespace-delimited token [make] is an allowed command, and
    the command is refused: the base command the code cuts out is the
    whole of it.  The command [ make test], with a space before it, has
    the same first token and is refused too: its base command is empty.
    The command [make test] is allowed. *)
Lemma tab_delimited_command_counterexample :
  StdMap.find "bash_tool" (tools default_settings) = Some default_bash_tool /\
  contains_blocked (blocked_commands (create default_bash_tool)) make_tab_all = false /\
  Spec.first_whitespace_token make_tab_all = "make" /\
  In "make" (allowed_commands (create default_bash_tool)) /\
  is_bash_command_allowed default_settings make_tab_all = false /\
  base_command make_tab_all = make_tab_all /\
  contains_blocked (blocked_commands (create default_bash_tool)) " make test" = false /\
  Spec.first_whitespace_token " make test" = "make" /\
  base_command " make test" = EmptyString /\
  is_bash_command_allowed default_settings " make test" = false /\
  is_bash_command_allowed default_settings "make test" = true.
Proof.
  repeat split; try (vm_compute; reflexivity).
  simpl. auto.
Qed.

(** X30: what [is_bash_command_allowed] decides.  With a bash_tool
    section in the policy, a command in which a blocked command occurs
    as a substring is refused; any other command is allowed if and only
    if the list of allowed commands is empty or holds the base command,
    where the base command is what precedes the first space character of
    the command (the whole command when it has no space). *)
Theorem is_bash_command_allowed_characterization (ps : PolicySettings) (bash_tool : ToolPolicy)
    (command : string) :
  StdMap.find "bash_tool" (tools ps) = Some bash_tool ->
  ((exists b, In b (blocked_commands (create bash_tool)) /\ contains b command = true) ->
   is_bash_command_allowed ps command = false) /\
  ((forall b, In b (blocked_commands (create bash_tool)) -> contains b command = false) ->
   (is_bash_command_allowed ps command = true <->
    allowed_commands (create bash_tool) = [] \/
    In (base_command command) (allowed_commands (create bash_tool)))) /\
  contains " " (base_command command) = false /\
  (command = base_command command \/
   exists rest, command = base_command command ++ String " " rest).
Proof.
  intros Hfind. unfold is_bash_command_allowed, is_bash_command_blocked. rewrite Hfind.
  split; [|split; [|apply base_command_shape]].
  - intros Hb. apply contains_blocked_iff in Hb. now rewrite Hb.
  - intros Hnone.
    assert (E : contains_blocked (blocked_commands (create bash_tool)) command = false).
    { destruct (contains_blocked _ command) eqn:E; [|reflexivity].
      apply contains_blocked_iff in E as [b [Hin Hc]]. rewrite (Hnone b Hin) in Hc. discriminate. }
    rewrite E. destruct (allowed_commands (create bash_tool)) as [|a l] eqn:Ea.
    + split; auto.
    + rewrite mem_In. split; [auto|]. intros [H|H]; [discriminate|exact H].
Qed.

Lemma is_bash_command_allowed_characterization_witness :
  is_bash_command_allowed default_settings "make test" = true.
Proof.
  destruct (is_bash_command_allowed_characterization default_settings default_bash_tool
              "make test" eq_refl) as [_ [H _]].
  apply H.
  - intros b Hin. simpl in Hin.
    repeat (destruct Hin as [<-|Hin]; [vm_compute; reflexivity|]). destruct Hin.
  - right. vm_compute. tauto.
Defined.

(** C9: the policy check before a file is written, in [run] and in the
    file-operation path of a todo alike, is the legacy [is_allowed(path)],
    that is [is_allowed("file_tool", READ, path)]: a path is approved if
    and only if it passes the working-directory check, its extension is
    not blocked, and the allowed directories of file_tool.read admit it.
    The create, update and delete sub-policies play no part: two
    policies with the same global section and the same file_tool.read
    approve the same paths.  A plan whose path the check refuses ends in
    "Policy Denied", and a file is applied only for a path it approved. *)
Theorem write_check_uses_read_policy {World : Type} (svc : Coordinator.Services World)
    (c : Coordinator.t) :
  let ps := Coordinator.policy_settings c in
  (forall (w : World) (path : string),
     let fs := Coordinator.file_system svc w in
     Coordinator.policy_check svc c w path = is_allowed fs ps "file_tool" READ path /\
     (Coordinator.policy_check svc c w path = Some true <->
        is_within_cwd fs path = Some true /\
        is_extension_blocked ps path = false /\
        is_operation_allowed ps "file_tool" READ path = true)) /\
  (forall (c' : Coordinator.t) (w : World) (path : string),
     global (Coordinator.policy_settings c') = global ps ->
     get_operation_policy (Coordinator.policy_settings c') "file_tool" READ
       = get_operation_policy ps "file_tool" READ ->
     Coordinator.policy_check svc c' w path = Coordinator.policy_check svc c w path) /\
  (forall (w w1 : World) (user_prompt : string) (command : WriteFileCommand.t),
     Coordinator.request_plan svc user_prompt w = (w1, Some command) ->
     WriteFileCommand.path command <> EmptyString ->
     WriteFileCommand.command command = "WriteFile" ->
     Coordinator.policy_check svc c w1 (WriteFileCommand.path command) = Some false ->
     Coordinator.run_plan svc c w user_prompt = (Coordinator.Policy_denied, c, w1)) /\
  (forall (w w' : World) (user_prompt : string) (r : ApplyResult.t) (c' : Coordinator.t),
     Coordinator.run_plan svc c w user_prompt = (Coordinator.Applied r, c', w') ->
     exists command,
       snd (Coordinator.request_plan svc user_prompt w) = Some command /\
       Coordinator.policy_check svc c (fst (Coordinator.request_plan svc user_prompt w))
         (WriteFileCommand.path command) = Some true) /\
  (forall (w w' : World) (todo : TodoManager.TodoItem),
     Coordinator.file_operation_steps svc c todo w = (w', true) ->
     exists command,
       snd (Coordinator.request_plan svc (Coordinator.prompt_of todo) w) = Some command /\
       Coordinator.policy_check svc c
         (fst (Coordinator.request_plan svc (Coordinator.prompt_of todo) w))
         (WriteFileCommand.path command) = Some true).
Proof.
  cbv zeta. split; [|split; [|split; [|split]]].
  - intros w path. unfold Coordinator.policy_check, is_allowed_path, is_allowed.
    split; [reflexivity|].
    destruct (is_within_cwd _ path) as [[|]|].
    + destruct (is_extension_blocked _ path).
      * split; [discriminate|]. intros [_ [H _]]. discriminate.
      * split.
        -- intros H. inversion H as [H']. rewrite H'. auto.
        -- intros [_ [_ H]]. now rewrite H.
    + split; [discriminate|]. intros [H _]. discriminate.
    + split; [discriminate|]. intros [H _]. discriminate.
  - intros c' w path Hg Hp.
    unfold Coordinator.policy_check, is_allowed_path, is_allowed,
      is_extension_blocked, is_operation_allowed.
    now rewrite Hg, Hp.
  - intros w w1 user_prompt command Hplan Hpath Hcmd Hcheck.
    unfold Coordinator.run_plan. rewrite Hplan.
    apply String.eqb_neq in Hpath. rewrite Hpath, Hcmd, Hcheck. reflexivity.
  - intros w w' user_prompt r c' Hrun. unfold Coordinator.run_plan in Hrun.
    destruct (Coordinator.request_plan svc user_prompt w) as [w1 [command|]];
      [|discriminate]. simpl.
    destruct (String.eqb (WriteFileCommand.path command) EmptyString); [discriminate|].
    destruct (negb (String.eqb (WriteFileCommand.command command) "WriteFile"));
      [discriminate|].
    destruct (Coordinator.policy_check svc c w1 (WriteFileCommand.path command))
      as [[|]|] eqn:Hcheck; [|discriminate|discriminate].
    exists command. split; [reflexivity|exact Hcheck].
  - intros w w' todo Hsteps. unfold Coordinator.file_operation_steps in Hsteps.
    destruct (Coordinator.request_plan svc (Coordinator.prompt_of todo) w)
      as [w1 [command|]]; [|discriminate]. simpl.
    destruct (String.eqb (WriteFileCommand.path command) EmptyString); [discriminate|].
    destruct (Coordinator.policy_check svc c w1 (WriteFileCommand.path command))
      as [[|]|] eqn:Hcheck; [|discriminate|discriminate].
    exists command. split; [reflexivity|exact Hcheck].
Qed.

(** A path that may be read and may not be created is approved for
    writing. *)
Lemma write_check_uses_read_policy_witness :
  Coordinator.policy_check services (coordinator create_in_src_only TodoManager.init) []
    "docs/a.md" = Some true /\
  is_allowed project_fs create_in_src_only "file_tool" CREATE "docs/a.md" = Some false /\
  Coordinator.policy_check services (coordinator PolicyConfig.default_settings TodoManager.init)
    [] "docs/a.md" = Some true.
Proof.
  pose proof (write_check_uses_read_policy services
                (coordinator create_in_src_only TodoManager.init)) as [H1 [H2 _]].
  split; [|split].
  - rewrite (proj1 (H1 [] "docs/a.md")). vm_compute. reflexivity.
  - vm_compute. reflexivity.
  - rewrite (H2 (coordinator PolicyConfig.default_settings TodoManager.init) [] "docs/a.md"
               eq_refl eq_refl).
    rewrite (proj1 (H1 [] "docs/a.md")). vm_compute. reflexivity.
Defined.

End PolicyFacts.

(** ** The confirmation prompt *)
Section ConfirmationFacts.
Import Coordinator Scenario.

(** C7, as stated, fails: the line "yes" is none of [a], [A], [y], [Y],
    and it confirms; the line "always" sets the flag. *)
Lemma confirm_word_counterexample :
  "yes" <> "a" /\ "yes" <> "A" /\ "yes" <> "y" /\ "yes" <> "Y" /\
  confirm (coordinator PolicyConfig.default_settings TodoManager.init) "yes"
    = (true, coordinator PolicyConfig.default_settings TodoManager.init) /\
  always_approve_
    (snd (confirm (coordinator PolicyConfig.default_settings TodoManager.init) "always"))
    = true.
Proof. repeat split; try discriminate; reflexivity. Qed.

(** C7, amended: the first character of the line decides.  A line that
    starts with [a] or [A] confirms and sets the always-approve flag; a
    line that starts with [y] or [Y] confirms and leaves the coordinator
    as it was; every other line, the empty one too, cancels and leaves
    the coordinator as it was. *)
Theorem confirm_by_first_character (c : Coordinator.t) (input : string) :
  match input with
  | String choice _ =>
      if Ascii.eqb choice "a" || Ascii.eqb choice "A"
      then confirm c input = (true, with_always_approve c true) /\
           always_approve_ (snd (confirm c input)) = true
      else if Ascii.eqb choice "y" || Ascii.eqb choice "Y"
      then confirm c input = (true, c)
      else confirm c input = (false, c)
  | EmptyString => confirm c input = (false, c)
  end.
Proof.
  destruct input as [|choice rest]; simpl; [reflexivity|].
  destruct (Ascii.eqb choice "a" || Ascii.eqb choice "A"); [split; reflexivity|].
  destruct (Ascii.eqb choice "y" || Ascii.eqb choice "Y"); reflexivity.
Qed.

End ConfirmationFacts.

(** ** The command runner's safety net *)
Section BashToolFacts.
Import StdString BashTool Scenario.

Lemma starts_or_follows_space_iff (blocked : list string) (cmd_lower : string) :
  starts_or_follows_space blocked cmd_lower = true <->
  exists b, In b blocked /\
    (starts_with b cmd_lower = true \/ contains (" " ++ b) cmd_lower = true).
Proof.
  induction blocked as [|b blocked IH]; simpl.
  - split; [discriminate|]. intros [b [[] _]].
  - destruct (starts_with b cmd_lower || contains (String " " b) cmd_lower) eqn:E.
    + split; [|reflexivity]. intros _. exists b. split; [now left|].
      now apply orb_true_iff in E.
    + rewrite IH. apply orb_false_iff in E as [E1 E2]. split.
      * intros [b' [Hin H]]. exists b'. auto.
      * intros [b' [[->|Hin] H]]; [|exists b'; auto].
        destruct H as [H|H]; simpl in H; congruence.
Qed.

(** C10: a command the safety net refuses (a built-in blocked command
    at the start of the lower-cased command or after a space in it, or a
    dangerous pattern in the command) is not run: the result has
    [success = false], [exit_code = -1], an error message that begins
    "Command blocked by security policy", empty output fields and no
    directory recorded, and no command line was handed to the shell. *)
Theorem refused_command_is_not_executed (tool : BashTool.t) (p : Platform)
    (command working_directory : string) :
  (exists b, In b get_blocked_commands /\
     (starts_with b (to_lower command) = true \/
      contains (" " ++ b) (to_lower command) = true)) \/
  contains_dangerous_pattern command = true ->
  let result := fst (execute_command tool p command working_directory) in
  let shell_calls := snd (execute_command tool p command working_directory) in
  is_command_allowed command = false /\
  CommandResult.success result = false /\
  CommandResult.exit_code result = (-1)%Z /\
  CommandResult.error_message result = "Command blocked by security policy: " ++ command /\
  starts_with "Command blocked by security policy" (CommandResult.error_message result) = true /\
  CommandResult.stdout_output result = EmptyString /\
  CommandResult.stderr_output result = EmptyString /\
  CommandResult.working_directory result = EmptyString /\
  CommandResult.pwd_after_execution result = EmptyString /\
  shell_calls = [].
Proof.
  intros Hrefused.
  assert (Hna : is_command_allowed command = false).
  { unfold is_command_allowed. destruct Hrefused as [Hb|Hd].
    - apply starts_or_follows_space_iff in Hb. now rewrite Hb.
    - rewrite Hd. now destruct (starts_or_follows_space _ _). }
  unfold execute_command. rewrite Hna. cbn.
  repeat split; auto.
Qed.

Lemma refused_command_is_not_executed_witness :
  CommandResult.success (fst (execute_command BashTool.init platform "sudo rm notes" EmptyString))
    = false /\
  snd (execute_command BashTool.init platform "ls; rm notes" EmptyString) = [].
Proof.
  split.
  - refine (proj1 (proj2 (refused_command_is_not_executed BashTool.init platform
                            "sudo rm notes" EmptyString _))).
    left. exists "sudo rm". split; [simpl; tauto|left; vm_compute; reflexivity].
  - refine (proj2 (proj2 (proj2 (proj2 (proj2 (proj2 (proj2 (proj2 (proj2
              (refused_command_is_not_executed BashTool.init platform
                 "ls; rm notes" EmptyString _)))))))))).
    right. vm_compute. reflexivity.
Defined.

End BashToolFacts.

(** ** Loading the policy document *)
Section PolicyLoadingFacts.
Import Json PolicyConfig PolicyConfigLoader Scenario.


End PolicyLoadingFacts.

(** ** The todo store *)
Section TodoFacts.
Import TodoManager Scenario.





Lemma range_loop_incl (l : list TodoItem) (a b : Z) (f : bool) (t : TodoItem) :
  In t (range_loop l a b f) -> In t l.
Proof.
  revert f; induction l as [|x l IH]; intros f; simpl; [tauto|].
  destruct (if Z.eqb (id x) a then true else f).
  - destruct (Z.eqb (id x) b); simpl.
    + tauto.
    + intros [H|H]; [now left|right; eapply IH; eauto].
  - intros H; right; eapply IH; eauto.
Qed.

Lemma insert_by_creation_In (x t : TodoItem) (l : list TodoItem) :
  In t (insert_by_creation x l) <-> t = x \/ In t l.
Proof.
  induction l as [|y l IH]; simpl.
  - intuition.
  - destruct (Z.ltb (created_at y) (created_at x)); simpl; [|intuition].
    rewrite IH. intuition.
Qed.

Lemma sort_by_creation_In (t : TodoItem) (l : list TodoItem) :
  In t (sort_by_creation l) <-> In t l.
Proof.
  induction l as [|x l IH]; simpl; [tauto|].
  rewrite insert_by_creation_In, IH. intuition.
Qed.





End TodoFacts.

(** ** Batch execution *)
Section BatchFacts.
Import TodoManager Coordinator Reference Scenario.

Lemma status_eqb_eq (a b : TodoStatus) : status_eqb a b = true <-> a = b.
Proof. destruct a, b; simpl; split; congruence. Qed.

Lemma find_todo_id (l : list TodoItem) (i : Z) (it : TodoItem) :
  find_todo l i = Some it -> id it = i.
Proof.
  induction l as [|x l IH]; simpl; [discriminate|].
  destruct (Z.eqb_spec (id x) i); [|exact IH].
  intros H; injection H as <-; assumption.
Qed.

Lemma find_todo_In (l : list TodoItem) (t : TodoItem) :
  In t l -> find_todo l (id t) <> None.
Proof.
  induction l as [|x l IH]; simpl; [tauto|].
  intros [->|H].
  - rewrite Z.eqb_refl. discriminate.
  - destruct (Z.eqb (id x) (id t)); [discriminate|auto].
Qed.

Lemma find_todo_replace (l : list TodoItem) (i j : Z) (new : TodoItem) :
  id new = i ->
  find_todo (replace_todo l i new) j =
  if Z.eqb j i then match find_todo l i with Some _ => Some new | None => None end
  else find_todo l j.
Proof.
  intros Hnew. induction l as [|x l IH]; simpl.
  - now destruct (Z.eqb j i).
  - destruct (Z.eqb_spec (id x) i) as [Hx|Hx]; simpl.
    + rewrite Hnew. destruct (Z.eqb_spec j i) as [->|Hj].
      * now rewrite Z.eqb_refl.
      * rewrite Hx. destruct (Z.eqb_spec i j); [congruence|reflexivity].
    + destruct (Z.eqb_spec (id x) j) as [Hxj|Hxj].
      * destruct (Z.eqb_spec j i); [congruence|reflexivity].
      * exact IH.
Qed.

(** What setting a status through [update_todo] does to the store. *)
Lemma set_status_spec (now : Z) (m : TodoManager.t) (i : Z) (st : TodoStatus) :
  let m' := snd (update_todo now m i None None (Some st)) in
  (forall j, j <> i -> get_todo m' j = get_todo m j) /\
  (get_todo m i <> None ->
   exists it, get_todo m' i = Some it /\ status it = st).
Proof.
  unfold update_todo, get_todo. destruct (find_todo (todos_ m) i) as [it|] eqn:E; simpl.
  2:{ split; [reflexivity|]. intros H; now elim H. }
  pose proof (find_todo_id _ _ _ E) as Hid.
  destruct (status_eqb (status it) st) eqn:Es; simpl.
  - apply status_eqb_eq in Es. split; [reflexivity|].
    intros _. exists it. now rewrite E.
  - split.
    + intros j Hj. rewrite find_todo_replace by exact Hid.
      destruct (Z.eqb_spec j i); [contradiction|reflexivity].
    + intros _. rewrite find_todo_replace by exact Hid.
      rewrite Z.eqb_refl, E. eexists. split; reflexivity.
Qed.

Context {World : Type} (svc : Services World).

Lemma execute_single_todo_frame (c : Coordinator.t) (todo : TodoItem) (w : World) :
  execute_single_todo svc c todo w
  = (c, fst (effect_of svc c todo w), snd (effect_of svc c todo w)).
Proof.
  unfold effect_of, execute_single_todo, execute_todo_as_file_operation.
  destruct (should_execute_as_bash_command (prompt_of todo)).
  - now destruct (execute_todo_as_bash_command svc (policy_settings c) todo w).
  - destruct (file_operation_steps svc (with_chat_mode c false) todo w). simpl.
    now destruct c.
Qed.

Lemma effect_of_policy (c1 c2 : Coordinator.t) (todo : TodoItem) (w : World) :
  policy_settings c1 = policy_settings c2 -> effect_of svc c1 todo w = effect_of svc c2 todo w.
Proof.
  intros H. unfold effect_of, execute_single_todo, execute_todo_as_file_operation.
  rewrite H. destruct (should_execute_as_bash_command (prompt_of todo)).
  - now destruct (execute_todo_as_bash_command svc (policy_settings c2) todo w).
  - assert (E : file_operation_steps svc (with_chat_mode c1 false) todo w
              = file_operation_steps svc (with_chat_mode c2 false) todo w).
    { unfold file_operation_steps, policy_check. simpl. now rewrite H. }
    rewrite E. now destruct (file_operation_steps svc (with_chat_mode c2 false) todo w).
Qed.

Lemma attempt_all_policy (c1 c2 : Coordinator.t) (l : list TodoItem) (w : World) :
  policy_settings c1 = policy_settings c2 -> attempt_all svc c1 l w = attempt_all svc c2 l w.
Proof.
  intros H. revert w; induction l as [|t l IH]; intros w; simpl; [reflexivity|].
  rewrite !execute_single_todo_frame, (effect_of_policy c1 c2 t w H).
  now rewrite IH.
Qed.

Lemma attempt_all_items (c : Coordinator.t) (l : list TodoItem) (w : World) :
  map fst (fst (attempt_all svc c l w)) = l.
Proof.
  revert w; induction l as [|t l IH]; intros w; simpl; [reflexivity|].
  rewrite execute_single_todo_frame.
  specialize (IH (fst (effect_of svc c t w))).
  destruct (attempt_all svc c l (fst (effect_of svc c t w))). simpl in *. now rewrite IH.
Qed.

(** One item through the bracket: the coordinator changes in its todo
    store only, the item ends completed or in progress, and no other id
    is touched. *)
Lemma execute_item_spec (c : Coordinator.t) (todo : TodoItem) (w : World) :
  get_todo (todo_manager_ c) (id todo) <> None ->
  exists m',
    execute_item svc c todo w
    = (with_todo_manager c m', fst (effect_of svc c todo w), snd (effect_of svc c todo w)) /\
    (forall j, j <> id todo -> get_todo m' j = get_todo (todo_manager_ c) j) /\
    (exists it, get_todo m' (id todo) = Some it /\
       status it = if snd (effect_of svc c todo w) then COMPLETED else IN_PROGRESS).
Proof.
  intros Hpresent. unfold execute_item, mark_in_progress, mark_completed.
  destruct (set_status_spec (clock svc w) (todo_manager_ c) (id todo) IN_PROGRESS)
    as [Hframe1 Hset1].
  set (m1 := snd (update_todo (clock svc w) (todo_manager_ c) (id todo) None None
                    (Some IN_PROGRESS))) in *.
  rewrite execute_single_todo_frame.
  assert (Heff : effect_of svc (with_todo_manager c m1) todo w = effect_of svc c todo w)
    by (apply effect_of_policy; reflexivity).
  rewrite Heff.
  destruct (effect_of svc c todo w) as [w' ok]. simpl fst; simpl snd.
  destruct ok.
  - destruct (set_status_spec (clock svc w') m1 (id todo) COMPLETED) as [Hframe2 Hset2].
    eexists. split; [reflexivity|]. simpl. split.
    + intros j Hj. rewrite Hframe2, Hframe1; auto.
    + apply Hset2. destruct (Hset1 Hpresent) as [it [-> _]]. discriminate.
  - exists m1. split; [reflexivity|]. split; [exact Hframe1|].
    exact (Hset1 Hpresent).
Qed.

Lemma execute_loop_spec (l : list TodoItem) :
  forall (c : Coordinator.t) (w : World),
  should_stop_execution_ c = false ->
  should_pause_execution_ c = false ->
  NoDup (map id l) ->
  (forall t, In t l -> get_todo (todo_manager_ c) (id t) <> None) ->
  exists m',
    execute_loop svc l c w = Some (with_todo_manager c m', snd (attempt_all svc c l w)) /\
    (forall t ok, In (t, ok) (fst (attempt_all svc c l w)) ->
       exists it, get_todo m' (id t) = Some it /\
                  status it = if ok then COMPLETED else IN_PROGRESS) /\
    (forall j, ~ In j (map id l) -> get_todo m' j = get_todo (todo_manager_ c) j).
Proof.
  induction l as [|t l IH]; intros c w Hstop Hpause Hnd Hpres.
  - exists (todo_manager_ c). simpl. split; [now destruct c|]. split; [intros ? ? []|reflexivity].
  - simpl. rewrite Hstop, Hpause. simpl.
    destruct (execute_item_spec c t w (Hpres t (or_introl eq_refl)))
      as [m1 [Hitem [Hframe1 [it1 [Hget1 Hst1]]]]].
    rewrite Hitem, execute_single_todo_frame.
    inversion Hnd as [|? ? Hnotin Hnd']; subst.
    destruct (IH (with_todo_manager c m1) (fst (effect_of svc c t w)) Hstop Hpause Hnd')
      as [m' [Hloop [Hdone Hframe]]].
    { intros t' Hin. simpl. rewrite Hframe1.
      - apply Hpres. now right.
      - intros Heq. apply Hnotin. rewrite <- Heq. now apply in_map. }
    rewrite (attempt_all_policy (with_todo_manager c m1) c) in Hloop, Hdone by reflexivity.
    destruct (attempt_all svc c l (fst (effect_of svc c t w))) as [r w2] eqn:Ea.
    simpl in *. exists m'. split; [|split].
    + rewrite Hloop. now destruct c.
    + intros t' ok [Heq|Hin].
      * inversion Heq; subst t' ok. exists it1. split; [|exact Hst1].
        rewrite Hframe; [exact Hget1|exact Hnotin].
      * now apply Hdone.
    + intros j Hj. rewrite Hframe by tauto. apply Hframe1. intros ->. tauto.
Qed.

(** The loop of the until and range variants leaves at the first item
    that fails: nothing after it is executed or marked. *)
Lemma execute_until_failure_stops (c : Coordinator.t) (todo : TodoItem)
    (rest : list TodoItem) (w : World) :
  snd (effect_of svc c todo w) = false ->
  execute_until_failure svc (todo :: rest) c w
  = (fst (fst (execute_item svc c todo w)), fst (effect_of svc c todo w)) /\
  execute_until_failure svc (todo :: rest) c w = execute_until_failure svc [todo] c w.
Proof.
  intros Hfail. simpl. unfold execute_item.
  rewrite execute_single_todo_frame.
  assert (Heff : forall m, effect_of svc (with_todo_manager c m) todo w = effect_of svc c todo w)
    by (intros m; apply effect_of_policy; reflexivity).
  rewrite Heff. destruct (effect_of svc c todo w) as [w' ok]. simpl in *. subst ok.
  split; reflexivity.
Qed.

Lemma pending_ids_distinct (store : list TodoItem) :
  NoDup (map id store) ->
  NoDup (map id (filter (fun item => status_eqb (status item) PENDING) store)).
Proof.
  induction store as [|x store IH]; intros Hnd; simpl; [constructor|].
  inversion Hnd as [|? ? Hfresh Hrest]; subst.
  destruct (status_eqb (status x) PENDING); simpl; [|now apply IH].
  constructor; [|now apply IH].
  intros Hin. apply Hfresh.
  apply in_map_iff in Hin as [y [Hy Hin]].
  apply filter_In in Hin as [Hin _]. rewrite <- Hy. now apply in_map.
Qed.

(** X18: what [execute_todos] does, for a store with distinct ids: it
    attempts every pending item, in store order; an item whose execution
    returns is marked completed, an item whose execution fails stays in
    progress, and the loop goes on with the next item.  Items that were
    not pending are left as they were. *)
Theorem execute_todos_attempts_every_item (c : Coordinator.t) (w : World) :
  NoDup (map id (todos_ (todo_manager_ c))) ->
  let pending := get_pending_todos (todo_manager_ c) in
  let run := attempt_all svc c pending w in
  exists c',
    execute_todos svc c w = Some (c', snd run) /\
    map fst (fst run) = pending /\
    (forall t ok, In (t, ok) (fst run) ->
       exists it, get_todo (todo_manager_ c') (id t) = Some it /\
                  status it = if ok then COMPLETED else IN_PROGRESS) /\
    (forall j, ~ In j (map id pending) ->
       get_todo (todo_manager_ c') j = get_todo (todo_manager_ c) j).
Proof.
  intros Hnd. cbv zeta. unfold execute_todos.
  remember (get_pending_todos (todo_manager_ c)) as pending eqn:Ep.
  destruct (execute_loop_spec pending (with_control c RUNNING false false) w
              eq_refl eq_refl) as [m' [Hloop [Hdone Hframe]]].
  { subst pending. now apply pending_ids_distinct. }
  { intros t Hin. simpl. apply find_todo_In.
    subst pending. unfold get_pending_todos in Hin. now apply filter_In in Hin. }
  rewrite (attempt_all_policy (with_control c RUNNING false false) c) in Hloop, Hdone
    by reflexivity.
  pose proof (attempt_all_items c pending w) as Hitems.
  destruct pending as [|t0 l0].
  - exists c. simpl. repeat split; auto. intros ? ? [].
  - rewrite Hloop. eexists. split; [reflexivity|]. simpl todo_manager_.
    split; [exact Hitems|]. split; [exact Hdone|exact Hframe].
Qed.

End BatchFacts.

Section BatchExamples.
Import TodoManager Coordinator Reference Scenario.

(** C1 does not hold of [execute_todos]: of two pending todos, the
    first is refused by the policy and stays in progress, and the batch
    goes on: the model is asked for the plan of the second, the second is
    written and marked completed.  On the same store [execute_todos_until]
    stops at the failure and leaves the second todo pending. *)
Lemma execute_todos_continues_after_failure :
  snd (effect_of services (coordinator PolicyConfig.default_settings secrets_then_notes)
         {| id := 1; title := "Write secrets"; description := EmptyString;
            status := PENDING; created_at := 10; updated_at := 10 |} [])
    = false /\
  option_map (fun r => map (fun t => (id t, status t)) (todos_ (todo_manager_ (fst r))))
    (execute_todos services (coordinator PolicyConfig.default_settings secrets_then_notes) [])
    = Some [(1, IN_PROGRESS); (2, COMPLETED)]%Z /\
  option_map snd
    (execute_todos services (coordinator PolicyConfig.default_settings secrets_then_notes) [])
    = Some ["plan: Write secrets"; "plan: Write notes";
            "dry run: src/notes.txt"; "apply: src/notes.txt"] /\
  map (fun t => (id t, status t))
    (todos_ (todo_manager_ (fst
       (execute_todos_until services
          (coordinator PolicyConfig.default_settings secrets_then_notes) [] 99))))
    = [(1, IN_PROGRESS); (2, PENDING)]%Z /\
  snd (execute_todos_until services
         (coordinator PolicyConfig.default_settings secrets_then_notes) [] 99)
    = ["plan: Write secrets"].
Proof. repeat split; vm_compute; reflexivity. Qed.

Lemma execute_todos_attempts_every_item_example :
  exists c',
    execute_todos services (coordinator PolicyConfig.default_settings secrets_then_notes) []
    = Some (c', ["plan: Write secrets"; "plan: Write notes";
                 "dry run: src/notes.txt"; "apply: src/notes.txt"]).
Proof.
  destruct (execute_todos_attempts_every_item services
              (coordinator PolicyConfig.default_settings secrets_then_notes) [])
    as [c' [H _]].
  - vm_compute. repeat constructor; simpl; intuition discriminate.
  - exists c'. exact H.
Defined.

End BatchExamples.

(** ** The JSON codec *)
Section JsonFacts.
Import StdString Json Reference.

(** *** The fuel of the parser is never used up *)

Lemma skip_ws_length (s : string) : String.length (skip_ws s) <= String.length s.
Proof.
  induction s as [|c s IH]; simpl; [lia|].
  destruct (is_ws c); simpl; lia.
Qed.

Lemma skip_ws_cons_length (s : string) (c : ascii) (s' : string) :
  skip_ws s = String c s' -> String.length s' < String.length s.
Proof.
  intros H. pose proof (skip_ws_length s) as L. rewrite H in L. simpl in L. lia.
Qed.

Lemma scan_string_length (s : string) :
  forall st r rest, scan_string st s = Some (r, rest) -> String.length rest < String.length s.
Proof.
  induction s as [|c s IH]; intros st r rest H; simpl in H; [discriminate|].
  destruct (scan_char st c) as [| |st' out].
  - discriminate.
  - injection H as _ <-. simpl. lia.
  - destruct (scan_string st' s) as [[r' rest']|] eqn:E; [|discriminate].
    injection H as _ <-. apply IH in E. simpl. lia.
Qed.

Lemma span_digits_length (s : string) :
  String.length (snd (span_digits s)) <= String.length s.
Proof.
  induction s as [|c s IH]; simpl; [lia|].
  destruct (is_digit c); simpl; [|lia].
  destruct (span_digits s); simpl in *. lia.
Qed.

Lemma scan_int_part_length (s d r : string) :
  scan_int_part s = Some (d, r) -> String.length r < String.length s.
Proof.
  destruct s as [|c s]; simpl; [discriminate|].
  destruct (N.eqb (byte c) 48).
  - intros H; injection H as _ <-. lia.
  - destruct (is_digit c); [|discriminate].
    pose proof (span_digits_length s) as L.
    destruct (span_digits s) as [d' r']. simpl in L.
    intros H; injection H as _ <-. lia.
Qed.

Lemma scan_fraction_length (s d r : string) :
  scan_fraction s = Some (d, r) -> String.length r <= String.length s.
Proof.
  destruct s as [|c s]; simpl.
  - intros H; injection H as _ <-. simpl. lia.
  - destruct (N.eqb (byte c) 46).
    + pose proof (span_digits_length s) as L.
      destruct (span_digits s) as [[|c' d'] r']; [discriminate|]. simpl in L.
      intros H; injection H as _ <-. lia.
    + intros H; injection H as _ <-. simpl. lia.
Qed.

Lemma scan_sign_length (s : string) :
  String.length (snd (scan_sign s)) <= String.length s.
Proof.
  destruct s as [|c t]; simpl; [lia|].
  destruct (N.eqb (byte c) 43 || N.eqb (byte c) 45); simpl; lia.
Qed.

Lemma scan_exponent_length (s d r : string) :
  scan_exponent s = Some (d, r) -> String.length r <= String.length s.
Proof.
  destruct s as [|c s]; simpl.
  - intros H; injection H as _ <-. simpl. lia.
  - destruct (N.eqb (byte c) 101 || N.eqb (byte c) 69).
    + pose proof (scan_sign_length s) as L1.
      destruct (scan_sign s) as [sg s'']. simpl in L1.
      pose proof (span_digits_length s'') as L2.
      destruct (span_digits s'') as [[|c' d'] r']; [discriminate|]. simpl in L2.
      intros H; injection H as _ <-. lia.
    + intros H; injection H as _ <-. simpl. lia.
Qed.

Lemma scan_number_length (s : string) (j : json) (rest : string) :
  scan_number s = Some (j, rest) -> String.length rest < String.length s.
Proof.
  unfold scan_number.
  destruct (match s with
            | String c s' => if N.eqb (byte c) 45 then (true, s') else (false, s)
            | EmptyString => (false, s)
            end) as [neg s1] eqn:E0.
  assert (L0 : String.length s1 <= String.length s).
  { destruct s as [|c s']; [injection E0 as _ <-; lia|].
    destruct (N.eqb (byte c) 45); injection E0 as _ <-; simpl; lia. }
  destruct (scan_int_part s1) as [[ip s2]|] eqn:E1; [|discriminate].
  apply scan_int_part_length in E1.
  destruct (scan_fraction s2) as [[fp s3]|] eqn:E2; [|discriminate].
  apply scan_fraction_length in E2.
  destruct (scan_exponent s3) as [[ep s4]|] eqn:E3; [|discriminate].
  apply scan_exponent_length in E3.
  intros H.
  assert (rest = s4).
  { destruct (String.eqb fp EmptyString && String.eqb ep EmptyString);
      [destruct neg; [destruct (N.leb _ 9223372036854775808)
                     |destruct (N.leb _ 18446744073709551615)]|];
      now injection H as _ <-. }
  subst rest. lia.
Qed.

Lemma parse_members_length (V : string -> option (json * string)) :
  (forall s j rest, V s = Some (j, rest) -> String.length rest < String.length s) ->
  forall f s acc j rest,
  parse_members f V s acc = Some (j, rest) -> String.length rest < String.length s.
Proof.
  intros HV. induction f as [|f IH]; intros s acc j rest H; simpl in H; [discriminate|].
  destruct (skip_ws s) as [|q s1] eqn:E0; [discriminate|].
  apply skip_ws_cons_length in E0.
  destruct (N.eqb (byte q) 34); [|discriminate].
  destruct (scan_string (SText UAccept) s1) as [[key s2]|] eqn:E1; [|discriminate].
  apply scan_string_length in E1.
  destruct (skip_ws s2) as [|colon s3] eqn:E2; [discriminate|].
  apply skip_ws_cons_length in E2.
  destruct (N.eqb (byte colon) 58); [|discriminate].
  destruct (V s3) as [[v s4]|] eqn:E3; [|discriminate].
  apply HV in E3.
  destruct (skip_ws s4) as [|d s5] eqn:E4; [discriminate|].
  apply skip_ws_cons_length in E4.
  destruct (N.eqb (byte d) 44).
  - apply IH in H. lia.
  - destruct (N.eqb (byte d) 125); [|discriminate].
    injection H as _ <-. lia.
Qed.

Lemma parse_elements_length (V : string -> option (json * string)) :
  (forall s j rest, V s = Some (j, rest) -> String.length rest < String.length s) ->
  forall f s acc j rest,
  parse_elements f V s acc = Some (j, rest) -> String.length rest < String.length s.
Proof.
  intros HV. induction f as [|f IH]; intros s acc j rest H; simpl in H; [discriminate|].
  destruct (V s) as [[v s1]|] eqn:E1; [|discriminate].
  apply HV in E1.
  destruct (skip_ws s1) as [|d s2] eqn:E2; [discriminate|].
  apply skip_ws_cons_length in E2.
  destruct (N.eqb (byte d) 44).
  - apply IH in H. lia.
  - destruct (N.eqb (byte d) 93); [|discriminate].
    injection H as _ <-. lia.
Qed.

Lemma drop_length (n : nat) (s : string) : String.length (drop n s) <= String.length s.
Proof.
  revert s; induction n as [|n IH]; intros s; simpl; [lia|].
  destruct s as [|c s]; simpl; [lia|]. specialize (IH s). lia.
Qed.

(** A value that parses takes at least one byte of the input. *)
Lemma parse_value_length (fuel : nat) :
  forall s j rest,
  parse_value fuel s = Some (j, rest) -> String.length rest < String.length s.
Proof.
  induction fuel as [|f IH]; intros s j rest H; [discriminate|].
  cbn [parse_value] in H.
  destruct (skip_ws s) as [|c s1] eqn:E0; [discriminate|].
  apply skip_ws_cons_length in E0. cbv zeta in H.
  destruct (N.eqb (byte c) 123).
  { destruct (skip_ws s1) as [|c2 s2] eqn:E1; [discriminate|].
    apply skip_ws_cons_length in E1.
    destruct (N.eqb (byte c2) 125).
    - injection H as _ <-. lia.
    - apply (parse_members_length _ IH) in H. lia. }
  destruct (N.eqb (byte c) 91).
  { destruct (skip_ws s1) as [|c2 s2] eqn:E1; [discriminate|].
    apply skip_ws_cons_length in E1.
    destruct (N.eqb (byte c2) 93).
    - injection H as _ <-. lia.
    - apply (parse_elements_length _ IH) in H. lia. }
  destruct (N.eqb (byte c) 34).
  { destruct (scan_string (SText UAccept) s1) as [[str r]|] eqn:E1; [|discriminate].
    apply scan_string_length in E1. injection H as _ <-. lia. }
  destruct (starts_with "true" (String c s1)).
  { injection H as _ <-. pose proof (drop_length 3 s1) as L. simpl in L |- *. lia. }
  destruct (starts_with "false" (String c s1)).
  { injection H as _ <-. pose proof (drop_length 4 s1) as L. simpl in L |- *. lia. }
  destruct (starts_with "null" (String c s1)).
  { injection H as _ <-. pose proof (drop_length 3 s1) as L. simpl in L |- *. lia. }
  destruct (N.eqb (byte c) 45 || is_digit c); [|discriminate].
  apply scan_number_length in H. simpl in H. lia.
Qed.

Lemma parse_members_adequate (V' V : string -> option (json * string)) :
  (forall s j rest, V' s = Some (j, rest) -> String.length rest < String.length s) ->
  forall f' s acc r,
  parse_members f' V' s acc = Some r ->
  forall f, String.length s < f ->
  (forall s' r', String.length s' < String.length s -> V' s' = Some r' -> V s' = Some r') ->
  parse_members f V s acc = Some r.
Proof.
  intros HV'. induction f' as [|f' IH]; intros s acc r H f Hf HV; simpl in H; [discriminate|].
  destruct f as [|f]; [lia|]. simpl.
  destruct (skip_ws s) as [|q s1] eqn:E0; [discriminate|].
  apply skip_ws_cons_length in E0.
  destruct (N.eqb (byte q) 34); [|discriminate].
  destruct (scan_string (SText UAccept) s1) as [[key s2]|] eqn:E1; [|discriminate].
  apply scan_string_length in E1.
  destruct (skip_ws s2) as [|colon s3] eqn:E2; [discriminate|].
  apply skip_ws_cons_length in E2.
  destruct (N.eqb (byte colon) 58); [|discriminate].
  destruct (V' s3) as [[v s4]|] eqn:E3; [|discriminate].
  rewrite (HV s3 (v, s4) ltac:(lia) E3).
  apply HV' in E3.
  destruct (skip_ws s4) as [|d s5] eqn:E4; [discriminate|].
  apply skip_ws_cons_length in E4.
  destruct (N.eqb (byte d) 44); [|exact H].
  apply (IH _ _ _ H); [lia|].
  intros s' r' Hs'. apply HV. lia.
Qed.

Lemma parse_elements_adequate (V' V : string -> option (json * string)) :
  (forall s j rest, V' s = Some (j, rest) -> String.length rest < String.length s) ->
  forall f' s acc r,
  parse_elements f' V' s acc = Some r ->
  forall f, String.length s < f ->
  (forall s' r', String.length s' <= String.length s -> V' s' = Some r' -> V s' = Some r') ->
  parse_elements f V s acc = Some r.
Proof.
  intros HV'. induction f' as [|f' IH]; intros s acc r H f Hf HV; simpl in H; [discriminate|].
  destruct f as [|f]; [lia|]. simpl.
  destruct (V' s) as [[v s1]|] eqn:E1; [|discriminate].
  rewrite (HV s (v, s1) ltac:(lia) E1).
  apply HV' in E1.
  destruct (skip_ws s1) as [|d s2] eqn:E2; [discriminate|].
  apply skip_ws_cons_length in E2.
  destruct (N.eqb (byte d) 44); [|exact H].
  apply (IH _ _ _ H); [lia|].
  intros s' r' Hs'. apply HV. lia.
Qed.

(** Fuel above the length of the input is enough: whatever some fuel
    makes of the input, that fuel makes of it too. *)
Lemma parse_value_adequate (fuel' : nat) :
  forall s r, parse_value fuel' s = Some r ->
  forall fuel, String.length s < fuel -> parse_value fuel s = Some r.
Proof.
  induction fuel' as [|f' IH]; intros s r H fuel Hf; [discriminate|].
  destruct fuel as [|f]; [lia|].
  cbn [parse_value] in H |- *.
  destruct (skip_ws s) as [|c s1] eqn:E0; [discriminate|].
  apply skip_ws_cons_length in E0. cbv zeta in H |- *.
  destruct (N.eqb (byte c) 123).
  { destruct (skip_ws s1) as [|c2 s2] eqn:E1; [discriminate|].
    destruct (N.eqb (byte c2) 125); [exact H|].
    apply (parse_members_adequate _ _ (parse_value_length f') _ _ _ _ H); [lia|].
    intros s' r' Hs'. intros H'. apply (IH _ _ H'). lia. }
  destruct (N.eqb (byte c) 91).
  { destruct (skip_ws s1) as [|c2 s2] eqn:E1; [discriminate|].
    destruct (N.eqb (byte c2) 93); [exact H|].
    apply (parse_elements_adequate _ _ (parse_value_length f') _ _ _ _ H); [lia|].
    intros s' r' Hs'. intros H'. apply (IH _ _ H'). lia. }
  exact H.
Qed.

(** The verdict of [parse] does not depend on the fuel: a text no fuel
    can parse is what [parse] refuses. *)
Lemma parse_fuel_independent (s : string) (fuel : nat) (r : json * string) :
  parse_value fuel s = Some r -> parse_value (S (String.length s)) s = Some r.
Proof. intros H. apply (parse_value_adequate fuel s r H). lia. Qed.

Lemma parse_refusal_is_final (s : string) :
  parse_value (S (String.length s)) s = None -> forall fuel, parse_value fuel s = None.
Proof.
  intros H fuel. destruct (parse_value fuel s) as [r|] eqn:E; [|reflexivity].
  apply parse_fuel_independent in E. congruence.
Qed.

(** What the scanner makes of the escape of one byte below 0x80. *)
Lemma scan_escape_ascii (c : ascii) (tail : string) :
  N.ltb (byte c) 128 = true ->
  scan_string (SText UAccept) (escape_ascii c ++ tail) =
  match scan_string (SText UAccept) tail with
  | Some (r, rest) => Some (String c r, rest)
  | None => None
  end.
Proof.
  destruct c as [[] [] [] [] [] [] [] []]; intros H; try discriminate H;
    cbn; destruct (scan_string (SText UAccept) tail) as [[r rest]|]; reflexivity.
Qed.

Lemma scan_lead_byte (c : ascii) (more : nat) (lo hi : N) (tail : string) :
  N.ltb (byte c) 128 = false ->
  utf8_lead c = Some (more, lo, hi) ->
  scan_string (SText UAccept) (String c tail) =
  match scan_string (SText (UCont more lo hi)) tail with
  | Some (r, rest) => Some (String c r, rest)
  | None => None
  end.
Proof.
  intros Hge Hlead. simpl. unfold scan_char.
  apply N.ltb_ge in Hge.
  assert (E1 : N.eqb (byte c) 34 = false) by (apply N.eqb_neq; lia).
  assert (E2 : N.eqb (byte c) 92 = false) by (apply N.eqb_neq; lia).
  assert (E3 : N.ltb (byte c) 32 = false) by (apply N.ltb_ge; lia).
  assert (E4 : N.ltb (byte c) 128 = false) by (apply N.ltb_ge; lia).
  rewrite E1, E2, E3, E4, Hlead.
  destruct (scan_string (SText (UCont more lo hi)) tail) as [[r rest]|]; reflexivity.
Qed.

(** The scanner reads back what [dump] wrote for a string. *)
Lemma scan_escape (s : string) :
  forall (st : utf8_state) (out rest : string),
  escape_from st s = Some out ->
  scan_string (SText st) (out ++ String dquote rest) = Some (s, rest).
Proof.
  induction s as [|c s IH]; intros st out rest H; simpl in H.
  - destruct st; [|discriminate]. injection H as <-. reflexivity.
  - destruct st as [|more lo hi].
    + destruct (N.ltb (byte c) 128) eqn:Hlt.
      * destruct (escape_from UAccept s) as [r|] eqn:Er; [|discriminate].
        injection H as <-. rewrite app_assoc, scan_escape_ascii by exact Hlt.
        now rewrite (IH UAccept r rest Er).
      * destruct (utf8_lead c) as [[[more lo] hi]|] eqn:Hlead; [|discriminate].
        destruct (escape_from (UCont more lo hi) s) as [r|] eqn:Er; [|discriminate].
        injection H as <-. simpl append.
        rewrite (scan_lead_byte c more lo hi _ Hlt Hlead).
        now rewrite (IH _ r rest Er).
    + destruct (in_range lo hi c) eqn:Hr; [|discriminate].
      destruct (escape_from (utf8_next more) s) as [r|] eqn:Er; [|discriminate].
      injection H as <-. simpl. rewrite Hr.
      now rewrite (IH _ r rest Er).
Qed.

Lemma escape_from_total (s : string) :
  forall st, well_formed_from st s = true -> exists out, escape_from st s = Some out.
Proof.
  induction s as [|c s IH]; intros st H; simpl in *.
  - destruct st; [now exists EmptyString|discriminate].
  - destruct st as [|more lo hi].
    + destruct (N.ltb (byte c) 128).
      * destruct (IH _ H) as [r ->]. simpl. eauto.
      * destruct (utf8_lead c) as [[[more lo] hi]|]; [|discriminate].
        destruct (IH _ H) as [r ->]. simpl. eauto.
    + destruct (in_range lo hi c); [|discriminate].
      destruct (IH _ H) as [r ->]. simpl. eauto.
Qed.

Lemma escape_from_none (s : string) :
  forall st, well_formed_from st s = false -> escape_from st s = None.
Proof.
  induction s as [|c s IH]; intros st H; simpl in *.
  - destruct st; [discriminate|reflexivity].
  - destruct st as [|more lo hi].
    + destruct (N.ltb (byte c) 128).
      * now rewrite (IH _ H).
      * destruct (utf8_lead c) as [[[more lo] hi]|]; [|reflexivity].
        now rewrite (IH _ H).
    + destruct (in_range lo hi c); [|reflexivity].
      now rewrite (IH _ H).
Qed.

Lemma quote_app (e rest : string) : quote e ++ rest = String dquote (e ++ String dquote rest).
Proof. unfold quote. simpl. now rewrite app_assoc. Qed.

Lemma parse_value_string (f : nat) (s e rest : string) :
  escape_string s = Some e ->
  parse_value (S f) (quote e ++ rest) = Some (JString s, rest).
Proof.
  intros H. rewrite quote_app. simpl.
  now rewrite (scan_escape s UAccept e rest H).
Qed.

Lemma parse_value_bool (f : nat) (b : bool) (rest : string) :
  parse_value (S f) ((if b then "true" else "false") ++ rest) = Some (JBool b, rest).
Proof. destruct b; reflexivity. Qed.

Lemma parse_members_next (f : nat) (value : string -> option (json * string))
    (k ek s' rest : string) (v : json) (acc : list (string * json)) :
  escape_string k = Some ek ->
  value s' = Some (v, String "," rest) ->
  parse_members (S f) value (quote ek ++ String ":" s') acc
  = parse_members f value rest (StdMap.insert k v acc).
Proof.
  intros Hk Hv. rewrite quote_app. simpl.
  rewrite (scan_escape k UAccept ek _ Hk). simpl. now rewrite Hv.
Qed.

Lemma parse_members_last (f : nat) (value : string -> option (json * string))
    (k ek s' rest : string) (v : json) (acc : list (string * json)) :
  escape_string k = Some ek ->
  value s' = Some (v, String "}" rest) ->
  parse_members (S f) value (quote ek ++ String ":" s') acc
  = Some (JObject (StdMap.insert k v acc), rest).
Proof.
  intros Hk Hv. rewrite quote_app. simpl.
  rewrite (scan_escape k UAccept ek _ Hk). simpl. now rewrite Hv.
Qed.

Lemma dump_command (s1 s2 s3 e1 e2 e3 : string) (b : bool) :
  escape_string s1 = Some e1 -> escape_string s2 = Some e2 -> escape_string s3 = Some e3 ->
  dump (JObject [("command", JString s1); ("content", JString s3); ("path", JString s2);
                 ("request_execution", JBool b)])
  = Some (command_text e1 e2 e3 b).
Proof.
  intros H1 H2 H3. cbn [dump].
  assert (K1 : dump_string s1 = Some (quote e1)) by (unfold dump_string; now rewrite H1).
  assert (K2 : dump_string s2 = Some (quote e2)) by (unfold dump_string; now rewrite H2).
  assert (K3 : dump_string s3 = Some (quote e3)) by (unfold dump_string; now rewrite H3).
  rewrite K1, K2, K3.
  change (dump_string "command") with (Some (quote "command")).
  change (dump_string "content") with (Some (quote "content")).
  change (dump_string "path") with (Some (quote "path")).
  change (dump_string "request_execution") with (Some (quote "request_execution")).
  unfold command_text. destruct b; cbn [option_map]; rewrite !app_assoc; reflexivity.
Qed.

Lemma parse_command_text (s1 s2 s3 e1 e2 e3 : string) (b : bool) :
  escape_string s1 = Some e1 -> escape_string s2 = Some e2 -> escape_string s3 = Some e3 ->
  parse (command_text e1 e2 e3 b)
  = Some (JObject [("command", JString s1); ("content", JString s3); ("path", JString s2);
                   ("request_execution", JBool b)]).
Proof.
  intros H1 H2 H3. unfold parse.
  change (starts_with bom (command_text e1 e2 e3 b)) with false. cbv iota.
  assert (Hlen : exists f, String.length (command_text e1 e2 e3 b) = S (S (S (S f)))).
  { unfold command_text. simpl. eauto. }
  destruct Hlen as [f ->].
  assert (E : parse_value (S (S (S (S (S f))))) (command_text e1 e2 e3 b)
              = Some (JObject [("command", JString s1); ("content", JString s3);
                               ("path", JString s2); ("request_execution", JBool b)],
                      EmptyString)).
  { unfold command_text.
    change (parse_value (S (S (S (S (S f)))))
              (String "{" (quote "command" ++ String ":" (quote e1 ++ String ","
                (quote "content" ++ String ":" (quote e3 ++ String ","
                  (quote "path" ++ String ":" (quote e2 ++ String ","
                    (quote "request_execution" ++ String ":"
                      ((if b then "true" else "false") ++ "}"))))))))))
      with (parse_members (S (S (S (S f)))) (parse_value (S (S (S (S f)))))
              (quote "command" ++ String ":" (quote e1 ++ String ","
                (quote "content" ++ String ":" (quote e3 ++ String ","
                  (quote "path" ++ String ":" (quote e2 ++ String ","
                    (quote "request_execution" ++ String ":"
                      ((if b then "true" else "false") ++ "}")))))))) []).
    rewrite (parse_members_next _ _ "command" "command" _ _ (JString s1) _ eq_refl
               (parse_value_string _ s1 e1 _ H1)).
    rewrite (parse_members_next _ _ "content" "content" _ _ (JString s3) _ eq_refl
               (parse_value_string _ s3 e3 _ H3)).
    rewrite (parse_members_next _ _ "path" "path" _ _ (JString s2) _ eq_refl
               (parse_value_string _ s2 e2 _ H2)).
    rewrite (parse_members_last _ _ "request_execution" "request_execution" _ _ (JBool b) _
               eq_refl (parse_value_bool _ b _)).
    reflexivity. }
  rewrite E. reflexivity.
Qed.

End JsonFacts.

(** ** The write-file command on the wire *)
Section MessageFacts.
Import StdString Json MessageHandler Scenario Reference.

(** C8, as stated, fails: [std::string] holds any bytes, and for a
    command whose content is the byte 0xFF [dump] raises, so there is no
    serialization to read back. *)
Lemma non_utf8_command_counterexample :
  serialize_command write_byte_ff = None /\
  is_utf8 (WriteFileCommand.content write_byte_ff) = false.
Proof. split; vm_compute; reflexivity. Qed.

(** C8, amended: for every write-file command whose command, path and
    content are UTF-8 (and either request_execution flag), serialization
    succeeds, and deserializing its result yields a command equal to the
    original on all four fields; when one of the three strings is not
    UTF-8 the serialization raises. *)
Theorem command_round_trip (c : WriteFileCommand.t) :
  (is_utf8 (WriteFileCommand.command c) = true ->
   is_utf8 (WriteFileCommand.path c) = true ->
   is_utf8 (WriteFileCommand.content c) = true ->
   exists json_str,
     serialize_command c = Some json_str /\
     deserialize_command json_str = Some c) /\
  (is_utf8 (WriteFileCommand.command c) = false \/
   is_utf8 (WriteFileCommand.path c) = false \/
   is_utf8 (WriteFileCommand.content c) = false ->
   serialize_command c = None).
Proof.
  assert (Hj : WriteFileCommand.to_json c
               = JObject [("command", JString (WriteFileCommand.command c));
                          ("content", JString (WriteFileCommand.content c));
                          ("path", JString (WriteFileCommand.path c));
                          ("request_execution", JBool (WriteFileCommand.request_execution c))])
    by reflexivity.
  unfold serialize_command, deserialize_command. rewrite Hj. split.
  - intros U1 U2 U3.
    destruct (escape_from_total _ _ U1) as [e1 H1].
    destruct (escape_from_total _ _ U2) as [e2 H2].
    destruct (escape_from_total _ _ U3) as [e3 H3].
    exists (command_text e1 e2 e3 (WriteFileCommand.request_execution c)).
    split; [now apply dump_command|].
    rewrite (parse_command_text _ _ _ _ _ _ _ H1 H2 H3).
    now destruct c.
  - intros H. cbn [dump].
    change (dump_string "command") with (Some (quote "command")).
    change (dump_string "content") with (Some (quote "content")).
    change (dump_string "path") with (Some (quote "path")).
    change (dump_string "request_execution") with (Some (quote "request_execution")).
    unfold dump_string, escape_string.
    destruct H as [H|[H|H]]; apply escape_from_none in H; rewrite H;
      destruct (escape_from UAccept (WriteFileCommand.command c));
      destruct (escape_from UAccept (WriteFileCommand.path c));
      destruct (escape_from UAccept (WriteFileCommand.content c));
      destruct (WriteFileCommand.request_execution c); reflexivity.
Qed.

Lemma command_round_trip_witness :
  exists json_str,
    serialize_command write_notes = Some json_str /\
    deserialize_command json_str = Some write_notes.
Proof.
  apply (proj1 (command_round_trip write_notes)); vm_compute; reflexivity.
Defined.

End MessageFacts.

(** ** The Gemini adapter *)
Section GeminiFacts.
Import StdString Json GeminiProvider Scenario Reference.





Lemma parse_backtick (rest : string) : parse (String "`" rest) = None.
Proof. reflexivity. Qed.


Lemma bare_fence_is_not_stripped (content : string) :
  starts_with "```" content = true ->
  contains "```json" content = false ->
  strip_code_fence content = content /\
  parse_plan_text content = inl Failed_to_parse.
Proof.
  intros Hfence Htag.
  assert (Hstrip : strip_code_fence content = content).
  { unfold strip_code_fence. unfold contains in Htag.
    now destruct (find "```json" content). }
  split; [exact Hstrip|].
  unfold parse_plan_text. rewrite Hstrip.
  destruct (starts_with_split _ _ Hfence) as [r ->]. reflexivity.
Qed.




End GeminiFacts.

(* ================================================================== *)
(** * Part III.  Further properties of the code                         *)
(* ================================================================== *)

(** ** The todo store *)
Section StoreFacts.
Import TodoManager StoreInvariant Scenario.
Local Open Scope Z_scope.

Lemma find_todo_none (l : list TodoItem) (i : Z) :
  find_todo l i = None <-> ~ In i (map id l).
Proof.
  induction l as [|x l IH]; simpl; [tauto|].
  destruct (Z.eqb_spec (id x) i); [|rewrite IH].
  - split; [discriminate|]. intros H; elim H; now left.
  - tauto.
Qed.

Lemma find_todo_app (l1 l2 : list TodoItem) (i : Z) :
  find_todo (l1 ++ l2)%list i =
  match find_todo l1 i with Some it => Some it | None => find_todo l2 i end.
Proof.
  induction l1 as [|x l1 IH]; simpl; [reflexivity|].
  now destruct (Z.eqb (id x) i).
Qed.

Lemma replace_todo_ids (l : list TodoItem) (i : Z) (new : TodoItem) :
  id new = i -> map id (replace_todo l i new) = map id l.
Proof.
  intros Hn. induction l as [|x l IH]; simpl; [reflexivity|].
  destruct (Z.eqb_spec (id x) i); simpl; congruence.
Qed.

Lemma erase_todo_incl (l : list TodoItem) (i : Z) (x : TodoItem) :
  In x (erase_todo l i) -> In x l.
Proof.
  induction l as [|y l IH]; simpl; [tauto|].
  destruct (Z.eqb (id y) i); simpl; tauto.
Qed.

Lemma erase_todo_NoDup (l : list TodoItem) (i : Z) :
  NoDup (map id l) -> NoDup (map id (erase_todo l i)).
Proof.
  induction l as [|y l IH]; simpl; [auto|].
  intros H. inversion H as [|? ? Hy Hl]; subst.
  destruct (Z.eqb (id y) i); simpl; [exact Hl|].
  constructor; [|auto].
  intros Hin. apply Hy. apply in_map_iff in Hin. destruct Hin as [x [Hx Hin]].
  apply in_map_iff. exists x. split; [exact Hx|]. eapply erase_todo_incl; eauto.
Qed.

Lemma update_todo_shape (now : Z) (m : TodoManager.t) (i : Z)
    (nt nd : option string) (ns : option TodoStatus) :
  snd (update_todo now m i nt nd ns) = m \/
  exists new, id new = i /\
    snd (update_todo now m i nt nd ns)
    = {| todos_ := replace_todo (todos_ m) i new; next_id_ := next_id_ m |}.
Proof.
  unfold update_todo. destruct (find_todo (todos_ m) i) as [it|] eqn:E; [|now left].
  pose proof (find_todo_id _ _ _ E) as Hid.
  destruct nt as [x|]; [destruct (negb (x =? "")%string && negb (title it =? x)%string)|];
    cbn [set_title id description];
    (destruct nd as [y|]; [destruct (negb _)|]);
    cbn [set_description id status];
    (destruct ns as [z|]; [destruct (negb _)|]);
    cbn [snd]; try (now left); right; eexists; (split; [|reflexivity]); exact Hid.
Qed.

Lemma to_int_small (z : Z) : -2147483648 <= z <= 2147483647 -> to_int z = z.
Proof. intros H. unfold to_int. rewrite Z.mod_small; lia. Qed.

Lemma add_todo_spec (now : Z) (m : TodoManager.t) (title description : string)
    (i : Z) (m' : TodoManager.t) :
  add_todo now m title description = Some (i, m') ->
  i = next_id_ m /\ next_id_ m' = to_int (next_id_ m + 1) /\
  exists item, id item = i /\ todos_ m' = (todos_ m ++ [item])%list.
Proof.
  unfold add_todo. destruct (title =? "")%string; [discriminate|].
  intros H. injection H as <- <-. cbn [id todos_ next_id_].
  split; [reflexivity|]. split; [reflexivity|]. eexists. split.
  2: reflexivity. reflexivity.
Qed.

Lemma NoDup_snoc (l : list Z) (i : Z) : NoDup l -> ~ In i l -> NoDup (l ++ [i])%list.
Proof.
  induction l as [|x l IH]; simpl; intros Hnd Hi.
  - constructor; [intros []|constructor].
  - inversion Hnd as [|? ? Hx Hl]; subst. constructor.
    + rewrite in_app_iff. simpl. intros [H|[H|[]]]; [contradiction|].
      apply Hi. now left.
    + apply IH; [exact Hl|]. intros H. apply Hi. now right.
Qed.

(** What the store keeps while the counter has not passed the largest
    [int]: distinct ids, each positive and below the counter. *)
Lemma built_store_ok (adds : Z) (m : TodoManager.t) :
  built adds m ->
  0 <= adds /\
  (adds < INT_MAX ->
   store_ok m /\ next_id_ m = adds + 1 /\
   (forall item, In item (todos_ m) -> 1 <= id item)).
Proof.
  unfold INT_MAX.
  induction 1 as [|adds now m t d i m' _ [Hadds IH] Hadd
                  |adds now m i nt nd ns _ [Hadds IH]
                  |adds m i _ [Hadds IH]
                  |adds m _ [Hadds IH]].
  - split; [lia|]. intros _. unfold store_ok. simpl.
    split; [|split; [reflexivity|intros ? []]].
    split; [constructor|]. split; [intros ? []|lia].
  - split; [lia|]. intros Hb.
    destruct IH as [[Hnd [Hlt Hpos]] [Hnext Hids]]; [lia|].
    destruct (add_todo_spec _ _ _ _ _ _ Hadd) as [Hi [Hn [item [Hid Hl]]]].
    rewrite to_int_small in Hn by lia.
    unfold store_ok. rewrite Hl, Hn, map_app. simpl. rewrite Hid.
    split; [split; [|split]|split].
    + apply NoDup_snoc; [exact Hnd|]. intros Hin. apply in_map_iff in Hin.
      destruct Hin as [x [Hx Hin]]. specialize (Hlt x Hin). lia.
    + intros x Hx. apply in_app_iff in Hx. destruct Hx as [Hx|[<-|[]]].
      * specialize (Hlt x Hx). lia.
      * lia.
    + lia.
    + lia.
    + intros x Hx. apply in_app_iff in Hx. destruct Hx as [Hx|[<-|[]]]; [auto|lia].
  - split; [exact Hadds|]. intros Hb.
    destruct (IH Hb) as [[Hnd [Hlt Hpos]] [Hnext Hids]].
    destruct (update_todo_shape now m i nt nd ns) as [->|[new [Hid ->]]].
    + now repeat split.
    + assert (Hin : forall item, In item (replace_todo (todos_ m) i new) ->
                                 exists x, In x (todos_ m) /\ id x = id item).
      { intros item Hitem.
        assert (Hi : In (id item) (map id (replace_todo (todos_ m) i new)))
          by (apply in_map; exact Hitem).
        rewrite (replace_todo_ids _ _ _ Hid) in Hi. apply in_map_iff in Hi.
        destruct Hi as [x [Hx Hxin]]. now exists x. }
      unfold store_ok. simpl. rewrite (replace_todo_ids _ _ _ Hid).
      split; [split; [exact Hnd|split; [|exact Hpos]]|split; [exact Hnext|]].
      * intros item Hitem. destruct (Hin item Hitem) as [x [Hx <-]]. now apply Hlt.
      * intros item Hitem. destruct (Hin item Hitem) as [x [Hx <-]]. now apply Hids.
  - split; [exact Hadds|]. intros Hb.
    destruct (IH Hb) as [[Hnd [Hlt Hpos]] [Hnext Hids]].
    unfold delete_todo. destruct (find_todo (todos_ m) i); [|now repeat split].
    unfold store_ok. simpl.
    split; [split; [now apply erase_todo_NoDup|split; [|exact Hpos]]
           |split; [exact Hnext|]].
    + intros item Hin. apply Hlt. eapply erase_todo_incl; eauto.
    + intros item Hin. apply Hids. eapply erase_todo_incl; eauto.
  - split; [exact Hadds|]. intros Hb.
    destruct (IH Hb) as [[Hnd [Hlt Hpos]] [Hnext Hids]].
    unfold store_ok. simpl.
    split; [split; [constructor|split; [intros ? []|exact Hpos]]
           |split; [exact Hnext|intros ? []]].
Qed.

(** X1: the ids of the store.  Take a store the operations build from the
    empty one ([add_todo], [update_todo] and the three marks,
    [delete_todo], [clear_todos], in any order) while [add_todo] has handed
    out fewer than [INT_MAX] ids.  Its counter is one more than the
    number of ids handed out; no two items share an id; every id is
    positive and below the counter; the id [add_todo] hands out next is
    the counter and belongs to no item of the store.  The counter is an
    [int]: the id handed out as number [INT_MAX] is [INT_MAX], and it
    leaves the counter at [INT_MIN], so that the ids handed out after it
    are negative. *)
Theorem store_ids_are_distinct (adds : Z) (m : TodoManager.t) :
  built adds m ->
  adds < INT_MAX ->
  next_id_ m = adds + 1 /\
  NoDup (map id (todos_ m)) /\
  (forall item, In item (todos_ m) -> 1 <= id item < next_id_ m) /\
  (forall now title description i m',
     add_todo now m title description = Some (i, m') ->
     get_todo m i = None /\ i = next_id_ m /\ 1 <= i <= INT_MAX /\
     next_id_ m' = (if Z.eqb i INT_MAX then -2147483648 else i + 1) /\
     (i = INT_MAX ->
      forall now' title' description' i' m'',
        add_todo now' m' title' description' = Some (i', m'') -> i' = -2147483648)).
Proof.
  intros Hb Hadds.
  destruct (built_store_ok adds m Hb) as [H0 H]. unfold INT_MAX in *.
  destruct (H Hadds) as [[Hnd [Hlt Hpos]] [Hnext Hids]].
  split; [exact Hnext|]. split; [exact Hnd|]. split.
  { intros item Hin. split; [now apply Hids|now apply Hlt]. }
  intros now title description i m' Hadd.
  destruct (add_todo_spec _ _ _ _ _ _ Hadd) as [Hi [Hn _]].
  assert (Hm' : next_id_ m' = (if Z.eqb i 2147483647 then -2147483648 else i + 1)).
  { rewrite Hn, <- Hi. destruct (Z.eqb_spec i 2147483647) as [->|Hne]; [reflexivity|].
    apply to_int_small. lia. }
  split; [|split; [exact Hi|split; [lia|split; [exact Hm'|]]]].
  - unfold get_todo. apply find_todo_none. intros Hin. apply in_map_iff in Hin.
    destruct Hin as [x [Hx Hin]]. specialize (Hlt x Hin). lia.
  - intros Hmax now' title' description' i' m'' Hadd'.
    destruct (add_todo_spec _ _ _ _ _ _ Hadd') as [Hi' _].
    rewrite Hi', Hm', Hmax. reflexivity.
Qed.

Lemma store_ids_are_distinct_witness :
  next_id_ three_todos = 4 /\
  NoDup (map id (todos_ three_todos)) /\
  get_todo three_todos 4 = None.
Proof.
  assert (Hb : built 3 three_todos).
  { apply (Built_add 2 12 (added 11 "Write notes" (added 10 "Write draft" init))
             "Write tests" EmptyString 3); [|reflexivity].
    apply (Built_add 1 11 (added 10 "Write draft" init) "Write notes" EmptyString 2);
      [|reflexivity].
    apply (Built_add 0 10 init "Write draft" EmptyString 1); [|reflexivity].
    apply Built_init. }
  assert (H3 : 3 < INT_MAX) by reflexivity.
  destruct (store_ids_are_distinct 3 three_todos Hb H3) as [Hn [Hnd [_ Hadd]]].
  split; [exact Hn|]. split; [exact Hnd|].
  exact (proj1 (Hadd 13 "Write more" EmptyString 4 _ eq_refl)).
Defined.

(** The bound of X1 is met: a store is built with [INT_MAX - 1] ids
    handed out, and the next call hands out [INT_MAX] and leaves the
    counter at [INT_MIN]. *)
Lemma counter_reaches_INT_MAX :
  exists m m',
    built (INT_MAX - 1) m /\
    add_todo 0 m "t" EmptyString = Some (INT_MAX, m') /\
    next_id_ m' = -2147483648.
Proof.
  assert (Hany : forall n : nat, exists m, built (Z.of_nat n) m).
  { induction n as [|n [m Hm]].
    - exists init. apply Built_init.
    - rewrite Nat2Z.inj_succ. unfold Z.succ. eexists.
      eapply (Built_add _ 0 m "t" EmptyString); [exact Hm|reflexivity]. }
  destruct (Hany (Z.to_nat (INT_MAX - 1))) as [m Hm].
  rewrite Z2Nat.id in Hm by (unfold INT_MAX; lia).
  destruct (built_store_ok _ _ Hm) as [_ H].
  destruct H as [_ [Hnext _]]; [unfold INT_MAX; lia|].
  eexists m, _. split; [exact Hm|]. unfold add_todo. cbn [String.eqb id next_id_].
  rewrite Hnext. split; reflexivity.
Qed.

Lemma find_todo_erase (l : list TodoItem) (i j : Z) :
  j <> i -> find_todo (erase_todo l i) j = find_todo l j.
Proof.
  intros Hj. induction l as [|x l IH]; simpl; [reflexivity|].
  destruct (Z.eqb_spec (id x) i) as [Hx|Hx]; simpl.
  - destruct (Z.eqb_spec (id x) j); [congruence|reflexivity].
  - now rewrite IH.
Qed.

Lemma find_todo_erase_same (l : list TodoItem) (i : Z) :
  NoDup (map id l) -> find_todo (erase_todo l i) i = None.
Proof.
  induction l as [|x l IH]; simpl; [reflexivity|].
  intros H. inversion H as [|? ? Hx Hl]; subst.
  destruct (Z.eqb_spec (id x) i) as [Hi|Hi]; simpl.
  - apply find_todo_none. congruence.
  - destruct (Z.eqb_spec (id x) i); [contradiction|auto].
Qed.

Lemma erase_todo_length (l : list TodoItem) (i : Z) :
  find_todo l i <> None -> S (List.length (erase_todo l i)) = List.length l.
Proof.
  induction l as [|x l IH]; simpl; [congruence|].
  destruct (Z.eqb (id x) i); simpl; [reflexivity|]. intros H. now rewrite IH.
Qed.

(** X2: [add_todo] refuses an empty title; for any other title, on a
    store with distinct ids below the counter, it returns the counter as
    the new id, and afterwards [get_todo] on that id returns the new item
    (pending, created and updated at the tick of the call), [get_todo] on
    every other id answers as before, and the new item is the last of the
    pending ones. *)
Theorem add_todo_then_get_todo (m : TodoManager.t) (now : Z) (title description : string) :
  store_ok m ->
  (title = EmptyString -> add_todo now m title description = None) /\
  (title <> EmptyString ->
   exists m',
     let item := {| id := next_id_ m; title := title; description := description;
                    status := PENDING; created_at := now; updated_at := now |} in
     add_todo now m title description = Some (next_id_ m, m') /\
     get_todo m' (next_id_ m) = Some item /\
     (forall j, j <> next_id_ m -> get_todo m' j = get_todo m j) /\
     get_pending_todos m' = (get_pending_todos m ++ [item])%list /\
     count m' = S (count m)).
Proof.
  intros [Hnd [Hlt Hpos]]. unfold add_todo. split.
  - intros ->. reflexivity.
  - intros Ht. apply String.eqb_neq in Ht. rewrite Ht. eexists. cbv zeta.
    split; [reflexivity|]. unfold get_todo, get_pending_todos, count. simpl.
    assert (Hfresh : find_todo (todos_ m) (next_id_ m) = None).
    { apply find_todo_none. intros Hin. apply in_map_iff in Hin.
      destruct Hin as [x [Hx Hin]]. specialize (Hlt x Hin). lia. }
    split; [|split; [|split]].
    + rewrite find_todo_app, Hfresh. simpl. now rewrite Z.eqb_refl.
    + intros j Hj. rewrite find_todo_app. destruct (find_todo (todos_ m) j); [reflexivity|].
      simpl. destruct (Z.eqb_spec (next_id_ m) j); [congruence|reflexivity].
    + now rewrite filter_app.
    + rewrite List.length_app. simpl. lia.
Qed.

Lemma add_todo_then_get_todo_witness :
  exists m',
    add_todo 13 three_todos "Write more" "soon" = Some (4, m') /\
    option_map title (get_todo m' 4) = Some "Write more" /\
    get_todo m' 2 = get_todo three_todos 2.
Proof.
  assert (Hok : store_ok three_todos).
  { unfold store_ok. split; [|split].
    - vm_compute. repeat constructor; simpl; intuition discriminate.
    - intros item Hin. vm_compute in Hin.
      destruct Hin as [<-|[<-|[<-|[]]]]; vm_compute; reflexivity.
    - vm_compute. discriminate. }
  destruct (proj2 (add_todo_then_get_todo three_todos 13 "Write more" "soon" Hok))
    as [m' [Hadd [Hget [Hframe _]]]]; [discriminate|].
  exists m'. split; [exact Hadd|]. split.
  - change (next_id_ three_todos) with 4 in Hget. now rewrite Hget.
  - apply Hframe. vm_compute. discriminate.
Defined.

(** X3: [delete_todo] answers false and changes nothing for an id that
    is not in the store; for an id that is, it answers true and the store
    is one item shorter.  In both cases [get_todo] on every other id
    answers as before and the counter keeps its value, so the id is not
    handed out again; and when the ids of the store were distinct the
    deleted id is gone. *)
Theorem delete_todo_removes_the_item (m : TodoManager.t) (i : Z) :
  (get_todo m i = None -> delete_todo m i = (false, m)) /\
  (get_todo m i <> None ->
   fst (delete_todo m i) = true /\ S (count (snd (delete_todo m i))) = count m) /\
  (forall j, j <> i -> get_todo (snd (delete_todo m i)) j = get_todo m j) /\
  next_id_ (snd (delete_todo m i)) = next_id_ m /\
  (store_ok m -> get_todo (snd (delete_todo m i)) i = None).
Proof.
  unfold delete_todo, get_todo, count.
  destruct (find_todo (todos_ m) i) as [it|] eqn:E; simpl.
  - split; [discriminate|]. split.
    + intros _. split; [reflexivity|]. apply erase_todo_length. congruence.
    + split; [intros j Hj; now apply find_todo_erase|]. split; [reflexivity|].
      intros [Hnd _]. now apply find_todo_erase_same.
  - split; [reflexivity|]. split; [congruence|]. split; [reflexivity|].
    split; [reflexivity|]. intros _. exact E.
Qed.

Lemma delete_todo_removes_the_item_witness :
  fst (delete_todo three_todos 2) = true /\
  get_todo (snd (delete_todo three_todos 2)) 3 = get_todo three_todos 3 /\
  delete_todo three_todos 9 = (false, three_todos).
Proof.
  destruct (delete_todo_removes_the_item three_todos 2) as [_ [H1 [H2 _]]].
  split; [apply H1; vm_compute; discriminate|].
  split; [apply H2; discriminate|].
  apply (proj1 (delete_todo_removes_the_item three_todos 9)). reflexivity.
Defined.

Lemma status_eqb_refl (s : TodoStatus) : status_eqb s s = true.
Proof. now destruct s. Qed.

(** What [update_todo] makes of an item that is in the store. *)
Lemma update_todo_found (now : Z) (m : TodoManager.t) (i : Z)
    (nt nd : option string) (ns : option TodoStatus) (old : TodoItem) :
  get_todo m i = Some old ->
  let new_title :=
    match nt with
    | Some x => if (x =? "")%string then title old else x
    | None => title old
    end in
  let new_description := match nd with Some y => y | None => description old end in
  let new_status := match ns with Some s => s | None => status old end in
  let changed :=
    negb (title old =? new_title)%string || negb (description old =? new_description)%string
    || negb (status_eqb (status old) new_status) in
  update_todo now m i nt nd ns =
  if changed
  then (true, {| todos_ := replace_todo (todos_ m) i
                             {| id := id old; title := new_title;
                                description := new_description; status := new_status;
                                created_at := created_at old; updated_at := now |};
                 next_id_ := next_id_ m |})
  else (false, m).
Proof.
  unfold get_todo, update_todo. intros ->. destruct old as [oi ot od os oc ou]. simpl.
  destruct nt as [x|]; destruct nd as [y|]; destruct ns as [z|]; simpl;
    repeat match goal with
           | |- context [(?a =? ?b)%string] => destruct (String.eqb_spec a b); subst; simpl
           | |- context [status_eqb ?a ?b] => destruct (status_eqb a b) eqn:?; simpl
           end; try reflexivity; try congruence.
  all: try match goal with H : status_eqb _ _ = true |- _ => apply status_eqb_eq in H; subst end.
  all: try reflexivity.
  all: try match goal with H : status_eqb ?a ?a = false |- _ => destruct a; discriminate H end.
Qed.

(** X4: [update_todo] (and with it [mark_in_progress], [mark_completed],
    [mark_pending]) answers false and changes nothing when the id is not
    in the store, and also when the item already has the values asked for;
    an empty new title is ignored.  When it answers true the item has the
    new values, its id and creation tick are kept and [updated_at] is the
    tick of the call.  No other id is touched, and the same call made a
    second time answers false: a todo that is already completed is
    reported the same way as one that does not exist. *)
Theorem update_todo_reports_change (now : Z) (m : TodoManager.t) (i : Z)
    (nt nd : option string) (ns : option TodoStatus) :
  (get_todo m i = None -> update_todo now m i nt nd ns = (false, m)) /\
  (forall old, get_todo m i = Some old ->
     let new_title :=
       match nt with
       | Some x => if (x =? "")%string then title old else x
       | None => title old
       end in
     let new_description := match nd with Some y => y | None => description old end in
     let new_status := match ns with Some s => s | None => status old end in
     let changed :=
       negb (title old =? new_title)%string
       || negb (description old =? new_description)%string
       || negb (status_eqb (status old) new_status) in
     fst (update_todo now m i nt nd ns) = changed /\
     (changed = true ->
      get_todo (snd (update_todo now m i nt nd ns)) i
      = Some {| id := id old; title := new_title; description := new_description;
                status := new_status; created_at := created_at old; updated_at := now |})) /\
  (fst (update_todo now m i nt nd ns) = false -> snd (update_todo now m i nt nd ns) = m) /\
  (forall j, j <> i -> get_todo (snd (update_todo now m i nt nd ns)) j = get_todo m j) /\
  (forall now', fst (update_todo now' (snd (update_todo now m i nt nd ns)) i nt nd ns) = false).
Proof.
  destruct (get_todo m i) as [old|] eqn:E.
  2:{ assert (R : update_todo now m i nt nd ns = (false, m)).
      { unfold update_todo. unfold get_todo in E. now rewrite E. }
      rewrite R. simpl. split; [reflexivity|]. split; [discriminate|].
      split; [reflexivity|]. split; [reflexivity|].
      intros now'. unfold update_todo. unfold get_todo in E. now rewrite E. }
  pose proof (update_todo_found now m i nt nd ns old E) as R. cbv zeta in R.
  pose proof (find_todo_id _ _ _ E) as Hid.
  split; [discriminate|]. split; [|split; [|split]].
  - intros old' Hold. injection Hold as <-. cbv zeta. rewrite R.
    destruct (negb _ || negb _ || negb _) eqn:Hc; simpl; [|split; [reflexivity|discriminate]].
    split; [reflexivity|]. intros _. unfold get_todo in *. simpl.
    rewrite find_todo_replace by exact Hid. now rewrite Z.eqb_refl, E.
  - rewrite R. destruct (negb _ || negb _ || negb _); simpl; [discriminate|reflexivity].
  - intros j Hj. rewrite R. destruct (negb _ || negb _ || negb _); simpl; [|reflexivity].
    unfold get_todo. simpl. rewrite find_todo_replace by exact Hid.
    destruct (Z.eqb_spec j i); [contradiction|reflexivity].
  - intros now'. rewrite R. destruct (negb _ || negb _ || negb _) eqn:Hc; cbn [snd].
    + match goal with
      | |- context [replace_todo _ _ ?n] => set (new := n)
      end.
      assert (Hnew : get_todo {| todos_ := replace_todo (todos_ m) i new;
                                 next_id_ := next_id_ m |} i = Some new).
      { unfold get_todo in *. simpl. rewrite find_todo_replace by exact Hid.
        now rewrite Z.eqb_refl, E. }
      rewrite (update_todo_found now' _ i nt nd ns new Hnew). subst new. simpl.
      destruct nt as [x|]; destruct nd as [y|]; destruct ns as [z|]; simpl;
        try destruct (x =? "")%string; rewrite ?String.eqb_refl, ?status_eqb_refl;
        reflexivity.
    + pose proof (update_todo_found now' m i nt nd ns old E) as R'. cbv zeta in R'.
      rewrite R', Hc. reflexivity.
Qed.

Lemma update_todo_reports_change_witness :
  fst (mark_completed 20 three_todos 2) = true /\
  fst (mark_completed 21 (snd (mark_completed 20 three_todos 2)) 2) = false /\
  mark_completed 20 three_todos 9 = (false, three_todos).
Proof.
  destruct (update_todo_reports_change 20 three_todos 2 None None (Some COMPLETED))
    as [_ [H1 [_ [_ H2]]]].
  split.
  - unfold mark_completed.
    rewrite (proj1 (H1 {| id := 2; title := "Write notes"; description := EmptyString;
                          status := PENDING; created_at := 11; updated_at := 11 |} eq_refl)).
    reflexivity.
  - split; [exact (H2 21)|].
    apply (proj1 (update_todo_reports_change 20 three_todos 9 None None (Some COMPLETED))).
    reflexivity.
Defined.

Lemma insert_by_creation_perm (x : TodoItem) (l : list TodoItem) :
  Permutation (insert_by_creation x l) (x :: l).
Proof.
  induction l as [|y l IH]; simpl; [apply Permutation_refl|].
  destruct (Z.ltb (created_at y) (created_at x)); [|apply Permutation_refl].
  eapply Permutation_trans; [apply perm_skip, IH|apply perm_swap].
Qed.

Lemma insert_by_creation_sorted (x : TodoItem) (l : list TodoItem) :
  sorted_by_creation l -> sorted_by_creation (insert_by_creation x l).
Proof.
  induction l as [|y l IH]; simpl.
  - intros _. split; [intros ? []|exact I].
  - intros [Hy Hl]. destruct (Z.ltb_spec (created_at y) (created_at x)); simpl.
    + split; [|auto].
      intros z Hz. apply insert_by_creation_In in Hz. destruct Hz as [->|Hz]; [lia|auto].
    + split; [|split; assumption].
      intros z [<-|Hz]; [lia|]. specialize (Hy z Hz). lia.
Qed.

(** X5: the execution queue holds exactly the pending todos of the
    store, each as often as the store holds it, ordered by creation tick
    (earliest first). *)
Theorem execution_queue_is_sorted (m : TodoManager.t) :
  Permutation (get_execution_queue m) (get_pending_todos m) /\
  sorted_by_creation (get_execution_queue m) /\
  (forall x, In x (get_execution_queue m) <-> In x (todos_ m) /\ status x = PENDING).
Proof.
  unfold get_execution_queue. split; [|split].
  - induction (get_pending_todos m) as [|x l IH]; simpl; [constructor|].
    eapply Permutation_trans; [apply insert_by_creation_perm|now apply perm_skip].
  - induction (get_pending_todos m) as [|x l IH]; simpl; [exact I|].
    now apply insert_by_creation_sorted.
  - intros x. rewrite sort_by_creation_In. unfold get_pending_todos. rewrite filter_In.
    now rewrite status_eqb_eq.
Qed.

Lemma until_loop_incl (l : list TodoItem) (stop_id : Z) (x : TodoItem) :
  In x (until_loop l stop_id) -> In x l /\ id x <> stop_id.
Proof.
  induction l as [|y l IH]; simpl; [tauto|].
  destruct (Z.eqb_spec (id y) stop_id); simpl; [tauto|].
  intros [<-|H]; [tauto|]. destruct (IH H). tauto.
Qed.

Lemma until_loop_absent (l : list TodoItem) (stop_id : Z) :
  (forall x, In x l -> id x <> stop_id) -> until_loop l stop_id = l.
Proof.
  induction l as [|y l IH]; simpl; [reflexivity|]. intros H.
  destruct (Z.eqb_spec (id y) stop_id) as [E|E]; [elim (H y (or_introl eq_refl) E)|].
  f_equal. apply IH. intros x Hx. apply H. now right.
Qed.

Lemma until_loop_present (pre post : list TodoItem) (s : TodoItem) (stop_id : Z) :
  id s = stop_id -> (forall x, In x pre -> id x <> stop_id) ->
  until_loop (pre ++ s :: post)%list stop_id = pre.
Proof.
  intros Hs. induction pre as [|y pre IH]; simpl; intros H.
  - now rewrite Hs, Z.eqb_refl.
  - destruct (Z.eqb_spec (id y) stop_id) as [E|E]; [elim (H y (or_introl eq_refl) E)|].
    f_equal. apply IH. intros x Hx. apply H. now right.
Qed.

(** X6: [get_todos_until] returns the execution queue up to, and
    without, the first item whose id is the stop id; no item it returns
    has the stop id; and when no pending item has the stop id it returns
    the whole queue. *)
Theorem get_todos_until_characterization (m : TodoManager.t) (stop_id : Z) :
  (forall x, In x (get_todos_until m stop_id) ->
     In x (get_execution_queue m) /\ id x <> stop_id) /\
  ((forall x, In x (get_execution_queue m) -> id x <> stop_id) ->
   get_todos_until m stop_id = get_execution_queue m) /\
  (forall pre s post,
     get_execution_queue m = (pre ++ s :: post)%list ->
     id s = stop_id -> (forall x, In x pre -> id x <> stop_id) ->
     get_todos_until m stop_id = pre).
Proof.
  unfold get_todos_until. split; [|split].
  - intros x. apply until_loop_incl.
  - apply until_loop_absent.
  - intros pre s post -> Hs Hpre. now apply until_loop_present.
Qed.

Lemma get_todos_until_characterization_witness :
  map id (get_todos_until three_todos 9) = [1; 2; 3] /\
  map id (get_todos_until three_todos 3) = [1; 2].
Proof.
  destruct (get_todos_until_characterization three_todos 9) as [_ [H _]].
  split.
  - rewrite H; [reflexivity|]. intros x Hx. vm_compute in Hx.
    destruct Hx as [<-|[<-|[<-|[]]]]; discriminate.
  - destruct (get_todos_until_characterization three_todos 3) as [_ [_ H3]].
    rewrite (H3 [{| id := 1; title := "Write draft"; description := EmptyString;
                    status := PENDING; created_at := 10; updated_at := 10 |};
                 {| id := 2; title := "Write notes"; description := EmptyString;
                    status := PENDING; created_at := 11; updated_at := 11 |}]
                {| id := 3; title := "Write tests"; description := EmptyString;
                   status := PENDING; created_at := 12; updated_at := 12 |} []
                eq_refl eq_refl); [reflexivity|].
    intros x [<-|[<-|[]]]; discriminate.
Defined.

Lemma created_in_order_filter (f : TodoItem -> bool) (l : list TodoItem) :
  created_in_order l -> created_in_order (filter f l).
Proof.
  induction l as [|x l IH]; simpl; [auto|]. intros [Hx Hl].
  destruct (f x); simpl; [|auto]. split; [|auto].
  intros y Hy. apply filter_In in Hy. apply Hx. tauto.
Qed.

Lemma sort_by_creation_in_order (l : list TodoItem) :
  created_in_order l -> sort_by_creation l = l.
Proof.
  induction l as [|x l IH]; [reflexivity|]. intros [Hx Hl].
  change (sort_by_creation (x :: l)) with (insert_by_creation x (sort_by_creation l)).
  rewrite (IH Hl).
  destruct l as [|y l]; simpl; [reflexivity|].
  assert (H : created_at x < created_at y) by (apply Hx; now left).
  assert (E : Z.ltb (created_at y) (created_at x) = false) by (apply Z.ltb_ge; lia).
  now rewrite E.
Qed.

(** Items created at the same tick keep the order of the store: a list
    that is sorted already is left as it is. *)
Lemma sort_by_creation_keeps_sorted (l : list TodoItem) :
  sorted_by_creation l -> sort_by_creation l = l.
Proof.
  induction l as [|x l IH]; [reflexivity|]. intros [Hx Hl].
  change (sort_by_creation (x :: l)) with (insert_by_creation x (sort_by_creation l)).
  rewrite (IH Hl).
  destruct l as [|y l]; simpl; [reflexivity|].
  assert (H : created_at x <= created_at y) by (apply Hx; now left).
  assert (E : Z.ltb (created_at y) (created_at x) = false) by (apply Z.ltb_ge; lia).
  now rewrite E.
Qed.

(** X7: when the items of the store stand in the order of their
    creation ticks, no two at the same tick, the execution queue is the
    list of pending todos in store order, so that [get_next_pending]
    returns the head of the queue and the selectors of [/do until] and
    [/do N-M] walk the store in the order [/do all] does.  [add_todo]
    keeps the store in that order when the clock has advanced since the
    last item was created. *)
Theorem queue_follows_store_order (m : TodoManager.t) :
  created_in_order (todos_ m) ->
  get_execution_queue m = get_pending_todos m /\
  get_next_pending m = hd_error (get_execution_queue m) /\
  (forall now title description i m',
     (forall x, In x (todos_ m) -> created_at x < now) ->
     add_todo now m title description = Some (i, m') ->
     created_in_order (todos_ m')).
Proof.
  intros Hord.
  assert (E : get_execution_queue m = get_pending_todos m).
  { unfold get_execution_queue. apply sort_by_creation_in_order.
    now apply created_in_order_filter. }
  split; [exact E|]. split.
  - rewrite E. unfold get_next_pending, get_pending_todos.
    induction (todos_ m) as [|x l IH]; simpl; [reflexivity|].
    destruct (status_eqb (status x) PENDING); [reflexivity|].
    apply IH. exact (proj2 Hord).
  - intros now title description i m' Hnow Hadd. unfold add_todo in Hadd.
    destruct (title =? "")%string; [discriminate|]. injection Hadd as _ <-. simpl.
    revert Hord Hnow. induction (todos_ m) as [|x l IH]; simpl.
    + intros _ _. split; [intros ? []|exact I].
    + intros [Hx Hl] Hnow. split.
      * intros y Hy. apply in_app_iff in Hy. destruct Hy as [Hy|[<-|[]]]; [auto|].
        simpl. apply Hnow. now left.
      * apply IH; [exact Hl|]. intros y Hy. apply Hnow. now right.
Qed.

Lemma queue_follows_store_order_witness :
  get_execution_queue three_todos = get_pending_todos three_todos /\
  get_next_pending three_todos = hd_error (get_execution_queue three_todos).
Proof.
  assert (H : created_in_order (todos_ three_todos)).
  { vm_compute. repeat split; intros y Hy;
      repeat (destruct Hy as [<-|Hy]; [reflexivity|]); destruct Hy. }
  destruct (queue_follows_store_order three_todos H) as [H1 [H2 _]].
  split; assumption.
Defined.

(** X8: [string_to_status] reads back what [status_to_string] writes,
    and the three names [status_to_string] writes are the only strings
    [string_to_status] accepts; every other string raises. *)
Theorem status_string_round_trip :
  (forall s, string_to_status (status_to_string s) = Some s) /\
  (forall status_str s,
     string_to_status status_str = Some s -> status_to_string s = status_str).
Proof.
  split.
  - intros []; reflexivity.
  - intros status_str s. unfold string_to_status.
    destruct (String.eqb_spec status_str "pending") as [->|_];
      [intros H; injection H as <-; reflexivity|].
    destruct (String.eqb_spec status_str "in_progress") as [->|_];
      [intros H; injection H as <-; reflexivity|].
    destruct (String.eqb_spec status_str "completed") as [->|_];
      [intros H; injection H as <-; reflexivity|discriminate].
Qed.

End StoreFacts.

(** ** The policy document and the policy engine *)
Section PolicyRuleFacts.
Import StdString Filesystem PolicyConfig PolicyChecker PolicyConfigLoader PolicyRules Scenario.

Lemma validate_extensions_spec (exts : list string) :
  validate_extensions exts = Valid <->
  (forall ext, In ext exts -> starts_with "." ext = true).
Proof.
  induction exts as [|ext exts IH]; cbn [validate_extensions In].
  - split; [intros _ ? []|reflexivity].
  - assert (Hs : starts_with "." ext = match ext with
                                       | EmptyString => false
                                       | String c _ => Ascii.eqb c "."
                                       end).
    { destruct ext as [|c rest]; [reflexivity|]. cbn [starts_with].
      now rewrite Ascii.eqb_sym, andb_true_r. }
    destruct ext as [|c rest].
    + split; [discriminate|]. intros H. specialize (H EmptyString (or_introl eq_refl)).
      discriminate.
    + destruct (Ascii.eqb c ".") eqn:E.
      * rewrite IH. split.
        -- intros H ext [<-|Hin]; [exact Hs|auto].
        -- intros H ext Hin. apply H. now right.
      * split; [discriminate|]. intros H.
        specialize (H (String c rest) (or_introl eq_refl)). congruence.
Qed.

Lemma validate_directories_spec (tool_name op_name : string) (dirs : list string) :
  validate_directories tool_name op_name dirs = Valid <->
  (forall dir, In dir dirs -> directory_ok dir).
Proof.
  induction dirs as [|dir dirs IH]; simpl.
  - split; [intros _ ? []|reflexivity].
  - destruct (String.eqb_spec dir EmptyString) as [->|Hne].
    + rewrite IH. split.
      * intros H d [<-|Hin]; [now left|auto].
      * intros H d Hin. apply H. now right.
    + destruct (last_char dir) as [c|] eqn:El.
      * destruct (Ascii.eqb_spec c "/") as [->|Hc]; simpl.
        -- destruct (contains ".." dir) eqn:Ec.
           ++ split; [discriminate|]. intros H.
              destruct (H dir (or_introl eq_refl)) as [?|[_ ?]]; congruence.
           ++ rewrite IH. split.
              ** intros H d [<-|Hin]; [right; split; assumption|auto].
              ** intros H d Hin. apply H. now right.
        -- split; [discriminate|]. intros H.
           destruct (H dir (or_introl eq_refl)) as [?|[? _]]; congruence.
      * simpl. split; [discriminate|]. intros H.
        destruct (H dir (or_introl eq_refl)) as [?|[? _]]; congruence.
Qed.

Lemma validate_tools_spec (ts : list (string * ToolPolicy)) :
  validate_tools ts = Valid <-> (forall entry, In entry ts -> tool_ok entry).
Proof.
  induction ts as [|[tool_name tool_policy] ts IH]; cbn [validate_tools In].
  - split; [intros _ ? []|reflexivity].
  - assert (Hops : validate_ops tool_name
                     [("create", create tool_policy); ("read", read tool_policy);
                      ("update", update tool_policy); ("delete", delete_op tool_policy)]
                   = Valid <->
                   operation_ok (create tool_policy) /\ operation_ok (read tool_policy) /\
                   operation_ok (update tool_policy) /\ operation_ok (delete_op tool_policy)).
    { unfold operation_ok. cbn [validate_ops].
      rewrite <- (validate_directories_spec tool_name "create"),
              <- (validate_directories_spec tool_name "read"),
              <- (validate_directories_spec tool_name "update"),
              <- (validate_directories_spec tool_name "delete").
      destruct (validate_directories tool_name "create" _);
        [|split; [discriminate|intros [? _]; discriminate]].
      destruct (validate_directories tool_name "read" _);
        [|split; [discriminate|intros [_ [? _]]; discriminate]].
      destruct (validate_directories tool_name "update" _);
        [|split; [discriminate|intros [_ [_ [? _]]]; discriminate]].
      destruct (validate_directories tool_name "delete" _);
        [|split; [discriminate|intros [_ [_ [_ ?]]]; discriminate]].
      tauto. }
    destruct (String.eqb_spec tool_name EmptyString) as [->|Hne].
    + split; [discriminate|]. intros H.
      destruct (H _ (or_introl eq_refl)) as [Hn _]. now elim Hn.
    + destruct (validate_ops tool_name _).
      * rewrite IH. split.
        -- intros H entry [<-|Hin]; [|auto]. split; [exact Hne|]. now apply Hops.
        -- intros H entry Hin. apply H. now right.
      * split; [discriminate|]. intros H.
        destruct (H _ (or_introl eq_refl)) as [_ Ho]. apply Hops in Ho. discriminate.
Qed.

Lemma validate_spec (s : PolicySettings) : validate s = Valid <-> settings_ok s.
Proof.
  unfold validate, settings_ok.
  pose proof (validate_extensions_spec (blocked_extensions (global s))) as He.
  pose proof (validate_tools_spec (tools s)) as Ht.
  destruct (validate_extensions (blocked_extensions (global s))).
  - destruct (N.eqb_spec (max_file_size_mb (global s)) 0) as [E0|E0]; simpl.
    + split; [discriminate|]. intros [_ [? _]]. lia.
    + destruct (N.ltb_spec 1000 (max_file_size_mb (global s))) as [Hgt|Hle].
      * split; [discriminate|]. intros [_ [? _]]. lia.
      * rewrite Ht. split.
        -- intros Hts. split; [now apply He|]. split; [lia|exact Hts].
        -- intros [_ [_ Hts]]. exact Hts.
  - split; [discriminate|]. intros [H _]. apply He in H. discriminate.
Qed.

(** X9: [PolicySettings::validate] accepts the settings exactly when
    every blocked extension starts with a period, the file size limit is
    between 1 and 1000 megabytes, no tool has an empty name, and every
    allowed directory of every operation of every tool is either the empty
    string or ends in a slash and holds no two periods in a row.  The
    command lists of the bash tool are not looked at.  The settings the
    constructor builds pass. *)
Theorem validate_characterization :
  (forall s, validate s = Valid <-> settings_ok s) /\
  validate default_settings = Valid.
Proof. split; [exact validate_spec|reflexivity]. Qed.

(** X10: whatever settings [load_or_create] returns have passed
    [validate]: their blocked extensions start with a period, their size
    limit is between 1 and 1000, and their allowed directories are empty
    strings or end in a slash without two periods in a row.  The same
    holds of the settings [parse_config] returns. *)
Theorem loaded_settings_are_valid (d : Disk) (s : PolicySettings) :
  load_or_create d = Loaded s ->
  validate s = Valid /\ settings_ok s /\
  (forall file s', parse_config file = inr s' -> settings_ok s').
Proof.
  assert (Hp : forall file s', parse_config file = inr s' -> validate s' = Valid).
  { intros file s'. unfold parse_config. destruct file as [| |text]; try discriminate.
    destruct (Json.parse_stream text) as [j|]; [|discriminate].
    destruct (validate_json_schema j); [|discriminate].
    destruct (json_to_settings j) as [st|]; [|discriminate].
    destruct (validate st) eqn:E; [|discriminate].
    intros H. injection H as <-. exact E. }
  intros H.
  assert (Hv : validate s = Valid).
  { unfold load_or_create in H.
    destruct (policy_file d) eqn:Ef.
    - destruct (mkdir_failure d); [discriminate|].
      destruct (save_failure d); [discriminate|].
      destruct (parse_config default_file) as [e|st] eqn:Ep; [discriminate|].
      injection H as <-. exact (Hp _ _ Ep).
    - destruct (parse_config Unreadable) as [e|st] eqn:Ep; [discriminate|].
      injection H as <-. exact (Hp _ _ Ep).
    - destruct (parse_config (Holds text)) as [e|st] eqn:Ep; [discriminate|].
      injection H as <-. exact (Hp _ _ Ep). }
  split; [exact Hv|]. split; [now apply validate_spec|].
  intros file s' Hs'. apply validate_spec. exact (Hp _ _ Hs').
Qed.

Lemma loaded_settings_are_valid_witness : settings_ok default_settings.
Proof.
  apply (loaded_settings_are_valid
           {| policy_file := Missing; mkdir_failure := None; save_failure := None |}
           default_settings).
  vm_compute. reflexivity.
Defined.

(** X11: the reason [get_bash_command_violation_reason] gives agrees
    with the verdicts: it is empty exactly when
    [is_bash_command_allowed] accepts the command, and it is "Command
    contains blocked operation" exactly when [is_bash_command_blocked]
    holds, which is the case for every command when the policy has no
    bash_tool section. *)
Theorem violation_reason_matches_verdict (s : PolicySettings) (command : string) :
  (get_bash_command_violation_reason s command = EmptyString <->
   is_bash_command_allowed s command = true) /\
  (get_bash_command_violation_reason s command = "Command contains blocked operation" <->
   is_bash_command_blocked s command = true) /\
  (get_bash_command_violation_reason s command = "Command not in allowed list" <->
   is_bash_command_blocked s command = false /\ is_bash_command_allowed s command = false) /\
  (StdMap.find "bash_tool" (tools s) = None ->
   is_bash_command_blocked s command = true /\ is_bash_command_allowed s command = false).
Proof.
  unfold get_bash_command_violation_reason.
  assert (Hb : is_bash_command_blocked s command = true ->
               is_bash_command_allowed s command = false).
  { intros Hblocked. unfold is_bash_command_allowed. now rewrite Hblocked. }
  assert (Hnone : StdMap.find "bash_tool" (tools s) = None ->
                  is_bash_command_blocked s command = true).
  { intros Hfind. unfold is_bash_command_blocked. now rewrite Hfind. }
  destruct (is_bash_command_blocked s command) eqn:Eb.
  - rewrite (Hb eq_refl).
    split; [split; discriminate|]. split; [split; reflexivity|].
    split; [split; [discriminate|intros [? _]; discriminate]|].
    intros _. split; reflexivity.
  - destruct (is_bash_command_allowed s command) eqn:Ea; simpl.
    + split; [split; reflexivity|]. split; [split; discriminate|].
      split; [split; [discriminate|intros [_ ?]; discriminate]|].
      intros Hfind. specialize (Hnone Hfind). discriminate.
    + split; [split; discriminate|]. split; [split; discriminate|].
      split; [split; [intros _; split; reflexivity|reflexivity]|].
      intros Hfind. specialize (Hnone Hfind). discriminate.
Qed.

(** X12: for settings that pass [validate], the size limit in bytes is
    the limit in megabytes times 1048576 — the product does not wrap
    around in [size_t] — and [is_file_size_allowed] accepts exactly the
    sizes up to it.  Without the validation the product can wrap: with a
    limit of 2^44 megabytes not even one byte is accepted. *)
Theorem file_size_limit_does_not_wrap (s : PolicySettings) (size_bytes : N) :
  validate s = Valid ->
  (is_file_size_allowed s size_bytes = true <->
   (size_bytes <= max_file_size_mb (global s) * 1048576)%N) /\
  (1048576 <= max_file_size_mb (global s) * 1048576 <= 1048576000)%N /\
  is_file_size_allowed
    {| global := {| blocked_extensions := []; max_file_size_mb := 2 ^ 44;
                    auto_backup := false |};
       tools := [] |} 1 = false.
Proof.
  intros Hv. apply validate_spec in Hv. destruct Hv as [_ [Hsz _]].
  unfold is_file_size_allowed. cbv zeta.
  assert (E : ((max_file_size_mb (global s) * 1024 * 1024) mod 2 ^ 64
               = max_file_size_mb (global s) * 1048576)%N).
  { rewrite N.mod_small; [lia|].
    apply N.le_lt_trans with (m := (1000 * 1024 * 1024)%N); [nia|]. reflexivity. }
  rewrite E, N.leb_le. split; [tauto|]. split; [lia|]. reflexivity.
Qed.

Lemma file_size_limit_does_not_wrap_witness :
  is_file_size_allowed default_settings 10485760 = true /\
  is_file_size_allowed default_settings 10485761 = false.
Proof.
  destruct (file_size_limit_does_not_wrap default_settings 10485760 eq_refl) as [H1 _].
  destruct (file_size_limit_does_not_wrap default_settings 10485761 eq_refl) as [H2 _].
  split.
  - apply H1. vm_compute. discriminate.
  - destruct (is_file_size_allowed default_settings 10485761) eqn:E; [|reflexivity].
    exfalso. pose proof (proj1 H2 eq_refl) as H. vm_compute in H. now apply H.
Defined.

Lemma get_allowed_directories_policy (s : PolicySettings) (tool : string) (op : Operation) :
  get_allowed_directories s tool (operation_name op) =
  match get_operation_policy s tool op with
  | Some pol => allowed_directories pol
  | None => []
  end.
Proof.
  unfold get_allowed_directories, get_operation_policy.
  destruct op; simpl; destruct (StdMap.find tool (tools s)); reflexivity.
Qed.

(** X13: the directories [get_allowed_directories] lists for a tool and
    an operation name (the ones the model is told about in the system
    prompt) are the ones [is_operation_allowed] tests: the operation is
    allowed on a path exactly when the path starts with one of them (the
    empty entry is a prefix of every path).  An operation name other than
    create, read, update and delete has no directories.  The test is on
    the bytes of the path, so whatever is appended to an allowed path is
    allowed too. *)
Theorem allowed_directories_are_prefixes (s : PolicySettings) (tool : string) :
  (forall op path,
     is_operation_allowed s tool op path = true <->
     exists dir, In dir (get_allowed_directories s tool (operation_name op)) /\
                 starts_with dir path = true) /\
  (forall op path, has_allowed_prefix s tool op path = is_operation_allowed s tool op path) /\
  (forall operation,
     operation <> "create" -> operation <> "read" -> operation <> "update" ->
     operation <> "delete" -> get_allowed_directories s tool operation = []) /\
  (forall op path suffix,
     is_operation_allowed s tool op path = true ->
     is_operation_allowed s tool op (path ++ suffix) = true).
Proof.
  assert (H1 : forall op path,
             is_operation_allowed s tool op path = true <->
             exists dir, In dir (get_allowed_directories s tool (operation_name op)) /\
                         starts_with dir path = true).
  { intros op path. rewrite is_operation_allowed_iff, get_allowed_directories_policy.
    destruct (get_operation_policy s tool op) as [pol|].
    - split.
      + intros [pol' [E [dir [Hin Hd]]]]. injection E as <-. exists dir. split; [exact Hin|].
        destruct Hd as [->|Hd]; [reflexivity|exact Hd].
      + intros [dir [Hin Hd]]. exists pol. split; [reflexivity|]. exists dir. auto.
    - split; [intros [pol [E _]]; discriminate|intros [dir [[] _]]]. }
  split; [exact H1|]. split; [reflexivity|]. split.
  - intros operation Hc Hr Hu Hd. unfold get_allowed_directories, operation_of_string.
    apply String.eqb_neq in Hc, Hr, Hu, Hd. now rewrite Hc, Hr, Hu, Hd.
  - intros op path suffix H. apply H1 in H. destruct H as [dir [Hin Hd]].
    apply H1. exists dir. split; [exact Hin|].
    apply starts_with_iff in Hd. destruct Hd as [r ->].
    rewrite app_assoc. apply starts_with_app.
Qed.

Lemma split_nonempty (sep : ascii) (s : string) : split sep s <> [].
Proof.
  destruct s as [|c s]; simpl; [discriminate|].
  destruct (Ascii.eqb c sep); [discriminate|]. destruct (split sep s); discriminate.
Qed.

Lemma split_app_sep (sep : ascii) (a b : string) :
  split sep (a ++ String sep b) = (split sep a ++ split sep b)%list.
Proof.
  induction a as [|c a IH]; simpl.
  - now rewrite Ascii.eqb_refl.
  - destruct (Ascii.eqb c sep); [now rewrite IH|]. rewrite IH.
    pose proof (split_nonempty sep a) as Hn.
    destruct (split sep a) as [|w ws]; [now elim Hn|reflexivity].
Qed.

Lemma split_no_slash (name : string) : no_slash name = true -> split "/" name = [name].
Proof.
  induction name as [|c name IH]; simpl; [reflexivity|].
  intros H. apply andb_true_iff in H as [Hc Hn]. apply negb_true_iff in Hc.
  rewrite Hc, (IH Hn). reflexivity.
Qed.

Lemma last_app_nonempty {A : Type} (l1 l2 : list A) (d : A) :
  l2 <> [] -> last (l1 ++ l2)%list d = last l2 d.
Proof.
  intros H. induction l1 as [|x l1 IH]; simpl; [reflexivity|].
  destruct (l1 ++ l2)%list eqn:E; [|exact IH].
  apply app_eq_nil in E. destruct E as [_ E]. contradiction.
Qed.

Lemma filename_in_directory (dir name : string) :
  no_slash name = true ->
  filename name = name /\ filename (dir ++ String "/" name) = name.
Proof.
  intros H. unfold filename. split.
  - now rewrite (split_no_slash name H).
  - rewrite split_app_sep, last_app_nonempty by apply split_nonempty.
    now rewrite (split_no_slash name H).
Qed.

Lemma plain_name_no_slash (s : string) : plain_name s = true -> no_slash s = true.
Proof.
  induction s as [|c s IH]; simpl; [reflexivity|].
  intros H. apply andb_true_iff in H as [H1 H2]. apply andb_true_iff in H1 as [H1 _].
  now rewrite H1, (IH H2).
Qed.

Lemma no_slash_app (a b : string) :
  no_slash a = true -> no_slash b = true -> no_slash (a ++ b) = true.
Proof.
  induction a as [|c a IH]; simpl; [auto|].
  intros H Hb. apply andb_true_iff in H as [H1 H2]. now rewrite H1, (IH H2 Hb).
Qed.

Lemma from_last_dot_plain (e : string) : plain_name e = true -> from_last_dot e = None.
Proof.
  induction e as [|c e IH]; simpl; [reflexivity|].
  intros H. apply andb_true_iff in H as [H1 H2]. apply andb_true_iff in H1 as [_ H1].
  apply negb_true_iff in H1. now rewrite (IH H2), H1.
Qed.

Lemma from_last_dot_suffix (stem e : string) :
  plain_name e = true -> from_last_dot (stem ++ String "." e) = Some (String "." e).
Proof.
  intros He. induction stem as [|c stem IH]; simpl.
  - now rewrite (from_last_dot_plain e He).
  - now rewrite IH.
Qed.

(** The extension of a file name, as [path::extension] reads it. *)
Lemma extension_of_name (e : string) :
  plain_name e = true -> e <> EmptyString ->
  (forall path, filename path = String "." e -> extension path = EmptyString) /\
  (forall path c stem, filename path = String c (stem ++ String "." e) ->
     extension path = String "." e).
Proof.
  intros He Hne. split.
  - intros path Hf. unfold extension. rewrite Hf.
    destruct e as [|c e]; [now elim Hne|].
    assert (H1 : (String "." (String c e) =? ".")%string = false) by reflexivity.
    assert (H2 : (String "." (String c e) =? "..")%string = false).
    { apply String.eqb_neq. intros E. injection E as -> ->. discriminate He. }
    rewrite H1, H2. simpl orb. cbv iota. now rewrite (from_last_dot_plain _ He).
  - intros path c stem Hf. unfold extension. rewrite Hf.
    assert (H1 : (String c (stem ++ String "." e) =? ".")%string = false).
    { apply String.eqb_neq. intros E. injection E as _ E. destruct stem; discriminate E. }
    assert (H2 : (String c (stem ++ String "." e) =? "..")%string = false).
    { apply String.eqb_neq. intros E. injection E as _ E.
      destruct stem as [|c' stem]; simpl in E.
      - injection E as E. now elim Hne.
      - injection E as _ E. destruct stem; discriminate E. }
    rewrite H1, H2. simpl orb. cbv iota. now rewrite (from_last_dot_suffix stem e He).
Qed.

(** X14: the extension [is_extension_blocked] looks up is the one
    [std::filesystem] defines: the part of the file name from its last
    period on, where a period that starts the file name does not count.
    So for a file named [stem.e] in any directory the verdict is whether
    [.e] is in the list of blocked extensions, while a file whose whole
    name is [.e] (such as [.env] or [.key]) has no extension and is never
    blocked by the list. *)
Theorem extension_blocking_by_file_name (s : PolicySettings) (dir e : string) :
  plain_name e = true -> e <> EmptyString ->
  (is_extension_blocked s (String "." e) = false /\
   is_extension_blocked s (dir ++ String "/" (String "." e)) = false) /\
  (forall c stem, no_slash (String c stem) = true ->
     is_extension_blocked s (String c stem ++ String "." e)
     = mem (String "." e) (blocked_extensions (global s)) /\
     is_extension_blocked s (dir ++ String "/" (String c stem ++ String "." e))
     = mem (String "." e) (blocked_extensions (global s))).
Proof.
  intros He Hne.
  assert (Hes : no_slash e = true) by now apply plain_name_no_slash.
  assert (Hdot : no_slash (String "." e) = true) by (simpl; exact Hes).
  destruct (extension_of_name e He Hne) as [Hhidden Hext].
  destruct (filename_in_directory dir (String "." e) Hdot) as [F1 F2].
  split.
  - unfold is_extension_blocked. now rewrite (Hhidden _ F1), (Hhidden _ F2).
  - intros c stem Hstem.
    assert (Hn : no_slash (String c stem ++ String "." e) = true)
      by (apply no_slash_app; assumption).
    destruct (filename_in_directory dir _ Hn) as [G1 G2].
    unfold is_extension_blocked.
    rewrite (Hext _ c stem G1), (Hext _ c stem G2). split; reflexivity.
Qed.

Lemma extension_blocking_by_file_name_witness :
  is_extension_blocked default_settings "src/.env" = false /\
  is_extension_blocked default_settings "src/prod.env" = true.
Proof.
  destruct (extension_blocking_by_file_name default_settings "src" "env" eq_refl
              ltac:(discriminate)) as [[_ H1] H2].
  split; [exact H1|].
  destruct (H2 "p"%char "rod" eq_refl) as [_ H3].
  exact H3.
Defined.

End PolicyRuleFacts.

(** ** The command runner *)
Section RunnerFacts.
Import StdString Regex CommandResult BashTool Scenario.

Lemma starts_with_length (p s : string) :
  starts_with p s = true -> String.length p <= String.length s.
Proof.
  intros H. apply starts_with_split in H. destruct H as [r ->].
  rewrite length_app. lia.
Qed.

Lemma find_bound (p s : string) :
  forall i, find p s = Some i -> i + String.length p <= String.length s.
Proof.
  induction s as [|c s IH]; intros i; simpl.
  - destruct (starts_with p EmptyString) eqn:E; [|discriminate].
    intros H. injection H as <-. apply starts_with_length in E. simpl in *. lia.
  - destruct (starts_with p (String c s)) eqn:E.
    + intros H. injection H as <-. apply starts_with_length in E. simpl in *. lia.
    + destruct (find p s) as [j|]; [|discriminate]. simpl. intros H. injection H as <-.
      specialize (IH j eq_refl). lia.
Qed.

Lemma starts_with_app_false (p : string) :
  forall s r, starts_with p s = false -> String.length p <= String.length s ->
  starts_with p (s ++ r) = false.
Proof.
  induction p as [|a p IH]; intros s r H L; simpl in *; [discriminate|].
  destruct s as [|b s]; simpl in *; [lia|].
  destruct (Ascii.eqb a b); simpl in *; [|reflexivity].
  apply IH; [exact H|lia].
Qed.

Lemma find_app_some (p s r : string) :
  forall i, find p s = Some i -> find p (s ++ r) = Some i.
Proof.
  induction s as [|c s IH]; intros i.
  - simpl. destruct (starts_with p EmptyString) eqn:E; [|discriminate].
    intros H. injection H as <-. destruct p; [|discriminate].
    destruct r; reflexivity.
  - cbn [find append]. destruct (starts_with p (String c s)) eqn:E.
    + intros H. injection H as <-.
      apply starts_with_split in E. destruct E as [t E].
      change (String c (s ++ r)) with (String c s ++ r). rewrite E, app_assoc.
      now rewrite starts_with_app.
    + destruct (find p s) as [j|] eqn:Ej; [|discriminate]. simpl. intros H. injection H as <-.
      pose proof (find_bound p s j Ej) as L.
      change (String c (s ++ r)) with (String c s ++ r).
      rewrite (starts_with_app_false p (String c s) r E) by (simpl; lia).
      now rewrite (IH j eq_refl).
Qed.

Lemma find_byte_absent_app (c : ascii) (a b : string) :
  find (String c EmptyString) a = None ->
  find (String c EmptyString) (a ++ String c b) = Some (String.length a).
Proof.
  induction a as [|x a IH]; simpl.
  - now rewrite Ascii.eqb_refl.
  - destruct (Ascii.eqb c x); simpl; [discriminate|].
    destruct (find (String c EmptyString) a); [discriminate|].
    intros _. now rewrite IH.
Qed.

Lemma find_byte_absent_end (c : ascii) (a : string) :
  find (String c EmptyString) a = None ->
  forall b, find (String c EmptyString) b = None ->
  find (String c EmptyString) (a ++ b) = None.
Proof.
  induction a as [|x a IH]; simpl; [auto|].
  destruct (Ascii.eqb c x); simpl; [discriminate|].
  destruct (find (String c EmptyString) a); [discriminate|].
  intros _ b Hb. now rewrite (IH eq_refl b Hb).
Qed.

Lemma last_index_absent (c : ascii) (b : string) :
  find (String c EmptyString) b = None -> forall i, last_index c b i = None.
Proof.
  induction b as [|x b IH]; simpl; [reflexivity|].
  destruct (Ascii.eqb c x) eqn:E; simpl; [discriminate|].
  destruct (find (String c EmptyString) b); [discriminate|].
  intros _ i. rewrite (IH eq_refl). now rewrite Ascii.eqb_sym, E.
Qed.

Lemma last_index_app (c : ascii) (a b : string) :
  forall i, last_index c (a ++ b) i =
            match last_index c b (i + String.length a) with
            | Some j => Some j
            | None => last_index c a i
            end.
Proof.
  induction a as [|x a IH]; intros i; simpl.
  - rewrite Nat.add_0_r. now destruct (last_index c b i).
  - rewrite IH. replace (S i + String.length a) with (i + S (String.length a)) by lia.
    now destruct (last_index c b (i + S (String.length a))).
Qed.

Lemma take_all (s : string) : take (String.length s) s = s.
Proof. induction s as [|c s IH]; simpl; [reflexivity|now rewrite IH]. Qed.

Lemma take_app_more (a b : string) (n : nat) :
  take (String.length a + n) (a ++ b) = a ++ take n b.
Proof. induction a as [|c a IH]; simpl; [reflexivity|now rewrite IH]. Qed.

Lemma drop_app_more (a b : string) (n : nat) :
  drop (String.length a + n) (a ++ b) = drop n b.
Proof. induction a as [|c a IH]; simpl; [reflexivity|exact IH]. Qed.

Lemma contains_false (p s : string) : contains p s = false <-> find p s = None.
Proof. unfold contains. destruct (find p s); split; congruence. Qed.

Lemma extract_pwd_marker_line (pre tail dir ending : string) :
  (pre = EmptyString \/ exists pre', pre = pre' ++ line_feed) ->
  contains line_feed tail = false ->
  contains line_feed dir = false ->
  (ending = EmptyString \/ exists rest, ending = line_feed ++ rest) ->
  find pwd_marker (pre ++ tail ++ pwd_marker) = Some (String.length (pre ++ tail)) ->
  extract_pwd (pre ++ tail ++ pwd_marker ++ dir ++ ending)
  = (pre ++ match ending with EmptyString => EmptyString | String _ rest => rest end, dir).
Proof.
  intros Hpre Htail Hdir Hend Hfind.
  apply contains_false in Htail, Hdir.
  set (output := pre ++ tail ++ pwd_marker ++ dir ++ ending).
  assert (Eout : output = (pre ++ tail ++ pwd_marker) ++ dir ++ ending).
  { unfold output. now rewrite !app_assoc. }
  assert (Eout2 : output = (pre ++ tail) ++ pwd_marker ++ dir ++ ending).
  { unfold output. now rewrite !app_assoc. }
  assert (Eout3 : output = ((pre ++ tail) ++ pwd_marker) ++ dir ++ ending).
  { unfold output. now rewrite !app_assoc. }
  assert (Ef : find pwd_marker output = Some (String.length (pre ++ tail))).
  { rewrite Eout. now apply find_app_some. }
  unfold extract_pwd. rewrite Ef.
  set (P := String.length (pre ++ tail)).
  set (M := String.length pwd_marker).
  assert (Elen : String.length output = P + M + String.length dir + String.length ending).
  { unfold P, M. rewrite Eout3, !length_app. lia. }
  assert (Edrop : drop (P + M) output = dir ++ ending).
  { rewrite Eout3. unfold P, M. rewrite <- length_app. apply drop_app. }
  assert (Eend : match find_from (String "010" EmptyString) output (P + M) with
                 | Some e => e
                 | None => String.length output
                 end = P + M + String.length dir).
  { unfold find_from. rewrite Edrop.
    assert (Hle : Nat.leb (P + M) (String.length output) = true)
      by (apply Nat.leb_le; lia).
    rewrite Hle. unfold line_feed in *. destruct Hend as [->|[rest ->]].
    - rewrite app_empty_r, Hdir. simpl. rewrite Elen. simpl. lia.
    - simpl append. now rewrite (find_byte_absent_app "010" dir rest Hdir). }
  rewrite Eend.
  assert (Eline : match rfind "010" output P with Some i => S i | None => 0 end
                  = String.length pre).
  { unfold rfind.
    assert (Et : take (S P) output = (pre ++ tail) ++ "_").
    { rewrite Eout2. replace (S P) with (String.length (pre ++ tail) + 1) by (unfold P; lia).
      now rewrite take_app_more. }
    rewrite Et, last_index_app. simpl last_index at 1.
    rewrite last_index_app, (last_index_absent _ _ Htail).
    destruct Hpre as [->|[pre' ->]]; [reflexivity|].
    rewrite last_index_app. unfold line_feed. simpl. rewrite length_app. simpl. lia. }
  rewrite Eline.
  assert (Etake : take (String.length pre) output = pre).
  { unfold output. apply take_app. }
  assert (Epwd : substr (P + M) (P + M + String.length dir - (P + M)) output = dir).
  { unfold substr. rewrite Edrop. replace (P + M + String.length dir - (P + M))
      with (String.length dir) by lia. apply take_app. }
  rewrite Epwd. f_equal. unfold erase. rewrite Etake. f_equal.
  assert (HP : String.length pre <= P) by (unfold P; rewrite length_app; lia).
  destruct Hend as [->|[rest ->]].
  - assert (Hlt : Nat.ltb (P + M + String.length dir) (String.length output) = false)
      by (apply Nat.ltb_ge; rewrite Elen; simpl; lia).
    rewrite Hlt.
    replace (String.length pre + (P + M + String.length dir - String.length pre + 0))
      with (String.length output) by (rewrite Elen; simpl; lia).
    clear. induction output as [|c s IH]; simpl; [reflexivity|exact IH].
  - assert (Hlt : Nat.ltb (P + M + String.length dir) (String.length output) = true)
      by (apply Nat.ltb_lt; rewrite Elen; simpl; lia).
    rewrite Hlt.
    replace (String.length pre + (P + M + String.length dir - String.length pre + 1))
      with (String.length (((pre ++ tail) ++ pwd_marker) ++ dir ++ line_feed) + 0)
      by (unfold P, M in *; rewrite !length_app in *; simpl; lia).
    assert (Eout4 : output = (((pre ++ tail) ++ pwd_marker) ++ dir ++ line_feed) ++ rest).
    { unfold output. now rewrite !app_assoc. }
    rewrite Eout4. now rewrite drop_app_more.
Qed.

(** X15: when the first marker in the output of the shell is the one
    the runner's own echo wrote, the runner reads the directory after the
    marker up to the end of that line and removes the whole line, line
    feed included, from the output.  Text the command left on that line
    before the marker (output that did not end in a line feed) is removed
    with it.  Output with no marker is left as it is, with no directory. *)
Theorem marker_line_is_taken_out (pre tail dir ending : string) :
  (pre = EmptyString \/ exists pre', pre = pre' ++ line_feed) ->
  contains line_feed tail = false ->
  contains line_feed dir = false ->
  (ending = EmptyString \/ exists rest, ending = line_feed ++ rest) ->
  find pwd_marker (pre ++ tail ++ pwd_marker) = Some (String.length (pre ++ tail)) ->
  extract_pwd (pre ++ tail ++ pwd_marker ++ dir ++ ending) = (pre ++ drop 1 ending, dir) /\
  (forall output, contains pwd_marker output = false ->
     extract_pwd output = (output, EmptyString)).
Proof.
  intros Hpre Htail Hdir Hend Hfind. split.
  - rewrite (extract_pwd_marker_line pre tail dir ending Hpre Htail Hdir Hend Hfind).
    now destruct ending.
  - intros output H. apply contains_false in H. unfold extract_pwd. now rewrite H.
Qed.

Lemma marker_line_is_taken_out_witness :
  extract_pwd ("hello" ++ line_feed ++ "partial" ++ pwd_marker ++ "/home/user/project"
               ++ line_feed)
  = ("hello" ++ line_feed, "/home/user/project").
Proof.
  apply (proj1 (marker_line_is_taken_out ("hello" ++ line_feed) "partial"
                  "/home/user/project" line_feed
                  (or_intror (ex_intro _ "hello" eq_refl)) eq_refl eq_refl
                  (or_intror (ex_intro _ EmptyString eq_refl)) eq_refl)).
Defined.



Lemma tolower_idempotent (c : ascii) : tolower (tolower c) = tolower c.
Proof. destruct c as [[] [] [] [] [] [] [] []]; reflexivity. Qed.

Lemma toupper_tolower (c : ascii) : toupper (tolower c) = toupper c.
Proof. destruct c as [[] [] [] [] [] [] [] []]; reflexivity. Qed.

Lemma tolower_line_end (c : ascii) :
  (Ascii.eqb (tolower c) "010" || Ascii.eqb (tolower c) "013")
  = (Ascii.eqb c "010" || Ascii.eqb c "013").
Proof. destruct c as [[] [] [] [] [] [] [] []]; reflexivity. Qed.

Lemma tolower_is_space (c : ascii) : is_space (tolower c) = is_space c.
Proof. destruct c as [[] [] [] [] [] [] [] []]; reflexivity. Qed.

Lemma deriv_tolower (c : ascii) (r : regex) : deriv (tolower c) r = deriv c r.
Proof.
  induction r as [| |x| | |lo hi|x|r1 IH1 r2 IH2|r1 IH1 r2 IH2|r1 IH1]; simpl;
    rewrite ?tolower_idempotent, ?toupper_tolower, ?tolower_line_end, ?tolower_is_space,
            ?IH1, ?IH2; reflexivity.
Qed.

Lemma matches_prefix_to_lower (s : string) :
  forall r, matches_prefix r (to_lower s) = matches_prefix r s.
Proof.
  induction s as [|c s IH]; intros r; simpl; [reflexivity|].
  rewrite deriv_tolower. destruct (deriv c r); rewrite ?IH; reflexivity.
Qed.

Lemma regex_search_to_lower (s : string) (r : regex) :
  regex_search (to_lower s) r = regex_search s r.
Proof.
  induction s as [|c s IH]; [reflexivity|].
  cbn [to_lower regex_search]. rewrite IH. f_equal.
  change (String (tolower c) (to_lower s)) with (to_lower (String c s)).
  apply matches_prefix_to_lower.
Qed.

Lemma to_lower_idempotent (s : string) : to_lower (to_lower s) = to_lower s.
Proof.
  induction s as [|c s IH]; simpl; [reflexivity|]. now rewrite tolower_idempotent, IH.
Qed.

(** X17: the safety net of the runner does not depend on the case of
    letters: two commands that differ only in the case of ASCII letters
    get the same verdict from [is_command_allowed], from the list of
    blocked commands and from the dangerous patterns alike. *)
Theorem safety_net_ignores_letter_case (c1 c2 : string) :
  to_lower c1 = to_lower c2 ->
  is_command_allowed c1 = is_command_allowed c2 /\
  contains_dangerous_pattern c1 = contains_dangerous_pattern c2 /\
  is_command_allowed (to_lower c1) = is_command_allowed c1.
Proof.
  assert (Hp : forall c, contains_dangerous_pattern (to_lower c) = contains_dangerous_pattern c).
  { intros c. unfold contains_dangerous_pattern.
    induction get_dangerous_patterns as [|r l IH]; simpl; [reflexivity|].
    now rewrite regex_search_to_lower, IH. }
  assert (Ha : forall c, is_command_allowed (to_lower c) = is_command_allowed c).
  { intros c. unfold is_command_allowed. now rewrite to_lower_idempotent, Hp. }
  intros H. split; [|split].
  - now rewrite <- (Ha c1), <- (Ha c2), H.
  - now rewrite <- (Hp c1), <- (Hp c2), H.
  - apply Ha.
Qed.

Lemma safety_net_ignores_letter_case_witness :
  is_command_allowed "SUDO RM x" = is_command_allowed "sudo rm x".
Proof.
  apply (proj1 (safety_net_ignores_letter_case "SUDO RM x" "sudo rm x" eq_refl)).
Defined.

End RunnerFacts.

Section CoordinatorFacts.
Import TodoManager Coordinator Reference StoreInvariant Batch Scenario.
Context {World : Type} (svc : Services World).

Lemma sort_by_creation_perm (l : list TodoItem) : Permutation (sort_by_creation l) l.
Proof.
  induction l as [|x l IH]; simpl; [constructor|].
  eapply Permutation_trans; [apply insert_by_creation_perm|now apply perm_skip].
Qed.

Lemma queue_ids_distinct (m : TodoManager.t) :
  NoDup (map id (todos_ m)) -> NoDup (map id (get_execution_queue m)).
Proof.
  intros H. unfold get_execution_queue.
  eapply Permutation_NoDup.
  - apply Permutation_map, Permutation_sym, sort_by_creation_perm.
  - now apply pending_ids_distinct.
Qed.

Lemma queue_in_store (m : TodoManager.t) (t : TodoItem) :
  In t (get_execution_queue m) -> In t (todos_ m).
Proof.
  unfold get_execution_queue, get_pending_todos. intros H.
  apply (Permutation_in _ (sort_by_creation_perm _)) in H.
  now apply filter_In in H.
Qed.

Lemma until_loop_NoDup (l : list TodoItem) (stop_id : Z) :
  NoDup (map id l) -> NoDup (map id (until_loop l stop_id)).
Proof.
  induction l as [|y l IH]; simpl; intros H; [constructor|].
  inversion H as [|? ? Hy Hl]; subst.
  destruct (Z.eqb (id y) stop_id); simpl; [constructor|].
  constructor; [|auto].
  intros Hin. apply Hy. apply in_map_iff in Hin as [z [Hz Hin]].
  apply until_loop_incl in Hin as [Hin _]. rewrite <- Hz. now apply in_map.
Qed.

Lemma range_loop_NoDup (l : list TodoItem) (a b : Z) (f : bool) :
  NoDup (map id l) -> NoDup (map id (range_loop l a b f)).
Proof.
  revert f. induction l as [|y l IH]; intros f; simpl; intros H; [constructor|].
  inversion H as [|? ? Hy Hl]; subst.
  destruct (if Z.eqb (id y) a then true else f); [|auto].
  destruct (Z.eqb (id y) b); simpl; [constructor; [intros []|constructor]|].
  constructor; [|auto].
  intros Hin. apply Hy. apply in_map_iff in Hin as [z [Hz Hin]].
  apply range_loop_incl in Hin. rewrite <- Hz. now apply in_map.
Qed.

Lemma find_todo_member (l : list TodoItem) (t : TodoItem) :
  NoDup (map id l) -> In t l -> find_todo l (id t) = Some t.
Proof.
  induction l as [|x l IH]; simpl; [tauto|].
  intros H. inversion H as [|? ? Hx Hl]; subst.
  intros [->|Hin]; [now rewrite Z.eqb_refl|].
  destruct (Z.eqb_spec (id x) (id t)) as [E|E]; [|auto].
  elim Hx. rewrite E. now apply in_map.
Qed.

Lemma attempt_until_failure_policy (c1 c2 : Coordinator.t) (l : list TodoItem) (w : World) :
  policy_settings c1 = policy_settings c2 ->
  attempt_until_failure svc c1 l w = attempt_until_failure svc c2 l w.
Proof.
  intros H. revert w; induction l as [|t l IH]; intros w; [reflexivity|].
  cbn [attempt_until_failure].
  rewrite !execute_single_todo_frame, (effect_of_policy svc c1 c2 t w H).
  now rewrite IH.
Qed.

Lemma execute_until_failure_spec (l : list TodoItem) :
  forall (c : Coordinator.t) (w : World),
  NoDup (map id l) ->
  (forall t, In t l -> get_todo (todo_manager_ c) (id t) = Some t) ->
  stops_at_first_failure svc c w l (execute_until_failure svc l c w).
Proof.
  induction l as [|t l IH]; intros c w Hnd Hpres.
  - exists [], [], []. simpl. repeat split; try tauto; try lia.
  - inversion Hnd as [|? ? Hnotin Hnd']; subst.
    assert (Hpt : get_todo (todo_manager_ c) (id t) <> None).
    { rewrite (Hpres t (or_introl eq_refl)). discriminate. }
    destruct (execute_item_spec svc c t w Hpt) as [m1 [Hitem [Hframe1 [it1 [Hget1 Hst1]]]]].
    unfold stops_at_first_failure.
    cbn [execute_until_failure attempt_until_failure].
    rewrite Hitem, execute_single_todo_frame.
    destruct (effect_of svc c t w) as [w1 ok] eqn:Eeff. simpl fst in *; simpl snd in *.
    destruct ok.
    + destruct (IH (with_todo_manager c m1) w1 Hnd') as
        [done [failed [rest [Hsel [Hlen [Hrest [Hrun [Hw [Hdone [Hfailed [Hafter Hframe]]]]]]]]]]].
      { intros t' Hin. simpl. rewrite Hframe1.
        - apply Hpres. now right.
        - intros Heq. apply Hnotin. rewrite <- Heq. now apply in_map. }
      rewrite (attempt_until_failure_policy (with_todo_manager c m1) c) in Hrun, Hw
        by reflexivity.
      destruct (attempt_until_failure svc c l w1) as [r w2] eqn:Ea.
      simpl fst in *; simpl snd in *.
      exists (t :: done), failed, rest. simpl.
      split; [now rewrite Hsel|]. split; [exact Hlen|]. split; [exact Hrest|].
      split; [now rewrite Hrun|]. split; [exact Hw|].
      assert (Hfresh : ~ In (id t) (map id (done ++ failed)%list)).
      { intros Hin. apply Hnotin. rewrite Hsel, List.app_assoc, map_app. apply in_or_app. now left. }
      split; [|split; [exact Hfailed|split; [exact Hafter|]]].
      * intros t' [<-|Hin]; [|now apply Hdone].
        exists it1. split; [|exact Hst1]. rewrite Hframe by exact Hfresh. exact Hget1.
      * intros j Hj. rewrite Hframe by tauto. simpl. apply Hframe1. intros ->. tauto.
    + exists [], [t], l. simpl.
      split; [reflexivity|]. split; [lia|]. split; [discriminate|].
      split; [reflexivity|]. split; [reflexivity|].
      split; [tauto|]. split; [|split].
      * intros t' [<-|[]]. exists it1. split; assumption.
      * intros t' Hin. rewrite Hframe1.
        -- apply Hpres. now right.
        -- intros Heq. apply Hnotin. rewrite <- Heq. now apply in_map.
      * intros j Hj. apply Hframe1. intros ->. tauto.
Qed.

(** X19: with distinct ids in the store, [execute_todos_until] and
    [execute_todos_range] execute the todos they select in queue order
    and leave at the first one that fails: the todos before it are
    completed, the failed one stays in progress, the services are not
    called for the todos after it, and those, like every todo outside
    the selection, are in the store as they were. *)
Theorem batches_stop_at_first_failure (c : Coordinator.t) (w : World) :
  NoDup (map id (todos_ (todo_manager_ c))) ->
  (forall stop_id,
     stops_at_first_failure svc c w (get_todos_until (todo_manager_ c) stop_id)
       (execute_todos_until svc c w stop_id)) /\
  (forall start_id end_id,
     stops_at_first_failure svc c w (get_todos_range (todo_manager_ c) start_id end_id)
       (execute_todos_range svc c w start_id end_id)).
Proof.
  intros Hnd. pose proof (queue_ids_distinct _ Hnd) as Hq. split.
  - intros stop_id. apply execute_until_failure_spec.
    + now apply until_loop_NoDup.
    + intros t Hin. apply until_loop_incl in Hin as [Hin _].
      apply find_todo_member; [exact Hnd|now apply queue_in_store].
  - intros start_id end_id. apply execute_until_failure_spec.
    + now apply range_loop_NoDup.
    + intros t Hin. apply range_loop_incl in Hin.
      apply find_todo_member; [exact Hnd|now apply queue_in_store].
Qed.

Lemma execute_item_frame (c : Coordinator.t) (todo : TodoItem) (w : World) :
  exists m', fst (fst (execute_item svc c todo w)) = with_todo_manager c m'.
Proof.
  unfold execute_item. rewrite execute_single_todo_frame.
  destruct (snd (effect_of svc _ todo w)); eexists; reflexivity.
Qed.

Lemma execute_until_failure_frame (l : list TodoItem) (c : Coordinator.t) (w : World) :
  exists m', fst (execute_until_failure svc l c w) = with_todo_manager c m'.
Proof.
  revert c w. induction l as [|t l IH]; intros c w.
  - exists (todo_manager_ c). now destruct c.
  - cbn [execute_until_failure].
    destruct (execute_item_frame c t w) as [m1 H1].
    destruct (execute_item svc c t w) as [[c1 w1] ok]. simpl in H1. subst c1.
    destruct ok; [|now exists m1].
    destruct (IH (with_todo_manager c m1) w1) as [m2 H2]. exists m2. now rewrite H2.
Qed.

Lemma execute_loop_frame (l : list TodoItem) (c : Coordinator.t) (w : World) :
  should_pause_execution_ c = false ->
  exists m' w', execute_loop svc l c w = Some (with_todo_manager c m', w').
Proof.
  intros Hpause. revert c w Hpause. induction l as [|t l IH]; intros c w Hpause.
  - exists (todo_manager_ c), w. now destruct c.
  - cbn [execute_loop]. rewrite Hpause. cbn [andb].
    destruct (should_stop_execution_ c); [exists (todo_manager_ c), w; now destruct c|].
    destruct (execute_item_frame c t w) as [m1 H1].
    destruct (execute_item svc c t w) as [[c1 w1] ok]. simpl in H1. subst c1.
    destruct (IH (with_todo_manager c m1) w1 Hpause) as [m2 [w2 H2]].
    exists m2, w2. now rewrite H2.
Qed.

Lemma confirmation_frame (c : Coordinator.t) (w : World) :
  idle c ->
  idle (snd (fst (if always_approve_ c then (true, c, w) else get_user_confirmation svc c w))).
Proof.
  intros Hidle. destruct (always_approve_ c); [exact Hidle|].
  unfold get_user_confirmation. destruct (getline svc w) as [w' input].
  unfold confirm. destruct input as [|choice rest]; [exact Hidle|].
  destruct (Ascii.eqb choice "a" || Ascii.eqb choice "A"); exact Hidle.
Qed.

(** X20: the four execution controls act on a running or paused batch
    only.  Whatever a do command makes the coordinator execute, it
    returns, and from a coordinator with nothing running or paused it
    leaves nothing running or paused; neither does a plan run.  So a
    control issued between two commands finds nothing to act on and
    leaves the coordinator as it is. *)
Theorem controls_find_nothing_running :
  (forall c, idle c ->
     pause_execution c = c /\ resume_execution c = c /\
     stop_execution c = c /\ cancel_execution c = c) /\
  (forall action c w,
     exists c' w', CLIInterface.perform svc action c w = Some (c', w') /\ (idle c -> idle c')) /\
  (forall c w user_prompt, idle c -> idle (snd (fst (run_plan svc c w user_prompt)))).
Proof.
  split; [|split].
  - intros c [Hr Hp].
    unfold pause_execution, resume_execution, stop_execution, cancel_execution.
    destruct (execution_state_ c); try (now elim Hr); try (now elim Hp); auto.
  - intros action c w. destruct action; cbn [CLIInterface.perform].
    + unfold execute_todos. destruct (get_pending_todos (todo_manager_ c)) as [|t l].
      * exists c, w. auto.
      * destruct (execute_loop_frame (t :: l) (with_control c RUNNING false false) w eq_refl)
          as [m' [w' H]].
        rewrite H. eexists _, w'. split; [reflexivity|].
        intros _. split; discriminate.
    + unfold execute_next_todo. destruct (get_next_pending (todo_manager_ c)) as [next|].
      * destruct (execute_item_frame c next w) as [m1 H1].
        destruct (execute_item svc c next w) as [[c1 w1] ok]. simpl in H1. subst c1.
        exists (with_todo_manager c m1), w1. auto.
      * exists c, w. auto.
    + unfold execute_todos_until.
      destruct (execute_until_failure_frame (get_todos_until (todo_manager_ c) stop_id) c w)
        as [m' H].
      destruct (execute_until_failure svc _ c w) as [c1 w1]. simpl in H. subst c1.
      exists (with_todo_manager c m'), w1. auto.
    + exists c, w. auto.
    + unfold execute_todos_range.
      destruct (execute_until_failure_frame
                  (get_todos_range (todo_manager_ c) start_id end_id) c w) as [m' H].
      destruct (execute_until_failure svc _ c w) as [c1 w1]. simpl in H. subst c1.
      exists (with_todo_manager c m'), w1. auto.
    + destruct (get_todo (todo_manager_ c) todo_id) as [todo|]; [|exists c, w; auto].
      destruct (status_eqb (status todo) PENDING); [|exists c, w; auto].
      destruct (execute_item_frame c todo w) as [m1 H1].
      destruct (execute_item svc c todo w) as [[c1 w1] ok]. simpl in H1. subst c1.
      exists (with_todo_manager c m1), w1. auto.
    + exists c, w. auto.
  - intros c w user_prompt Hidle. unfold run_plan.
    destruct (request_plan svc user_prompt w) as [w0 [command|]]; [|exact Hidle].
    destruct (String.eqb (WriteFileCommand.path command) EmptyString); [exact Hidle|].
    destruct (negb (String.eqb (WriteFileCommand.command command) "WriteFile"));
      [exact Hidle|].
    destruct (policy_check svc c w0 (WriteFileCommand.path command)) as [[|]|];
      try exact Hidle.
    destruct (dry_run svc command w0) as [w1 [dry_run_result|]]; [|exact Hidle].
    destruct (negb (DryRunResult.success dry_run_result)); [exact Hidle|].
    pose proof (confirmation_frame c w1 Hidle) as Hc.
    destruct (if always_approve_ c then (true, c, w1) else get_user_confirmation svc c w1)
      as [[confirmed c1] w2].
    simpl in Hc. destruct (negb confirmed); [exact Hc|].
    destruct (apply svc command w2) as [w3 [apply_result|]]; exact Hc.
Qed.

End CoordinatorFacts.

Section CoordinatorExamples.
Import TodoManager Coordinator Reference Batch Scenario.

Lemma batches_stop_at_first_failure_witness :
  stops_at_first_failure services
    (coordinator PolicyConfig.default_settings secrets_then_notes) []
    (get_todos_until
       (todo_manager_ (coordinator PolicyConfig.default_settings secrets_then_notes)) 99)
    (execute_todos_until services
       (coordinator PolicyConfig.default_settings secrets_then_notes) [] 99).
Proof.
  apply (batches_stop_at_first_failure services
           (coordinator PolicyConfig.default_settings secrets_then_notes) []).
  vm_compute. repeat constructor; simpl; intuition discriminate.
Defined.

End CoordinatorExamples.

Section CommandLineFacts.
Import StdString StdConv CLIInterface CommandLine.

Lemma digit_cases (c : ascii) :
  Json.is_digit c = true ->
  In c ["0"; "1"; "2"; "3"; "4"; "5"; "6"; "7"; "8"; "9"]%char.
Proof.
  destruct c as [[] [] [] [] [] [] [] []]; vm_compute; intros H;
    try discriminate H; tauto.
Qed.

Lemma uint_all_digits (d : Decimal.uint) : all_digits (NilEmpty.string_of_uint d) = true.
Proof. induction d; simpl; auto. Qed.

Lemma uint_value_from (d : Decimal.uint) (p : positive) :
  Json.digits_value (Npos p) (NilEmpty.string_of_uint d) = Npos (Pos.of_uint_acc d p).
Proof.
  revert p. induction d; intros p; simpl NilEmpty.string_of_uint; cbn [Json.digits_value];
    [reflexivity|..];
    match goal with
    | |- Json.digits_value ?acc _ = _ =>
        match type of IHd with
        | forall q, _ = N.pos (Pos.of_uint_acc d q) =>
            let q := fresh "q" in
            evar (q : positive);
            replace acc with (N.pos q); subst q; [rewrite IHd; reflexivity|]
        end
    end.
  all: unfold Json.byte; simpl N_of_ascii; cbn [Pos.of_uint_acc]; try lia.
Qed.

Lemma uint_value (d : Decimal.uint) :
  Json.digits_value 0 (NilEmpty.string_of_uint d) = N.of_uint d.
Proof.
  unfold N.of_uint.
  induction d; simpl NilEmpty.string_of_uint; cbn [Json.digits_value Pos.of_uint];
    try reflexivity; try exact IHd;
    unfold Json.byte; simpl N_of_ascii;
    match goal with
    | |- Json.digits_value ?acc _ = _ =>
        let q := fresh "q" in
        evar (q : positive);
        replace acc with (N.pos q); subst q; [rewrite uint_value_from; reflexivity|]
    end; reflexivity.
Qed.

Lemma N_to_string_value (n : N) : Json.digits_value 0 (Json.N_to_string n) = n.
Proof. unfold Json.N_to_string. rewrite uint_value. apply DecimalN.Unsigned.of_to. Qed.

Lemma N_to_string_digits (n : N) : all_digits (Json.N_to_string n) = true.
Proof. apply uint_all_digits. Qed.

Lemma N_to_string_nonempty (p : positive) : Json.N_to_string (Npos p) <> EmptyString.
Proof.
  unfold Json.N_to_string. intros H.
  assert (E : Pos.to_uint p = Decimal.Nil).
  { change (N.to_uint (N.pos p)) with (Pos.to_uint p) in H.
    now destruct (Pos.to_uint p). }
  exact (DecimalPos.Unsigned.to_uint_nonnil _ E).
Qed.

Lemma span_digits_app (d rest : string) :
  all_digits d = true -> no_digit_ahead rest -> Json.span_digits (d ++ rest) = (d, rest).
Proof.
  intros Hd Hrest. induction d as [|c d IH]; simpl in *.
  - destruct rest as [|c r]; [reflexivity|]. simpl in *. now rewrite Hrest.
  - apply andb_true_iff in Hd as [Hc Hd]. now rewrite Hc, IH.
Qed.

Lemma digit_no_space (c : ascii) :
  Json.is_digit c = true ->
  isspace c = false /\ Ascii.eqb c "-" = false /\ Ascii.eqb c "+" = false.
Proof.
  intros H. apply digit_cases in H. simpl in H.
  repeat (destruct H as [<-|H]; [repeat split; reflexivity|]). destruct H.
Qed.

Lemma stoi_digits (d rest : string) :
  all_digits d = true -> d <> EmptyString -> no_digit_ahead rest ->
  stoi (d ++ rest) = in_int_range (Z.of_N (Json.digits_value 0 d)).
Proof.
  intros Hd Hne Hrest. destruct d as [|c d]; [now elim Hne|].
  pose proof (span_digits_app _ _ Hd Hrest) as Hspan.
  simpl in Hd. apply andb_true_iff in Hd as [Hc Hd].
  destruct (digit_no_space c Hc) as [Hs [Hm Hp]].
  unfold stoi. cbn [append skip_spaces]. rewrite Hs, Hm, Hp.
  change (String c (d ++ rest)) with (String c d ++ rest). rewrite Hspan. reflexivity.
Qed.

Lemma stoi_minus_digits (d rest : string) :
  all_digits d = true -> d <> EmptyString -> no_digit_ahead rest ->
  stoi (String "-" (d ++ rest)) = in_int_range (- Z.of_N (Json.digits_value 0 d)).
Proof.
  intros Hd Hne Hrest. destruct d as [|c d]; [now elim Hne|].
  pose proof (span_digits_app _ _ Hd Hrest) as Hspan.
  unfold stoi. cbn [skip_spaces]. change (isspace "-") with false. cbn iota.
  change (Ascii.eqb "-" "-") with true. cbn iota. rewrite Hspan. reflexivity.
Qed.

Lemma stoi_to_string (n : Z) (rest : string) :
  is_int n -> no_digit_ahead rest -> stoi (to_string n ++ rest) = Some n.
Proof.
  intros [Hlo Hhi] Hrest. unfold to_string, Json.Z_to_string.
  assert (Hr : in_int_range n = Some n).
  { unfold in_int_range.
    destruct (Z.leb_spec (-2147483648) n); [|lia].
    destruct (Z.leb_spec n 2147483647); [reflexivity|lia]. }
  destruct n as [|p|p].
  - rewrite (stoi_digits "0" rest); auto; discriminate.
  - rewrite stoi_digits; auto using N_to_string_digits, N_to_string_nonempty.
    now rewrite N_to_string_value.
  - change (("-" ++ Json.N_to_string (N.pos p)) ++ rest)
      with (String "-" (Json.N_to_string (N.pos p) ++ rest)).
    rewrite stoi_minus_digits; auto using N_to_string_digits, N_to_string_nonempty.
    now rewrite N_to_string_value.
Qed.


Lemma blank_run_skipped (ws : string) (c : ascii) (s : string) :
  blank_run ws = true -> Ascii.eqb c " " || Ascii.eqb c "009" = false ->
  find_first_not_of blanks (ws ++ String c s) = Some (String.length ws).
Proof.
  intros Hws Hc. induction ws as [|b ws IH]; simpl in *.
  - now rewrite orb_false_r, Hc.
  - apply andb_true_iff in Hws as [Hb Hws]. rewrite orb_false_r, Hb, IH by exact Hws.
    reflexivity.
Qed.

Lemma blank_run_only (ws : string) :
  blank_run ws = true -> find_first_not_of blanks ws = None.
Proof.
  induction ws as [|b ws IH]; simpl; [reflexivity|]. intros Hws.
  apply andb_true_iff in Hws as [Hb Hws]. now rewrite orb_false_r, Hb, IH.
Qed.

Lemma do_arguments_spec (ws : string) (c : ascii) (s : string) :
  blank_run ws = true -> Ascii.eqb c " " || Ascii.eqb c "009" = false ->
  do_arguments ("do" ++ ws ++ String c s) = String c s.
Proof.
  intros Hws Hc. unfold do_arguments. cbn [append drop].
  rewrite blank_run_skipped by assumption. apply drop_app.
Qed.

Lemma do_arguments_none (ws : string) :
  blank_run ws = true -> do_arguments ("do" ++ ws) = EmptyString.
Proof.
  intros Hws. unfold do_arguments. cbn [append drop]. now rewrite blank_run_only.
Qed.

Lemma digits_no_hyphen (d : string) : all_digits d = true -> find "-" d = None.
Proof.
  induction d as [|c d IH]; [reflexivity|]. cbn [all_digits find starts_with]. intros H.
  apply andb_true_iff in H as [Hc Hd].
  destruct (digit_no_space c Hc) as [_ [Hm _]].
  rewrite Ascii.eqb_sym in Hm. rewrite Hm. cbn [andb]. now rewrite IH.
Qed.

Lemma to_string_nonnegative (n : Z) :
  (0 <= n)%Z ->
  exists c d, to_string n = String c d /\ Json.is_digit c = true /\ all_digits d = true.
Proof.
  intros Hn. unfold to_string, Json.Z_to_string. destruct n as [|p|p]; [| |lia].
  - exists "0"%char, EmptyString. repeat split.
  - pose proof (N_to_string_digits (N.pos p)) as Hd.
    pose proof (N_to_string_nonempty p) as Hne.
    destruct (Json.N_to_string (N.pos p)) as [|c d]; [now elim Hne|].
    simpl in Hd. apply andb_true_iff in Hd as [Hc Hd]. now exists c, d.
Qed.

Lemma to_string_negative (n : Z) :
  (n < 0)%Z -> exists d, to_string n = String "-" d.
Proof.
  intros Hn. unfold to_string, Json.Z_to_string. destruct n as [|p|p]; try lia.
  now exists (Json.N_to_string (N.pos p)).
Qed.


Lemma not_blank_of_digit (c : ascii) :
  Json.is_digit c = true -> Ascii.eqb c " " || Ascii.eqb c "009" = false.
Proof.
  intros H. apply digit_cases in H. simpl in H.
  repeat (destruct H as [<-|H]; [reflexivity|]). destruct H.
Qed.

Lemma digit_is_no_keyword (c : ascii) (s : string) :
  Json.is_digit c = true ->
  String.eqb (String c s) EmptyString || String.eqb (String c s) "all" = false /\
  String.eqb (String c s) "next" = false /\
  String.eqb (substr 0 5 (String c s)) "until" = false.
Proof.
  intros H. apply digit_cases in H. simpl in H.
  repeat (destruct H as [<-|H]; [repeat split; reflexivity|]). destruct H.
Qed.

Lemma do_single_id (ws : string) (n : Z) :
  blank_run ws = true -> is_int n -> (0 <= n)%Z ->
  handle_do_command ("do" ++ ws ++ to_string n) = Execute_todo n.
Proof.
  intros Hws Hint Hn.
  pose proof (stoi_to_string n EmptyString Hint I) as Hstoi. rewrite app_empty_r in Hstoi.
  destruct (to_string_nonnegative n Hn) as [c [d [E [Hc Hd]]]]. rewrite E in *.
  unfold handle_do_command. rewrite do_arguments_spec by auto using not_blank_of_digit.
  destruct (digit_is_no_keyword c d Hc) as [H1 [H2 H3]]. cbv zeta. rewrite H1, H2, H3.
  rewrite digits_no_hyphen by (simpl; now rewrite Hc, Hd).
  now rewrite Hstoi.
Qed.

Lemma do_range (ws : string) (a b : Z) :
  blank_run ws = true -> is_int a -> is_int b -> (0 <= a)%Z ->
  handle_do_command ("do" ++ ws ++ to_string a ++ "-" ++ to_string b)
  = Execute_todos_range a b.
Proof.
  intros Hws Ha Hb Hn.
  pose proof (stoi_to_string a EmptyString Ha I) as Hsa. rewrite app_empty_r in Hsa.
  pose proof (stoi_to_string b EmptyString Hb I) as Hsb. rewrite app_empty_r in Hsb.
  destruct (to_string_nonnegative a Hn) as [c [d [E [Hc Hd]]]]. rewrite E in *.
  unfold handle_do_command.
  change ("do" ++ ws ++ String c d ++ "-" ++ to_string b)
    with ("do" ++ ws ++ String c (d ++ String "-" (to_string b))).
  rewrite do_arguments_spec by auto using not_blank_of_digit.
  destruct (digit_is_no_keyword c (d ++ String "-" (to_string b)) Hc) as [H1 [H2 H3]].
  cbv zeta. rewrite H1, H2, H3.
  change (String c (d ++ String "-" (to_string b)))
    with (String c d ++ String "-" (to_string b)).
  rewrite find_byte_absent_app by (apply digits_no_hyphen; simpl; now rewrite Hc, Hd).
  unfold substr. cbn [drop]. rewrite take_app, Hsa.
  replace (String.length (String c d) + 1) with (String.length (String c d ++ "-"))
    by (rewrite length_app; reflexivity).
  change (String c d ++ String "-" (to_string b))
    with (String c d ++ ("-" ++ to_string b)).
  rewrite <- app_assoc, drop_app, Hsb. reflexivity.
Qed.

Lemma do_until (ws ws' : string) (n : Z) :
  blank_run ws = true -> blank_run ws' = true -> is_int n ->
  handle_do_command ("do" ++ ws ++ "until" ++ ws' ++ to_string n) = Execute_todos_until n.
Proof.
  intros Hws Hws' Hint.
  pose proof (stoi_to_string n EmptyString Hint I) as Hstoi. rewrite app_empty_r in Hstoi.
  unfold handle_do_command.
  change ("do" ++ ws ++ "until" ++ ws' ++ to_string n)
    with ("do" ++ ws ++ String "u" ("ntil" ++ ws' ++ to_string n)).
  rewrite do_arguments_spec by auto. cbv zeta.
  change (String.eqb (String "u" _) EmptyString || String.eqb (String "u" _) "all") with false.
  cbn iota.
  assert (Hnext : forall s, String.eqb (String "u" s) "next" = false) by reflexivity.
  rewrite Hnext.
  assert (Huntil : forall s, String.eqb (substr 0 5 ("until" ++ s)) "until" = true)
    by reflexivity.
  change (String "u" ("ntil" ++ ws' ++ to_string n))
    with ("until" ++ (ws' ++ to_string n)).
  rewrite Huntil. cbn [append drop].
  assert (Hfirst : exists c s, to_string n = String c s /\
                               Ascii.eqb c " " || Ascii.eqb c "009" = false).
  { destruct (Z_lt_le_dec n 0) as [Hneg|Hpos].
    - destruct (to_string_negative n Hneg) as [d E]. now exists "-"%char, d.
    - destruct (to_string_nonnegative n Hpos) as [c [d [E [Hc _]]]].
      exists c, d. split; [exact E|now apply not_blank_of_digit]. }
  destruct Hfirst as [c [s [E Hc]]]. rewrite E in *.
  rewrite blank_run_skipped by assumption. now rewrite drop_app, Hstoi.
Qed.

Lemma do_negative_id (ws : string) (n : Z) :
  blank_run ws = true -> (n < 0)%Z ->
  handle_do_command ("do" ++ ws ++ to_string n) = Do_error.
Proof.
  intros Hws Hn. destruct (to_string_negative n Hn) as [d ->].
  unfold handle_do_command. now rewrite do_arguments_spec by auto.
Qed.

Lemma stoi_other (c : ascii) (s : string) :
  isspace c = false -> Json.is_digit c = false -> c <> "+"%char -> c <> "-"%char ->
  stoi (String c s) = None.
Proof.
  intros Hs Hd Hp Hm. unfold stoi. cbn [skip_spaces]. rewrite Hs.
  destruct (Ascii.eqb_spec c "-"); [contradiction|].
  destruct (Ascii.eqb_spec c "+"); [contradiction|].
  cbn [Json.span_digits]. now rewrite Hd.
Qed.

Lemma take_drop (n : nat) (s : string) : take n s ++ drop n s = s.
Proof.
  revert s. induction n as [|n IH]; intros s; [reflexivity|].
  destruct s as [|c s]; simpl; [reflexivity|]. now rewrite IH.
Qed.

Lemma do_other_word (ws word : string) :
  blank_run ws = true -> other_word word ->
  handle_do_command ("do" ++ ws ++ word) = Do_error.
Proof.
  intros Hws [Hfirst [Hhyphen [Hall [Hnext Huntil]]]].
  destruct word as [|c s]; [contradiction|]. destruct Hfirst as [Hs [Hd Hp]].
  assert (Hm : c <> "-"%char).
  { intros ->. discriminate Hhyphen. }
  assert (Hb : Ascii.eqb c " " || Ascii.eqb c "009" = false).
  { destruct (Ascii.eqb_spec c " ") as [->|_]; [discriminate Hs|].
    destruct (Ascii.eqb_spec c "009") as [->|_]; [discriminate Hs|reflexivity]. }
  unfold handle_do_command. rewrite do_arguments_spec by assumption. cbv zeta.
  apply String.eqb_neq in Hall, Hnext. rewrite Hall, Hnext. cbn [String.eqb orb].
  assert (Hu : String.eqb (substr 0 5 (String c s)) "until" = false).
  { apply String.eqb_neq. intros E. 
    assert (starts_with "until" (String c s) = true); [|congruence].
    apply starts_with_iff. exists (drop 5 (String c s)).
    rewrite <- E. unfold substr. cbn [drop]. symmetry. apply take_drop. }
  rewrite Hu, Hhyphen. now rewrite stoi_other.
Qed.

(** X21: what a do command asks for is read from what follows the two
    bytes "do" and any blanks.  Nothing, or "all", is the whole batch;
    "next" is the next pending todo; "until" and a number, with or
    without blanks between them, is the batch up to that id; two numbers
    around a hyphen are a range, the first of them not negative; a number
    that is not negative is that one todo.  A negative number alone, and
    any other word, end in the error message. *)
Theorem do_command_arguments (ws : string) :
  blank_run ws = true ->
  handle_do_command ("do" ++ ws) = Execute_todos /\
  handle_do_command ("do" ++ ws ++ "all") = Execute_todos /\
  handle_do_command ("do" ++ ws ++ "next") = Execute_next_todo /\
  (forall ws' n, blank_run ws' = true -> is_int n ->
     handle_do_command ("do" ++ ws ++ "until" ++ ws' ++ to_string n)
     = Execute_todos_until n) /\
  (forall a b, is_int a -> is_int b -> (0 <= a)%Z ->
     handle_do_command ("do" ++ ws ++ to_string a ++ "-" ++ to_string b)
     = Execute_todos_range a b) /\
  (forall n, is_int n -> (0 <= n)%Z ->
     handle_do_command ("do" ++ ws ++ to_string n) = Execute_todo n) /\
  (forall n, (n < 0)%Z -> handle_do_command ("do" ++ ws ++ to_string n) = Do_error) /\
  (forall word, other_word word -> handle_do_command ("do" ++ ws ++ word) = Do_error).
Proof.
  intros Hws. split; [|split; [|split; [|split; [|split; [|split; [|split]]]]]].
  - unfold handle_do_command. now rewrite do_arguments_none.
  - unfold handle_do_command.
    now rewrite (do_arguments_spec ws "a" "ll") by auto.
  - unfold handle_do_command.
    now rewrite (do_arguments_spec ws "n" "ext") by auto.
  - intros ws' n Hws' Hn. now apply do_until.
  - intros a b Ha Hb Hn. now apply do_range.
  - intros n Hint Hn. now apply do_single_id.
  - intros n Hn. now apply do_negative_id.
  - intros word Hword. now apply do_other_word.
Qed.

Lemma do_command_arguments_witness :
  handle_do_command "do 3-5" = Execute_todos_range 3 5 /\
  handle_do_command "do until 4" = Execute_todos_until 4 /\
  handle_do_command "do -3" = Do_error.
Proof.
  destruct (do_command_arguments " " eq_refl) as [_ [_ [_ [Huntil [Hrange [_ [Hneg _]]]]]]].
  split; [|split].
  - apply (Hrange 3 5)%Z; unfold is_int; lia.
  - apply (Huntil " " 4%Z); [reflexivity|unfold is_int; lia].
  - apply (Hneg (-3)%Z). lia.
Defined.

(** X22: of the slash commands, the second test for "status" is never
    reached, so the execution status is never shown; and every command
    that starts with "do" is handed to the do command, so a word like
    "download" ends in the error message of the do command and not in
    the one for unknown commands. *)
Theorem slash_command_dispatch :
  (forall command, handle_slash_command command <> Show_execution_status) /\
  (forall command, handle_slash_command command = Show_status <-> command = "status") /\
  (forall rest,
     handle_slash_command ("do" ++ rest) = Do (handle_do_command ("do" ++ rest))) /\
  (forall word, other_word word -> handle_slash_command ("do" ++ word) = Do Do_error).
Proof.
  assert (Hdo : forall rest,
            handle_slash_command ("do" ++ rest) = Do (handle_do_command ("do" ++ rest)))
    by reflexivity.
  split; [|split; [|split]].
  - intros command. unfold handle_slash_command.
    repeat match goal with
    | |- context [if ?b then _ else _] => destruct b eqn:?
    end; discriminate.
  - intros command. split.
    + unfold handle_slash_command.
      destruct (String.eqb command "help" || String.eqb command "h"); [discriminate|].
      destruct (String.eqb_spec command "status") as [E|_]; [intros _; exact E|].
      repeat match goal with
      | |- context [if ?b then _ else _] => destruct b eqn:?
      end; discriminate.
    + intros ->. reflexivity.
  - exact Hdo.
  - intros word Hword. rewrite Hdo. f_equal.
    exact (do_other_word EmptyString word eq_refl Hword).
Qed.

End CommandLineFacts.

(** ** JSON texts: what is written is read back *)
Section JsonTextFacts.
Import StdString Json JsonText CommandLine.

Lemma skip_ws_white (w s : string) :
  white w = true ->
  match s with String c _ => is_ws c = false | EmptyString => True end ->
  skip_ws (w ++ s) = s.
Proof.
  intros Hw Hs. induction w as [|c w IH]; simpl in *.
  - destruct s as [|c s]; [reflexivity|]. simpl. now rewrite Hs.
  - apply andb_true_iff in Hw as [Hc Hw]. rewrite Hc. auto.
Qed.

Lemma skip_ws_app (w s : string) : white w = true -> skip_ws (w ++ s) = skip_ws s.
Proof.
  intros Hw. induction w as [|c w IH]; simpl in *; [reflexivity|].
  apply andb_true_iff in Hw as [Hc Hw]. rewrite Hc. auto.
Qed.

Lemma white_app (a b : string) : white a = true -> white b = true -> white (a ++ b) = true.
Proof.
  intros Ha Hb. induction a as [|c a IH]; simpl in *; [exact Hb|].
  apply andb_true_iff in Ha as [Hc Ha]. rewrite Hc. auto.
Qed.

Lemma to_uint_no_leading_zero (p : positive) (d : Decimal.uint) :
  Pos.to_uint p <> Decimal.D0 d.
Proof.
  intros E.
  assert (Hu : Decimal.unorm (Pos.to_uint p) = Pos.to_uint p).
  { rewrite <- DecimalPos.Unsigned.to_of, DecimalPos.Unsigned.of_to. reflexivity. }
  rewrite E in Hu. unfold Decimal.unorm in Hu. cbn [Decimal.nzhead] in Hu.
  destruct (Decimal.nzhead d) eqn:En;
    try (exact (DecimalFacts.nzhead_nonzero d d (eq_trans En Hu))).
  apply (DecimalPos.Unsigned.to_uint_nonzero p). rewrite E. now rewrite <- Hu.
Qed.

Lemma N_to_string_first (n : N) :
  exists c d, N_to_string n = String c d /\ is_digit c = true /\ all_digits d = true /\
              (N.eqb (byte c) 48 = true -> n = 0%N /\ d = EmptyString).
Proof.
  destruct n as [|p].
  - exists "0"%char, EmptyString. repeat split; reflexivity.
  - pose proof (N_to_string_digits (N.pos p)) as Hd.
    unfold N_to_string in *. change (N.to_uint (N.pos p)) with (Pos.to_uint p) in *.
    pose proof (DecimalPos.Unsigned.to_uint_nonnil p) as Hnil.
    pose proof (to_uint_no_leading_zero p) as Hz.
    destruct (Pos.to_uint p) as [|d|d|d|d|d|d|d|d|d|d] eqn:E; [now elim Hnil|..];
      simpl in Hd |- *; (eexists _, _; split; [reflexivity|]; split; [reflexivity|];
                         split; [exact Hd|]); try discriminate.
    now elim (Hz d).
Qed.

Lemma scan_int_part_to_string (n : N) (rest : string) :
  ends_number rest ->
  scan_int_part (N_to_string n ++ rest) = Some (N_to_string n, rest).
Proof.
  intros Hrest.
  assert (Hnd : no_digit_ahead rest).
  { destruct rest as [|c r]; [exact I|]. simpl in *. tauto. }
  pose proof (span_digits_app _ _ (N_to_string_digits n) Hnd) as Hspan.
  destruct (N_to_string_first n) as [c [d [E [Hc [Hd Hz]]]]]. rewrite E in *.
  cbn [append scan_int_part].
  destruct (N.eqb (byte c) 48) eqn:E0.
  - destruct (Hz eq_refl) as [_ ->].
    assert (c = "0"%char) as ->.
    { apply N.eqb_eq in E0. unfold byte in E0.
      rewrite <- (ascii_N_embedding c), E0. reflexivity. }
    reflexivity.
  - rewrite Hc. change (String c (d ++ rest)) with (String c d ++ rest). now rewrite Hspan.
Qed.

Lemma scan_tail_ends_number (rest : string) :
  ends_number rest ->
  scan_fraction rest = Some (EmptyString, rest) /\
  scan_exponent rest = Some (EmptyString, rest).
Proof.
  destruct rest as [|c r]; [split; reflexivity|].
  intros [_ [H1 [H2 H3]]]. simpl. now rewrite H1, H2, H3.
Qed.

Lemma scan_number_unsigned (n : N) (rest : string) :
  (n <= 18446744073709551615)%N -> ends_number rest ->
  scan_number (N_to_string n ++ rest) = Some (JUnsigned n, rest).
Proof.
  intros Hn Hrest. unfold scan_number.
  destruct (N_to_string_first n) as [c [d [E [Hc _]]]].
  assert (Hneg : N.eqb (byte c) 45 = false).
  { apply digit_cases in Hc. simpl in Hc.
    repeat (destruct Hc as [<-|Hc]; [reflexivity|]). destruct Hc. }
  pose proof (scan_int_part_to_string n rest Hrest) as Hint.
  rewrite E in *. cbn [append] in *. rewrite Hneg.
  change (String c (d ++ rest)) with (String c d ++ rest) in *.
  rewrite Hint. destruct (scan_tail_ends_number rest Hrest) as [-> ->].
  cbn [String.eqb andb]. rewrite <- E, N_to_string_value.
  apply N.leb_le in Hn. now rewrite Hn.
Qed.

Lemma scan_number_negative (p : positive) (rest : string) :
  (N.pos p <= 9223372036854775808)%N -> ends_number rest ->
  scan_number (String "-" (N_to_string (N.pos p) ++ rest)) = Some (JInteger (Z.neg p), rest).
Proof.
  intros Hn Hrest. unfold scan_number.
  change (N.eqb (byte "-") 45) with true. cbv iota.
  rewrite (scan_int_part_to_string (N.pos p) rest Hrest).
  destruct (scan_tail_ends_number rest Hrest) as [-> ->].
  cbn [String.eqb andb]. rewrite N_to_string_value.
  apply N.leb_le in Hn. now rewrite Hn.
Qed.

Lemma ws_is_no_token (c : ascii) :
  is_ws c = true ->
  is_digit c = false /\ N.eqb (byte c) 46 = false /\
  N.eqb (byte c) 101 = false /\ N.eqb (byte c) 69 = false.
Proof.
  destruct c as [[] [] [] [] [] [] [] []]; intros H; try discriminate H;
    repeat split; reflexivity.
Qed.

Lemma ends_number_white (w : string) (c : ascii) (r : string) :
  white w = true -> ends_number (String c r) -> ends_number (w ++ String c r).
Proof.
  destruct w as [|a w]; [auto|]. simpl. intros H _.
  apply andb_true_iff in H as [Ha _]. now apply ws_is_no_token.
Qed.

Lemma starts_value_app (t rest : string) :
  starts_value t -> match t ++ rest with String c _ => is_ws c = false | EmptyString => True end.
Proof. destruct t as [|c t]; simpl; tauto. Qed.

Lemma layout_starts_value (j : json) (t : string) : layout j t -> starts_value t.
Proof.
  intros H. destruct H; try (simpl; repeat split; reflexivity).
  - destruct b; simpl; repeat split; reflexivity.
  - destruct (N_to_string_first n) as [c [d [-> [Hc _]]]]. simpl.
    apply digit_cases in Hc. simpl in Hc.
    repeat (destruct Hc as [<-|Hc]; [repeat split; reflexivity|]). destruct Hc.
  - destruct z as [|q|q]; try lia. simpl. repeat split; reflexivity.
Qed.

Lemma parse_value_skip (w s : string) (fuel : nat) :
  white w = true ->
  match s with String c _ => is_ws c = false | EmptyString => True end ->
  parse_value fuel (w ++ s) = parse_value fuel s.
Proof.
  intros Hw Hs. destruct fuel as [|f]; [reflexivity|]. cbn [parse_value].
  rewrite (skip_ws_white w s Hw Hs).
  pose proof (skip_ws_white EmptyString s eq_refl Hs) as E. cbn [append] in E. now rewrite E.
Qed.

Lemma parse_value_array (f : nat) (s : string) :
  parse_value (S f) (String "[" s) =
  match skip_ws s with
  | String c2 s2 =>
      if N.eqb (byte c2) 93 then Some (JArray [], s2)
      else parse_elements f (parse_value f) s []
  | EmptyString => None
  end.
Proof. reflexivity. Qed.

Lemma parse_value_object (f : nat) (s : string) :
  parse_value (S f) (String "{" s) =
  match skip_ws s with
  | String c2 s2 =>
      if N.eqb (byte c2) 125 then Some (JObject [], s2)
      else parse_members f (parse_value f) s []
  | EmptyString => None
  end.
Proof. reflexivity. Qed.

Lemma parse_value_digit (f : nat) (c : ascii) (s : string) :
  is_digit c = true -> parse_value (S f) (String c s) = scan_number (String c s).
Proof.
  intros Hc. apply digit_cases in Hc. simpl in Hc.
  repeat (destruct Hc as [<-|Hc]; [reflexivity|]). destruct Hc.
Qed.

Lemma parse_value_minus (f : nat) (s : string) :
  parse_value (S f) (String "-" s) = scan_number (String "-" s).
Proof. reflexivity. Qed.

Lemma parse_elements_step (f : nat) (V : string -> option (json * string))
    (s w rest : string) (x : json) (acc : list json) :
  V s = Some (x, w ++ String "," rest) -> white w = true ->
  parse_elements (S f) V s acc = parse_elements f V rest (x :: acc).
Proof.
  intros HV Hw. cbn [parse_elements]. rewrite HV.
  now rewrite (skip_ws_white w (String "," rest) Hw eq_refl).
Qed.

Lemma parse_elements_end (f : nat) (V : string -> option (json * string))
    (s w rest : string) (x : json) (acc : list json) :
  V s = Some (x, w ++ String "]" rest) -> white w = true ->
  parse_elements (S f) V s acc = Some (JArray (rev (x :: acc)), rest).
Proof.
  intros HV Hw. cbn [parse_elements]. rewrite HV.
  now rewrite (skip_ws_white w (String "]" rest) Hw eq_refl).
Qed.

Lemma parse_members_step (f : nat) (V : string -> option (json * string))
    (w1 k e w2 s w4 rest : string) (v : json) (acc : list (string * json)) :
  white w1 = true -> escape_string k = Some e -> white w2 = true ->
  V s = Some (v, w4 ++ String "," rest) -> white w4 = true ->
  parse_members (S f) V (w1 ++ quote e ++ w2 ++ String ":" s) acc
  = parse_members f V rest (StdMap.insert k v acc).
Proof.
  intros Hw1 Hk Hw2 HV Hw4. cbn [parse_members].
  rewrite quote_app, (skip_ws_white w1 (String dquote _) Hw1 eq_refl).
  change (N.eqb (byte dquote) 34) with true. cbv iota.
  rewrite (scan_escape k UAccept e _ Hk), (skip_ws_white w2 (String ":" _) Hw2 eq_refl).
  change (N.eqb (byte ":") 58) with true. cbv iota. rewrite HV.
  now rewrite (skip_ws_white w4 (String "," rest) Hw4 eq_refl).
Qed.

Lemma parse_members_end (f : nat) (V : string -> option (json * string))
    (w1 k e w2 s w4 rest : string) (v : json) (acc : list (string * json)) :
  white w1 = true -> escape_string k = Some e -> white w2 = true ->
  V s = Some (v, w4 ++ String "}" rest) -> white w4 = true ->
  parse_members (S f) V (w1 ++ quote e ++ w2 ++ String ":" s) acc
  = Some (JObject (StdMap.insert k v acc), rest).
Proof.
  intros Hw1 Hk Hw2 HV Hw4. cbn [parse_members].
  rewrite quote_app, (skip_ws_white w1 (String dquote _) Hw1 eq_refl).
  change (N.eqb (byte dquote) 34) with true. cbv iota.
  rewrite (scan_escape k UAccept e _ Hk), (skip_ws_white w2 (String ":" _) Hw2 eq_refl).
  change (N.eqb (byte ":") 58) with true. cbv iota. rewrite HV.
  now rewrite (skip_ws_white w4 (String "}" rest) Hw4 eq_refl).
Qed.

Lemma skip_ws_starts_value (t rest : string) :
  starts_value t ->
  exists c s, skip_ws (t ++ rest) = String c s /\
              N.eqb (byte c) 93 = false /\ N.eqb (byte c) 125 = false.
Proof.
  destruct t as [|c t]; [intros []|]. intros [Hws [H1 H2]].
  exists c, (t ++ rest). simpl. now rewrite Hws.
Qed.

Ltac lengths :=
  cbn [String.length append] in *;
  do 3 (rewrite ?length_app in *; cbn [String.length] in *); lia.

(** The parser reads every layout of a value and leaves what follows. *)
Lemma parse_value_layout (j : json) (t : string) :
  layout j t ->
  forall rest fuel,
  ends_number rest -> String.length (t ++ rest) < fuel ->
  parse_value fuel (t ++ rest) = Some (j, rest).
Proof.
  intros H.
  induction H using layout_mut with
    (P0 := fun l t =>
       (forall rest, exists c s, skip_ws (t ++ rest) = String c s /\ N.eqb (byte c) 93 = false) /\
       forall rest acc fuel F,
       String.length (t ++ rest) < fuel -> String.length (t ++ rest) < F ->
       parse_elements fuel (parse_value F) (t ++ rest) acc
       = Some (JArray (rev acc ++ l), rest))
    (P1 := fun m t =>
       (forall rest, exists c s, skip_ws (t ++ rest) = String c s /\ N.eqb (byte c) 125 = false) /\
       forall rest acc fuel F,
       String.length (t ++ rest) < fuel -> String.length (t ++ rest) < F ->
       parse_members fuel (parse_value F) (t ++ rest) acc
       = Some (JObject (fold_left (fun a kv => StdMap.insert (fst kv) (snd kv) a) m acc), rest)).
  - (* null *)
    intros rest fuel Hrest Hf. destruct fuel as [|f]; [lia|]. reflexivity.
  - (* true, false *)
    intros rest fuel Hrest Hf. destruct fuel as [|f]; [lia|]. apply parse_value_bool.
  - (* unsigned *)
    intros rest fuel Hrest Hf. destruct fuel as [|f]; [lia|].
    rewrite <- (scan_number_unsigned n rest) by assumption.
    destruct (N_to_string_first n) as [c [d [-> [Hc _]]]].
    now apply parse_value_digit.
  - (* negative *)
    intros rest fuel Hrest Hf. destruct fuel as [|f]; [lia|].
    destruct z as [|q|q]; try lia.
    change (Z_to_string (Z.neg q) ++ rest) with (String "-" (N_to_string (N.pos q) ++ rest)).
    rewrite parse_value_minus. apply scan_number_negative; [lia|exact Hrest].
  - (* string *)
    intros rest fuel Hrest Hf. destruct fuel as [|f]; [lia|]. now apply parse_value_string.
  - (* empty array *)
    intros rest fuel Hrest Hf. destruct fuel as [|f]; [lia|].
    cbn [append]. rewrite parse_value_array, app_assoc.
    now rewrite (skip_ws_white w ("]" ++ rest) H eq_refl).
  - (* array *)
    destruct IHlayout as [Hfirst Hread].
    intros rest fuel Hrest Hf. destruct fuel as [|f]; [lia|].
    cbn [append]. rewrite parse_value_array.
    destruct (Hfirst rest) as [c [s [-> Hc]]]. rewrite Hc.
    cbn [append String.length] in Hf. apply Hread; lia.
  - (* empty object *)
    intros rest fuel Hrest Hf. destruct fuel as [|f]; [lia|].
    cbn [append]. rewrite parse_value_object, app_assoc.
    now rewrite (skip_ws_white w ("}" ++ rest) H eq_refl).
  - (* object *)
    destruct IHlayout as [Hfirst Hread].
    intros rest fuel Hrest Hf. destruct fuel as [|f]; [lia|].
    cbn [append]. rewrite parse_value_object.
    destruct (Hfirst rest) as [c [s [-> Hc]]]. rewrite Hc.
    cbn [append String.length] in Hf. apply Hread; lia.
  - (* the last element *)
    pose proof (layout_starts_value _ _ H0) as Hsv. split.
    + intros rest. rewrite !app_assoc, skip_ws_app by exact H.
      destruct (skip_ws_starts_value t (w2 ++ "]" ++ rest) Hsv) as [c [s [E [Hc _]]]].
      now exists c, s.
    + intros rest acc fuel F Hfuel HF. destruct fuel as [|f]; [lia|].
      rewrite !app_assoc in *.
      rewrite (parse_elements_end f _ _ w2 rest x acc); [reflexivity| |exact H1].
      rewrite parse_value_skip by (exact H || exact (starts_value_app t _ Hsv)).
      apply IHlayout.
      * now apply ends_number_white.
      * lengths.
  - (* an element and more *)
    pose proof (layout_starts_value _ _ H0) as Hsv. destruct IHlayout0 as [_ Hread]. split.
    + intros rest. rewrite !app_assoc, skip_ws_app by exact H.
      destruct (skip_ws_starts_value t (w2 ++ "," ++ t' ++ rest) Hsv) as [c [s [E [Hc _]]]].
      now exists c, s.
    + intros rest acc fuel F Hfuel HF. destruct fuel as [|f]; [lia|].
      rewrite !app_assoc in *.
      rewrite (parse_elements_step f _ _ w2 (t' ++ rest) x acc); [| |exact H1].
      * rewrite Hread.
        -- cbn [rev]. now rewrite <- List.app_assoc.
        -- lengths.
        -- lengths.
      * rewrite parse_value_skip by (exact H || exact (starts_value_app t _ Hsv)).
        apply IHlayout.
        -- now apply ends_number_white.
        -- lengths.
  - (* the last member *)
    pose proof (layout_starts_value _ _ H3) as Hsv. split.
    + intros rest. rewrite !app_assoc, skip_ws_app by exact H.
      rewrite quote_app. exists dquote, (e ++ String dquote (w2 ++ ":" ++ w3 ++ t ++ w4 ++ "}" ++ rest)).
      split; reflexivity.
    + intros rest acc fuel F Hfuel HF. destruct fuel as [|f]; [lia|].
      rewrite !app_assoc in *.
      apply (parse_members_end f _ w1 k e w2 _ w4 rest v acc); try assumption.
      rewrite parse_value_skip by (exact H2 || exact (starts_value_app t _ Hsv)).
      apply IHlayout.
      * now apply ends_number_white.
      * lengths.
  - (* a member and more *)
    pose proof (layout_starts_value _ _ H3) as Hsv. destruct IHlayout0 as [_ Hread]. split.
    + intros rest. rewrite !app_assoc, skip_ws_app by exact H.
      rewrite quote_app. eexists dquote, _. split; reflexivity.
    + intros rest acc fuel F Hfuel HF. destruct fuel as [|f]; [lia|].
      rewrite !app_assoc in *.
      eapply eq_trans;
        [apply (parse_members_step f _ w1 k e w2 _ w4 (t' ++ rest) v acc); try assumption|].
      2: apply Hread; lengths.
      * rewrite parse_value_skip by (exact H2 || exact (starts_value_app t _ Hsv)).
        apply IHlayout.
        -- now apply ends_number_white.
        -- lengths.
Qed.

Lemma dump_array (l : list json) :
  dump (JArray l) = option_map (fun body => "[" ++ body ++ "]") (dump_elements l).
Proof. reflexivity. Qed.

Lemma dump_object (m : list (string * json)) :
  dump (JObject m) = option_map (fun body => "{" ++ body ++ "}") (dump_members m).
Proof. reflexivity. Qed.

Lemma dump_indent_array (indent_step current_indent : nat) (x : json) (l : list json) :
  dump_indent indent_step current_indent (JArray (x :: l))
  = option_map
      (fun body => "[" ++ line_feed ++ body ++ line_feed ++ indent_string current_indent ++ "]")
      (indent_elements indent_step (current_indent + indent_step) (x :: l)).
Proof. reflexivity. Qed.

Lemma dump_indent_object (indent_step current_indent : nat) (kv : string * json)
    (m : list (string * json)) :
  dump_indent indent_step current_indent (JObject (kv :: m))
  = option_map
      (fun body => "{" ++ line_feed ++ body ++ line_feed ++ indent_string current_indent ++ "}")
      (indent_members indent_step (current_indent + indent_step) (kv :: m)).
Proof. reflexivity. Qed.

Lemma json_induction (P : json -> Prop) :
  P JNull -> (forall b, P (JBool b)) -> (forall n, P (JUnsigned n)) ->
  (forall z, P (JInteger z)) -> (forall lexeme, P (JFloat lexeme)) ->
  (forall s, P (JString s)) ->
  (forall l, Forall P l -> P (JArray l)) ->
  (forall m, Forall (fun kv => P (snd kv)) m -> P (JObject m)) ->
  forall j, P j.
Proof.
  intros Hnull Hbool Hunsigned Hinteger Hfloat Hstring Harray Hobject.
  fix IH 1. intros [ |b|n|z|lexeme|s|l|m].
  - exact Hnull.
  - apply Hbool.
  - apply Hunsigned.
  - apply Hinteger.
  - apply Hfloat.
  - apply Hstring.
  - apply Harray. revert l. fix IHl 1. intros [|x l]; constructor; [apply IH|apply IHl].
  - apply Hobject. revert m. fix IHm 1. intros [|[k v] m]; constructor; [apply IH|apply IHm].
Qed.

Lemma insert_last {V : Type} (k : string) (v : V) (acc : list (string * V)) :
  (forall kv, In kv acc -> String.compare (fst kv) k = Lt) ->
  StdMap.insert k v acc = (acc ++ [(k, v)])%list.
Proof.
  induction acc as [|[k' v'] acc IH]; intros H; simpl; [reflexivity|].
  pose proof (H (k', v') (or_introl eq_refl)) as Hlt. simpl in Hlt.
  rewrite String.compare_antisym, Hlt. simpl.
  rewrite IH; [reflexivity|]. intros kv Hin. apply H. now right.
Qed.

Lemma sorted_keys_before (a : list string) (k : string) (b : list string) :
  sorted_keys (a ++ k :: b)%list = true -> forall x, In x a -> String.compare x k = Lt.
Proof.
  induction a as [|y a IH]; simpl; [tauto|]. intros H x Hin.
  apply andb_true_iff in H as [Hy Ha]. destruct Hin as [<-|Hin]; [|now apply IH].
  rewrite forallb_forall in Hy. specialize (Hy k).
  destruct (String.compare y k); try reflexivity;
    (assert (false = true) by (apply Hy, in_or_app; right; now left); discriminate).
Qed.

Lemma fold_insert_sorted (m : list (string * json)) :
  forall acc,
  sorted_keys (map fst (acc ++ m)%list) = true ->
  fold_left (fun a kv => StdMap.insert (fst kv) (snd kv) a) m acc = (acc ++ m)%list.
Proof.
  induction m as [|[k v] m IH]; intros acc H; simpl.
  - now rewrite List.app_nil_r.
  - rewrite insert_last.
    + rewrite IH; rewrite <- List.app_assoc; [reflexivity|exact H].
    + intros kv Hin. rewrite map_app in H. simpl in H.
      apply (sorted_keys_before _ _ _ H). now apply in_map.
Qed.

Lemma dump_elements_layout (l : list json) :
  l <> [] ->
  Forall (fun x => dumpable x = true -> exists t, dump x = Some t /\ layout (reread x) t) l ->
  forallb dumpable l = true ->
  exists body, dump_elements l = Some body /\ layout_elements (map reread l) (body ++ "]").
Proof.
  induction l as [|x l IH]; intros Hne Hall Hcan; [now elim Hne|].
  inversion Hall as [|? ? Hx Hl]; subst.
  simpl in Hcan. apply andb_true_iff in Hcan as [Hcx Hcl].
  destruct (Hx Hcx) as [a [Ha La]].
  destruct l as [|y l].
  - exists a. split; [exact Ha|].
    exact (Layout_last_element _ EmptyString a EmptyString eq_refl La eq_refl).
  - destruct (IH ltac:(discriminate) Hl Hcl) as [b [Hb Lb]].
    exists (a ++ "," ++ b). split.
    + change (dump_elements (x :: y :: l))
        with (match dump x, dump_elements (y :: l) with
              | Some a, Some b => Some (a ++ "," ++ b)
              | _, _ => None
              end).
      now rewrite Ha, Hb.
    + rewrite !app_assoc.
      exact (Layout_next_element _ _ EmptyString a EmptyString (b ++ "]")
               eq_refl La eq_refl Lb).
Qed.

Lemma dump_members_layout (m : list (string * json)) :
  m <> [] ->
  Forall (fun kv => dumpable (snd kv) = true ->
                    exists t, dump (snd kv) = Some t /\ layout (reread (snd kv)) t) m ->
  forallb (fun kv => is_utf8 (fst kv) && dumpable (snd kv)) m = true ->
  exists body, dump_members m = Some body /\
               layout_members (map (fun kv => (fst kv, reread (snd kv))) m) (body ++ "}").
Proof.
  induction m as [|[k v] m IH]; intros Hne Hall Hcan; [now elim Hne|].
  inversion Hall as [|? ? Hx Hl]; subst.
  simpl in Hcan. apply andb_true_iff in Hcan as [Hkv Hcl].
  apply andb_true_iff in Hkv as [Hk Hcv].
  destruct (Hx Hcv) as [b [Hb Lb]]. simpl in Hb, Lb.
  destruct (escape_from_total k UAccept Hk) as [e He].
  assert (Hd : dump_string k = Some (quote e))
    by (unfold dump_string, escape_string; now rewrite He).
  destruct m as [|kv m].
  - exists (quote e ++ ":" ++ b). split.
    + simpl. now rewrite Hd, Hb, app_empty_r.
    + rewrite !app_assoc.
      exact (Layout_last_member k _ EmptyString e EmptyString EmptyString b EmptyString
               eq_refl He eq_refl eq_refl Lb eq_refl).
  - destruct (IH ltac:(discriminate) Hl Hcl) as [c [Hc Lc]].
    exists (quote e ++ ":" ++ b ++ "," ++ c). split.
    + change (dump_members ((k, v) :: kv :: m))
        with (match dump_string k, dump v, dump_members (kv :: m) with
              | Some a, Some b, Some c => Some (a ++ ":" ++ b ++ "," ++ c)
              | _, _, _ => None
              end).
      now rewrite Hd, Hb, Hc.
    + rewrite !app_assoc.
      exact (Layout_next_member k _ _ EmptyString e EmptyString EmptyString b
               EmptyString (c ++ "}") eq_refl He eq_refl eq_refl Lb eq_refl Lc).
Qed.

Lemma reread_keys (m : list (string * json)) :
  map fst (map (fun kv => (fst kv, reread (snd kv))) m) = map fst m.
Proof. rewrite map_map. reflexivity. Qed.

Lemma layout_object_sorted (m : list (string * json)) (t : string) :
  m <> [] -> sorted_keys (map fst m) = true ->
  layout_members m t -> layout (JObject m) (String "{" t).
Proof.
  intros Hne Hsorted L. destruct m as [|kv m]; [now elim Hne|].
  pose proof (Layout_object kv m _ L) as L'.
  now rewrite (fold_insert_sorted (kv :: m) [] Hsorted) in L'.
Qed.

(** [dump] writes a layout of what the parser will read. *)
Lemma dump_layout (j : json) :
  dumpable j = true -> exists t, dump j = Some t /\ layout (reread j) t.
Proof.
  induction j using json_induction; intros Hcan.
  - exists "null". split; [reflexivity|constructor].
  - exists (if b then "true" else "false"). split; [now destruct b|constructor].
  - exists (N_to_string n). split; [reflexivity|]. constructor. now apply N.leb_le.
  - exists (Z_to_string z). split; [reflexivity|].
    simpl in Hcan. apply andb_true_iff in Hcan as [H1 H2].
    apply Z.leb_le in H1, H2. cbn [reread].
    destruct (Z.leb_spec 0 z) as [Hz|Hz].
    + replace (Z_to_string z) with (N_to_string (Z.to_N z)) by (now destruct z).
      constructor. lia.
    + constructor. lia.
  - discriminate.
  - destruct (escape_from_total s UAccept Hcan) as [e He].
    exists (quote e). split; [unfold dump, dump_string, escape_string; now rewrite He|].
    now constructor.
  - destruct l as [|x l].
    + exists "[]". split; [reflexivity|]. exact (Layout_array_empty EmptyString eq_refl).
    + destruct (dump_elements_layout (x :: l) ltac:(discriminate) H Hcan) as [body [Hb Lb]].
      exists ("[" ++ body ++ "]"). split; [now rewrite dump_array, Hb|].
      cbn [reread map]. now apply Layout_array.
  - destruct m as [|kv m].
    + exists "{}". split; [reflexivity|]. exact (Layout_object_empty EmptyString eq_refl).
    + simpl in Hcan. apply andb_true_iff in Hcan as [Hsorted Hcan].
      destruct (dump_members_layout (kv :: m) ltac:(discriminate) H Hcan) as [body [Hb Lb]].
      exists ("{" ++ body ++ "}"). split; [now rewrite dump_object, Hb|].
      cbn [reread]. apply layout_object_sorted; [discriminate| |exact Lb].
      now rewrite reread_keys.
Qed.

Lemma white_indent (n : nat) : white (indent_string n) = true.
Proof. induction n as [|n IH]; simpl; auto. Qed.

Lemma white_line_indent (n : nat) : white (line_feed ++ indent_string n) = true.
Proof. apply white_app; [reflexivity|apply white_indent]. Qed.

Lemma indent_elements_layout (indent_step new_indent : nat) (closing : string)
    (l : list json) :
  l <> [] ->
  Forall (fun x => dumpable x = true ->
                   forall current, exists t,
                     dump_indent indent_step current x = Some t /\ layout (reread x) t) l ->
  forallb dumpable l = true -> white closing = true ->
  exists body, indent_elements indent_step new_indent l = Some body /\
               layout_elements (map reread l) (line_feed ++ body ++ closing ++ "]").
Proof.
  intros Hne Hall Hcan Hclosing.
  induction l as [|x l IH]; [now elim Hne|].
  inversion Hall as [|? ? Hx Hl]; subst.
  simpl in Hcan. apply andb_true_iff in Hcan as [Hcx Hcl].
  destruct (Hx Hcx new_indent) as [a [Ha La]].
  destruct l as [|y l].
  - exists (indent_string new_indent ++ a). split; [simpl; now rewrite Ha|].
    rewrite app_assoc, <- (app_assoc line_feed).
    exact (Layout_last_element _ _ a closing (white_line_indent new_indent) La Hclosing).
  - destruct (IH ltac:(discriminate) Hl Hcl) as [b [Hb Lb]].
    exists (indent_string new_indent ++ a ++ "," ++ line_feed ++ b). split.
    + change (indent_elements indent_step new_indent (x :: y :: l))
        with (match dump_indent indent_step new_indent x,
                    indent_elements indent_step new_indent (y :: l) with
              | Some a, Some b => Some (indent_string new_indent ++ a ++ "," ++ line_feed ++ b)
              | _, _ => None
              end).
      now rewrite Ha, Hb.
    + rewrite !app_assoc, <- (app_assoc line_feed).
      exact (Layout_next_element _ _ _ a EmptyString _
               (white_line_indent new_indent) La eq_refl Lb).
Qed.

Lemma indent_members_layout (indent_step new_indent : nat) (closing : string)
    (m : list (string * json)) :
  m <> [] ->
  Forall (fun kv => dumpable (snd kv) = true ->
                    forall current, exists t,
                      dump_indent indent_step current (snd kv) = Some t /\
                      layout (reread (snd kv)) t) m ->
  forallb (fun kv => is_utf8 (fst kv) && dumpable (snd kv)) m = true ->
  white closing = true ->
  exists body, indent_members indent_step new_indent m = Some body /\
               layout_members (map (fun kv => (fst kv, reread (snd kv))) m)
                 (line_feed ++ body ++ closing ++ "}").
Proof.
  intros Hne Hall Hcan Hclosing.
  induction m as [|[k v] m IH]; [now elim Hne|].
  inversion Hall as [|? ? Hx Hl]; subst.
  simpl in Hcan. apply andb_true_iff in Hcan as [Hkv Hcl].
  apply andb_true_iff in Hkv as [Hk Hcv].
  destruct (Hx Hcv new_indent) as [b [Hb Lb]]. simpl in Hb, Lb.
  destruct (escape_from_total k UAccept Hk) as [e He].
  assert (Hd : dump_string k = Some (quote e))
    by (unfold dump_string, escape_string; now rewrite He).
  destruct m as [|kv m].
  - exists (indent_string new_indent ++ quote e ++ ": " ++ b). split.
    + simpl. now rewrite Hd, Hb, app_empty_r.
    + rewrite !app_assoc, <- (app_assoc line_feed).
      exact (Layout_last_member k _ _ e EmptyString " " b closing
               (white_line_indent new_indent) He eq_refl eq_refl Lb Hclosing).
  - destruct (IH ltac:(discriminate) Hl Hcl) as [c [Hc Lc]].
    exists (indent_string new_indent ++ quote e ++ ": " ++ b ++ "," ++ line_feed ++ c). split.
    + change (indent_members indent_step new_indent ((k, v) :: kv :: m))
        with (match dump_string k, dump_indent indent_step new_indent v,
                    indent_members indent_step new_indent (kv :: m) with
              | Some a, Some b, Some c =>
                  Some (indent_string new_indent ++ a ++ ": " ++ b ++ "," ++ line_feed ++ c)
              | _, _, _ => None
              end).
      now rewrite Hd, Hb, Hc.
    + rewrite !app_assoc, <- (app_assoc line_feed).
      exact (Layout_next_member k _ _ _ e EmptyString " " b EmptyString _
               (white_line_indent new_indent) He eq_refl eq_refl Lb eq_refl Lc).
Qed.

(** [dump_indent] writes a layout of what the parser will read. *)
Lemma dump_indent_layout (j : json) :
  dumpable j = true ->
  forall indent_step current, exists t,
    dump_indent indent_step current j = Some t /\ layout (reread j) t.
Proof.
  induction j using json_induction; intros Hcan indent_step current;
    try exact (dump_layout _ Hcan).
  - destruct l as [|x l].
    + exists "[]". split; [reflexivity|]. exact (Layout_array_empty EmptyString eq_refl).
    + assert (Hall : Forall (fun x => dumpable x = true ->
                               forall current, exists t,
                                 dump_indent indent_step current x = Some t /\
                                 layout (reread x) t)
                              (x :: l)).
      { eapply Forall_impl; [|exact H]. intros a Ha Hc cur. now apply Ha. }
      destruct (indent_elements_layout indent_step (current + indent_step)
                  (line_feed ++ indent_string current) (x :: l)
                  ltac:(discriminate) Hall Hcan (white_line_indent current))
        as [body [Hb Lb]].
      eexists. split; [rewrite dump_indent_array, Hb; reflexivity|].
      cbn [append reread map]. apply Layout_array.
      rewrite !app_assoc in Lb. exact Lb.
  - destruct m as [|kv m].
    + exists "{}". split; [reflexivity|]. exact (Layout_object_empty EmptyString eq_refl).
    + simpl in Hcan. apply andb_true_iff in Hcan as [Hsorted Hcan].
      assert (Hall : Forall (fun kv => dumpable (snd kv) = true ->
                               forall current, exists t,
                                 dump_indent indent_step current (snd kv) = Some t /\
                                 layout (reread (snd kv)) t) (kv :: m)).
      { eapply Forall_impl; [|exact H]. intros a Ha Hc cur. now apply Ha. }
      destruct (indent_members_layout indent_step (current + indent_step)
                  (line_feed ++ indent_string current) (kv :: m)
                  ltac:(discriminate) Hall Hcan (white_line_indent current))
        as [body [Hb Lb]].
      eexists. split; [rewrite dump_indent_object, Hb; reflexivity|].
      cbn [append reread]. apply layout_object_sorted; [discriminate| |].
      * now rewrite reread_keys.
      * rewrite ?app_assoc in Lb. exact Lb.
Qed.

Lemma layout_no_bom (j : json) (t rest : string) :
  layout j t -> starts_with bom (t ++ rest) = false.
Proof.
  intros H. destruct H; try reflexivity.
  - now destruct b.
  - destruct (N_to_string_first n) as [c [d [-> [Hc _]]]].
    apply digit_cases in Hc. simpl in Hc.
    repeat (destruct Hc as [<-|Hc]; [reflexivity|]). destruct Hc.
  - destruct z as [|q|q]; try lia. reflexivity.
Qed.

Lemma ends_number_white_tail (tail : string) : white tail = true -> ends_number tail.
Proof.
  destruct tail as [|c r]; [exact (fun _ => I)|]. simpl. intros H.
  apply andb_true_iff in H as [Hc _]. now apply ws_is_no_token.
Qed.

Lemma skip_ws_all (tail : string) : white tail = true -> skip_ws tail = EmptyString.
Proof.
  induction tail as [|c r IH]; simpl; [reflexivity|]. intros H.
  apply andb_true_iff in H as [Hc Hr]. rewrite Hc. auto.
Qed.

(** A layout, with white space after it, is read back by [parse] and by
    the stream operator. *)
Lemma parse_layout (j : json) (t tail : string) :
  layout j t -> white tail = true ->
  parse (t ++ tail) = Some j /\ parse_stream (t ++ tail) = Some j.
Proof.
  intros L Htail. unfold parse, parse_stream.
  rewrite (layout_no_bom j t tail L).
  rewrite (parse_value_layout j t L tail _ (ends_number_white_tail tail Htail))
    by apply Nat.lt_succ_diag_r.
  now rewrite (skip_ws_all tail Htail).
Qed.

(** What [dump] wrote, [parse] reads back. *)
Lemma parse_dump (j : json) :
  dumpable j = true ->
  exists t, dump j = Some t /\ parse t = Some (reread j).
Proof.
  intros H. destruct (dump_layout j H) as [t [Hd L]]. exists t. split; [exact Hd|].
  rewrite <- (app_empty_r t). exact (proj1 (parse_layout _ t EmptyString L eq_refl)).
Qed.

End JsonTextFacts.

(** ** When serialization fails *)
Section JsonFailureFacts.
Import StdString Json JsonText.

Lemma dump_string_none (s : string) : is_utf8 s = false -> dump_string s = None.
Proof.
  intros H. unfold dump_string, escape_string. now rewrite (escape_from_none s UAccept H).
Qed.

Lemma dump_elements_none (l : list json) :
  Forall (fun x => texts_utf8 x = false -> dump x = None) l ->
  forallb texts_utf8 l = false -> dump_elements l = None.
Proof.
  induction l as [|x l IH]; intros Hall Hf; [discriminate|].
  inversion Hall as [|? ? Hx Hl]; subst. simpl in Hf.
  destruct l as [|y l].
  - simpl in *. rewrite andb_true_r in Hf. auto.
  - change (dump_elements (x :: y :: l))
      with (match dump x, dump_elements (y :: l) with
            | Some a, Some b => Some (a ++ "," ++ b)
            | _, _ => None
            end).
    destruct (texts_utf8 x) eqn:Ex.
    + rewrite (IH Hl Hf). now destruct (dump x).
    + now rewrite (Hx eq_refl).
Qed.

Lemma dump_members_none (m : list (string * json)) :
  Forall (fun kv => texts_utf8 (snd kv) = false -> dump (snd kv) = None) m ->
  forallb (fun kv => is_utf8 (fst kv) && texts_utf8 (snd kv)) m = false ->
  dump_members m = None.
Proof.
  induction m as [|[k v] m IH]; intros Hall Hf; [discriminate|].
  inversion Hall as [|? ? Hx Hl]; subst. simpl in Hf, Hx.
  change (dump_members ((k, v) :: m))
    with (match dump_string k, dump v, dump_members m with
          | Some a, Some b, Some c =>
              Some (a ++ ":" ++ b ++ match m with [] => EmptyString | _ => "," ++ c end)
          | _, _, _ => None
          end).
  destruct (is_utf8 k) eqn:Ek; [|now rewrite (dump_string_none k Ek)].
  destruct (texts_utf8 v) eqn:Ev.
  - rewrite (IH Hl Hf). destruct (dump_string k), (dump v); reflexivity.
  - rewrite (Hx eq_refl). now destruct (dump_string k).
Qed.

(** [dump] raises when a string of the value is not UTF-8. *)
Lemma dump_none (j : json) : texts_utf8 j = false -> dump j = None.
Proof.
  induction j using json_induction; intros Hf; try discriminate Hf.
  - now apply dump_string_none.
  - rewrite dump_array, (dump_elements_none l H Hf). reflexivity.
  - rewrite dump_object, (dump_members_none m H Hf). reflexivity.
Qed.

Lemma indent_elements_none (indent_step new_indent : nat) (l : list json) :
  Forall (fun x => texts_utf8 x = false ->
                   forall current, dump_indent indent_step current x = None) l ->
  forallb texts_utf8 l = false -> indent_elements indent_step new_indent l = None.
Proof.
  induction l as [|x l IH]; intros Hall Hf; [discriminate|].
  inversion Hall as [|? ? Hx Hl]; subst. simpl in Hf.
  destruct l as [|y l].
  - simpl in *. rewrite andb_true_r in Hf. now rewrite (Hx Hf).
  - change (indent_elements indent_step new_indent (x :: y :: l))
      with (match dump_indent indent_step new_indent x,
                  indent_elements indent_step new_indent (y :: l) with
            | Some a, Some b => Some (indent_string new_indent ++ a ++ "," ++ line_feed ++ b)
            | _, _ => None
            end).
    destruct (texts_utf8 x) eqn:Ex.
    + rewrite (IH Hl Hf). now destruct (dump_indent indent_step new_indent x).
    + now rewrite (Hx eq_refl).
Qed.

Lemma indent_members_none (indent_step new_indent : nat) (m : list (string * json)) :
  Forall (fun kv => texts_utf8 (snd kv) = false ->
                    forall current, dump_indent indent_step current (snd kv) = None) m ->
  forallb (fun kv => is_utf8 (fst kv) && texts_utf8 (snd kv)) m = false ->
  indent_members indent_step new_indent m = None.
Proof.
  induction m as [|[k v] m IH]; intros Hall Hf; [discriminate|].
  inversion Hall as [|? ? Hx Hl]; subst. simpl in Hf, Hx.
  change (indent_members indent_step new_indent ((k, v) :: m))
    with (match dump_string k, dump_indent indent_step new_indent v,
                indent_members indent_step new_indent m with
          | Some a, Some b, Some c =>
              Some (indent_string new_indent ++ a ++ ": " ++ b
                    ++ match m with [] => EmptyString | _ => "," ++ line_feed ++ c end)
          | _, _, _ => None
          end).
  destruct (is_utf8 k) eqn:Ek; [|now rewrite (dump_string_none k Ek)].
  destruct (texts_utf8 v) eqn:Ev.
  - rewrite (IH Hl Hf).
    destruct (dump_string k), (dump_indent indent_step new_indent v); reflexivity.
  - rewrite (Hx eq_refl). now destruct (dump_string k).
Qed.

(** [dump_indent] raises when a string of the value is not UTF-8. *)
Lemma dump_indent_none (indent_step : nat) (j : json) :
  texts_utf8 j = false -> forall current, dump_indent indent_step current j = None.
Proof.
  induction j using json_induction; intros Hf current; try discriminate Hf.
  - now apply dump_string_none.
  - destruct l as [|x l]; [discriminate|].
    rewrite dump_indent_array, (indent_elements_none _ _ _ H Hf). reflexivity.
  - destruct m as [|kv m]; [discriminate|].
    rewrite dump_indent_object, (indent_members_none _ _ _ H Hf). reflexivity.
Qed.

Lemma canonical_texts_utf8 (j : json) : canonical j = true -> texts_utf8 j = true.
Proof.
  induction j using json_induction; simpl; intros Hc; try reflexivity; try exact Hc.
  - rewrite forallb_forall in *. rewrite Forall_forall in H. auto.
  - apply andb_true_iff in Hc as [_ Hc].
    rewrite forallb_forall in *. rewrite Forall_forall in H.
    intros kv Hin. specialize (Hc kv Hin). apply andb_true_iff in Hc as [Hk Hv].
    rewrite Hk. simpl. now apply H.
Qed.

End JsonFailureFacts.

(** ** The policy document, saved and loaded *)
Section PolicyDocumentFacts.
Import StdString Json JsonText PolicyConfig PolicyConfigLoader PolicyRules PolicyDocument Scenario.

Lemma get_strings_map (l : list string) : get_strings (map JString l) = Some l.
Proof. induction l as [|x l IH]; simpl; [reflexivity|now rewrite IH]. Qed.

Lemma operation_round_trip (p : OperationPolicy) :
  no_commands p -> operation_of (operation_to_json p) = Some p.
Proof.
  intros [Ha Hb]. unfold operation_of, operation_to_json. cbn.
  rewrite get_strings_map. destruct p; simpl in *; subst. reflexivity.
Qed.

Lemma at_key_operations (c r u d : json) :
  let tool_data := object_of [("create", c); ("read", r); ("update", u); ("delete", d)] in
  at_key tool_data "create" = Some c /\ at_key tool_data "read" = Some r /\
  at_key tool_data "update" = Some u /\ at_key tool_data "delete" = Some d.
Proof. repeat split; reflexivity. Qed.

Lemma tool_round_trip (name : string) (tp : ToolPolicy) :
  tool_written_in_full (name, tp) -> tool_of name (tool_to_json name tp) = Some tp.
Proof.
  intros [Hr [Hu [Hd Hc]]]. simpl in *.
  unfold tool_of, tool_to_json. cbv zeta.
  match goal with
  | |- context [object_of [("create", ?c); ("read", ?r); ("update", ?u); ("delete", ?d)]] =>
      destruct (at_key_operations c r u d) as [E1 [E2 [E3 E4]]]
  end.
  cbv zeta in E1, E2, E3, E4. rewrite E1, E2, E3, E4.
  rewrite (operation_round_trip _ Hr), (operation_round_trip _ Hu), (operation_round_trip _ Hd).
  destruct tp as [[dirs conf ac bc] r u d]. simpl in *.
  destruct (String.eqb_spec name "bash_tool") as [->|Hname].
  - destruct ac as [|a ac], bc as [|b bc]; cbn;
      rewrite ?get_strings_map; cbn; rewrite ?get_strings_map; reflexivity.
  - destruct (Hc Hname) as [Ha Hb]. simpl in Ha, Hb. subst. cbn.
    rewrite get_strings_map. reflexivity.
Qed.

Lemma tools_of_sorted (m : list (string * ToolPolicy)) :
  forall acc,
  sorted_keys (map fst (acc ++ m)%list) = true ->
  (forall entry, In entry m -> tool_written_in_full entry) ->
  tools_of (map tool_entry m) acc = Some (acc ++ m)%list.
Proof.
  induction m as [|[k tp] m IH]; intros acc Hs Hw; simpl.
  - now rewrite List.app_nil_r.
  - rewrite (tool_round_trip k tp (Hw _ (or_introl eq_refl))).
    rewrite insert_last.
    + rewrite IH; rewrite <- ?List.app_assoc; [reflexivity|exact Hs|].
      intros entry Hin. apply Hw. now right.
    + intros kv Hin. rewrite map_app in Hs. simpl in Hs.
      apply (sorted_keys_before _ _ _ Hs). now apply in_map.
Qed.

Lemma object_of_sorted (l : list (string * json)) :
  sorted_keys (map fst l) = true -> object_of l = JObject l.
Proof. intros H. unfold object_of. now rewrite (fold_insert_sorted l [] H). Qed.

Lemma tool_entries_keys (m : list (string * ToolPolicy)) :
  map fst (map tool_entry m) = map fst m.
Proof. rewrite map_map. reflexivity. Qed.

Lemma settings_to_json_shape (s : PolicySettings) :
  sorted_keys (map fst (tools s)) = true ->
  settings_to_json s =
  JObject
    [("global", JObject
        [("auto_backup", JBool (auto_backup (global s)));
         ("blocked_extensions", JArray (map JString (blocked_extensions (global s))));
         ("max_file_size_mb", JUnsigned (max_file_size_mb (global s)))]);
     ("tools", JObject (map tool_entry (tools s)));
     ("version", JString "1.0")].
Proof.
  intros Hs. unfold settings_to_json.
  change (map (fun kv => (fst kv, tool_to_json (fst kv) (snd kv))) (tools s))
    with (map tool_entry (tools s)).
  rewrite (object_of_sorted (map tool_entry (tools s)))
    by (now rewrite tool_entries_keys).
  reflexivity.
Qed.

Lemma json_to_settings_round_trip (s : PolicySettings) :
  written_in_full s -> json_to_settings (settings_to_json s) = Some s.
Proof.
  intros [Hs Hw]. rewrite (settings_to_json_shape s Hs).
  unfold json_to_settings. cbn. rewrite get_strings_map.
  rewrite (tools_of_sorted (tools s) [] Hs Hw). destruct s as [[exts n b] ts]. reflexivity.
Qed.

Lemma canonical_dumpable (j : json) : canonical j = true -> dumpable j = true.
Proof.
  induction j using json_induction; simpl; intros Hc; try exact Hc.
  - apply andb_true_iff in Hc as [H1 H2]. apply Z.leb_le in H1. apply Z.ltb_lt in H2.
    apply andb_true_iff. split; [apply Z.leb_le|apply Z.leb_le]; lia.
  - rewrite forallb_forall in *. rewrite Forall_forall in H. auto.
  - apply andb_true_iff in Hc as [Hs Hc]. rewrite Hs. simpl.
    rewrite forallb_forall in *. rewrite Forall_forall in H.
    intros kv Hin. specialize (Hc kv Hin). apply andb_true_iff in Hc as [Hk Hv].
    rewrite Hk. simpl. now apply H.
Qed.

Lemma reread_canonical (j : json) : canonical j = true -> reread j = j.
Proof.
  induction j using json_induction; simpl; intros Hc; try reflexivity.
  - apply andb_true_iff in Hc as [_ H2]. apply Z.ltb_lt in H2.
    destruct (Z.leb_spec 0 z); [lia|reflexivity].
  - f_equal. rewrite forallb_forall in Hc. rewrite Forall_forall in H.
    rewrite <- (map_id l) at 2. apply map_ext_in. auto.
  - f_equal. apply andb_true_iff in Hc as [_ Hc].
    rewrite forallb_forall in Hc. rewrite Forall_forall in H.
    rewrite <- (map_id m) at 2. apply map_ext_in.
    intros [k v] Hin. specialize (Hc _ Hin). apply andb_true_iff in Hc as [_ Hv].
    simpl. f_equal. now apply (H (k, v)).
Qed.

Lemma canonical_strings (l : list string) :
  forallb canonical (map JString l) = forallb is_utf8 l.
Proof. induction l as [|x l IH]; simpl; [reflexivity|now rewrite IH]. Qed.

Lemma canonical_operation (p : OperationPolicy) :
  utf8_operation p -> canonical (operation_to_json p) = true.
Proof.
  intros [Hd _]. unfold operation_to_json.
  change (canonical (JObject [("allowed_directories", JArray (map JString (allowed_directories p)));
                              ("confirmation_required", JBool (confirmation_required p))]) = true).
  cbn [canonical map fst snd sorted_keys forallb]. simpl String.compare.
  cbn [andb]. change (is_utf8 "allowed_directories") with true.
  change (is_utf8 "confirmation_required") with true. cbn [andb].
  unfold utf8_list in Hd. rewrite canonical_strings, Hd. reflexivity.
Qed.

Lemma canonical_tool (name : string) (tp : ToolPolicy) :
  utf8_operation (create tp) -> utf8_operation (read tp) ->
  utf8_operation (update tp) -> utf8_operation (delete_op tp) ->
  canonical (tool_to_json name tp) = true.
Proof.
  intros [Hc1 [Hc2 Hc3]] Hr Hu Hd. unfold tool_to_json, utf8_list in *.
  generalize (operation_to_json (read tp)) (canonical_operation _ Hr).
  generalize (operation_to_json (update tp)) (canonical_operation _ Hu).
  generalize (operation_to_json (delete_op tp)) (canonical_operation _ Hd).
  intros jd Hjd ju Hju jr Hjr.
  destruct (String.eqb name "bash_tool");
    destruct (Nat.eqb (List.length (allowed_commands (create tp))) 0);
    destruct (Nat.eqb (List.length (blocked_commands (create tp))) 0);
    cbn; rewrite ?canonical_strings, ?Hc1, ?Hc2, ?Hc3, ?Hjd, ?Hju, ?Hjr; reflexivity.
Qed.

Lemma validate_tool_entry (name : string) (tp : ToolPolicy) :
  is_object (tool_to_json name tp) = true /\
  validate_tool_ops name (tool_to_json name tp) ["create"; "read"; "update"; "delete"] = Valid.
Proof.
  unfold tool_to_json, operation_to_json.
  destruct (String.eqb name "bash_tool");
    destruct (Nat.eqb (List.length (allowed_commands (create tp))) 0);
    destruct (Nat.eqb (List.length (blocked_commands (create tp))) 0);
    split; reflexivity.
Qed.

Lemma validate_tool_entries (m : list (string * ToolPolicy)) :
  validate_tool_items (map tool_entry m) = Valid.
Proof.
  induction m as [|[name tp] m IH]; [reflexivity|].
  cbn [map tool_entry fst snd validate_tool_items].
  destruct (validate_tool_entry name tp) as [-> ->]. exact IH.
Qed.

Lemma settings_schema_valid (s : PolicySettings) :
  sorted_keys (map fst (tools s)) = true ->
  validate_json_schema (settings_to_json s) = Valid.
Proof.
  intros Hs. rewrite (settings_to_json_shape s Hs).
  unfold validate_json_schema. cbn. apply validate_tool_entries.
Qed.

Lemma canonical_settings (s : PolicySettings) :
  sorted_keys (map fst (tools s)) = true -> utf8_settings s ->
  (max_file_size_mb (global s) <= 18446744073709551615)%N ->
  canonical (settings_to_json s) = true.
Proof.
  intros Hs [Hexts Htools] Hmax. rewrite (settings_to_json_shape s Hs).
  apply N.leb_le in Hmax. unfold utf8_list in Hexts.
  cbn. rewrite canonical_strings, Hexts, Hmax, tool_entries_keys, Hs. cbn.
  rewrite andb_true_r. apply forallb_forall. intros kv Hin.
  apply in_map_iff in Hin as [[name tp] [<- Hin]].
  destruct (Htools _ Hin) as [Hk [Hc [Hr [Hu Hd]]]]. simpl in *.
  rewrite Hk. simpl. now apply canonical_tool.
Qed.

(** X23: [save] and the loader fit together.  Settings that pass
    [validate], whose strings are UTF-8, are written when the file can be
    opened and the write succeeds, and [parse_config] reads from the
    written file the settings that were saved, when the document holds
    them in full.  Settings that do not pass [validate] leave the file
    as it was.  When a string the document would hold is not UTF-8, the
    file has already been opened: [save] fails and leaves an empty file,
    which the loader refuses. *)
Theorem saved_policy_is_loaded (m : Medium) (before : PolicyFile) (s : PolicySettings) :
  sorted_keys (map fst (tools s)) = true ->
  (validate s = Valid -> opens m = true -> write_failure m = None ->
   utf8_settings s ->
   exists text,
     save m before s = (None, Holds text) /\
     (written_in_full s -> parse_config (Holds text) = inr s)) /\
  (forall message, validate s = Invalid message ->
     save m before s = (Some (Invalid_settings message), before)) /\
  (validate s = Valid -> opens m = false ->
     save m before s = (Some Could_not_open_for_writing, before)) /\
  (validate s = Valid -> opens m = true ->
   texts_utf8 (settings_to_json s) = false ->
     save m before s = (Some Serialization_error, Holds EmptyString) /\
     parse_config (Holds EmptyString) = inl Json_parse_error).
Proof.
  intros Hs. split; [|split; [|split]].
  - intros Hv Ho Hw Hu.
    assert (Hmax : (max_file_size_mb (global s) <= 18446744073709551615)%N).
    { apply validate_spec in Hv. destruct Hv as [_ [[_ Hhi] _]]. lia. }
    pose proof (canonical_settings s Hs Hu Hmax) as Hc.
    destruct (dump_indent_layout _ (canonical_dumpable _ Hc) 2 0) as [text [Hd L]].
    rewrite (reread_canonical _ Hc) in L.
    exists (text ++ line_feed). unfold save. rewrite Hv, Ho, Hd, Hw. split; [reflexivity|].
    intros Hfull. unfold parse_config.
    rewrite (proj2 (parse_layout _ text line_feed L eq_refl)).
    rewrite (settings_schema_valid s Hs), (json_to_settings_round_trip s Hfull), Hv.
    reflexivity.
  - intros message Hv. unfold save. now rewrite Hv.
  - intros Hv Ho. unfold save. now rewrite Hv, Ho.
  - intros Hv Ho Hu. unfold save.
    rewrite Hv, Ho, (dump_indent_none 2 _ Hu 0). split; reflexivity.
Qed.

End PolicyDocumentFacts.

Section PolicyDocumentExamples.
Import StdString Json JsonText PolicyConfig PolicyConfigLoader PolicyDocument.

Lemma saved_policy_is_loaded_witness :
  exists text,
    save {| opens := true; write_failure := None |} Missing default_settings
    = (None, Holds text) /\
    parse_config (Holds text) = inr default_settings.
Proof.
  assert (Hutf8 : utf8_settings default_settings).
  { split; [reflexivity|]. intros entry Hin. simpl in Hin.
    repeat (destruct Hin as [<-|Hin]; [repeat split; reflexivity|]). destruct Hin. }
  assert (Hfull : written_in_full default_settings).
  { split; [reflexivity|]. intros entry Hin. simpl in Hin.
    repeat (destruct Hin as [<-|Hin];
            [split; [split; reflexivity|];
             split; [split; reflexivity|];
             split; [split; reflexivity|];
             intros H; first [now elim H|split; reflexivity]|]).
    destruct Hin. }
  destruct (proj1 (saved_policy_is_loaded {| opens := true; write_failure := None |} Missing
                     default_settings eq_refl) eq_refl eq_refl eq_refl Hutf8)
    as [text [Hsave Hload]].
  exists text. split; [exact Hsave|exact (Hload Hfull)].
Defined.

End PolicyDocumentExamples.

(** ** How loading the policy file ends *)
Section PolicyLoadingOutcome.
Import StdString Json JsonText PolicyConfig PolicyConfigLoader Scenario.




End PolicyLoadingOutcome.

(** ** Results, commands and contexts on the wire *)
Section WireFacts.
Import StdString Json JsonText MessageHandler.

Lemma dry_run_result_json (r : DryRunResult.t) :
  DryRunResult.to_json r
  = JObject [("description", JString (DryRunResult.description r));
             ("error_message", JString (DryRunResult.error_message r));
             ("success", JBool (DryRunResult.success r))].
Proof. reflexivity. Qed.

Lemma bash_command_json (c : BashCommand.t) :
  BashCommand.to_json c
  = JObject [("bash_command", JString (BashCommand.bash_command c));
             ("command", JString (BashCommand.command c));
             ("description", JString (BashCommand.description c));
             ("request_execution", JBool (BashCommand.request_execution c));
             ("working_directory", JString (BashCommand.working_directory c))].
Proof. reflexivity. Qed.

(** X24: a dry-run result and a bash command come back from the wire as
    they were sent, field by field, when their strings are UTF-8; when one
    of the strings is not, serialization throws and nothing is sent. *)
Theorem results_and_commands_on_the_wire :
  (forall r : DryRunResult.t,
     (is_utf8 (DryRunResult.description r) = true ->
      is_utf8 (DryRunResult.error_message r) = true ->
      exists json_str,
        serialize_dry_run_result r = Some json_str /\
        deserialize_dry_run_result json_str = Some r) /\
     (is_utf8 (DryRunResult.description r) = false \/
      is_utf8 (DryRunResult.error_message r) = false ->
      serialize_dry_run_result r = None)) /\
  (forall c : BashCommand.t,
     (is_utf8 (BashCommand.command c) = true ->
      is_utf8 (BashCommand.bash_command c) = true ->
      is_utf8 (BashCommand.working_directory c) = true ->
      is_utf8 (BashCommand.description c) = true ->
      exists json_str,
        serialize_bash_command c = Some json_str /\
        deserialize_bash_command json_str = Some c) /\
     (is_utf8 (BashCommand.command c) = false \/
      is_utf8 (BashCommand.bash_command c) = false \/
      is_utf8 (BashCommand.working_directory c) = false \/
      is_utf8 (BashCommand.description c) = false ->
      serialize_bash_command c = None)).
Proof.
  split.
  - intros r. unfold serialize_dry_run_result, deserialize_dry_run_result.
    rewrite dry_run_result_json. split.
    + intros U1 U2.
      match goal with |- context [dump ?j] =>
        destruct (parse_dump j) as [text [Hd Hp]];
          [cbn; now rewrite U1, U2|]
      end.
      exists text. split; [exact Hd|]. rewrite Hp. now destruct r.
    + intros H. apply dump_none. cbn.
      destruct H as [-> | ->]; [reflexivity|].
      now destruct (is_utf8 (DryRunResult.description r)).
  - intros c. unfold serialize_bash_command, deserialize_bash_command.
    rewrite bash_command_json. split.
    + intros U1 U2 U3 U4.
      match goal with |- context [dump ?j] =>
        destruct (parse_dump j) as [text [Hd Hp]];
          [cbn; now rewrite U1, U2, U3, U4|]
      end.
      exists text. split; [exact Hd|]. rewrite Hp. now destruct c.
    + intros H. apply dump_none. cbn.
      destruct H as [-> | [-> | [-> | ->]]];
        destruct (is_utf8 (BashCommand.bash_command c));
        destruct (is_utf8 (BashCommand.command c));
        destruct (is_utf8 (BashCommand.description c));
        destruct (is_utf8 (BashCommand.working_directory c)); reflexivity.
Qed.

Lemma wrap_in_range (bits z : Z) :
  (0 < bits)%Z -> (- 2 ^ (bits - 1) <= z < 2 ^ (bits - 1))%Z -> wrap bits z = z.
Proof.
  intros Hb Hz. unfold wrap.
  assert (E : (2 ^ bits = 2 * 2 ^ (bits - 1))%Z).
  { replace bits with (Z.succ (bits - 1)) at 1 by lia. apply Z.pow_succ_r. lia. }
  rewrite Z.mod_small; lia.
Qed.

Lemma get_integer_reread (bits z : Z) :
  get_integer bits (reread (JInteger z)) = Returns (wrap bits z).
Proof.
  cbn [reread]. destruct (Z.leb_spec 0 z); cbn [get_integer]; [|reflexivity].
  now rewrite Z2N.id.
Qed.

Lemma execution_context_json (c : ExecutionContext.t) :
  ExecutionContext.to_json c
  = JObject [("command_output", JString (ExecutionContext.command_output c));
             ("command_stderr", JString (ExecutionContext.command_stderr c));
             ("exit_code", JInteger (ExecutionContext.exit_code c));
             ("timestamp_ms", JInteger (Z.quot (ExecutionContext.timestamp c) 1000000));
             ("working_directory_after",
              JString (ExecutionContext.working_directory_after c));
             ("working_directory_before",
              JString (ExecutionContext.working_directory_before c))].
Proof. reflexivity. Qed.

(** X25: an execution context comes back from the wire with its four
    strings and its exit code as they were, and with its time stamp cut
    down to the millisecond, toward the epoch; its strings are to be
    UTF-8, otherwise serialization throws. *)
Theorem execution_context_on_the_wire (c : ExecutionContext.t) :
  (-2147483648 <= ExecutionContext.exit_code c <= 2147483647)%Z ->
  (-9223372036854775808 <= ExecutionContext.timestamp c <= 9223372036854775807)%Z ->
  (is_utf8 (ExecutionContext.working_directory_before c) = true ->
   is_utf8 (ExecutionContext.working_directory_after c) = true ->
   is_utf8 (ExecutionContext.command_output c) = true ->
   is_utf8 (ExecutionContext.command_stderr c) = true ->
   exists json_str,
     serialize_execution_context c = Some json_str /\
     deserialize_execution_context json_str
     = Returns
         {| ExecutionContext.working_directory_before :=
              ExecutionContext.working_directory_before c;
            ExecutionContext.working_directory_after :=
              ExecutionContext.working_directory_after c;
            ExecutionContext.command_output := ExecutionContext.command_output c;
            ExecutionContext.command_stderr := ExecutionContext.command_stderr c;
            ExecutionContext.exit_code := ExecutionContext.exit_code c;
            ExecutionContext.timestamp :=
              (Z.quot (ExecutionContext.timestamp c) 1000000 * 1000000)%Z |}) /\
  (is_utf8 (ExecutionContext.working_directory_before c) = false \/
   is_utf8 (ExecutionContext.working_directory_after c) = false \/
   is_utf8 (ExecutionContext.command_output c) = false \/
   is_utf8 (ExecutionContext.command_stderr c) = false ->
   serialize_execution_context c = None).
Proof.
  intros Hcode Htime.
  unfold serialize_execution_context, deserialize_execution_context.
  rewrite execution_context_json. split.
  - intros U1 U2 U3 U4.
    assert (Hq : (-9223372036854775808
                  <= Z.quot (ExecutionContext.timestamp c) 1000000 * 1000000
                  <= 9223372036854775807)%Z).
    { pose proof (Z.quot_rem' (ExecutionContext.timestamp c) 1000000) as Hqr.
      destruct (Z_le_gt_dec 0 (ExecutionContext.timestamp c)) as [Hpos|Hneg].
      - pose proof (Z.rem_bound_pos (ExecutionContext.timestamp c) 1000000 Hpos). lia.
      - pose proof (Z.rem_bound_pos_neg (ExecutionContext.timestamp c) 1000000). lia. }
    match goal with |- context [dump ?j] =>
      destruct (parse_dump j) as [text [Hd Hp]]
    end.
    { cbn [dumpable map fst snd sorted_keys forallb]. rewrite U1, U2, U3, U4.
      destruct (Z.leb_spec (-9223372036854775808) (ExecutionContext.exit_code c)); [|lia].
      destruct (Z.leb_spec (ExecutionContext.exit_code c) 9223372036854775807); [|lia].
      destruct (Z.leb_spec (-9223372036854775808)
                  (Z.quot (ExecutionContext.timestamp c) 1000000)); [|lia].
      destruct (Z.leb_spec (Z.quot (ExecutionContext.timestamp c) 1000000)
                  9223372036854775807); [|lia].
      reflexivity. }
    exists text. split; [exact Hd|]. rewrite Hp.
    cbn [reread map fst snd].
    unfold ExecutionContext.from_json, ExecutionContext.optional_string,
      ExecutionContext.optional_integer.
    cbn [contains_key at_key StdMap.find String.eqb Ascii.eqb Bool.eqb bind].
    change (if Z.leb 0 (ExecutionContext.exit_code c)
            then JUnsigned (Z.to_N (ExecutionContext.exit_code c))
            else JInteger (ExecutionContext.exit_code c))
      with (reread (JInteger (ExecutionContext.exit_code c))).
    change (if Z.leb 0 (Z.quot (ExecutionContext.timestamp c) 1000000)
            then JUnsigned (Z.to_N (Z.quot (ExecutionContext.timestamp c) 1000000))
            else JInteger (Z.quot (ExecutionContext.timestamp c) 1000000))
      with (reread (JInteger (Z.quot (ExecutionContext.timestamp c) 1000000))).
    rewrite !get_integer_reread, !wrap_in_range by lia.
    cbn [bind]. unfold ExecutionContext.of_milliseconds.
    destruct (Z.leb_spec (-9223372036854775808)
                (Z.quot (ExecutionContext.timestamp c) 1000000 * 1000000)); [|lia].
    destruct (Z.leb_spec (Z.quot (ExecutionContext.timestamp c) 1000000 * 1000000)
                9223372036854775807); [|lia].
    reflexivity.
  - intros H. apply dump_none. cbn.
    destruct H as [-> | [-> | [-> | ->]]];
      destruct (is_utf8 (ExecutionContext.working_directory_before c));
      destruct (is_utf8 (ExecutionContext.working_directory_after c));
      destruct (is_utf8 (ExecutionContext.command_output c));
      destruct (is_utf8 (ExecutionContext.command_stderr c)); reflexivity.
Qed.

End WireFacts.

(** ** A bash command from the coordinator to the service and back *)
Section BashWireFacts.
Import StdString Json JsonText BashToolService BashWire.
Variable what : Raised -> string.

Lemma request_of_json (cwd : string) (cmd : BashCommand.t) :
  request_of cwd cmd
  = JObject [("command", JString (BashCommand.bash_command cmd));
             ("operation", JString "execute");
             ("working_directory",
              JString (if String.eqb (BashCommand.working_directory cmd) EmptyString
                       then cwd else BashCommand.working_directory cmd))].
Proof. reflexivity. Qed.

Lemma response_of_json (r : CommandResult.t) :
  response_of r
  = JObject [("execution_duration_ms", JInteger (CommandResult.execution_duration r));
             ("exit_code", JInteger (CommandResult.exit_code r));
             ("stderr_output", JString (CommandResult.stderr_output r));
             ("stdout_output", JString (CommandResult.stdout_output r));
             ("success", JBool (CommandResult.success r));
             ("working_directory_after", JString (CommandResult.pwd_after_execution r));
             ("working_directory_before", JString (CommandResult.working_directory r))].
Proof. reflexivity. Qed.

Lemma wire_text (j : json) :
  canonical j = true -> exists text, dump j = Some text /\ parse text = Some j.
Proof.
  intros Hc. destruct (parse_dump j (canonical_dumpable j Hc)) as [text [Hd Hp]].
  rewrite (reread_canonical j Hc) in Hp. now exists text.
Qed.

Lemma reportable_response (r : CommandResult.t) :
  Wire.reportable r -> dumpable (response_of r) = true.
Proof.
  intros [U1 [U2 [U3 [U4 [Hc Hd]]]]]. rewrite response_of_json.
  cbn [dumpable map fst snd sorted_keys forallb]. rewrite U1, U2, U3, U4.
  destruct (Z.leb_spec (-9223372036854775808) (CommandResult.exit_code r)); [|lia].
  destruct (Z.leb_spec (CommandResult.exit_code r) 9223372036854775807); [|lia].
  destruct (Z.leb_spec (-9223372036854775808) (CommandResult.execution_duration r)); [|lia].
  destruct (Z.leb_spec (CommandResult.execution_duration r) 9223372036854775807); [|lia].
  reflexivity.
Qed.

Lemma result_of_response (cmd : BashCommand.t) (r : CommandResult.t) :
  Wire.reportable r ->
  exists result,
    result_of what cmd (reread (response_of r)) = Returns result /\
    Wire.told (BashCommand.bash_command cmd) r result.
Proof.
  intros [_ [_ [_ [_ [Hc _]]]]]. rewrite response_of_json.
  cbn [reread map fst snd]. unfold result_of, value_int, value_string, value_bool.
  cbn [contains_key StdMap.find String.eqb Ascii.eqb Bool.eqb].
  change (if Z.leb 0 (CommandResult.exit_code r)
          then JUnsigned (Z.to_N (CommandResult.exit_code r))
          else JInteger (CommandResult.exit_code r))
    with (reread (JInteger (CommandResult.exit_code r))).
  rewrite get_integer_reread, wrap_in_range by lia.
  eexists. split; [reflexivity|]. repeat split.
Qed.

Lemma serve_execute (service : BashToolService.t) (p : BashTool.Platform)
    (cwd request : string) (cmd : BashCommand.t) :
  let ran := BashTool.execute_command (bash_tool_ service) p
               (BashCommand.bash_command cmd) (Wire.named_directory cwd cmd) in
  parse request = Some (request_of cwd cmd) ->
  handle_request what service p request
  = Returns
      {| service_after :=
           if String.eqb (CommandResult.pwd_after_execution (fst ran)) EmptyString
           then service
           else with_directory service (CommandResult.pwd_after_execution (fst ran));
         shell_lines := snd ran;
         reply :=
           match dump (response_of (fst ran)) with
           | Some text => inr text
           | None =>
               match create_error_response what
                       ("Command execution error: "
                        ++ what (Type_error_316 (response_of (fst ran)))) with
               | inr text => inr text
               | inl e => create_error_response what ("Request handling error: " ++ e)
               end
           end |}.
Proof.
  intros ran Hparse. unfold handle_request. rewrite Hparse, request_of_json.
  unfold operation_of. cbn [StdMap.find String.eqb Ascii.eqb Bool.eqb].
  unfold to_string_or_raise at 1. cbn [String.eqb Ascii.eqb Bool.eqb].
  unfold handle_execute_command. cbn [StdMap.find String.eqb Ascii.eqb Bool.eqb empty].
  unfold to_string_or_raise.
  fold (Wire.named_directory cwd cmd). fold ran.
  destruct ran as [result lines]. cbn [fst snd]. unfold dump_or_raise.
  destruct (dump (response_of result)) as [text|]; cbn [reply service_after shell_lines].
  - reflexivity.
  - destruct (create_error_response what _) as [e|text]; reflexivity.
Qed.

Lemma request_text (cwd : string) (cmd : BashCommand.t) :
  is_utf8 (BashCommand.bash_command cmd) = true ->
  is_utf8 (Wire.named_directory cwd cmd) = true ->
  exists request,
    dump (request_of cwd cmd) = Some request /\ parse request = Some (request_of cwd cmd).
Proof.
  intros U1 U2. apply wire_text. rewrite request_of_json.
  fold (Wire.named_directory cwd cmd). cbn. now rewrite U1, U2.
Qed.

(** X26: a bash command goes from the coordinator through the service
    to the shell and its result comes back.  The service executes the
    command in the directory the coordinator names, which is the
    coordinator's own current directory when the command names none: the
    directory the service keeps from earlier commands is not used.  The
    coordinator's result has the exit code, the output, the directories
    and the success flag of the service's result; the error message of
    the service's result, where the safety net gives its reason for
    refusing a command, is not sent.  The strings are to be UTF-8. *)
Theorem bash_command_over_the_wire (service : BashToolService.t) (p : BashTool.Platform)
    (exchange : string -> Exchange) (cwd : string) (cmd : BashCommand.t) :
  let ran := BashTool.execute_command (bash_tool_ service) p
               (BashCommand.bash_command cmd) (Wire.named_directory cwd cmd) in
  is_utf8 (BashCommand.bash_command cmd) = true ->
  is_utf8 (Wire.named_directory cwd cmd) = true ->
  Wire.reportable (fst ran) ->
  Wire.connected what service p exchange ->
  (exists result,
     request_bash_execution what (Some exchange) cwd cmd = Returns result /\
     Wire.told (BashCommand.bash_command cmd) (fst ran) result) /\
  exists request response,
    dump (request_of cwd cmd) = Some request /\
    serve what service p request
    = Returns
        (if String.eqb (CommandResult.pwd_after_execution (fst ran)) EmptyString
         then service
         else with_directory service (CommandResult.pwd_after_execution (fst ran)),
         snd ran, response).
Proof.
  intros ran U1 U2 Hrep Hconn.
  destruct (request_text cwd cmd U1 U2) as [request [Hd Hp]].
  destruct (parse_dump _ (reportable_response _ Hrep)) as [response [Hrd Hrp]].
  pose proof (serve_execute service p cwd request cmd Hp) as Hserve.
  cbv zeta in Hserve. fold ran in Hserve. rewrite Hrd in Hserve.
  assert (Hs : serve what service p request
               = Returns
                   (if String.eqb (CommandResult.pwd_after_execution (fst ran)) EmptyString
                    then service
                    else with_directory service (CommandResult.pwd_after_execution (fst ran)),
                    snd ran, response)).
  { unfold serve. rewrite Hserve. reflexivity. }
  split.
  - unfold request_bash_execution. rewrite Hd, (Hconn _ _ _ _ Hs), Hrp.
    now apply result_of_response.
  - now exists request, response.
Qed.

Lemma error_response_text (message : string) :
  is_utf8 message = true ->
  exists response,
    create_error_response what message = inr response /\
    parse response = Some (JObject [("error_message", JString message);
                                    ("success", JBool false)]).
Proof.
  intros U.
  destruct (wire_text (JObject [("error_message", JString message);
                                ("success", JBool false)])) as [response [Hd Hp]].
  { cbn. now rewrite U. }
  exists response. split; [|exact Hp].
  unfold create_error_response, dump_or_raise.
  change (object_of [("success", JBool false); ("error_message", JString message)])
    with (JObject [("error_message", JString message); ("success", JBool false)]).
  now rewrite Hd.
Qed.

(** X27: when the output of a command is not UTF-8, the service cannot
    write its response; it has run the command, and keeps the directory
    the command ended in, but what it sends is an error response.  The
    coordinator then holds a failed result: exit code -1, no output, and
    the text of the exception as the error output, whatever the exit
    status of the command was. *)
Theorem unreadable_output_is_reported_as_failure (service : BashToolService.t)
    (p : BashTool.Platform) (exchange : string -> Exchange) (cwd : string)
    (cmd : BashCommand.t) :
  let ran := BashTool.execute_command (bash_tool_ service) p
               (BashCommand.bash_command cmd) (Wire.named_directory cwd cmd) in
  let message := "Command execution error: "
                 ++ what (Type_error_316 (response_of (fst ran))) in
  is_utf8 (BashCommand.bash_command cmd) = true ->
  is_utf8 (Wire.named_directory cwd cmd) = true ->
  is_utf8 (CommandResult.stdout_output (fst ran)) = false ->
  is_utf8 (what (Type_error_316 (response_of (fst ran)))) = true ->
  Wire.connected what service p exchange ->
  (exists result,
     request_bash_execution what (Some exchange) cwd cmd = Returns result /\
     Wire.failed_with (BashCommand.bash_command cmd) message result) /\
  exists request response,
    dump (request_of cwd cmd) = Some request /\
    serve what service p request
    = Returns
        (if String.eqb (CommandResult.pwd_after_execution (fst ran)) EmptyString
         then service
         else with_directory service (CommandResult.pwd_after_execution (fst ran)),
         snd ran, response).
Proof.
  intros ran message U1 U2 Hout Hwhat Hconn.
  destruct (request_text cwd cmd U1 U2) as [request [Hd Hp]].
  assert (Hnone : dump (response_of (fst ran)) = None).
  { apply dump_none. rewrite response_of_json. cbn. rewrite Hout.
    destruct (is_utf8 (CommandResult.stderr_output (fst ran))); reflexivity. }
  destruct (error_response_text message) as [response [Hr Hrp]].
  { unfold message. cbn. exact Hwhat. }
  pose proof (serve_execute service p cwd request cmd Hp) as Hserve.
  cbv zeta in Hserve. fold ran in Hserve. rewrite Hnone in Hserve.
  fold message in Hserve. rewrite Hr in Hserve.
  assert (Hs : serve what service p request
               = Returns
                   (if String.eqb (CommandResult.pwd_after_execution (fst ran)) EmptyString
                    then service
                    else with_directory service (CommandResult.pwd_after_execution (fst ran)),
                    snd ran, response)).
  { unfold serve. rewrite Hserve. reflexivity. }
  split.
  - unfold request_bash_execution. rewrite Hd, (Hconn _ _ _ _ Hs), Hrp.
    eexists. split; [reflexivity|]. repeat split.
  - now exists request, response.
Qed.

End BashWireFacts.


Section WireExamples.
Import StdString Json JsonText MessageHandler BashToolService BashWire.

Lemma socket_to_connected (what : Raised -> string) (service : BashToolService.t)
    (p : BashTool.Platform) :
  Wire.connected what service p (Wire.socket_to what service p).
Proof.
  intros request after lines response H. unfold Wire.socket_to. now rewrite H.
Qed.

Lemma execution_context_on_the_wire_witness :
  exists json_str,
    serialize_execution_context Wire.stamped = Some json_str /\
    deserialize_execution_context json_str
    = Returns
        {| ExecutionContext.working_directory_before := "/home/user/project";
           ExecutionContext.working_directory_after := "/home/user/project";
           ExecutionContext.command_output := EmptyString;
           ExecutionContext.command_stderr := "ls: cannot access";
           ExecutionContext.exit_code := 2;
           ExecutionContext.timestamp := 1700000000123000000 |}.
Proof.
  apply (execution_context_on_the_wire Wire.stamped); try reflexivity;
    vm_compute; split; discriminate.
Defined.

Lemma bash_command_over_the_wire_witness :
  exists result,
    request_bash_execution Wire.terse
      (Some (Wire.socket_to Wire.terse (BashToolService.init Scenario.platform)
               Scenario.platform))
      "/somewhere/else" Wire.listing
    = Returns result /\
    Wire.told "ls"
      (fst (BashTool.execute_command BashTool.init Scenario.platform "ls" "/somewhere/else"))
      result.
Proof.
  apply (bash_command_over_the_wire Wire.terse (BashToolService.init Scenario.platform)
           Scenario.platform
           (Wire.socket_to Wire.terse (BashToolService.init Scenario.platform)
              Scenario.platform)
           "/somewhere/else" Wire.listing).
  - reflexivity.
  - reflexivity.
  - vm_compute. repeat split; discriminate.
  - apply socket_to_connected.
Defined.

Lemma unreadable_output_is_reported_as_failure_witness :
  exists result,
    request_bash_execution Wire.terse
      (Some (Wire.socket_to Wire.terse (BashToolService.init Wire.binary_platform)
               Wire.binary_platform))
      "/home/user/project" Wire.listing
    = Returns result /\
    Wire.failed_with "ls" "Command execution error: json.exception" result.
Proof.
  apply (unreadable_output_is_reported_as_failure Wire.terse
           (BashToolService.init Wire.binary_platform) Wire.binary_platform
           (Wire.socket_to Wire.terse (BashToolService.init Wire.binary_platform)
              Wire.binary_platform)
           "/home/user/project" Wire.listing).
  - reflexivity.
  - reflexivity.
  - reflexivity.
  - reflexivity.
  - apply socket_to_connected.
Defined.

End WireExamples.

(** ** The requests of the bash tool service *)
Section ServiceFacts.
Import StdString Json JsonText BashToolService BashWire.
Variable what : Raised -> string.





Lemma handle_request_outcome (service : BashToolService.t) (p : BashTool.Platform)
    (request : string) :
  match handle_request what service p request with
  | Returns h =>
      ~ (Wire.lacks request "execute" "command" \/
         Wire.lacks request "set_pwd" "working_directory") /\
      (shell_lines h <> [] -> Wire.asks request "execute") /\
      (service_after h <> service ->
       Wire.asks request "execute" \/ Wire.asks request "set_pwd") /\
      bash_tool_ (service_after h) = bash_tool_ service
  | Undefined =>
      Wire.lacks request "execute" "command" \/
      Wire.lacks request "set_pwd" "working_directory"
  | _ => False
  end.
Proof.
  assert (Refute : forall j,
            parse request = Some j ->
            (forall m operation key,
               j = JObject m ->
               StdMap.find "operation" m = Some (JString operation) ->
               StdMap.find key m = None ->
               ~ ((operation = "execute" /\ key = "command") \/
                  (operation = "set_pwd" /\ key = "working_directory"))) ->
            ~ (Wire.lacks request "execute" "command" \/
               Wire.lacks request "set_pwd" "working_directory")).
  { intros j Hp H [[m [E [Ho Hk]]] | [m [E [Ho Hk]]]];
      rewrite Hp in E; injection E as ->; apply (H m _ _ eq_refl Ho Hk); tauto. }
  unfold handle_request. destruct (parse request) as [j|] eqn:Hp.
  2: { cbn [service_after shell_lines]. repeat split; try (intros H; now elim H).
       intros [[m [E _]] | [m [E _]]]; rewrite Hp in E; discriminate E. }
  specialize (Refute j eq_refl).
  destruct j as [| b | n | z | f | s | l | m];
    try (cbn [operation_of to_string_or_raise service_after shell_lines];
         repeat split; try (intros H; now elim H);
         apply Refute; intros; discriminate).
  unfold operation_of. destruct (StdMap.find "operation" m) as [v|] eqn:Ho.
  2: { cbn [to_string_or_raise service_after shell_lines].
       repeat split; try (intros H; now elim H).
       apply Refute. intros m' operation key E Ho' _. injection E as <-. congruence. }
  destruct v as [| b | n | z | f | operation | l | m'];
    try (cbn [to_string_or_raise service_after shell_lines];
         repeat split; try (intros H; now elim H);
         apply Refute; intros m'' operation' key E Ho' _; injection E as <-; congruence).
  cbn [to_string_or_raise].
  destruct (String.eqb operation "execute") eqn:E1.
  { apply String.eqb_eq in E1; subst operation. unfold handle_execute_command.
    destruct (StdMap.find "command" m) as [jc|] eqn:Hc.
    2: { left. exists m. auto. }
    assert (Hno : ~ (Wire.lacks request "execute" "command" \/
                     Wire.lacks request "set_pwd" "working_directory")).
    { apply Refute. intros m1 o k E Ho1 Hk. injection E as <-.
      intros [[_ ->] | [-> _]]; congruence. }
    assert (Hex : Wire.asks request "execute") by (exists m; auto).
    destruct (to_string_or_raise what jc) as [e|command].
    { cbn [reply]. destruct (create_error_response what _);
        cbn [reply service_after shell_lines]; repeat split; auto. }
    match goal with
    | |- context [match ?c with inl _ => _ | inr _ => _ end] => destruct c as [e|dir]
    end.
    { cbn [reply]. destruct (create_error_response what _);
        cbn [reply service_after shell_lines]; repeat split; auto. }
    destruct (BashTool.execute_command (bash_tool_ service) p command dir) as [result lines].
    destruct (dump_or_raise what (response_of result)) as [e|text];
      cbn [reply service_after shell_lines].
    2: { repeat split; auto. now destruct (String.eqb _ _). }
    destruct (create_error_response what _); cbn [reply service_after shell_lines];
      repeat split; auto; now destruct (String.eqb _ _). }
  apply String.eqb_neq in E1.
  destruct (String.eqb operation "get_pwd") eqn:E2.
  { apply String.eqb_eq in E2; subst operation.
    unfold handle_get_pwd. cbn [reply service_after shell_lines].
    destruct (dump_or_raise what _); cbn [reply service_after shell_lines];
      repeat split; try (intros H; now elim H);
      apply Refute; intros m1 o k E Ho1 Hk; injection E as <-;
      intros [[-> _] | [-> _]]; congruence. }
  destruct (String.eqb operation "set_pwd") eqn:E3.
  { apply String.eqb_eq in E3; subst operation. unfold handle_set_pwd.
    destruct (StdMap.find "working_directory" m) as [jw|] eqn:Hw.
    2: { right. exists m. auto. }
    assert (Hno : ~ (Wire.lacks request "execute" "command" \/
                     Wire.lacks request "set_pwd" "working_directory")).
    { apply Refute. intros m1 o k E Ho1 Hk. injection E as <-.
      intros [[-> _] | [_ ->]]; congruence. }
    assert (Hset : Wire.asks request "set_pwd") by (exists m; auto).
    destruct (to_string_or_raise what jw) as [e|new_directory].
    { cbn [reply]. destruct (create_error_response what _);
        cbn [reply service_after shell_lines]; repeat split; auto;
        intros H; now elim H. }
    destruct (dump_or_raise what _) as [e|text]; cbn [reply service_after shell_lines].
    2: { repeat split; auto. intros H; now elim H. }
    destruct (create_error_response what _); cbn [reply service_after shell_lines];
      repeat split; auto; intros H; now elim H. }
  cbn [reply service_after shell_lines].
  repeat split; try (intros H; now elim H).
  apply Refute. intros m1 o k E Ho1 Hk. injection E as <-.
  apply String.eqb_neq in E3. intros [[-> _] | [-> _]]; congruence.
Qed.

(** X29: what the service makes of any request text.  An execute
    request without a command and a set_pwd request without a directory
    are looked up through the subscript of a constant object, which is
    undefined behaviour: no response is written for them.  Every other
    text, JSON or not, is answered.  Only an execute request hands a
    command to the shell, only an execute or a set_pwd request changes
    the service, and no request changes its bash tool. *)
Theorem requests_without_an_answer (service : BashToolService.t)
    (p : BashTool.Platform) (request : string) :
  let unanswerable := Wire.lacks request "execute" "command" \/
                      Wire.lacks request "set_pwd" "working_directory" in
  (serve what service p request = Undefined <-> unanswerable) /\
  (~ unanswerable ->
   exists after lines response,
     serve what service p request = Returns (after, lines, response) /\
     (lines <> [] -> Wire.asks request "execute") /\
     (after <> service -> Wire.asks request "execute" \/ Wire.asks request "set_pwd") /\
     bash_tool_ after = bash_tool_ service).
Proof.
  intros unanswerable. unfold unanswerable.
  pose proof (handle_request_outcome service p request) as H. unfold serve.
  destruct (handle_request what service p request) as [h| | |].
  - destruct H as [Hno H]. split.
    + split; [discriminate|]. intros Hu. now elim Hno.
    + intros _. eexists _, _, _. split; [reflexivity|exact H].
  - elim H.
  - elim H.
  - split; [tauto|]. intros Hno. now elim Hno.
Qed.

End ServiceFacts.

Section ServiceExamples.
Import StdString Json JsonText BashToolService BashWire.


End ServiceExamples.
